(** * Random dilated shapelets: generation and application kernels

    A shallow embedding of
    [convst/transformers/_multivariate_same_length.py]:
    - [M_SL_init_random_shapelet_params], the parameter sampler;
    - [M_SL_generate_shapelet], the shapelet generator;
    - [M_SL_apply_all_shapelets], the batch applier.

    Conventions.
    - numpy [int64] values are modelled as [Z]; arithmetic on values that are
      stored in arrays wraps around through [wrap64].  Sizes, shapes and loop
      counters are sizes of objects that exist in memory and are kept exact.
    - An exception is a [Raise] in the [result] monad.
    - [float64] data (series, shapelet values, features) is an abstract type
      [F]; probabilities and the admissibility fraction are rationals, every
      [float64] being one.
    - The global numpy generator is an explicit state threaded through the
      code in program order; [prange] loops are run in index order.  The
      build in which the [prange] loop of the generator runs on several
      threads, each with a generator of its own, is
      [M_SL_generate_shapelet_build].
    - The kernels are compiled by numba, which by default does not check the
      bounds of an array access: an [IndexError] of the model stands for an
      access outside an array, on which the compiled code does not stop.
      What a statement says of the values that the code returns is said of
      the runs whose accesses are within bounds. *)

From Stdlib Require Import ZArith List Bool Lia QArith Qround Lqa Reals Lra.
From Stdlib Require Import Zfloor Qreals Permutation.
Import ListNotations.

Local Open Scope Z_scope.

(** ** Exceptions *)

Inductive exn : Type :=
| ValueError
| IndexError
| ZeroDivisionError
| TypeError.

Inductive result (A : Type) : Type :=
| Ok (a : A)
| Raise (e : exn).

Arguments Ok {A} a.
Arguments Raise {A} e.

Definition bind {A B} (m : result A) (k : A -> result B) : result B :=
  match m with
  | Ok a => k a
  | Raise e => Raise e
  end.

Declare Scope py_scope.
Delimit Scope py_scope with py.
Notation "x <- m ;; k" := (bind m (fun x => k))
  (at level 61, m at next level, right associativity) : py_scope.
Notation "' p <- m ;; k" := (bind m (fun x => match x with p => k end))
  (at level 61, p pattern, m at next level, right associativity) : py_scope.
Local Open Scope py_scope.

Definition is_ok {A} (m : result A) : bool :=
  match m with Ok _ => true | Raise _ => false end.

(** Monadic left fold: a [for] loop whose body may raise. *)
Fixpoint foldM {S A} (body : S -> A -> result S) (xs : list A) (s : S)
  : result S :=
  match xs with
  | [] => Ok s
  | x :: xs' => s' <- body s x ;; foldM body xs' s'
  end.

Fixpoint mapM {A B} (f : A -> result B) (xs : list A) : result (list B) :=
  match xs with
  | [] => Ok []
  | x :: xs' => y <- f x ;; ys <- mapM f xs' ;; Ok (y :: ys)
  end.

(** ** Python and numpy primitives *)

(** Two's complement wrap-around of [int64]. *)
Definition wrap64 (z : Z) : Z := (z + 2 ^ 63) mod 2 ^ 64 - 2 ^ 63.

Definition int64_range (z : Z) : Prop := - 2 ^ 63 <= z < 2 ^ 63.

Definition py_len {A} (l : list A) : Z := Z.of_nat (length l).

(** [range(n)] *)
Definition py_range (n : Z) : list Z := map Z.of_nat (seq 0 (Z.to_nat n)).

(** [l[i]], negative indices counting from the end. *)
Definition py_index {A} (l : list A) (i : Z) : result A :=
  let j := if i <? 0 then py_len l + i else i in
  if j <? 0 then Raise IndexError
  else match nth_error l (Z.to_nat j) with
       | Some a => Ok a
       | None => Raise IndexError
       end.

(** [l[i] = v] *)
Definition py_set_index {A} (l : list A) (i : Z) (v : A) : result (list A) :=
  let j := if i <? 0 then py_len l + i else i in
  if (j <? 0) || (py_len l <=? j) then Raise IndexError
  else Ok (firstn (Z.to_nat j) l ++ v :: skipn (S (Z.to_nat j)) l).

(** A slice bound brought into [0, n], as Python does. *)
Definition py_clip (n i : Z) : Z :=
  if i <? 0 then Z.max 0 (n + i) else Z.min i n.

(** [l[a:b]] *)
Definition py_slice {A} (l : list A) (a b : Z) : list A :=
  let a' := py_clip (py_len l) a in
  let b' := py_clip (py_len l) b in
  firstn (Z.to_nat (b' - a')) (skipn (Z.to_nat a') l).

(** [l[a:b] = v], with numpy's broadcast of a one-element source. *)
Definition py_set_slice {A} (l : list A) (a b : Z) (v : list A)
  : result (list A) :=
  let a' := py_clip (py_len l) a in
  let b' := py_clip (py_len l) b in
  let k := Z.to_nat (b' - a') in
  let put (w : list A) :=
    firstn (Z.to_nat a') l ++ w ++ skipn (Z.to_nat a' + k) l in
  if Nat.eqb (length v) k then Ok (put v)
  else match v with
       | [x] => Ok (put (repeat x k))
       | _ => Raise ValueError
       end.

(** [zeros(n)] and [ones(n)] *)
Definition np_full {A} (x : A) (n : Z) : result (list A) :=
  if n <? 0 then Raise ValueError else Ok (repeat x (Z.to_nat n)).

(** [a.sum()] on an [int64] array *)
Definition np_sum (l : list Z) : Z := fold_left (fun s x => wrap64 (s + x)) l 0.

(** [cumsum(a)] on an [int64] array *)
Fixpoint np_cumsum_from (acc : Z) (l : list Z) : list Z :=
  match l with
  | [] => []
  | x :: t => let s := wrap64 (acc + x) in s :: np_cumsum_from s t
  end.
Definition np_cumsum (l : list Z) : list Z := np_cumsum_from 0 l.

(** [a * b] elementwise on [int64] arrays of one shape *)
Fixpoint np_mul (a b : list Z) : result (list Z) :=
  match a, b with
  | [], [] => Ok []
  | x :: a', y :: b' => r <- np_mul a' b' ;; Ok (wrap64 (x * y) :: r)
  | _, _ => Raise ValueError
  end.

(** [unique(a)]: the sorted distinct values *)
Fixpoint insert_unique (x : Z) (l : list Z) : list Z :=
  match l with
  | [] => [x]
  | y :: t =>
      if x <? y then x :: l
      else if x =? y then l
      else y :: insert_unique x t
  end.
Definition np_unique (l : list Z) : list Z := fold_right insert_unique [] l.

(** [where(mask)[0]] on a one-dimensional mask *)
Fixpoint where_from (i : Z) (mask : list bool) : list Z :=
  match mask with
  | [] => []
  | b :: t => (if b then [i] else []) ++ where_from (i + 1) t
  end.
Definition np_where1 (mask : list bool) : list Z := where_from 0 mask.

(** [where(mask)] on a two-dimensional mask: row and column indices of the
    true cells, in row-major order. *)
Fixpoint where2_from (i : Z) (mask : list (list bool)) : list (Z * Z) :=
  match mask with
  | [] => []
  | row :: t => map (fun j => (i, j)) (np_where1 row) ++ where2_from (i + 1) t
  end.
Definition np_where2 (mask : list (list bool)) : list Z * list Z :=
  List.split (where2_from 0 mask).

(** [a[mask]] boolean selection *)
Fixpoint np_select {A} (a : list A) (mask : list bool) : list A :=
  match a, mask with
  | x :: a', b :: m' => (if b then [x] else []) ++ np_select a' m'
  | _, _ => []
  end.


(** [a[mask]] where [mask] is [a == v] on another array of the same shape *)
Definition np_eq (a : list Z) (v : Z) : list bool := map (Z.eqb v) a.

(** Sum over the first axis of a stack of rows of a known width. *)
Definition add_rows (r s : list Z) : list Z :=
  map (fun p => fst p + snd p) (combine r s).
Definition sum_rows (width : nat) (rows : list (list Z)) : list Z :=
  fold_left add_rows rows (repeat 0 width).

(** ** What lies outside the source file

    [numpy.random], the [float64] arithmetic and the helpers imported from
    [convst.transformers._commons] are parameters of the model. *)

Class Kernels : Type := {
  (** [float64] data and its z-normalisation
      [(v - mean(v)) / (std(v) + 1e-8)] *)
  F : Type;
  fzero : F;
  znorm : list F -> list F;
  (** The global random generator: its state, the seeding function, a raw
      draw, and the number of distinct values of a unit draw (2^53 in
      numpy) *)
  rng : Type;
  seed : Z -> rng;
  next_raw : rng -> N * rng;
  resolution : positive;
  (** Floating-point kernels of the dilation draw.  With
      [q = floor_divide(n_timestamps - 1, length - 1)]:
      [float_dilation q u] is
      [floor(power(2, uniform(0, log2(q)))).astype(int64)], [u] being the
      unit sample that [uniform] scales, and [float_exp2_log2 q] is
      [int64(2 ** log2(q))] *)
  float_dilation : Z -> Q -> Z;
  float_exp2_log2 : Z -> Z;
  (** Helpers of the prime scheme: [prime_up_to n] lists the admissible
      dilations up to [n]; [choice_log n k] draws [k] indices of [[0, n)]
      with a logarithmic bias *)
  prime_up_to : Z -> list Z;
  choice_log : Z -> Z -> rng -> result (list Z * rng);
  (** The distance kernel and multi-channel combiner: from the windows of
      the selected channels, the shapelet values and the threshold, the
      feature triplet (minimum, position of the minimum, occurrences) *)
  apply_one_shapelet_one_sample_multivariate :
    list (list (list F)) -> list (list F) -> F -> F * F * F
}.

Section Model.

Context {K : Kernels}.

(** ** The series tensor *)

(** A three-dimensional array together with its [shape]. *)
Record tensor3 : Type := mk_tensor3 {
  n_samples_of : nat;
  n_features_of : nat;
  n_timestamps_of : nat;
  samples : list (list (list F))
}.

Definition rectangular (X : tensor3) : Prop :=
  length (samples X) = n_samples_of X /\
  Forall (fun s =>
            length s = n_features_of X /\
            Forall (fun c => length c = n_timestamps_of X) s)
         (samples X).

(** ** Draws from the global generator *)

(** An integer of [[0, n)], for [n > 0]. *)
Definition rand_below (n : Z) (g : rng) : Z * rng :=
  let '(r, g') := next_raw g in (Z.of_N r mod n, g').

(** [random()]: a sample of [[0, 1)]. *)
Definition rand_unit (g : rng) : Q * rng :=
  let '(r, g') := next_raw g in
  ((Z.of_N r mod Zpos resolution) # resolution, g').

Fixpoint draws {A} (n : nat) (draw : rng -> A * rng) (g : rng)
  : list A * rng :=
  match n with
  | O => ([], g)
  | S n' =>
      let '(x, g1) := draw g in
      let '(xs, g2) := draws n' draw g1 in
      (x :: xs, g2)
  end.

Definition pick {A} (a : list A) (dflt : A) (g : rng) : A * rng :=
  let '(i, g') := rand_below (py_len a) g in (nth (Z.to_nat i) a dflt, g').

(** [choice(a)] *)
Definition choice {A} (a : list A) (g : rng) : result (A * rng) :=
  match a with
  | [] => Raise ValueError
  | x :: _ => Ok (pick a x g)
  end.

(** [choice(a, size=n)] *)
Definition choice_size {A} (a : list A) (size : Z) (g : rng)
  : result (list A * rng) :=
  if size <? 0 then Raise ValueError
  else if size =? 0 then Ok ([], g)
  else match a with
       | [] => Raise ValueError
       | x :: _ => Ok (draws (Z.to_nat size) (pick a x) g)
       end.

(** [choice(a, k, replace=False)] *)
Fixpoint sample_distinct (k : nat) (pool : list Z) (g : rng)
  : list Z * rng :=
  match k, pool with
  | S k', x :: _ =>
      let '(i, g1) := rand_below (py_len pool) g in
      let j := Z.to_nat i in
      let '(rest, g2) :=
        sample_distinct k' (firstn j pool ++ skipn (S j) pool) g1 in
      (nth j pool x :: rest, g2)
  | _, _ => ([], g)
  end.

Definition choice_no_replace (pool : list Z) (k : Z) (g : rng)
  : result (list Z * rng) :=
  if (k <? 0) || (py_len pool <? k) then Raise ValueError
  else Ok (sample_distinct (Z.to_nat k) pool g).

(** [random(size=n)] *)
Definition random_size (size : Z) (g : rng) : result (list Q * rng) :=
  if size <? 0 then Raise ValueError
  else Ok (draws (Z.to_nat size) rand_unit g).

(** ** The shapelet set *)

Record shapelets : Type := mk_shapelets {
  values : list F;
  lengths : list Z;
  dilations : list Z;
  threshold : list F;
  normalize : list bool;
  n_channels : list Z;
  channel_ids : list Z
}.

(** [a.max()] *)
Definition np_max (a : list Z) : result Z :=
  match a with
  | [] => Raise ValueError
  | x :: t => Ok (fold_left Z.max t x)
  end.

(** [dot(a, b)] through [float64], back to [int64] *)
Definition np_dot (a b : list Z) : result Z :=
  p <- np_mul a b ;; Ok (np_sum p).

Definition floor_divide (a b : Z) : Z := wrap64 (a / b).

(** ** Parameter sampler *)

Definition M_SL_init_random_shapelet_params
  (n_shapelets : Z) (shapelet_sizes : list Z) (n_timestamps : Z)
  (p_norm : Q) (max_channels : Z) (prime_scheme : bool) (g : rng)
  : result (shapelets * rng) :=
  (* lengths = choice(shapelet_sizes, size=n_shapelets).astype(int64) *)
  '(ls, g) <- choice_size shapelet_sizes n_shapelets g ;;
  let lengths := map wrap64 ls in
  (* upper_bounds = log2(floor_divide(n_timestamps - 1, lengths - 1)) *)
  let quotients :=
    map (fun l => floor_divide (n_timestamps - 1) (wrap64 (l - 1)))
        lengths in
  '(dilations, g) <-
    (if prime_scheme then
       qmax <- np_max quotients ;;
       let primes := prime_up_to (float_exp2_log2 qmax) in
       foldM (fun '(ds, g) q =>
                let shp_primes :=
                  np_select primes
                    (map (fun p => p <=? float_exp2_log2 q) primes) in
                '(ix, g) <- choice_log (py_len shp_primes) 1 g ;;
                i <- py_index ix 0 ;;
                d <- py_index shp_primes i ;;
                Ok (ds ++ [d], g))
             quotients ([], g)
     else
       let '(us, g) := draws (length quotients) rand_unit g in
       Ok (map (fun qu => float_dilation (fst qu) (snd qu))
               (combine quotients us), g)) ;;
  (* threshold = zeros(n_shapelets) *)
  threshold <- np_full fzero n_shapelets ;;
  (* n_channels = choice(max_channels, size=n_shapelets) + 1 *)
  '(cs, g) <- choice_size (py_range max_channels) n_shapelets g ;;
  let n_channels := map (fun c => wrap64 (c + 1)) cs in
  channel_ids <- np_full 0 (np_sum n_channels) ;;
  size <- np_dot lengths n_channels ;;
  values <- np_full fzero size ;;
  (* normalize = random(size=n_shapelets) < p_norm *)
  '(us, g) <- random_size n_shapelets g ;;
  let normalize := map (fun u => negb (Qle_bool p_norm u)) us in
  Ok (mk_shapelets values lengths dilations threshold normalize
                   n_channels channel_ids, g).

(** ** Subsequence extractor *)

(** Modelled from the spec: [get_subsequence] lives in
    [convst.transformers._commons], which is not among the sources.  By
    section 4.1 the window is [v[k] = series[(s + k*d) mod T]] under phase
    invariance and [v[k] = series[s + k*d]] otherwise, z-normalised when
    the flag is set.  Reading outside the series raises. *)
Definition get_subsequence (series : list F) (s L d : Z)
  (norm use_phase : bool) : result (list F) :=
  v <- mapM (fun k =>
               if use_phase then
                 if py_len series =? 0 then Raise ZeroDivisionError
                 else py_index series ((s + k * d) mod py_len series)
               else py_index series (s + k * d))
            (py_range L) ;;
  Ok (if norm then znorm v else v).

(** ** Shapelet generator *)

Definition mask5 : Type := list (list (list (list (list bool)))).

(** [ones((a, b, c, d, e), dtype=bool_)] *)
Definition np_ones5 (a b c d e : nat) : mask5 :=
  repeat (repeat (repeat (repeat (repeat true e) d) c) b) a.

(** The arrays the generator writes, and the generator state. *)
Record gen_state : Type := mk_gen_state {
  st_values : list F;
  st_channel_ids : list Z;
  st_id_samples : list Z;
  st_start_positions : list Z;
  st_mask_sampling : mask5;
  st_mask_return : list bool;
  st_rng : rng
}.

Definition b2z (b : bool) : Z := if b then 1 else 0.

(** [where(mask_dil[:, :, :d_shape].sum(axis=1) >= _n_channels * alpha)] *)
Definition admissible (mask_dil : list (list (list bool)))
  (n_timestamps : nat) (d_shape _n_channels : Z) (alpha : Q)
  : list Z * list Z :=
  let width := Z.to_nat (py_clip (Z.of_nat n_timestamps) d_shape) in
  let counts :=
    map (fun sample =>
           sum_rows width
             (map (fun row => map b2z (py_slice row 0 d_shape)) sample))
        mask_dil in
  np_where2
    (map (map (fun c =>
                 Qle_bool (inject_Z _n_channels * alpha) (inject_Z c)))
         counts).

Section Generate.

Variable X : tensor3.
Variable P : shapelets.
Variable a1 a2 : list Z.
Variable alpha : Q.
Variable use_phase : bool.

(** [d_shape] of one shapelet *)
Definition d_shape_of (_length _dilation : Z) : Z :=
  if use_phase then Z.of_nat (n_timestamps_of X)
  else wrap64 (Z.of_nat (n_timestamps_of X)
               - wrap64 (wrap64 (_length - 1) * _dilation)).

(** The body of [for k in range(_n_channels)], on [_values] and [a3]. *)
Definition fill_step (id_sample start_position _length _dilation : Z)
  (norm : bool) (_channel_ids : list Z) (acc : list F * Z) (k : Z)
  : result (list F * Z) :=
  let '(_values, a3) := acc in
  let b3 := wrap64 (a3 + _length) in
  c <- py_index _channel_ids k ;;
  sample <- py_index (samples X) id_sample ;;
  series <- py_index sample c ;;
  _v <- get_subsequence series start_position _length
          _dilation norm use_phase ;;
  _values <- py_set_slice _values a3 b3 _v ;;
  Ok (_values, b3).

(** The loop [for k in range(_n_channels)] filling [_values]. *)
Definition fill_values (id_sample start_position _length _dilation : Z)
  (norm : bool) (_channel_ids : list Z) (_n_channels : Z)
  (_values : list F) : result (list F) :=
  '(_values, _) <-
    foldM (fill_step id_sample start_position _length _dilation norm
             _channel_ids)
          (py_range _n_channels) (_values, 0) ;;
  Ok _values.

(** The body of [for i_shp in id_shps]. *)
Definition shapelet_step (i_d : Z) (st : gen_state) (i_shp : Z)
  : result gen_state :=
  _dilation <- py_index (dilations P) i_shp ;;
  _length <- py_index (lengths P) i_shp ;;
  norm <- py_index (normalize P) i_shp ;;
  _n_channels <- py_index (n_channels P) i_shp ;;
  let d_shape := d_shape_of _length _dilation in
  mask_norm <- py_index (st_mask_sampling st) (b2z norm) ;;
  mask_dil <- py_index mask_norm i_d ;;
  let i_mask :=
    admissible mask_dil (n_timestamps_of X) d_shape _n_channels alpha in
  if 0 <? py_len (fst i_mask) then
    '(id_sample, g) <- choice (fst i_mask) (st_rng st) ;;
    id_samples <- py_set_index (st_id_samples st) i_shp id_sample ;;
    '(start_position, g) <-
      choice (np_select (snd i_mask) (np_eq (fst i_mask) id_sample)) g ;;
    start_positions <-
      py_set_index (st_start_positions st) i_shp start_position ;;
    _values <- np_full fzero (wrap64 (_n_channels * _length)) ;;
    '(_channel_ids, g) <-
      choice_no_replace (py_range (Z.of_nat (n_features_of X)))
                        _n_channels g ;;
    _values <- fill_values id_sample start_position _length _dilation
                 norm _channel_ids _n_channels _values ;;
    lo1 <- py_index a1 i_shp ;;
    hi1 <- py_index a1 (i_shp + 1) ;;
    values <- py_set_slice (st_values st) lo1 hi1 _values ;;
    lo2 <- py_index a2 i_shp ;;
    hi2 <- py_index a2 (i_shp + 1) ;;
    channel_ids <- py_set_slice (st_channel_ids st) lo2 hi2 _channel_ids ;;
    Ok (mk_gen_state values channel_ids id_samples start_positions
                     (st_mask_sampling st) (st_mask_return st) g)
  else Ok st.

(** The body of [for i_d in prange(unique_dil.shape[0])]. *)
Definition dilation_step (unique_dil : list Z) (st : gen_state) (i_d : Z)
  : result gen_state :=
  u <- py_index unique_dil i_d ;;
  let id_shps := np_where1 (np_eq (dilations P) u) in
  foldM (shapelet_step i_d) id_shps st.

End Generate.

(** Offsets of the flattened buffers:
    [concatenate((zeros(1), cumsum(n_channels * lengths)))] and
    [concatenate((zeros(1), cumsum(n_channels)))]. *)
Definition values_offsets (n_channels lengths : list Z)
  : result (list Z) :=
  p <- np_mul n_channels lengths ;; Ok (0 :: np_cumsum p).

Definition channel_offsets (n_channels : list Z) : list Z :=
  0 :: np_cumsum n_channels.

(** [M_SL_generate_shapelet] up to its [return], with the final state of
    every local array. *)
Definition generate_run (X : tensor3) (y : list Z) (n_shapelets : Z)
  (shapelet_sizes : list Z) (r_seed : Z) (p_norm p_min p_max alpha : Q)
  (use_phase : bool) (max_channels : Z) (prime_scheme : bool)
  : result (shapelets * gen_state) :=
  let g := seed r_seed in
  '(P, g) <-
    M_SL_init_random_shapelet_params n_shapelets shapelet_sizes
      (Z.of_nat (n_timestamps_of X)) p_norm max_channels prime_scheme g ;;
  id_samples <- np_full 0 n_shapelets ;;
  start_positions <- np_full 0 n_shapelets ;;
  let unique_dil := np_unique (dilations P) in
  let mask_sampling :=
    np_ones5 2 (length unique_dil) (n_samples_of X) (n_features_of X)
             (n_timestamps_of X) in
  mask_return <- np_full true n_shapelets ;;
  a1 <- values_offsets (n_channels P) (lengths P) ;;
  let a2 := channel_offsets (n_channels P) in
  st <- foldM (dilation_step X P a1 a2 alpha use_phase unique_dil)
          (py_range (py_len unique_dil))
          (mk_gen_state (values P) (channel_ids P) id_samples
                        start_positions mask_sampling mask_return g) ;;
  Ok (P, st).

(** What [M_SL_generate_shapelet] returns: the shapelet set and the two
    provenance arrays.  [g0] is the state of the global generator when the
    call is made; the state it leaves is returned as well.  Every draw comes
    from this one generator: this is the build with [parallel] off (see
    [M_SL_generate_shapelet_build] for the other one). *)
Definition M_SL_generate_shapelet (g0 : rng) (X : tensor3) (y : list Z)
  (n_shapelets : Z) (shapelet_sizes : list Z) (r_seed : Z)
  (p_norm p_min p_max alpha : Q) (use_phase : bool) (max_channels : Z)
  (prime_scheme : bool)
  : result (shapelets * list Z * list Z * rng) :=
  '(P, st) <-
    generate_run X y n_shapelets shapelet_sizes r_seed p_norm p_min p_max
      alpha use_phase max_channels prime_scheme ;;
  Ok (mk_shapelets (st_values st) (lengths P) (dilations P) (threshold P)
        (normalize P) (n_channels P) (st_channel_ids st),
      st_id_samples st, st_start_positions st, st_rng st).

(** ** The parallel build of the generator

    [M_SL_generate_shapelet] is compiled with
    [parallel=__USE_NUMBA_PARALLEL__], a constant that is set outside these
    sources and is a parameter here.  When it is false, [prange] is [range]
    and every draw comes from the generator that [seed(r_seed)] has reset:
    this is [M_SL_generate_shapelet] above.  When it is true, the iterations
    of [for i_d in prange(unique_dil.shape[0])] run on the threads of
    numba.  Each thread draws from a generator of its own, and
    [seed(r_seed)] resets the generator of the calling thread only, on
    which the parameter sampler runs before the loop.  The draws of
    iteration [i_d] start from [threads i_d], the state in which the
    iteration finds the generator of the thread that runs it, whichever
    thread that is.  The iterations write the slices of different
    shapelets and only read the masks, so that the arrays do not depend on
    their interleaving: the loop is run in index order. *)

Definition with_rng (st : gen_state) (g : rng) : gen_state :=
  mk_gen_state (st_values st) (st_channel_ids st) (st_id_samples st)
    (st_start_positions st) (st_mask_sampling st) (st_mask_return st) g.

(** The body of [for i_d in prange(unique_dil.shape[0])] in either build. *)
Definition dilation_step_on (parallel : bool) (threads : Z -> rng)
  (X : tensor3) (P : shapelets) (a1 a2 : list Z) (alpha : Q)
  (use_phase : bool) (unique_dil : list Z) (st : gen_state) (i_d : Z)
  : result gen_state :=
  dilation_step X P a1 a2 alpha use_phase unique_dil
    (if parallel then with_rng st (threads i_d) else st) i_d.

(** [M_SL_generate_shapelet] in the build that [parallel] selects: what the
    caller receives, the shapelet set and the two provenance arrays. *)
Definition M_SL_generate_shapelet_build (parallel : bool)
  (threads : Z -> rng) (X : tensor3) (y : list Z)
  (n_shapelets : Z) (shapelet_sizes : list Z) (r_seed : Z)
  (p_norm p_min p_max alpha : Q) (use_phase : bool) (max_channels : Z)
  (prime_scheme : bool)
  : result (shapelets * list Z * list Z) :=
  let g := seed r_seed in
  '(P, g) <-
    M_SL_init_random_shapelet_params n_shapelets shapelet_sizes
      (Z.of_nat (n_timestamps_of X)) p_norm max_channels prime_scheme g ;;
  id_samples <- np_full 0 n_shapelets ;;
  start_positions <- np_full 0 n_shapelets ;;
  let unique_dil := np_unique (dilations P) in
  let mask_sampling :=
    np_ones5 2 (length unique_dil) (n_samples_of X) (n_features_of X)
             (n_timestamps_of X) in
  mask_return <- np_full true n_shapelets ;;
  a1 <- values_offsets (n_channels P) (lengths P) ;;
  let a2 := channel_offsets (n_channels P) in
  st <- foldM (dilation_step_on parallel threads X P a1 a2 alpha use_phase
                 unique_dil)
          (py_range (py_len unique_dil))
          (mk_gen_state (values P) (channel_ids P) id_samples
                        start_positions mask_sampling mask_return g) ;;
  Ok (mk_shapelets (st_values st) (lengths P) (dilations P) (threshold P)
        (normalize P) (n_channels P) (st_channel_ids st),
      st_id_samples st, st_start_positions st).

(** ** Batch applier *)

(** The arrays of the applier live in a store and are reached through
    references, so that a write through one name is seen through every
    other name of the same array. *)
Inductive array : Type :=
| Float1 (v : list F)
| Int1 (v : list Z)
| Bool1 (v : list bool)
| Float2 (rows cols : nat) (m : list (list F))
| Series (t : tensor3)
| Strides (n_ft n_windows window : nat) (w : list (list (list F))).

Definition store : Type := list array.
Definition ref : Type := nat.

Definition M (A : Type) : Type := store -> result (A * store).

Definition ret {A} (a : A) : M A := fun h => Ok (a, h).

Definition mbind {A B} (m : M A) (k : A -> M B) : M B :=
  fun h => match m h with
           | Ok (a, h') => k a h'
           | Raise e => Raise e
           end.

Definition lift {A} (r : result A) : M A :=
  fun h => match r with
           | Ok a => Ok (a, h)
           | Raise e => Raise e
           end.

Notation "x <~ m ;; k" := (mbind m (fun x => k))
  (at level 61, m at next level, right associativity).
Notation "' p <~ m ;; k" := (mbind m (fun x => match x with p => k end))
  (at level 61, p pattern, m at next level, right associativity).

Definition alloc (a : array) : M ref :=
  fun h => Ok (length h, h ++ [a]).

Definition load (r : ref) : M array :=
  fun h => match nth_error h r with
           | Some a => Ok (a, h)
           | None => Raise TypeError
           end.

Definition write (r : ref) (a : array) : M unit :=
  fun h => if Nat.ltb r (length h)
           then Ok (tt, firstn r h ++ a :: skipn (S r) h)
           else Raise TypeError.

Definition load_float (r : ref) : M (list F) :=
  a <~ load r ;;
  match a with Float1 v => ret v | _ => lift (Raise TypeError) end.

Definition load_int (r : ref) : M (list Z) :=
  a <~ load r ;;
  match a with Int1 v => ret v | _ => lift (Raise TypeError) end.

Definition load_bool (r : ref) : M (list bool) :=
  a <~ load r ;;
  match a with Bool1 v => ret v | _ => lift (Raise TypeError) end.

Definition load_series (r : ref) : M tensor3 :=
  a <~ load r ;;
  match a with Series t => ret t | _ => lift (Raise TypeError) end.

Definition load_strides (r : ref)
  : M (nat * nat * nat * list (list (list F))) :=
  a <~ load r ;;
  match a with
  | Strides n0 n1 n2 w => ret (n0, n1, n2, w)
  | _ => lift (Raise TypeError)
  end.

(** A [for] loop over a store. *)
Fixpoint forM {A} (xs : list A) (body : A -> M unit) : M unit :=
  match xs with
  | [] => ret tt
  | x :: xs' => _ <~ body x ;; forM xs' body
  end.

(** [a[idx]] with an index array *)
Definition take_at {A} (a : list A) (idx : list Z) : result (list A) :=
  mapM (py_index a) idx.

(** [m1 & m2] *)
Fixpoint np_and (a b : list bool) : result (list bool) :=
  match a, b with
  | [], [] => Ok []
  | x :: a', y :: b' => r <- np_and a' b' ;; Ok ((x && y) :: r)
  | _, _ => Raise ValueError
  end.

Fixpoint chunks {A} (rows width : nat) (l : list A) : list (list A) :=
  match rows with
  | O => []
  | S r => firstn width l :: chunks r width (skipn width l)
  end.

(** [a.reshape(r, c)]; one of the two may be [-1] and is then inferred. *)
Definition np_reshape {A} (a : list A) (r c : Z) : result (list (list A)) :=
  let n := py_len a in
  let shaped (r c : Z) := Ok (chunks (Z.to_nat r) (Z.to_nat c) a) in
  if (r =? -1) && (0 <? c) && (n mod c =? 0) then shaped (n / c) c
  else if (c =? -1) && (0 <? r) && (n mod r =? 0) then shaped r (n / r)
  else if (0 <=? r) && (0 <=? c) && (r * c =? n) then shaped r c
  else Raise ValueError.

Definition pair_eqb (p q : Z * Z) : bool :=
  (fst p =? fst q) && (snd p =? snd q).

Fixpoint distinct_pairs (l : list (Z * Z)) : list (Z * Z) :=
  match l with
  | [] => []
  | p :: t => p :: filter (fun q => negb (pair_eqb p q)) (distinct_pairs t)
  end.

(** Modelled from the spec: [_combinations_1d] lives in
    [convst.transformers._commons], which is not among the sources.  By
    section 4.5 the shapelets are grouped "by identical (length, dilation)
    pair": it returns the distinct pairs, in order of first occurrence. *)
Definition _combinations_1d (x y : list Z) : result (list (Z * Z)) :=
  if Nat.eqb (length x) (length y) then Ok (distinct_pairs (combine x y))
  else Raise ValueError.

(** Modelled from the spec: [generate_strides_2D] lives in
    [convst.transformers._commons], which is not among the sources.  By
    section 4.5 it computes "the strided multi-channel view of the series":
    for every channel and every start position (there are [T] of them under
    phase invariance and [T - (L-1)*d] otherwise, section 4.3) the window of
    the Extractor of section 4.1, not normalised.  The Extractor is a pure
    function and the series tensor an immutable input (sections 3 and 5):
    the windows are a new array. *)
Definition generate_strides_2D (x : list (list F)) (n_ft n_timestamps : nat)
  (window_size dilation : Z) (use_phase : bool) : M ref :=
  let n_windows :=
    if use_phase then Z.of_nat n_timestamps
    else Z.of_nat n_timestamps - (window_size - 1) * dilation in
  if (n_windows <? 0) || (window_size <? 0) then lift (Raise ValueError)
  else
    w <~ lift (mapM (fun series =>
                       mapM (fun s => get_subsequence series s window_size
                                        dilation false use_phase)
                            (py_range n_windows))
                    x) ;;
    alloc (Strides n_ft (Z.to_nat n_windows) (Z.to_nat window_size) w).

(** The shapelet set as the applier receives it: a tuple of arrays. *)
Record shapelet_refs : Type := mk_shapelet_refs {
  r_values : ref;
  r_lengths : ref;
  r_dilations : ref;
  r_threshold : ref;
  r_normalize : ref;
  r_n_channels : ref;
  r_channel_ids : ref
}.

(** The source of an assignment into a row of [n] cells. *)
Definition broadcast_to {A} (n : nat) (v : list A) : result (list A) :=
  if Nat.eqb (length v) n then Ok v
  else match v with
       | [x] => Ok (repeat x n)
       | _ => Raise ValueError
       end.

(** [strides[i, j] = v] *)
Definition write_window (strides : ref) (i j : Z) (v : list F) : M unit :=
  '(n0, n1, n2, w) <~ load_strides strides ;;
  row <~ lift (py_index w i) ;;
  v' <~ lift (broadcast_to n2 v) ;;
  row' <~ lift (py_set_index row j v') ;;
  w' <~ lift (py_set_index w i row') ;;
  write strides (Strides n0 n1 n2 w').

(** [strides[i, j]] *)
Definition read_window (strides : ref) (i j : Z) : M (list F) :=
  '(_, _, _, w) <~ load_strides strides ;;
  row <~ lift (py_index w i) ;;
  lift (py_index row j).

(** [X_new[i, a:b] = v] *)
Definition write_features (X_new : ref) (i a b : Z) (v : list F)
  : M unit :=
  m <~ load X_new ;;
  match m with
  | Float2 rows cols m =>
      row <~ lift (py_index m i) ;;
      row' <~ lift (py_set_slice row a b v) ;;
      m' <~ lift (py_set_index m i row') ;;
      write X_new (Float2 rows cols m')
  | _ => lift (Raise TypeError)
  end.

Section Apply.

Variable X : ref.
Variable S : shapelet_refs.
Variable use_phase : bool.
Variable X_new : ref.
Variable a1 a2 : list Z.
Variable n_features : Z.

(** The body of the two loops [for i_idx in range(_idx.shape[0])]. *)
Definition feature_step (strides : ref) (i_sample _length : Z)
  (_idx : list Z) (i_idx : Z) : M unit :=
  i_shp <~ lift (py_index _idx i_idx) ;;
  channel_ids <~ load_int (r_channel_ids S) ;;
  lo2 <~ lift (py_index a2 i_shp) ;;
  hi2 <~ lift (py_index a2 (i_shp + 1)) ;;
  let _channels := py_slice channel_ids lo2 hi2 in
  values <~ load_float (r_values S) ;;
  lo1 <~ lift (py_index a1 i_shp) ;;
  hi1 <~ lift (py_index a1 (i_shp + 1)) ;;
  n_channels <~ load_int (r_n_channels S) ;;
  c <~ lift (py_index n_channels i_shp) ;;
  _values <~ lift (np_reshape (py_slice values lo1 hi1) c _length) ;;
  '(_, _, _, w) <~ load_strides strides ;;
  x <~ lift (take_at w _channels) ;;
  threshold <~ load_float (r_threshold S) ;;
  t <~ lift (py_index threshold i_shp) ;;
  let '(f1, f2, f3) :=
    apply_one_shapelet_one_sample_multivariate x _values t in
  write_features X_new i_sample (n_features * i_shp)
    (n_features * i_shp + n_features) [f1; f2; f3].

(** The in-place normalisation of every window of [strides]. *)
Definition normalize_strides (strides : ref) : M unit :=
  '(n0, n1, _, _) <~ load_strides strides ;;
  forM (py_range (Z.of_nat n0)) (fun i_stride =>
    forM (py_range (Z.of_nat n1)) (fun j_stride =>
      _str <~ read_window strides i_stride j_stride ;;
      write_window strides i_stride j_stride (znorm _str))).

(** The body of [for i_shp_param in prange(...)]. *)
Definition group_step (params_shp : list (Z * Z))
  (idx_shp n_shp_params : list Z) (i_sample i_shp_param : Z) : M unit :=
  '(_length, _dilation) <~ lift (py_index params_shp i_shp_param) ;;
  x <~ load_series X ;;
  xi <~ lift (py_index (samples x) i_sample) ;;
  strides <~ generate_strides_2D xi (n_features_of x) (n_timestamps_of x)
               _length _dilation use_phase ;;
  lo <~ lift (py_index n_shp_params i_shp_param) ;;
  hi <~ lift (py_index n_shp_params (i_shp_param + 1)) ;;
  let _idx_shp := py_slice idx_shp lo hi in
  normalize <~ load_bool (r_normalize S) ;;
  flags <~ lift (take_at normalize _idx_shp) ;;
  _idx_no_norm <~
    lift (take_at _idx_shp (np_where1 (map negb flags))) ;;
  _ <~ forM (py_range (py_len _idx_no_norm))
         (feature_step strides i_sample _length _idx_no_norm) ;;
  normalize <~ load_bool (r_normalize S) ;;
  flags <~ lift (take_at normalize _idx_shp) ;;
  _idx_norm <~ lift (take_at _idx_shp (np_where1 flags)) ;;
  if 0 <? py_len _idx_norm then
    _ <~ normalize_strides strides ;;
    forM (py_range (py_len _idx_norm))
      (feature_step strides i_sample _length _idx_norm)
  else ret tt.

End Apply.

(** The loop that lists, group after group, the shapelets of each
    (length, dilation) pair. *)
Definition group_shapelets (lengths dilations : list Z)
  (params_shp : list (Z * Z)) (idx_shp n_shp_params : list Z)
  : result (list Z * list Z * Z) :=
  foldM (fun '(idx_shp, n_shp_params, a3) i =>
           '(_length, _dilation) <- py_index params_shp i ;;
           both <- np_and (np_eq lengths _length)
                     (np_eq dilations _dilation) ;;
           let ix_shapelets := np_where1 both in
           let b := a3 + py_len ix_shapelets in
           idx_shp <- py_set_slice idx_shp a3 b ix_shapelets ;;
           n_shp_params <-
             py_set_index n_shp_params (i + 1) (py_len ix_shapelets) ;;
           Ok (idx_shp, n_shp_params, b))
        (py_range (py_len params_shp))
        (idx_shp, n_shp_params, 0).

(** Lines 223-225: the offsets of the flattened buffers, recomputed from
    the arrays of the shapelet set. *)
Definition apply_offsets (S : shapelet_refs) : M (list Z * list Z) :=
  n_channels <~ load_int (r_n_channels S) ;;
  lengths <~ load_int (r_lengths S) ;;
  a1 <~ lift (values_offsets n_channels lengths) ;;
  ret (a1, channel_offsets n_channels).

Definition M_SL_apply_all_shapelets (X : ref) (S : shapelet_refs)
  (use_phase : bool) : M ref :=
  lengths <~ load_int (r_lengths S) ;;
  let n_shapelets := py_len lengths in
  x <~ load_series X ;;
  let n_samples := n_samples_of x in
  let n_features := 3 in
  dilations <~ load_int (r_dilations S) ;;
  params_shp <~ lift (_combinations_1d lengths dilations) ;;
  n_shp_params <~ lift (np_full 0 (py_len params_shp + 1)) ;;
  idx_shp <~ lift (np_full 0 n_shapelets) ;;
  '(a1, a2) <~ apply_offsets S ;;
  '(idx_shp, n_shp_params, _) <~
    lift (group_shapelets lengths dilations params_shp idx_shp
            n_shp_params) ;;
  let n_shp_params := np_cumsum n_shp_params in
  X_new <~
    alloc (Float2 n_samples (Z.to_nat (n_features * n_shapelets))
             (repeat (repeat fzero (Z.to_nat (n_features * n_shapelets)))
                     n_samples)) ;;
  _ <~ forM (py_range (Z.of_nat n_samples)) (fun i_sample =>
         forM (py_range (py_len n_shp_params - 1))
           (group_step X S use_phase X_new a1 a2 n_features params_shp
              idx_shp n_shp_params i_sample)) ;;
  ret X_new.

End Model.

(** ** The dilation draw in real arithmetic

    The [float64] expressions of the sampler read over the reals:
    [log2], numba's [uniform(low, high) = low + (high - low) * random()],
    [power(2, .)] and [floor]. *)

Definition log2 (x : R) : R := (ln x / ln 2)%R.

Definition uniform (low high u : R) : R := (low + (high - low) * u)%R.

(** [upper_bounds[i] = log2(floor_divide(n_timestamps - 1, lengths[i] - 1))],
    from the integer quotient. *)
Definition upper_bound (q : Z) : R := log2 (IZR q).

Definition real_dilation (q : Z) (u : Q) : Z :=
  Zfloor (Rpower 2 (uniform 0 (upper_bound q) (Q2R u))).

Definition real_exp2_log2 (q : Z) : Z := Zfloor (Rpower 2 (upper_bound q)).

(** The kernels [K] with the dilation draw computed over the reals. *)
Definition over_reals (K : Kernels) : Kernels := {|
  F := @F K;
  fzero := @fzero K;
  znorm := @znorm K;
  rng := @rng K;
  seed := @seed K;
  next_raw := @next_raw K;
  resolution := @resolution K;
  float_dilation := real_dilation;
  float_exp2_log2 := real_exp2_log2;
  prime_up_to := @prime_up_to K;
  choice_log := @choice_log K;
  apply_one_shapelet_one_sample_multivariate :=
    @apply_one_shapelet_one_sample_multivariate K
|}.

(** ** An executable instance

    Series over the rationals, a generator that replays a script chosen by
    the seed, and the dilation draw in exact arithmetic:
    [2 ** (u * log2 q) = q ** u], whose floor for [u = a/b] is the largest
    [k] with [k^b <= q^a].  The helpers of the prime scheme are stand-ins;
    the examples use the unrestricted scheme. *)

Fixpoint root_search (fuel : nat) (k : Z) (b : positive) (target : Z) : Z :=
  match fuel with
  | O => k
  | S fuel' =>
      if (k + 1) ^ Zpos b <=? target
      then root_search fuel' (k + 1) b target
      else k
  end.

(** For [q = 0] the logarithm is [-inf] and the draw is [-inf] (power 0) or,
    when the unit sample is 0, [nan]; for [q < 0] it is [nan]; a [nan] is
    converted to the least [int64]. *)
Definition exact_dilation (q : Z) (u : Q) : Z :=
  if q <? 0 then - 2 ^ 63
  else if q =? 0 then (if Qnum u =? 0 then - 2 ^ 63 else 0)
  else root_search (Z.to_nat q) 1 (Qden u) (q ^ Qnum u).

Definition exact_exp2_log2 (q : Z) : Z :=
  if q <? 0 then - 2 ^ 63 else q.

Definition Qsum (v : list Q) : Q := fold_right Qplus 0%Q v.

Definition Qmean (v : list Q) : Q :=
  (Qsum v / inject_Z (py_len v))%Q.

(** Squared Euclidean distance of one window to the shapelet, summed over
    the channels. *)
Definition sq_dist (x v : list (list Q)) : Q :=
  Qsum (map (fun cw =>
               Qsum (map (fun p => ((fst p - snd p) * (fst p - snd p))%Q)
                         (combine (fst cw) (snd cw))))
            (combine x v)).

Fixpoint transpose_windows (n : nat) (x : list (list (list Q)))
  : list (list (list Q)) :=
  match n with
  | O => []
  | S n' =>
      map (fun ch => hd [] ch) x
      :: transpose_windows n' (map (fun ch => tl ch) x)
  end.

Fixpoint argmin_from (i best_i : Z) (best : Q) (ds : list Q) : Z * Q :=
  match ds with
  | [] => (best_i, best)
  | d :: t =>
      if Qle_bool best d then argmin_from (i + 1) best_i best t
      else argmin_from (i + 1) i d t
  end.

Definition features_Q (x : list (list (list Q))) (v : list (list Q))
  (t : Q) : Q * Q * Q :=
  let ds := map (fun w => sq_dist w v)
                (transpose_windows (length (hd [] x)) x) in
  match ds with
  | [] => (0%Q, 0%Q, 0%Q)
  | d :: rest =>
      let '(i, m) := argmin_from 1 0 d rest in
      (m, inject_Z i,
       inject_Z (py_len (filter (fun d => negb (Qle_bool t d)) ds)))
  end.

Definition replay (g : list N) : N * list N :=
  match g with
  | [] => (0%N, [])
  | r :: g' => (r, g')
  end.

Definition scripted (script : Z -> list N) : Kernels := {|
  F := Q;
  fzero := 0%Q;
  znorm := fun v => map (fun x => (x - Qmean v)%Q) v;
  rng := list N;
  seed := script;
  next_raw := replay;
  resolution := 4;
  float_dilation := exact_dilation;
  float_exp2_log2 := exact_exp2_log2;
  prime_up_to := fun n => filter (fun p => p <=? n) [1; 2; 3; 5; 7; 11; 13];
  choice_log := fun n k g => Ok (repeat 0 (Z.to_nat k), g);
  apply_one_shapelet_one_sample_multivariate := features_Q
|}.

(** ** Predicates of the statements *)

(** The layout of the flattened buffers of [n] shapelets: consecutive
    offsets differ by the size of the slice, in [int64] arithmetic. *)
Definition layout (n : Z) (cs ls a1 a2 : list Z) : Prop :=
  forall i, 0 <= i < n ->
    exists c l lo1 hi1 lo2 hi2,
      py_index cs i = Ok c /\ py_index ls i = Ok l /\
      py_index a1 i = Ok lo1 /\ py_index a1 (i + 1) = Ok hi1 /\
      py_index a2 i = Ok lo2 /\ py_index a2 (i + 1) = Ok hi2 /\
      wrap64 (hi1 - lo1) = wrap64 (c * l) /\
      wrap64 (hi2 - lo2) = c.

(** ** A worked example

    Two series of two channels and seven timestamps, and a script of raw
    draws. *)

Definition demo_script (s : Z) : list N :=
  if s =? 1 then
    [0; 1; 2; 0; 3; 1; 2; 1; 1; 0; 0; 0;
     8; 2; 1; 5; 1; 5; 1; 1; 1; 0; 0]%N
  else
    [0; 1; 2; 0; 3; 1; 0; 1; 1; 0; 0; 0;
     8; 2; 1; 5; 1; 5; 1; 1; 1; 0; 0]%N.

Definition demo : Kernels := scripted demo_script.

Definition demo_X : @tensor3 demo :=
  mk_tensor3 (K := demo) 2 2 7
    [[[1; 2; 3; 4; 5; 6; 7]; [6; 7; 8; 9; 10; 11; 12]];
     [[11; 12; 13; 14; 15; 16; 17]; [16; 17; 18; 19; 20; 21; 22]]]%Q.

(** [generate] on the example, for three shapelets with lengths among 2, 3
    and 4, at most two channels, and no normalisation. *)
Definition demo_generate (alpha : Q) (use_phase : bool) :=
  M_SL_generate_shapelet (K := demo) [] demo_X [0; 1] 3 [2; 3; 4] 0
    0%Q 0%Q 100%Q alpha use_phase 2 false.

(** What [demo_generate 1 false] returns. *)
Definition demo_S : @shapelets demo :=
  mk_shapelets (K := demo)
    [18; 19; 2; 4; 6; 7; 9; 11; 17; 18; 19; 20; 12; 13; 14; 15]%Q
    [2; 3; 4] [1; 2; 1] [0; 0; 0]%Q [false; false; false] [1; 2; 2]
    [1; 0; 1; 1; 0].

Definition demo_id_samples : list Z := [1; 0; 1].

Definition demo_start_positions : list Z := [2; 1; 1].

(** [generate] on the example with other admissible lengths, seed, [alpha]
    and [max_channels]. *)
Definition demo_generate_with (shapelet_sizes : list Z) (r_seed : Z)
  (alpha : Q) (max_channels : Z) :=
  M_SL_generate_shapelet (K := demo) [] demo_X [0; 1] 3 shapelet_sizes r_seed
    0%Q 0%Q 100%Q alpha false max_channels false.

(** One series of one channel and five timestamps; two shapelets of length
    3; every raw draw of the sampler is 0, and both shapelets draw the start
    position of index 2. *)
Definition overlap_script (s : Z) : list N :=
  [0; 0; 0; 0; 0; 0; 0; 0; 0; 2; 0; 0; 2; 0]%N.

Definition overlap : Kernels := scripted overlap_script.

Definition overlap_X : @tensor3 overlap :=
  mk_tensor3 (K := overlap) 1 1 5 [[[1; 2; 3; 4; 5]]]%Q.

Definition overlap_run :=
  generate_run (K := overlap) overlap_X [0] 2 [3] 0 0%Q 0%Q 100%Q 1%Q false
    1 false.

(** One constant series of one channel and four timestamps; one shapelet of
    length 2; every raw draw is 0. *)
Definition flat_script (s : Z) : list N := [].

Definition flat : Kernels := scripted flat_script.

Definition flat_X : @tensor3 flat :=
  mk_tensor3 (K := flat) 1 1 4 [[[0; 0; 0; 0]]]%Q.

Definition flat_run (alpha : Q) :=
  generate_run (K := flat) flat_X [0] 1 [2] 0 0%Q 0%Q 100%Q alpha false 1
    false.

Definition flat_generate (alpha : Q) :=
  M_SL_generate_shapelet (K := flat) [] flat_X [0] 1 [2] 0 0%Q 0%Q 100%Q
    alpha false 1 false.

(** What the Python caller receives: the shapelet set and the provenance
    arrays. *)
Definition returned {K : Kernels}
  (r : result (shapelets * list Z * list Z * rng))
  : result (shapelets * list Z * list Z) :=
  '(shp, ids, starts, _) <- r ;; Ok (shp, ids, starts).

(** [generate] raises on every input whose configuration is [bad]. *)
Definition rejects {K : Kernels}
  (bad : tensor3 -> list Z -> Q -> Z -> Prop) : Prop :=
  forall (g0 : rng) (X : tensor3) (y : list Z) (n_shapelets : Z)
   (shapelet_sizes : list Z) (r_seed : Z) (p_norm p_min p_max alpha : Q)
   (use_phase : bool) (max_channels : Z) (prime_scheme : bool),
    bad X shapelet_sizes alpha max_channels ->
    exists e,
      M_SL_generate_shapelet g0 X y n_shapelets shapelet_sizes r_seed p_norm
        p_min p_max alpha use_phase max_channels prime_scheme = Raise e.

(** A window of length [l] and dilation [d] fits in [T] timestamps without
    wrapping around. *)
Definition fits_series (T l d : Z) : Prop :=
  1 <= l /\ 1 <= d /\ (l - 1) * d < T.

(** The candidate (sample, start position) pairs of one shapelet, and the
    occupancy of the series when nothing is marked. *)
Definition candidates {K : Kernels} (mask_dil : list (list (list bool)))
  (n_timestamps : nat) (d_shape c : Z) (alpha : Q) : list (Z * Z) :=
  let i_mask := admissible mask_dil n_timestamps d_shape c alpha in
  combine (fst i_mask) (snd i_mask).

Definition fresh_mask {K : Kernels} (X : tensor3) : list (list (list bool)) :=
  repeat (repeat (repeat true (n_timestamps_of X)) (n_features_of X))
         (n_samples_of X).

(** The recorded start positions keep every window inside its series. *)
Definition starts_within (T : Z) (ls ds starts : list Z) : Prop :=
  length starts = length ls /\
  forall i l d p,
    nth_error ls i = Some l -> nth_error ds i = Some d ->
    nth_error starts i = Some p ->
    0 <= p /\ p + (l - 1) * d < T.


(** No rounding error of the [float64] expression of the draw reaches its
    floor: for a quotient [q >= 1] and a unit sample [u] of [[0, 1)] the
    kernel returns the value of the expression over the reals. *)
Definition dilation_draw_exact (K : Kernels) : Prop :=
  forall (q : Z) (u : Q),
    1 <= q -> (0 <= u)%Q -> (u < 1)%Q ->
    float_dilation q u = real_dilation q u.

(** Exact sums, for the sizes of the flattened buffers. *)
Definition Zsum (xs : list Z) : Z := fold_right Z.add 0 xs.

Definition slice_sizes (n_channels lengths : list Z) : list Z :=
  map (fun cl => fst cl * snd cl) (combine n_channels lengths).

(** The z-normalisation is elementwise: it keeps the length of a window. *)
Definition znorm_keeps_length (K : Kernels) : Prop :=
  forall v : list F, length (znorm v) = length v.

(** The window that the generator extracts from channel [c] of sample [s]. *)
Definition window_of {K : Kernels} (X : tensor3) (use_phase : bool)
  (s p l d : Z) (nrm : bool) (c : Z) : result (list F) :=
  sample <- py_index (samples X) s ;;
  series <- py_index sample c ;;
  get_subsequence series p l d nrm use_phase.

(** The slice of shapelet [i] in a flattened buffer. *)
Definition slot {A} (buf : list A) (offsets : list Z) (i : nat) : list A :=
  py_slice buf (nth i offsets 0) (nth (S i) offsets 0).

(** Shapelet [i] has been drawn: its provenance is one of its candidates on
    the unmarked occupancy, its channels are distinct channels of the
    series, and its values are the windows of these channels at the
    recorded sample and start position. *)
Definition populated {K : Kernels} (X : tensor3) (P : shapelets) (alpha : Q)
  (use_phase : bool) (st : gen_state) (i : nat) : Prop :=
  exists l d nrm c s p ws a1,
    nth_error (lengths P) i = Some l /\
    nth_error (dilations P) i = Some d /\
    nth_error (normalize P) i = Some nrm /\
    nth_error (n_channels P) i = Some c /\
    values_offsets (n_channels P) (lengths P) = Ok a1 /\
    nth_error (st_id_samples st) i = Some s /\
    nth_error (st_start_positions st) i = Some p /\
    In (s, p) (candidates (fresh_mask X) (n_timestamps_of X)
                 (d_shape_of X use_phase l d) c alpha) /\
    let chans :=
      slot (st_channel_ids st) (channel_offsets (n_channels P)) i in
    py_len chans = c /\ NoDup chans /\
    Forall (fun ch => 0 <= ch < Z.of_nat (n_features_of X)) chans /\
    mapM (window_of X use_phase s p l d nrm) chans = Ok ws /\
    slot (st_values st) a1 i = concat ws.

(** A sampled (length, dilation) pair that keeps at least one valid start
    position. *)
Definition keeps_valid_start {K : Kernels} (X : tensor3) (use_phase : bool)
  (l d : Z) : Prop :=
  1 <= l /\ 1 <= d /\
  if use_phase then 1 <= Z.of_nat (n_timestamps_of X)
  else (l - 1) * d < Z.of_nat (n_timestamps_of X).

(** What the generation loop relies on in the sampled parameters: arrays of
    one length, windows that keep a valid start position, channel counts
    within the channels of the series and within the availability
    threshold, and buffers whose size is an [int64]. *)
Definition sampled_ok {K : Kernels} (X : tensor3) (alpha : Q)
  (use_phase : bool) (P : shapelets) : Prop :=
  length (dilations P) = length (lengths P) /\
  length (normalize P) = length (lengths P) /\
  length (n_channels P) = length (lengths P) /\
  Forall2 (keeps_valid_start X use_phase) (lengths P) (dilations P) /\
  Forall (fun c =>
            1 <= c <= Z.of_nat (n_features_of X) /\
            Qle_bool (inject_Z c * alpha)
                     (inject_Z (Z.of_nat (n_features_of X))) = true)
         (n_channels P) /\
  Zsum (slice_sizes (n_channels P) (lengths P)) < 2 ^ 63.

(** The shape of the generator state, and the part of it that belongs to
    shapelet [j]. *)
Definition gen_inv {K : Kernels} (X : tensor3) (P : shapelets) (n_dil : nat)
  (st : gen_state) : Prop :=
  py_len (st_values st) = Zsum (slice_sizes (n_channels P) (lengths P)) /\
  py_len (st_channel_ids st) = Zsum (n_channels P) /\
  length (st_id_samples st) = length (lengths P) /\
  length (st_start_positions st) = length (lengths P) /\
  st_mask_sampling st
  = np_ones5 2 n_dil (n_samples_of X) (n_features_of X) (n_timestamps_of X).

Definition record_of {K : Kernels} (a1 a2 : list Z) (st : gen_state)
  (j : nat) : option Z * option Z * list F * list Z :=
  (nth_error (st_id_samples st) j, nth_error (st_start_positions st) j,
   slot (st_values st) a1 j, slot (st_channel_ids st) a2 j).

(** What the sampler returns on the example. *)
Definition demo_P : @shapelets demo :=
  mk_shapelets (K := demo) (repeat 0%Q 16) [2; 3; 4] [1; 2; 1] [0; 0; 0]%Q
    [false; false; false] [1; 2; 2] (repeat 0 5).


(** ** Predicates of the applier *)

(** A store computation returns from [h], with a value and a store that
    satisfy [post]. *)
Definition returns {K : Kernels} {A} (m : M A) (h : store)
  (post : A -> store -> Prop) : Prop :=
  exists a h', m h = Ok (a, h') /\ post a h'.

(** A populated shapelet set for the series [x]: arrays of one length,
    windows that keep a valid start position, at least one channel per
    shapelet, channel identifiers of [x], and a values buffer of the size
    that the offsets give, an [int64]. *)
Definition valid_shapelets {K : Kernels} (x : tensor3) (use_phase : bool)
  (P : shapelets) : Prop :=
  length (dilations P) = length (lengths P) /\
  length (threshold P) = length (lengths P) /\
  length (normalize P) = length (lengths P) /\
  length (n_channels P) = length (lengths P) /\
  Forall2 (keeps_valid_start x use_phase) (lengths P) (dilations P) /\
  Forall (fun c => 1 <= c) (n_channels P) /\
  py_len (values P) = Zsum (slice_sizes (n_channels P) (lengths P)) /\
  Forall (fun ch => 0 <= ch < Z.of_nat (n_features_of x)) (channel_ids P) /\
  Zsum (slice_sizes (n_channels P) (lengths P)) < 2 ^ 63.

(** A valid input of the applier: in the store [h], [X] is the rectangular
    series tensor [x] and the references of [S] are the arrays of the
    populated set [P]. *)
Definition apply_input {K : Kernels} (h : store) (X : ref)
  (S : shapelet_refs) (use_phase : bool) (x : tensor3) (P : shapelets)
  : Prop :=
  nth_error h X = Some (Series x) /\
  nth_error h (r_values S) = Some (Float1 (values P)) /\
  nth_error h (r_lengths S) = Some (Int1 (lengths P)) /\
  nth_error h (r_dilations S) = Some (Int1 (dilations P)) /\
  nth_error h (r_threshold S) = Some (Float1 (threshold P)) /\
  nth_error h (r_normalize S) = Some (Bool1 (normalize P)) /\
  nth_error h (r_n_channels S) = Some (Int1 (n_channels P)) /\
  nth_error h (r_channel_ids S) = Some (Int1 (channel_ids P)) /\
  rectangular x /\ valid_shapelets x use_phase P.

(** A two-dimensional array of floats of the given shape. *)
Definition feature_matrix {K : Kernels} (rows cols : nat) (a : array)
  : Prop :=
  exists m, a = Float2 rows cols m /\ length m = rows /\
            Forall (fun r => length r = cols) m.

(** The stores that the applier goes through: the arrays of the caller,
    unchanged, then the feature matrix. *)
Definition applier_store {K : Kernels} (h0 : store) (rows cols : nat)
  (h : store) : Prop :=
  firstn (length h0) h = h0 /\
  exists a, nth_error h (length h0) = Some a /\ feature_matrix rows cols a.

(** The windows of one series at [s]: [n0] channels, [n1] windows per
    channel, [n2] values per window. *)
Definition strides_at {K : Kernels} (h : store) (s : ref) (n0 n1 n2 : nat)
  : Prop :=
  exists w, nth_error h s = Some (Strides n0 n1 n2 w) /\ length w = n0 /\
            Forall (fun row => length row = n1 /\
                               Forall (fun win => length win = n2) row) w.

(** The shapelets of the (length, dilation) pair [p], in index order. *)
Definition members (lengths dilations : list Z) (p : Z * Z) : list Z :=
  np_where1 (map (pair_eqb p) (combine lengths dilations)).

(** The example as the applier receives it. *)
Definition store_of {K : Kernels} (x : tensor3) (P : shapelets) : store :=
  [Series x; Float1 (values P); Int1 (lengths P); Int1 (dilations P);
   Float1 (threshold P); Bool1 (normalize P); Int1 (n_channels P);
   Int1 (channel_ids P)].

Definition demo_refs : shapelet_refs :=
  mk_shapelet_refs 1%nat 2%nat 3%nat 4%nat 5%nat 6%nat 7%nat.

(** The example with its second shapelet normalised. *)
Definition demo_S_norm : @shapelets demo :=
  mk_shapelets (K := demo) (values demo_S) (lengths demo_S)
    (dilations demo_S) (threshold demo_S) [false; true; false]
    (n_channels demo_S) (channel_ids demo_S).

(** A single series, and a set of no shapelet. *)
Definition single_X : @tensor3 demo :=
  mk_tensor3 (K := demo) 1 2 7
    [[[1; 2; 3; 4; 5; 6; 7]; [6; 7; 8; 9; 10; 11; 12]]]%Q.

Definition no_shapelet : @shapelets demo :=
  mk_shapelets (K := demo) [] [] [] [] [] [] [].

(** ** Predicates of the further properties *)

(** The state of the generation loop: buffers and provenance arrays keep
    their sizes, the occupancy keeps its value, and what is recorded
    indexes the series tensor. *)
Definition gen_state_ok {K : Kernels} (n_shapelets : Z) (X : tensor3)
  (P : shapelets) (st : gen_state) : Prop :=
  length (st_values st) = length (values P) /\
  length (st_channel_ids st) = length (channel_ids P) /\
  length (st_id_samples st) = Z.to_nat n_shapelets /\
  length (st_start_positions st) = Z.to_nat n_shapelets /\
  st_mask_sampling st
  = np_ones5 2 (length (np_unique (dilations P))) (n_samples_of X)
      (n_features_of X) (n_timestamps_of X) /\
  Forall (fun s => 0 <= s < Z.max 1 (Z.of_nat (n_samples_of X)))
         (st_id_samples st) /\
  Forall (fun p => 0 <= p < Z.max 1 (Z.of_nat (n_timestamps_of X)))
         (st_start_positions st) /\
  Forall (fun c => 0 <= c < Z.max 1 (Z.of_nat (n_features_of X)))
         (st_channel_ids st).

(** [choice_log n 1] returns one index of [[0, n)], as its name in the
    class says: the read [shp_primes[choice_log(n, 1)[0]]] of the prime
    scheme is then within the bounds of a non-empty [shp_primes]. *)
Definition choice_log_in_range (K : Kernels) : Prop :=
  forall (n : Z) (g : rng),
    1 <= n ->
    exists (i : Z) (g' : rng), choice_log n 1 g = Ok ([i], g') /\ 0 <= i < n.

(** The candidate dilations of a shapelet of length [l] when the largest
    bound comes from the length [lmax]: the entries of
    [prime_up_to(int64(2 ** upper_bounds.max()))] that do not exceed
    [int64(2 ** upper_bounds[i])]. *)
Definition prime_candidates {K : Kernels} (n_timestamps lmax l : Z) : list Z :=
  let quotient := fun l => floor_divide (n_timestamps - 1) (wrap64 (l - 1)) in
  let primes := prime_up_to (float_exp2_log2 (quotient lmax)) in
  np_select primes (map (fun p => p <=? float_exp2_log2 (quotient l)) primes).

(** The series of the example for the kernels over the reals. *)
Definition demo_real_X : @tensor3 (over_reals demo) :=
  mk_tensor3 (K := over_reals demo) 2 2 7
    [[[1; 2; 3; 4; 5; 6; 7]; [6; 7; 8; 9; 10; 11; 12]];
     [[11; 12; 13; 14; 15; 16; 17]; [16; 17; 18; 19; 20; 21; 22]]]%Q.

(** The windows of one sample for a (length, dilation) pair, as the applier
    obtains them from [generate_strides_2D]: for every channel, the window
    of every start position, not normalised. *)
Definition series_windows {K : Kernels} (xi : list (list F))
  (n_timestamps : nat) (l d : Z) (use_phase : bool)
  : result (list (list (list F))) :=
  let n_windows :=
    if use_phase then Z.of_nat n_timestamps
    else Z.of_nat n_timestamps - (l - 1) * d in
  mapM (fun series =>
          mapM (fun s => get_subsequence series s l d false use_phase)
               (py_range n_windows))
       xi.

(** The three features of shapelet [k] on sample [i], computed on their
    own as in the body of the loops of the applier (lines 255-262 and
    277-285): the windows of the sample for the length and the dilation of
    the shapelet, every window normalised when the shapelet is, restricted
    to the channels of the shapelet, against its values and threshold. *)
Definition shapelet_features {K : Kernels} (x : tensor3) (P : shapelets)
  (use_phase : bool) (i k : Z) : result (F * F * F) :=
  xi <- py_index (samples x) i ;;
  l <- py_index (lengths P) k ;;
  d <- py_index (dilations P) k ;;
  nrm <- py_index (normalize P) k ;;
  c <- py_index (n_channels P) k ;;
  t <- py_index (threshold P) k ;;
  a1 <- values_offsets (n_channels P) (lengths P) ;;
  let a2 := channel_offsets (n_channels P) in
  lo1 <- py_index a1 k ;;
  hi1 <- py_index a1 (k + 1) ;;
  lo2 <- py_index a2 k ;;
  hi2 <- py_index a2 (k + 1) ;;
  w <- series_windows xi (n_timestamps_of x) l d use_phase ;;
  xs <- take_at (if nrm then map (map znorm) w else w)
          (py_slice (channel_ids P) lo2 hi2) ;;
  _values <- np_reshape (py_slice (values P) lo1 hi1) c l ;;
  Ok (apply_one_shapelet_one_sample_multivariate xs _values t).

(** In the store [h], the cells of shapelet [k] in row [i] of the feature
    matrix [X_new] hold the features of the shapelet on the sample. *)
Definition block_done {K : Kernels} (x : tensor3) (P : shapelets)
  (use_phase : bool) (X_new : ref) (h : store) (i k : nat) : Prop :=
  exists rows cols m row f1 f2 f3,
    nth_error h X_new = Some (Float2 rows cols m) /\
    nth_error m i = Some row /\
    shapelet_features x P use_phase (Z.of_nat i) (Z.of_nat k)
    = Ok (f1, f2, f3) /\
    py_slice row (3 * Z.of_nat k) (3 * Z.of_nat k + 3) = [f1; f2; f3].

Definition blocks_kept {K : Kernels} (x : tensor3) (P : shapelets)
  (use_phase : bool) (X_new : ref) (h h' : store) : Prop :=
  forall i k, block_done x P use_phase X_new h i k ->
              block_done x P use_phase X_new h' i k.
(** * Properties *)

(** ** The result monad *)

Lemma bind_Ok {A B} (m : result A) (k : A -> result B) (b : B) :
  bind m k = Ok b -> exists a, m = Ok a /\ k a = Ok b.
Proof.
  destruct m as [a|e]; simpl; intros H; [eauto | discriminate].
Qed.

Tactic Notation "bind_inv" hyp(H) :=
  let a := fresh "a" in
  let Ha := fresh "Hm" in
  apply bind_Ok in H; destruct H as (a & Ha & H).

Tactic Notation "bind_inv" hyp(H) "as" simple_intropattern(a) ident(Ha) :=
  apply bind_Ok in H; destruct H as (a & Ha & H).

Lemma foldM_app {S A} (body : S -> A -> result S) (xs ys : list A) (s : S) :
  foldM body (xs ++ ys) s = (s' <- foldM body xs s ;; foldM body ys s').
Proof.
  revert s; induction xs as [|x xs IH]; intros s; simpl; [reflexivity|].
  destruct (body s x); simpl; auto.
Qed.

(** An invariant of a loop that may raise holds when the loop returns. *)
Lemma foldM_invariant {S A} (I : S -> Prop) (body : S -> A -> result S)
      (xs : list A) :
  (forall s x s', In x xs -> I s -> body s x = Ok s' -> I s') ->
  forall s s', I s -> foldM body xs s = Ok s' -> I s'.
Proof.
  induction xs as [|x xs IH]; simpl; intros Hb s s' Hs H.
  - now inversion H; subst.
  - bind_inv H. apply (IH (fun s0 x0 s1 Hin => Hb s0 x0 s1 (or_intror Hin)) a s').
    + eapply Hb; eauto.
    + exact H.
Qed.

Lemma mapM_length {A B} (f : A -> result B) (xs : list A) (ys : list B) :
  mapM f xs = Ok ys -> length ys = length xs.
Proof.
  revert ys; induction xs as [|x xs IH]; simpl; intros ys H.
  - now inversion H.
  - bind_inv H. bind_inv H. inversion H; subst; simpl. f_equal; auto.
Qed.

(** ** Arithmetic of [int64] *)

Lemma wrap64_range z : int64_range (wrap64 z).
Proof.
  unfold int64_range, wrap64.
  pose proof (Z.mod_pos_bound (z + 2 ^ 63) (2 ^ 64) ltac:(lia)). lia.
Qed.

Lemma wrap64_small z : int64_range z -> wrap64 z = z.
Proof.
  unfold int64_range, wrap64; intros H.
  rewrite Z.mod_small by lia. lia.
Qed.

Lemma wrap64_idem z : wrap64 (wrap64 z) = wrap64 z.
Proof. apply wrap64_small, wrap64_range. Qed.

Lemma wrap64_congr a b : (a - b) mod 2 ^ 64 = 0 -> wrap64 a = wrap64 b.
Proof.
  unfold wrap64; intros H. f_equal.
  apply Z.mod_divide in H; [|lia]. destruct H as [k Hk].
  replace (a + 2 ^ 63) with (b + 2 ^ 63 + k * 2 ^ 64) by lia.
  apply Z.mod_add; lia.
Qed.

Lemma wrap64_sub_add a x : wrap64 (wrap64 (a + x) - a) = wrap64 x.
Proof.
  apply wrap64_congr. unfold wrap64.
  rewrite (Z.mod_eq (a + x + 2 ^ 63) (2 ^ 64)) by lia.
  match goal with |- ?e mod _ = 0 =>
    replace e with (- ((a + x + 2 ^ 63) / 2 ^ 64) * 2 ^ 64) by lia end.
  apply Z.mod_mul; lia.
Qed.

(** ** Lists and indices *)

Lemma py_index_nat {A} (l : list A) (i : nat) (x : A) :
  nth_error l i = Some x -> py_index l (Z.of_nat i) = Ok x.
Proof.
  intros H. unfold py_index.
  destruct (Z.ltb_spec (Z.of_nat i) 0) as [E|E]; [lia|].
  destruct (Z.ltb_spec (Z.of_nat i) 0); [lia|].
  rewrite Nat2Z.id, H. reflexivity.
Qed.

Lemma py_index_in_range {A} (l : list A) (i : Z) :
  0 <= i < py_len l -> exists x, py_index l i = Ok x /\
                                 nth_error l (Z.to_nat i) = Some x.
Proof.
  unfold py_len; intros H.
  destruct (nth_error l (Z.to_nat i)) as [x|] eqn:E.
  - exists x; split; auto.
    rewrite <- (Z2Nat.id i) by lia. now apply py_index_nat.
  - apply nth_error_None in E. lia.
Qed.

Lemma py_index_nonneg_inv {A} (l : list A) (i : Z) (x : A) :
  0 <= i -> py_index l i = Ok x ->
  nth_error l (Z.to_nat i) = Some x /\ i < py_len l.
Proof.
  unfold py_index, py_len; intros Hi H.
  destruct (Z.ltb_spec i 0) as [E|E]; [lia|].
  destruct (Z.ltb_spec i 0); [lia|].
  destruct (nth_error l (Z.to_nat i)) as [y|] eqn:E'; [|discriminate].
  inversion H; subst. split; auto.
  assert (Z.to_nat i < length l)%nat
    by (apply nth_error_Some; congruence).
  lia.
Qed.

Lemma np_mul_length (a b : list Z) (p : list Z) :
  np_mul a b = Ok p -> length a = length b /\ length p = length a.
Proof.
  revert b p; induction a as [|x a IH]; intros [|y b] p H; simpl in H;
    try discriminate.
  - inversion H; auto.
  - bind_inv H. inversion H; subst. apply IH in Hm. simpl; lia.
Qed.

Lemma np_mul_same_length (a b : list Z) :
  length a = length b -> exists p, np_mul a b = Ok p.
Proof.
  revert b; induction a as [|x a IH]; intros [|y b] H; simpl in *;
    try discriminate; eauto.
  destruct (IH b) as [p Hp]; [lia|]. rewrite Hp. simpl; eauto.
Qed.

Lemma np_mul_nth (a b p : list Z) (i : nat) (x y : Z) :
  np_mul a b = Ok p -> nth_error a i = Some x -> nth_error b i = Some y ->
  nth_error p i = Some (wrap64 (x * y)).
Proof.
  revert b p i; induction a as [|u a IH]; intros [|v b] p i H Ha Hb;
    simpl in H; try discriminate.
  - destruct i; discriminate.
  - bind_inv H. inversion H; subst.
    destruct i as [|i]; simpl in *.
    + now inversion Ha; inversion Hb; subst.
    + eauto.
Qed.

Lemma np_cumsum_from_length acc l :
  length (np_cumsum_from acc l) = length l.
Proof. revert acc; induction l; simpl; intros; auto. Qed.

(** Consecutive entries of a running sum differ by the summand. *)
Lemma np_cumsum_from_step acc l (i : nat) (x : Z) :
  nth_error l i = Some x ->
  exists lo hi,
    nth_error (acc :: np_cumsum_from acc l) i = Some lo /\
    nth_error (acc :: np_cumsum_from acc l) (S i) = Some hi /\
    wrap64 (hi - lo) = wrap64 x.
Proof.
  revert acc i; induction l as [|u l IH]; intros acc i H.
  - destruct i; discriminate.
  - destruct i as [|i]; simpl in *.
    + inversion H; subst. do 2 eexists. repeat split.
      apply wrap64_sub_add.
    + destruct (IH (wrap64 (acc + u)) i H) as (lo & hi & H1 & H2 & H3).
      exists lo, hi. repeat split; auto.
Qed.

(** ** The parameter sampler *)

Section SamplerFacts.

Context {K : Kernels}.

Lemma draws_length {A} (n : nat) (draw : rng -> A * rng) (g : rng) :
  length (fst (draws n draw g)) = n.
Proof.
  revert g; induction n as [|n IH]; intros g; simpl; [reflexivity|].
  destruct (draw g) as [x g1]. specialize (IH g1).
  destruct (draws n draw g1) as [xs g2]. simpl in *. now f_equal.
Qed.

Lemma draws_Forall {A} (P : A -> Prop) (n : nat) (draw : rng -> A * rng)
      (g : rng) :
  (forall g, P (fst (draw g))) -> Forall P (fst (draws n draw g)).
Proof.
  intros Hd. revert g; induction n as [|n IH]; intros g; simpl.
  - constructor.
  - pose proof (Hd g) as Hx. destruct (draw g) as [x g1].
    specialize (IH g1). destruct (draws n draw g1) as [xs g2].
    simpl in *. now constructor.
Qed.

Lemma choice_size_length {A} (a : list A) (size : Z) (g g' : rng)
      (l : list A) :
  choice_size a size g = Ok (l, g') ->
  0 <= size /\ length l = Z.to_nat size.
Proof.
  unfold choice_size.
  destruct (Z.ltb_spec size 0); [discriminate|].
  destruct (Z.eqb_spec size 0).
  - intros H'; inversion H'; subst. split; [lia | reflexivity].
  - destruct a as [|x a]; [discriminate|]. intros H'.
    inversion H' as [H1]. split; [lia|].
    change l with (fst (l, g')). rewrite <- H1. apply draws_length.
Qed.

Lemma choice_size_Forall {A} (P : A -> Prop) (a : list A) (size : Z)
      (g g' : rng) (l : list A) :
  Forall P a -> choice_size a size g = Ok (l, g') -> Forall P l.
Proof.
  unfold choice_size; intros Ha.
  destruct (Z.ltb_spec size 0); [discriminate|].
  destruct (Z.eqb_spec size 0).
  - intros H'; inversion H'; subst. constructor.
  - destruct a as [|x a]; [discriminate|]. intros H'.
    inversion H' as [H1].
    change l with (fst (l, g')). rewrite <- H1.
    apply draws_Forall. intros g0. unfold pick.
    destruct (rand_below (py_len (x :: a)) g0) as [i g1]; cbn [fst].
    rewrite Forall_forall in Ha.
    destruct (nth_in_or_default (Z.to_nat i) (x :: a) x) as [Hin|Hd].
    + now apply Ha.
    + rewrite Hd. apply Ha. now left.
Qed.

Lemma random_size_length (size : Z) (g g' : rng) (l : list Q) :
  random_size size g = Ok (l, g') ->
  0 <= size /\ length l = Z.to_nat size.
Proof.
  unfold random_size.
  destruct (Z.ltb_spec size 0); [discriminate|]. intros H'.
  inversion H' as [H1]. split; [lia|].
  change l with (fst (l, g')). rewrite <- H1. apply draws_length.
Qed.

Lemma np_full_Ok {A} (x : A) (n : Z) (l : list A) :
  np_full x n = Ok l -> 0 <= n /\ l = repeat x (Z.to_nat n).
Proof.
  unfold np_full. destruct (Z.ltb_spec n 0); [discriminate|].
  intros H'; inversion H'; auto.
Qed.

(** The prime scheme appends one dilation per quotient. *)
Lemma prime_loop_length (body_primes : list Z) (qs : list Z) :
  forall (ds ds' : list Z) (g g' : rng),
    foldM (fun '(ds, g) q =>
             let shp_primes :=
               np_select body_primes
                 (map (fun p => p <=? float_exp2_log2 q) body_primes) in
             '(ix, g) <- choice_log (py_len shp_primes) 1 g ;;
             i <- py_index ix 0 ;;
             d <- py_index shp_primes i ;;
             Ok (ds ++ [d], g))
          qs (ds, g) = Ok (ds', g') ->
    length ds' = (length ds + length qs)%nat.
Proof.
  induction qs as [|q qs IH]; intros ds ds' g g' H; simpl in H.
  - inversion H; subst. simpl. lia.
  - bind_inv H. destruct a as [ds1 g1].
    bind_inv Hm. destruct a as [ix g2]. bind_inv Hm. bind_inv Hm.
    inversion Hm; subst. apply IH in H. rewrite H, length_app. simpl. lia.
Qed.

(** Every array the sampler returns has one entry per shapelet; the two
    flattened buffers are zero-filled. *)
Lemma sampler_shape (n_shapelets : Z) (shapelet_sizes : list Z)
      (n_timestamps : Z) (p_norm : Q) (max_channels : Z)
      (prime_scheme : bool) (g g' : rng) (P : shapelets) :
  M_SL_init_random_shapelet_params n_shapelets shapelet_sizes n_timestamps
    p_norm max_channels prime_scheme g = Ok (P, g') ->
  0 <= n_shapelets /\
  length (lengths P) = Z.to_nat n_shapelets /\
  length (dilations P) = Z.to_nat n_shapelets /\
  length (threshold P) = Z.to_nat n_shapelets /\
  length (normalize P) = Z.to_nat n_shapelets /\
  length (n_channels P) = Z.to_nat n_shapelets /\
  channel_ids P = repeat 0 (Z.to_nat (np_sum (n_channels P))) /\
  (exists size, np_dot (lengths P) (n_channels P) = Ok size /\
                values P = repeat fzero (Z.to_nat size)).
Proof.
  unfold M_SL_init_random_shapelet_params. intros H.
  bind_inv H as [ls g1] Hls.
  apply choice_size_length in Hls. destruct Hls as [Hn Hls].
  bind_inv H as [ds g2] Hd.
  assert (Hds : length ds = Z.to_nat n_shapelets).
  { destruct prime_scheme.
    - bind_inv Hd as qmax Hq. apply prime_loop_length in Hd.
      rewrite Hd. simpl. now rewrite !length_map.
    - destruct (draws _ rand_unit g1) as [us g3] eqn:E.
      inversion Hd; subst. rewrite length_map, length_combine.
      pose proof (draws_length (length (map
        (fun l => floor_divide (n_timestamps - 1) (wrap64 (l - 1)))
        (map wrap64 ls))) rand_unit g1) as Hu.
      rewrite E in Hu. simpl in Hu. rewrite Hu, !length_map. lia. }
  bind_inv H as th Hth. apply np_full_Ok in Hth. destruct Hth as [_ ->].
  bind_inv H as [cs g3] Hcs.
  apply choice_size_length in Hcs. destruct Hcs as [_ Hcs].
  bind_inv H as ci Hci. apply np_full_Ok in Hci. destruct Hci as [_ ->].
  bind_inv H as size Hsize.
  bind_inv H as vs Hvs. apply np_full_Ok in Hvs. destruct Hvs as [_ ->].
  bind_inv H as [us g4] Hus.
  apply random_size_length in Hus. destruct Hus as [_ Hus].
  inversion H; subst; simpl.
  rewrite !length_map, repeat_length. repeat split; auto.
  exists size. split; auto.
Qed.

End SamplerFacts.

(** ** The generator *)

Section GeneratorFacts.

Context {K : Kernels}.

Lemma sampler_int64 (n_shapelets : Z) (shapelet_sizes : list Z)
      (n_timestamps : Z) (p_norm : Q) (max_channels : Z)
      (prime_scheme : bool) (g g' : rng) (P : shapelets) :
  M_SL_init_random_shapelet_params n_shapelets shapelet_sizes n_timestamps
    p_norm max_channels prime_scheme g = Ok (P, g') ->
  Forall int64_range (lengths P) /\ Forall int64_range (n_channels P).
Proof.
  unfold M_SL_init_random_shapelet_params. intros H.
  bind_inv H as [ls g1] Hls. bind_inv H as [ds g2] Hd.
  bind_inv H as th Hth. bind_inv H as [cs g3] Hcs.
  bind_inv H as ci Hci. bind_inv H as size Hsize.
  bind_inv H as vs Hvs. bind_inv H as [us g4] Hus.
  inversion H; subst; simpl.
  split; apply Forall_map, Forall_forall; intros; apply wrap64_range.
Qed.

(** What a completed run went through: the sampler on the freshly seeded
    generator, the offsets, then the two nested loops. *)
Lemma generate_run_inv (X : tensor3) (y : list Z) (n_shapelets : Z)
      (shapelet_sizes : list Z) (r_seed : Z) (p_norm p_min p_max alpha : Q)
      (use_phase : bool) (max_channels : Z) (prime_scheme : bool)
      (P : shapelets) (st : gen_state) :
  generate_run X y n_shapelets shapelet_sizes r_seed p_norm p_min p_max
    alpha use_phase max_channels prime_scheme = Ok (P, st) ->
  exists g1 a1,
    M_SL_init_random_shapelet_params n_shapelets shapelet_sizes
      (Z.of_nat (n_timestamps_of X)) p_norm max_channels prime_scheme
      (seed r_seed) = Ok (P, g1) /\
    values_offsets (n_channels P) (lengths P) = Ok a1 /\
    foldM (dilation_step X P a1 (channel_offsets (n_channels P)) alpha
             use_phase (np_unique (dilations P)))
          (py_range (py_len (np_unique (dilations P))))
          (mk_gen_state (values P) (channel_ids P)
             (repeat 0 (Z.to_nat n_shapelets))
             (repeat 0 (Z.to_nat n_shapelets))
             (np_ones5 2 (length (np_unique (dilations P)))
                (n_samples_of X) (n_features_of X) (n_timestamps_of X))
             (repeat true (Z.to_nat n_shapelets)) g1) = Ok st.
Proof.
  unfold generate_run. intros H.
  bind_inv H as [P' g1] Hs.
  bind_inv H as ids Hids. apply np_full_Ok in Hids. destruct Hids as [_ ->].
  bind_inv H as sps Hsps. apply np_full_Ok in Hsps. destruct Hsps as [_ ->].
  bind_inv H as mr Hmr. apply np_full_Ok in Hmr. destruct Hmr as [_ ->].
  bind_inv H as a1 Ha1. bind_inv H as st' Hst.
  inversion H; subst. exists g1, a1. auto.
Qed.

Lemma generate_inv (g0 : rng) (X : tensor3) (y : list Z) (n_shapelets : Z)
      (shapelet_sizes : list Z) (r_seed : Z) (p_norm p_min p_max alpha : Q)
      (use_phase : bool) (max_channels : Z) (prime_scheme : bool)
      (S : shapelets) (ids starts : list Z) (g' : rng) :
  M_SL_generate_shapelet g0 X y n_shapelets shapelet_sizes r_seed p_norm
    p_min p_max alpha use_phase max_channels prime_scheme
  = Ok (S, ids, starts, g') ->
  exists P st,
    generate_run X y n_shapelets shapelet_sizes r_seed p_norm p_min p_max
      alpha use_phase max_channels prime_scheme = Ok (P, st) /\
    S = mk_shapelets (st_values st) (lengths P) (dilations P) (threshold P)
          (normalize P) (n_channels P) (st_channel_ids st) /\
    ids = st_id_samples st /\ starts = st_start_positions st /\
    g' = st_rng st.
Proof.
  unfold M_SL_generate_shapelet. intros H.
  bind_inv H as [P st] Hr. inversion H; subst. exists P, st. auto.
Qed.

Lemma values_offsets_Ok (cs ls : list Z) :
  length cs = length ls ->
  exists p, np_mul cs ls = Ok p /\
            values_offsets cs ls = Ok (0 :: np_cumsum p).
Proof.
  intros H. destruct (np_mul_same_length cs ls H) as [p Hp].
  exists p. split; auto. unfold values_offsets. now rewrite Hp.
Qed.

Lemma layout_of_offsets (n : Z) (cs ls : list Z) :
  length cs = Z.to_nat n -> length ls = Z.to_nat n ->
  Forall int64_range cs ->
  exists a1, values_offsets cs ls = Ok a1 /\
             layout n cs ls a1 (channel_offsets cs).
Proof.
  intros Hc Hl Hr.
  destruct (values_offsets_Ok cs ls) as (p & Hp & Ha1); [congruence|].
  exists (0 :: np_cumsum p). split; auto.
  intros i Hi.
  destruct (py_index_in_range cs i) as (c & Hci & Hcn);
    [unfold py_len; lia|].
  destruct (py_index_in_range ls i) as (l & Hli & Hln);
    [unfold py_len; lia|].
  pose proof (np_mul_nth _ _ _ _ _ _ Hp Hcn Hln) as Hpn.
  destruct (np_cumsum_from_step 0 p _ _ Hpn) as (lo1 & hi1 & L1 & L2 & L3).
  destruct (np_cumsum_from_step 0 cs _ _ Hcn) as (lo2 & hi2 & M1 & M2 & M3).
  exists c, l, lo1, hi1, lo2, hi2.
  assert (Hc_range : int64_range c).
  { rewrite Forall_forall in Hr. apply Hr.
    eapply nth_error_In; eauto. }
  replace (i + 1) with (Z.of_nat (S (Z.to_nat i))) by lia.
  rewrite <- (Z2Nat.id i) at 1 3 5 by lia.
  unfold channel_offsets, np_cumsum.
  repeat split; auto using py_index_nat.
  - now rewrite L3, wrap64_idem.
  - rewrite M3. now apply wrap64_small.
Qed.

End GeneratorFacts.

(** ** The store monad *)

Section StoreFacts.

Context {K : Kernels}.

Lemma mbind_Ok {A B} (m : M A) (k : A -> M B) (h h1 : store) (a : A) :
  m h = Ok (a, h1) -> mbind m k h = k a h1.
Proof. unfold mbind. now intros ->. Qed.

Lemma mbind_inv {A B} (m : M A) (k : A -> M B) (h h' : store) (b : B) :
  mbind m k h = Ok (b, h') ->
  exists a h1, m h = Ok (a, h1) /\ k a h1 = Ok (b, h').
Proof.
  unfold mbind. destruct (m h) as [[a h1]|e]; [eauto | discriminate].
Qed.

Lemma lift_Ok {A} (r : result A) (a : A) (h : store) :
  r = Ok a -> lift r h = Ok (a, h).
Proof. now intros ->. Qed.

Lemma lift_inv {A} (r : result A) (a : A) (h h' : store) :
  lift r h = Ok (a, h') -> r = Ok a /\ h' = h.
Proof.
  unfold lift. destruct r; intros H; inversion H; auto.
Qed.

Lemma load_int_Ok (r : ref) (h : store) (v : list Z) :
  nth_error h r = Some (Int1 v) -> load_int r h = Ok (v, h).
Proof. intros H. unfold load_int, mbind, load. now rewrite H. Qed.

Lemma load_float_Ok (r : ref) (h : store) (v : list F) :
  nth_error h r = Some (Float1 v) -> load_float r h = Ok (v, h).
Proof. intros H. unfold load_float, mbind, load. now rewrite H. Qed.

Lemma load_bool_Ok (r : ref) (h : store) (v : list bool) :
  nth_error h r = Some (Bool1 v) -> load_bool r h = Ok (v, h).
Proof. intros H. unfold load_bool, mbind, load. now rewrite H. Qed.

Lemma load_series_Ok (r : ref) (h : store) (t : tensor3) :
  nth_error h r = Some (Series t) -> load_series r h = Ok (t, h).
Proof. intros H. unfold load_series, mbind, load. now rewrite H. Qed.

Lemma load_strides_Ok (r : ref) (h : store) n0 n1 n2 w :
  nth_error h r = Some (Strides n0 n1 n2 w) ->
  load_strides r h = Ok ((n0, n1, n2, w), h).
Proof. intros H. unfold load_strides, mbind, load. now rewrite H. Qed.

End StoreFacts.

(** ** Buffer layout *)

Section Layout.

Context {K : Kernels}.

(** C9.  For every shapelet set that [generate] returns, the offsets
    [a1 = [0] ++ cumsum(n_channels * lengths)] and
    [a2 = [0] ++ cumsum(n_channels)] are prefix sums: for every shapelet [i],
    [a1[i+1] - a1[i] == n_channels[i] * lengths[i]] and
    [a2[i+1] - a2[i] == n_channels[i]], the subtraction and the product
    being those of [int64]; and the applier, recomputing the offsets from
    the stored arrays of the set, obtains the same two arrays and hence the
    same slices. *)
Theorem generate_buffer_layout (g0 : rng) (X : tensor3) (y : list Z)
        (n_shapelets : Z) (shapelet_sizes : list Z) (r_seed : Z)
        (p_norm p_min p_max alpha : Q) (use_phase : bool)
        (max_channels : Z) (prime_scheme : bool)
        (S : shapelets) (ids starts : list Z) (g' : rng) :
  M_SL_generate_shapelet g0 X y n_shapelets shapelet_sizes r_seed p_norm
    p_min p_max alpha use_phase max_channels prime_scheme
  = Ok (S, ids, starts, g') ->
  exists a1 a2,
    values_offsets (n_channels S) (lengths S) = Ok a1 /\
    channel_offsets (n_channels S) = a2 /\
    py_len a1 = n_shapelets + 1 /\ py_len a2 = n_shapelets + 1 /\
    layout n_shapelets (n_channels S) (lengths S) a1 a2 /\
    forall (h : store) (R : shapelet_refs),
      nth_error h (r_n_channels R) = Some (Int1 (n_channels S)) ->
      nth_error h (r_lengths R) = Some (Int1 (lengths S)) ->
      apply_offsets R h = Ok ((a1, a2), h).
Proof.
  intros H.
  apply generate_inv in H. destruct H as (P & st & Hrun & -> & _).
  apply generate_run_inv in Hrun. destruct Hrun as (g1 & a1 & Hs & Ha1 & _).
  pose proof (sampler_shape _ _ _ _ _ _ _ _ _ Hs)
    as (Hn & Hl & _ & _ & _ & Hc & _).
  pose proof (sampler_int64 _ _ _ _ _ _ _ _ _ Hs) as (_ & Hr).
  simpl.
  destruct (layout_of_offsets n_shapelets (n_channels P) (lengths P))
    as (a1' & Ha1' & Hlay); auto.
  assert (a1' = a1) by congruence. subst a1'.
  exists a1, (channel_offsets (n_channels P)).
  repeat split; auto.
  - unfold values_offsets in Ha1. bind_inv Ha1 as p Hp.
    inversion Ha1; subst. apply np_mul_length in Hp.
    unfold py_len, np_cumsum; simpl.
    rewrite np_cumsum_from_length. lia.
  - unfold py_len, channel_offsets, np_cumsum; simpl.
    rewrite np_cumsum_from_length. lia.
  - intros h R Hc' Hl'. unfold apply_offsets.
    rewrite (mbind_Ok _ _ _ _ _ (load_int_Ok _ _ _ Hc')).
    rewrite (mbind_Ok _ _ _ _ _ (load_int_Ok _ _ _ Hl')).
    rewrite (mbind_Ok _ _ _ _ _ (lift_Ok _ _ _ Ha1)).
    reflexivity.
Qed.

End Layout.



Lemma demo_generate_returns :
  demo_generate 1 false
  = Ok (demo_S, demo_id_samples, demo_start_positions, []).
Proof. reflexivity. Qed.

Lemma generate_buffer_layout_witness :
  exists a1 a2,
    values_offsets (n_channels demo_S) (lengths demo_S) = Ok a1 /\
    channel_offsets (n_channels demo_S) = a2 /\
    py_len a1 = 3 + 1 /\ py_len a2 = 3 + 1 /\
    layout 3 (n_channels demo_S) (lengths demo_S) a1 a2 /\
    forall (h : @store demo) (R : shapelet_refs),
      nth_error h (r_n_channels R) = Some (Int1 (n_channels demo_S)) ->
      nth_error h (r_lengths R) = Some (Int1 (lengths demo_S)) ->
      apply_offsets R h = Ok ((a1, a2), h).
Proof.
  apply (generate_buffer_layout (K := demo) [] demo_X [0; 1] 3 [2; 3; 4] 0
           0%Q 0%Q 100%Q 1%Q false 2 false demo_S demo_id_samples
           demo_start_positions []).
  reflexivity.
Defined.

(** ** Reproducibility *)

Section Determinism.

Context {K : Kernels}.

(** With [parallel] off, the build is [M_SL_generate_shapelet]: every draw
    comes from the generator that [seed(r_seed)] has reset, whatever the
    states of the generators of the threads and of the global generator
    before the call. *)
Lemma sequential_build_is_generate (threads : Z -> rng) (g0 : rng)
      (X : tensor3) (y : list Z) (n_shapelets : Z) (shapelet_sizes : list Z)
      (r_seed : Z) (p_norm p_min p_max alpha : Q) (use_phase : bool)
      (max_channels : Z) (prime_scheme : bool) :
  M_SL_generate_shapelet_build false threads X y n_shapelets shapelet_sizes
    r_seed p_norm p_min p_max alpha use_phase max_channels prime_scheme
  = returned
      (M_SL_generate_shapelet g0 X y n_shapelets shapelet_sizes r_seed
         p_norm p_min p_max alpha use_phase max_channels prime_scheme).
Proof.
  unfold M_SL_generate_shapelet_build, M_SL_generate_shapelet, generate_run,
    returned.
  destruct (M_SL_init_random_shapelet_params _ _ _ _ _ _ _) as [[P g]|e];
    [cbn [bind] | reflexivity].
  destruct (np_full 0 n_shapelets) as [ids|e]; [cbn [bind] | reflexivity].
  destruct (np_full true n_shapelets) as [mr|e]; [cbn [bind] | reflexivity].
  destruct (values_offsets _ _) as [a1|e]; [cbn [bind] | reflexivity].
  change (dilation_step_on false threads X P a1
            (channel_offsets (n_channels P)) alpha use_phase
            (np_unique (dilations P)))
    with (dilation_step X P a1 (channel_offsets (n_channels P)) alpha
            use_phase (np_unique (dilations P))).
  destruct (foldM _ _ _) as [st|e]; reflexivity.
Qed.

End Determinism.

(** C6, on the code.  The example is generated twice in the parallel
    build, with the same inputs and the same seed; the generators of the
    worker threads, which [seed(r_seed)] does not reset, give the raw draws
    0, 0, ... during the first call and 1, 1, ... during the second.  The
    sampled parameters agree, but the values, the channel identifiers and
    the start positions of the two shapelet sets differ.  With [parallel]
    off the same request returns the same result whatever the generators
    of the threads hold. *)
Theorem parallel_draws_escape_seed :
  let generate parallel threads :=
    M_SL_generate_shapelet_build (K := demo) parallel threads demo_X [0; 1]
      3 [2; 3; 4] 0 0%Q 0%Q 100%Q 1%Q false 2 false in
  generate true (fun _ => [])
  = Ok (mk_shapelets (K := demo)
          [1; 2; 1; 3; 5; 6; 8; 10; 1; 2; 3; 4; 6; 7; 8; 9]%Q
          [2; 3; 4] [1; 2; 1] [0; 0; 0]%Q [false; false; false] [1; 2; 2]
          [0; 0; 1; 0; 1],
        [0; 0; 0], [0; 0; 0]) /\
  generate true (fun _ => [1; 1; 1; 1; 1; 1; 1; 1; 1; 1; 1; 1]%N)
  = Ok (mk_shapelets (K := demo)
          [7; 8; 7; 9; 11; 2; 4; 6; 7; 8; 9; 10; 2; 3; 4; 5]%Q
          [2; 3; 4] [1; 2; 1] [0; 0; 0]%Q [false; false; false] [1; 2; 2]
          [1; 1; 0; 1; 0],
        [0; 0; 0], [1; 1; 1]) /\
  forall threads,
    generate false threads
    = Ok (demo_S, demo_id_samples, demo_start_positions).
Proof.
  cbv zeta. split; [reflexivity|]. split; [reflexivity|].
  intros threads. reflexivity.
Qed.

(** ** The occupancy mask *)

Section Occupancy.

Context {K : Kernels}.

(** One shapelet leaves both masks as they were. *)
Lemma shapelet_step_masks (X : tensor3) (P : shapelets) (a1 a2 : list Z)
      (alpha : Q) (use_phase : bool) (i_d i_shp : Z) (st st' : gen_state) :
  shapelet_step X P a1 a2 alpha use_phase i_d st i_shp = Ok st' ->
  st_mask_sampling st' = st_mask_sampling st /\
  st_mask_return st' = st_mask_return st.
Proof.
  unfold shapelet_step. intros H.
  bind_inv H as d Hd. bind_inv H as l Hl. bind_inv H as nrm Hn.
  bind_inv H as c Hc. bind_inv H as mn Hmn. bind_inv H as md Hmd.
  destruct (0 <? py_len _); [|inversion H; auto].
  bind_inv H as [s g] Hs. bind_inv H as ids Hids.
  bind_inv H as [p g1] Hp. bind_inv H as sps Hsps.
  bind_inv H as v0 Hv0. bind_inv H as [chans g2] Hch.
  bind_inv H as vs Hvs. bind_inv H as lo1 Hlo1. bind_inv H as hi1 Hhi1.
  bind_inv H as values' Hvalues. bind_inv H as lo2 Hlo2.
  bind_inv H as hi2 Hhi2. bind_inv H as cids Hcids.
  inversion H; subst. auto.
Qed.

Lemma dilation_step_masks (X : tensor3) (P : shapelets) (a1 a2 : list Z)
      (alpha : Q) (use_phase : bool) (unique_dil : list Z) (i_d : Z)
      (st st' : gen_state) :
  dilation_step X P a1 a2 alpha use_phase unique_dil st i_d = Ok st' ->
  st_mask_sampling st' = st_mask_sampling st /\
  st_mask_return st' = st_mask_return st.
Proof.
  unfold dilation_step. intros H. bind_inv H as u Hu.
  revert H.
  apply (foldM_invariant
           (fun s => st_mask_sampling s = st_mask_sampling st /\
                     st_mask_return s = st_mask_return st)); auto.
  intros s x s' _ [E1 E2] Hstep.
  apply shapelet_step_masks in Hstep. destruct Hstep as [-> ->]. auto.
Qed.

(** However many shapelets are drawn, the occupancy mask and the
    per-shapelet flags are, when the run ends, the all-true arrays they
    were created as. *)
Lemma generate_run_masks (X : tensor3) (y : list Z) (n_shapelets : Z)
      (shapelet_sizes : list Z) (r_seed : Z) (p_norm p_min p_max alpha : Q)
      (use_phase : bool) (max_channels : Z) (prime_scheme : bool)
      (P : shapelets) (st : gen_state) :
  generate_run X y n_shapelets shapelet_sizes r_seed p_norm p_min p_max
    alpha use_phase max_channels prime_scheme = Ok (P, st) ->
  st_mask_sampling st =
    np_ones5 2 (length (np_unique (dilations P))) (n_samples_of X)
      (n_features_of X) (n_timestamps_of X) /\
  st_mask_return st = repeat true (Z.to_nat n_shapelets).
Proof.
  intros H. apply generate_run_inv in H.
  destruct H as (g1 & a1 & _ & _ & H). revert H.
  apply (foldM_invariant
           (fun s => st_mask_sampling s = np_ones5 2 _ _ _ _ /\
                     st_mask_return s = repeat true _)); auto.
  intros s x s' _ [E1 E2] Hstep.
  apply dilation_step_masks in Hstep. destruct Hstep as [-> ->]. auto.
Qed.

End Occupancy.

(** ** Index arrays *)

Lemma where_from_In (i j : Z) (mask : list bool) :
  In j (where_from i mask) <->
  i <= j /\ nth_error mask (Z.to_nat (j - i)) = Some true.
Proof.
  revert i; induction mask as [|b mask IH]; intros i; simpl.
  - split; [tauto|]. intros [_ H]. destruct (Z.to_nat (j - i)); discriminate.
  - rewrite in_app_iff, IH. split.
    + intros [H|[H1 H2]].
      * destruct b; simpl in H; [|tauto]. destruct H as [->|[]].
        rewrite Z.sub_diag. simpl. split; [lia | reflexivity].
      * split; [lia|].
        replace (Z.to_nat (j - i)) with (S (Z.to_nat (j - (i + 1)))) by lia.
        exact H2.
    + intros [H1 H2].
      destruct (Z.eq_dec j i) as [->|Hne].
      * rewrite Z.sub_diag in H2. simpl in H2. inversion H2; subst.
        left. now left.
      * right. split; [lia|].
        replace (Z.to_nat (j - i)) with (S (Z.to_nat (j - (i + 1)))) in H2
          by lia.
        exact H2.
Qed.

Lemma np_where1_In (j : Z) (mask : list bool) :
  In j (np_where1 mask) <->
  0 <= j /\ nth_error mask (Z.to_nat j) = Some true.
Proof.
  unfold np_where1. rewrite where_from_In. now rewrite Z.sub_0_r.
Qed.

Lemma np_where1_range (j : Z) (mask : list bool) :
  In j (np_where1 mask) -> 0 <= j < py_len mask.
Proof.
  rewrite np_where1_In. intros [H1 H2]. split; auto.
  assert (Z.to_nat j < length mask)%nat by (apply nth_error_Some; congruence).
  unfold py_len. lia.
Qed.

Lemma where2_from_In (i s p : Z) (m : list (list bool)) :
  In (s, p) (where2_from i m) <->
  i <= s /\ exists row, nth_error m (Z.to_nat (s - i)) = Some row /\
                        In p (np_where1 row).
Proof.
  revert i; induction m as [|r m IH]; intros i; simpl.
  - split; [tauto|]. intros [_ (row & H & _)].
    destruct (Z.to_nat (s - i)); discriminate.
  - rewrite in_app_iff, IH, in_map_iff. split.
    + intros [(j & Hj & Hin)|[H1 (row & H2 & H3)]].
      * inversion Hj; subst. split; [lia|]. exists r.
        rewrite Z.sub_diag. simpl. auto.
      * split; [lia|]. exists row. split; auto.
        replace (Z.to_nat (s - i)) with (S (Z.to_nat (s - (i + 1)))) by lia.
        exact H2.
    + intros [H1 (row & H2 & H3)].
      destruct (Z.eq_dec s i) as [->|Hne].
      * rewrite Z.sub_diag in H2. simpl in H2. inversion H2; subst.
        left. exists p. auto.
      * right. split; [lia|]. exists row. split; auto.
        replace (Z.to_nat (s - i)) with (S (Z.to_nat (s - (i + 1)))) in H2
          by lia.
        exact H2.
Qed.

Lemma np_where2_pairs (m : list (list bool)) :
  combine (fst (np_where2 m)) (snd (np_where2 m)) = where2_from 0 m.
Proof.
  unfold np_where2.
  pose proof (split_combine (where2_from 0 m)) as H.
  destruct (List.split (where2_from 0 m)) as [a b]. now apply H.
Qed.

Lemma np_where2_lengths (m : list (list bool)) :
  length (fst (np_where2 m)) = length (snd (np_where2 m)).
Proof.
  unfold np_where2. now rewrite length_fst_split, length_snd_split.
Qed.

Lemma np_where2_fst (m : list (list bool)) :
  fst (np_where2 m) = map fst (where2_from 0 m).
Proof.
  unfold np_where2. generalize (where2_from 0 m) as l.
  induction l as [|[a b] l IH]; simpl; [reflexivity|].
  destruct (List.split l) as [x y]. simpl in *. now f_equal.
Qed.

(** [b[a == s]]: the partners of [s]. *)
Lemma np_select_eq_In (a b : list Z) (s p : Z) :
  length a = length b ->
  (In p (np_select b (np_eq a s)) <-> In (s, p) (combine a b)).
Proof.
  revert b; induction a as [|x a IH]; intros [|y b] H; simpl in *;
    try discriminate; [tauto|].
  rewrite in_app_iff, IH by lia.
  destruct (Z.eqb_spec s x) as [->|Hne]; simpl; split.
  - intros [[->|[]]|H']; auto.
  - intros [H'|H']; [inversion H'; subst; auto | auto].
  - intros [[]|H']; auto.
  - intros [H'|H']; [inversion H'; subst; congruence | auto].
Qed.

(** ** Admissible candidates *)

Lemma add_rows_length (r s : list Z) :
  length (add_rows r s) = Nat.min (length r) (length s).
Proof. unfold add_rows. now rewrite length_map, length_combine. Qed.

Lemma sum_rows_length_le (rows : list (list Z)) (acc : list Z) :
  (length (fold_left add_rows rows acc) <= length acc)%nat.
Proof.
  revert acc; induction rows as [|r rows IH]; intros acc; simpl; [lia|].
  specialize (IH (add_rows acc r)). rewrite add_rows_length in IH. lia.
Qed.

Lemma add_rows_repeat (a b : Z) (w : nat) :
  add_rows (repeat a w) (repeat b w) = repeat (a + b) w.
Proof.
  unfold add_rows. induction w as [|w IH]; simpl; [reflexivity|].
  now rewrite IH.
Qed.

Lemma sum_rows_ones (w k : nat) (a : Z) :
  fold_left add_rows (repeat (repeat 1 w) k) (repeat a w)
  = repeat (a + Z.of_nat k) w.
Proof.
  revert a; induction k as [|k IH]; intros a.
  - simpl. now rewrite Z.add_0_r.
  - cbn [repeat fold_left]. rewrite add_rows_repeat, IH. f_equal. lia.
Qed.

Lemma py_clip_range (n i : Z) : 0 <= n -> 0 <= py_clip n i <= n.
Proof. unfold py_clip. destruct (Z.ltb_spec i 0); lia. Qed.

Lemma firstn_repeat_le {A} (x : A) (k n : nat) :
  (k <= n)%nat -> firstn k (repeat x n) = repeat x k.
Proof.
  revert n; induction k as [|k IH]; intros [|n] H; simpl; try lia; auto.
  f_equal. apply IH. lia.
Qed.

Lemma py_slice_repeat {A} (x : A) (n : nat) (b : Z) :
  py_slice (repeat x n) 0 b = repeat x (Z.to_nat (py_clip (Z.of_nat n) b)).
Proof.
  unfold py_slice, py_len. rewrite repeat_length.
  pose proof (py_clip_range (Z.of_nat n) b ltac:(lia)) as Hb.
  replace (py_clip (Z.of_nat n) 0) with 0
    by (unfold py_clip; simpl; lia).
  simpl. rewrite Z.sub_0_r. apply firstn_repeat_le. lia.
Qed.

Section Admissible.

Context {K : Kernels}.

(** Whatever the mask holds, a candidate start position lies inside the
    sliced range [[:d_shape]]. *)
Lemma admissible_range (mask_dil : list (list (list bool)))
      (n_timestamps : nat) (d_shape c : Z) (alpha : Q) (s p : Z) :
  let i_mask := admissible mask_dil n_timestamps d_shape c alpha in
  In (s, p) (combine (fst i_mask) (snd i_mask)) ->
  0 <= s < py_len mask_dil /\
  0 <= p < py_clip (Z.of_nat n_timestamps) d_shape.
Proof.
  intros i_mask. subst i_mask. unfold admissible.
  rewrite np_where2_pairs, where2_from_In, Z.sub_0_r.
  intros [Hs (row & Hrow & Hp)].
  apply np_where1_range in Hp.
  pose proof (py_clip_range (Z.of_nat n_timestamps) d_shape ltac:(lia)).
  split.
  - split; auto.
    assert (Z.to_nat s < length (map (map (fun c0 =>
              Qle_bool (inject_Z c * alpha) (inject_Z c0)))
              (map (fun sample => sum_rows
                 (Z.to_nat (py_clip (Z.of_nat n_timestamps) d_shape))
                 (map (fun row => map b2z (py_slice row 0 d_shape)) sample))
                 mask_dil)))%nat
      by (apply nth_error_Some; congruence).
    rewrite !length_map in H0. unfold py_len. lia.
  - rewrite nth_error_map in Hrow.
    destruct (nth_error _ (Z.to_nat s)) as [cnt|] eqn:E; [|discriminate].
    simpl in Hrow. inversion Hrow; subst.
    rewrite nth_error_map in E.
    destruct (nth_error mask_dil (Z.to_nat s)) as [sample|]; [|discriminate].
    simpl in E. inversion E; subst.
    unfold py_len in Hp. rewrite length_map in Hp.
    unfold sum_rows in Hp.
    match type of Hp with context [fold_left add_rows ?rows ?acc] =>
      pose proof (sum_rows_length_le rows acc) as Hle end.
    rewrite repeat_length in Hle. lia.
Qed.

(** On an all-true mask every cell counts [n_features] available
    channels: the candidates are all the pairs, or none. *)
Lemma admissible_ones (n_samples n_features n_timestamps : nat)
      (d_shape c : Z) (alpha : Q) :
  admissible (repeat (repeat (repeat true n_timestamps) n_features)
                     n_samples)
             n_timestamps d_shape c alpha
  = np_where2
      (repeat (repeat (Qle_bool (inject_Z c * alpha)
                                (inject_Z (Z.of_nat n_features)))
                      (Z.to_nat (py_clip (Z.of_nat n_timestamps) d_shape)))
              n_samples).
Proof.
  unfold admissible. f_equal.
  rewrite !map_repeat. f_equal.
  rewrite py_slice_repeat, map_repeat. simpl b2z.
  unfold sum_rows. rewrite sum_rows_ones, map_repeat. reflexivity.
Qed.

Lemma where_from_false (z : Z) (w : nat) :
  where_from z (repeat false w) = [].
Proof.
  revert z; induction w as [|w IHw]; intros z; simpl; auto.
Qed.

Lemma where2_from_false (i : Z) (w n : nat) :
  where2_from i (repeat (repeat false w) n) = [].
Proof.
  revert i; induction n as [|n IH]; intros i; simpl; [reflexivity|].
  rewrite IH, app_nil_r.
  unfold np_where1. now rewrite where_from_false.
Qed.

Lemma where2_true_In (w n : nat) (s p : Z) :
  In (s, p) (where2_from 0 (repeat (repeat true w) n)) <->
  0 <= s < Z.of_nat n /\ 0 <= p < Z.of_nat w.
Proof.
  rewrite where2_from_In, Z.sub_0_r. split.
  - intros [Hs (row & Hrow & Hp)].
    assert (Z.to_nat s < n)%nat.
    { rewrite <- (repeat_length (repeat true w) n).
      apply nth_error_Some. congruence. }
    apply nth_error_In, repeat_spec in Hrow. subst row.
    apply np_where1_range in Hp. unfold py_len in Hp.
    rewrite repeat_length in Hp. lia.
  - intros [Hs Hp]. split; [lia|]. exists (repeat true w). split.
    + rewrite nth_error_repeat by lia. reflexivity.
    + apply np_where1_In. split; [lia|].
      rewrite nth_error_repeat by lia. reflexivity.
Qed.

End Admissible.

Section Steps.

Context {K : Kernels}.

Lemma range_In (n i : Z) : In i (py_range n) <-> 0 <= i < n.
Proof.
  unfold py_range. rewrite in_map_iff. split.
  - intros (k & <- & Hk). apply in_seq in Hk. lia.
  - intros H. exists (Z.to_nat i). split; [lia|]. apply in_seq. lia.
Qed.

Lemma np_eq_where_In (a : list Z) (v i : Z) :
  In i (np_where1 (np_eq a v)) <->
  0 <= i /\ nth_error a (Z.to_nat i) = Some v.
Proof.
  unfold np_eq. rewrite np_where1_In, nth_error_map.
  destruct (nth_error a (Z.to_nat i)) as [x|]; simpl.
  - destruct (Z.eqb_spec v x); split; intros [H1 H2]; split; auto;
      try congruence; inversion H2; congruence.
  - split; intros [_ H]; discriminate.
Qed.

(** The two leading axes of the occupancy mask. *)
Lemma mask_ones_index (n_dil ns nf nt : nat) (nrm : bool) (i_d : Z) :
  0 <= i_d < Z.of_nat n_dil ->
  (mask_norm <- py_index (np_ones5 2 n_dil ns nf nt) (b2z nrm) ;;
   py_index mask_norm i_d)
  = Ok (repeat (repeat (repeat true nt) nf) ns).
Proof.
  intros H. unfold np_ones5.
  assert (E : py_index (repeat (repeat (repeat (repeat (repeat true nt) nf)
                                               ns) n_dil) 2) (b2z nrm)
              = Ok (repeat (repeat (repeat (repeat true nt) nf) ns) n_dil))
    by (destruct nrm; reflexivity).
  rewrite E. simpl.
  rewrite <- (Z2Nat.id i_d) by lia. apply py_index_nat.
  apply nth_error_repeat. lia.
Qed.

Variable X : tensor3.
Variable P : shapelets.
Variable a1 a2 : list Z.
Variable alpha : Q.
Variable use_phase : bool.

(** A shapelet with no admissible candidate is skipped: the state is left
    as it was. *)
Lemma shapelet_step_skipped (n_dil : nat) (i_d i_shp : Z) (st : gen_state)
      (d l c : Z) (nrm : bool) :
  py_index (dilations P) i_shp = Ok d ->
  py_index (lengths P) i_shp = Ok l ->
  py_index (normalize P) i_shp = Ok nrm ->
  py_index (n_channels P) i_shp = Ok c ->
  st_mask_sampling st =
    np_ones5 2 n_dil (n_samples_of X) (n_features_of X)
      (n_timestamps_of X) ->
  0 <= i_d < Z.of_nat n_dil ->
  Qle_bool (inject_Z c * alpha) (inject_Z (Z.of_nat (n_features_of X)))
  = false ->
  shapelet_step X P a1 a2 alpha use_phase i_d st i_shp = Ok st.
Proof.
  intros Hd Hl Hn Hc Hmask Hid Hq.
  unfold shapelet_step. rewrite Hd, Hl, Hn, Hc. cbn [bind].
  rewrite Hmask.
  pose proof (mask_ones_index n_dil (n_samples_of X) (n_features_of X)
                (n_timestamps_of X) nrm i_d Hid) as Hm.
  apply bind_Ok in Hm. destruct Hm as (mn & Hmn & Hmd).
  rewrite Hmn. cbn [bind]. rewrite Hmd. cbn [bind].
  rewrite admissible_ones, Hq, np_where2_fst, where2_from_false.
  reflexivity.
Qed.

End Steps.

Lemma foldM_fixed {S A} (body : S -> A -> result S) (xs : list A) (s : S) :
  (forall x, In x xs -> body s x = Ok s) -> foldM body xs s = Ok s.
Proof.
  induction xs as [|x xs IH]; simpl; intros H; [reflexivity|].
  rewrite (H x) by now left. simpl. apply IH. intros; apply H; now right.
Qed.

Lemma np_full_nonneg {A} (x : A) (n : Z) :
  0 <= n -> np_full x n = Ok (repeat x (Z.to_nat n)).
Proof. unfold np_full. destruct (Z.ltb_spec n 0); [lia | reflexivity]. Qed.

Lemma too_many_channels (c : Z) (nf : nat) (alpha : Q) :
  1 <= c -> (inject_Z (Z.of_nat nf) < alpha)%Q ->
  Qle_bool (inject_Z c * alpha) (inject_Z (Z.of_nat nf)) = false.
Proof.
  intros Hc Ha.
  destruct (Qle_bool _ _) eqn:E; [|reflexivity].
  apply Qle_bool_iff in E. exfalso.
  assert (0 <= inject_Z (Z.of_nat nf))%Q
    by (rewrite <- (Zle_Qle 0); lia).
  assert (1 <= inject_Z c)%Q by (rewrite <- (Zle_Qle 1); lia).
  assert (0 <= (inject_Z c - 1) * alpha)%Q
    by (apply Qmult_le_0_compat; Lqa.lra).
  Lqa.lra.
Qed.

Section ChannelCounts.

Context {K : Kernels}.

Lemma sampler_channel_counts (n_shapelets : Z) (shapelet_sizes : list Z)
      (n_timestamps : Z) (p_norm : Q) (max_channels : Z)
      (prime_scheme : bool) (g g' : rng) (P : shapelets) :
  M_SL_init_random_shapelet_params n_shapelets shapelet_sizes n_timestamps
    p_norm max_channels prime_scheme g = Ok (P, g') ->
  max_channels < 2 ^ 63 ->
  Forall (fun c => 1 <= c <= max_channels) (n_channels P).
Proof.
  unfold M_SL_init_random_shapelet_params. intros H Hmax.
  bind_inv H as [ls g1] Hls. bind_inv H as [ds g2] Hd.
  bind_inv H as th Hth. bind_inv H as [cs g3] Hcs.
  bind_inv H as ci Hci. bind_inv H as size Hsize.
  bind_inv H as vs Hvs. bind_inv H as [us g4] Hus.
  inversion H; subst; simpl.
  apply Forall_map.
  apply (choice_size_Forall (fun c => 0 <= c < max_channels)) in Hcs.
  - eapply Forall_impl; [|exact Hcs]. intros c Hc. simpl in Hc.
    rewrite wrap64_small by (unfold int64_range; lia). lia.
  - apply Forall_forall. intros c Hc. now apply range_In in Hc.
Qed.

Lemma np_unique_In (x : Z) (l : list Z) : In x (np_unique l) <-> In x l.
Proof.
  unfold np_unique.
  assert (Hins : forall y l', In x (insert_unique y l') <-> x = y \/ In x l').
  { intros y l'. induction l' as [|z l' IH]; simpl.
    - intuition.
    - destruct (Z.ltb_spec y z); [simpl; intuition|].
      destruct (Z.eqb_spec y z); simpl; [subst; intuition|].
      rewrite IH. intuition. }
  induction l as [|y l IH]; simpl; [tauto|].
  rewrite Hins, IH. intuition.
Qed.

End ChannelCounts.

Section NoValidation.

Context {K : Kernels}.

Lemma shapelets_eta (P : shapelets) :
  mk_shapelets (values P) (lengths P) (dilations P) (threshold P)
    (normalize P) (n_channels P) (channel_ids P) = P.
Proof. now destruct P. Qed.

(** C2, as the code has it.  [generate] checks nothing before sampling:
    it seeds the generator and runs the parameter sampler on every input,
    and an [alpha] above the channel count is accepted whatever the
    admissible lengths and [max_channels] are.  No shapelet then has an
    admissible candidate, and [generate] returns what the sampler returned,
    buffers and provenance zero-filled; it raises exactly when the sampler
    raises. *)
Theorem generate_without_validation (g0 : rng) (X : tensor3) (y : list Z)
        (n_shapelets : Z) (shapelet_sizes : list Z) (r_seed : Z)
        (p_norm p_min p_max alpha : Q) (use_phase : bool)
        (max_channels : Z) (prime_scheme : bool) :
  max_channels < 2 ^ 63 ->
  (inject_Z (Z.of_nat (n_features_of X)) < alpha)%Q ->
  M_SL_generate_shapelet g0 X y n_shapelets shapelet_sizes r_seed p_norm
    p_min p_max alpha use_phase max_channels prime_scheme
  = ('(P, g1) <-
       M_SL_init_random_shapelet_params n_shapelets shapelet_sizes
         (Z.of_nat (n_timestamps_of X)) p_norm max_channels prime_scheme
         (seed r_seed) ;;
     Ok (P, repeat 0 (Z.to_nat n_shapelets),
         repeat 0 (Z.to_nat n_shapelets), g1)).
Proof.
  intros Hmax Halpha.
  unfold M_SL_generate_shapelet, generate_run.
  destruct (M_SL_init_random_shapelet_params _ _ _ _ _ _ _)
    as [[P g1]|e] eqn:Hs; [|reflexivity].
  cbn [bind].
  pose proof (sampler_shape _ _ _ _ _ _ _ _ _ Hs)
    as (Hn & Hl & Hd & _ & Hnm & Hc & _).
  pose proof (sampler_channel_counts _ _ _ _ _ _ _ _ _ Hs Hmax) as Hcs.
  rewrite !np_full_nonneg by assumption. cbn [bind].
  destruct (values_offsets_Ok (n_channels P) (lengths P)) as (p & _ & ->);
    [congruence|].
  cbn [bind].
  rewrite foldM_fixed.
  - cbn [bind st_values st_channel_ids st_id_samples st_start_positions
           st_rng]. now rewrite shapelets_eta.
  - intros i_d Hid. apply range_In in Hid.
    unfold dilation_step.
    destruct (py_index_in_range (np_unique (dilations P)) i_d Hid)
      as (u & -> & _).
    cbn [bind]. apply foldM_fixed. intros i_shp Hi.
    apply np_eq_where_In in Hi. destruct Hi as [Hi0 Hi].
    assert (Hrange : 0 <= i_shp < n_shapelets).
    { assert (Z.to_nat i_shp < length (dilations P))%nat
        by (apply nth_error_Some; congruence). lia. }
    destruct (py_index_in_range (dilations P) i_shp) as (d & Hdi & _);
      [unfold py_len; lia|].
    destruct (py_index_in_range (lengths P) i_shp) as (l & Hli & _);
      [unfold py_len; lia|].
    destruct (py_index_in_range (normalize P) i_shp) as (nrm & Hni & _);
      [unfold py_len; lia|].
    destruct (py_index_in_range (n_channels P) i_shp) as (c & Hci & Hcn);
      [unfold py_len; lia|].
    eapply (shapelet_step_skipped X P _ _ alpha use_phase
              (length (np_unique (dilations P)))); eauto.
    apply too_many_channels; auto.
      rewrite Forall_forall in Hcs.
      apply (Hcs c). eapply nth_error_In; eauto.
Qed.

End NoValidation.

(** ** The generator on the examples *)

Lemma demo_accepts_large_alpha :
  is_ok (demo_generate_with [2; 3; 4] 0 3 2) = true.
Proof. reflexivity. Qed.

Lemma demo_accepts_full_length :
  is_ok (demo_generate_with [7] 0 1 2) = true.
Proof. reflexivity. Qed.

Lemma demo_accepts_many_channels :
  is_ok (demo_generate_with [2; 3; 4] 0 1 3) = true.
Proof. reflexivity. Qed.

(** With [max_channels = 3] over two channels, the run of seed 1 raises, but
    only in the generation loop: the sampler has returned, and consumed its
    draws, before. *)
Lemma demo_raises_after_sampling :
  demo_generate_with [2; 3; 4] 1 (1 # 2) 3 = Raise ValueError /\
  M_SL_init_random_shapelet_params (K := demo) 3 [2; 3; 4] 7 0%Q 3 false
    (demo_script 1)
  = Ok (mk_shapelets (K := demo) (repeat 0%Q 20) [2; 3; 4] [1; 2; 1]
          [0; 0; 0]%Q [false; false; false] [3; 2; 2] (repeat 0 7),
        [8; 2; 1; 5; 1; 5; 1; 1; 1; 0; 0]%N).
Proof. split; reflexivity. Qed.

(** C2, counterexample.  [generate] does not raise on every input that has
    an admissible length at or above the timestamp count, nor on every input
    whose [max_channels] exceeds the channel count, nor on every input whose
    [alpha] lies outside [[0, 1]]: the example runs to completion with
    length 7 on 7 timestamps, with [max_channels = 3] on 2 channels, and with
    [alpha = 3]. *)
Lemma generate_fail_fast_counterexample :
  ~ rejects (K := demo)
      (fun X shapelet_sizes _ _ =>
         exists l, In l shapelet_sizes /\ Z.of_nat (n_timestamps_of X) <= l) /\
  ~ rejects (K := demo)
      (fun X _ _ max_channels => Z.of_nat (n_features_of X) < max_channels) /\
  ~ rejects (K := demo)
      (fun _ _ alpha _ => ~ (0 <= alpha <= 1)%Q).
Proof.
  repeat split; intros H.
  - destruct (H [] demo_X [0; 1] 3 [7] 0 0%Q 0%Q 100%Q 1%Q false 2 false)
      as [e He].
    + exists 7. split; [now left | simpl; lia].
    + pose proof demo_accepts_full_length as Hok.
      unfold demo_generate_with in Hok. rewrite He in Hok. discriminate.
  - destruct (H [] demo_X [0; 1] 3 [2; 3; 4] 0 0%Q 0%Q 100%Q 1%Q false 3
                false) as [e He].
    + simpl; lia.
    + pose proof demo_accepts_many_channels as Hok.
      unfold demo_generate_with in Hok. rewrite He in Hok. discriminate.
  - destruct (H [] demo_X [0; 1] 3 [2; 3; 4] 0 0%Q 0%Q 100%Q 3%Q false 2
                false) as [e He].
    + intros [_ Hle]. revert Hle. unfold Qle; simpl; lia.
    + pose proof demo_accepts_large_alpha as Hok.
      unfold demo_generate_with in Hok. rewrite He in Hok. discriminate.
Qed.

Lemma generate_without_validation_witness :
  demo_generate_with [2; 3; 4] 0 3 2
  = ('(P, g1) <-
       M_SL_init_random_shapelet_params (K := demo) 3 [2; 3; 4] 7 0%Q 2 false
         (demo_script 0) ;;
     Ok (P, [0; 0; 0], [0; 0; 0], g1)).
Proof.
  apply (generate_without_validation (K := demo) [] demo_X [0; 1] 3 [2; 3; 4]
           0 0%Q 0%Q 100%Q 3%Q false 2 false).
  - reflexivity.
  - reflexivity.
Defined.

(** C3, on the code.  Two shapelets of one dilation and one normalisation
    mode are drawn with [alpha = 1] from a single one-channel series.  The
    first takes positions 2, 3, 4 of channel 0; the second is then drawn
    from the very same positions of the same channel, and when the run ends
    every cell of the occupancy mask is still marked available. *)
Theorem occupancy_never_marked :
  overlap_run
  = Ok (mk_shapelets (K := overlap) (repeat 0%Q 6) [3; 3] [1; 1] [0; 0]%Q
          [false; false] [1; 1] [0; 0],
        mk_gen_state (K := overlap)
          [3; 4; 5; 3; 4; 5]%Q      (* values *)
          [0; 0]                    (* channel_ids *)
          [0; 0]                    (* id_samples *)
          [2; 2]                    (* start_positions *)
          (np_ones5 2 1 1 1 5)      (* mask_sampling *)
          [true; true]              (* mask_return *)
          []).
Proof. reflexivity. Qed.

(** C4, on the code.  With [alpha = 2] the only shapelet of the example has
    no admissible candidate: the run completes and the slices of the
    shapelet keep their zeros, yet its flag in [mask_return] is still true,
    the flags are not returned, and what the caller receives is, component
    for component, what it receives from the run with [alpha = 1], in which
    the shapelet is drawn (from a series of zeros, at sample 0 and position
    0). *)
Theorem degenerate_shapelet_not_reported :
  fst (admissible (repeat (repeat (repeat true 4) 1) 1) 4 3 1 2) = [] /\
  fst (admissible (repeat (repeat (repeat true 4) 1) 1) 4 3 1 1)
  = [0; 0; 0] /\
  flat_run 2
  = Ok (mk_shapelets (K := flat) [0; 0]%Q [2] [1] [0]%Q [false] [1] [0],
        mk_gen_state (K := flat)
          [0; 0]%Q                  (* values *)
          [0]                       (* channel_ids *)
          [0]                       (* id_samples *)
          [0]                       (* start_positions *)
          (np_ones5 2 1 1 1 4)      (* mask_sampling *)
          [true]                    (* mask_return *)
          []) /\
  returned (flat_generate 2)
  = Ok (mk_shapelets (K := flat) [0; 0]%Q [2] [1] [0]%Q [false] [1] [0],
        [0], [0]) /\
  returned (flat_generate 2) = returned (flat_generate 1).
Proof. repeat split; reflexivity. Qed.

Lemma py_set_index_nonneg {A} (l : list A) (i : Z) (v : A) (l' : list A) :
  0 <= i -> py_set_index l i v = Ok l' ->
  i < py_len l /\
  l' = firstn (Z.to_nat i) l ++ v :: skipn (S (Z.to_nat i)) l.
Proof.
  unfold py_set_index. intros Hi.
  destruct (Z.ltb_spec i 0); [lia|].
  destruct (Z.ltb_spec i 0); [lia|]. simpl.
  destruct (Z.leb_spec (py_len l) i); [discriminate|].
  intros H'; inversion H'; auto.
Qed.

Lemma py_set_index_in_range {A} (l : list A) (i : Z) (v : A) :
  0 <= i < py_len l ->
  py_set_index l i v
  = Ok (firstn (Z.to_nat i) l ++ v :: skipn (S (Z.to_nat i)) l).
Proof.
  unfold py_set_index. intros Hi.
  destruct (Z.ltb_spec i 0); [lia|].
  destruct (Z.ltb_spec i 0); [lia|]. simpl.
  destruct (Z.leb_spec (py_len l) i); [lia|]. reflexivity.
Qed.

Lemma update_length {A} (l : list A) (j : nat) (v : A) :
  (j < length l)%nat ->
  length (firstn j l ++ v :: skipn (S j) l) = length l.
Proof.
  intros H. rewrite length_app, length_firstn. cbn [length].
  rewrite length_skipn. lia.
Qed.

Lemma update_nth_same {A} (l : list A) (j : nat) (v : A) :
  (j < length l)%nat ->
  nth_error (firstn j l ++ v :: skipn (S j) l) j = Some v.
Proof.
  intros H. rewrite nth_error_app2; rewrite length_firstn;
    [|lia].
  replace (j - Nat.min j (length l))%nat with 0%nat by lia. reflexivity.
Qed.

Lemma update_nth_other {A} (l : list A) (j i : nat) (v : A) :
  (j < length l)%nat -> i <> j ->
  nth_error (firstn j l ++ v :: skipn (S j) l) i = nth_error l i.
Proof.
  intros H Hne.
  destruct (Nat.lt_ge_cases i j) as [Hlt|Hge].
  - rewrite nth_error_app1 by (rewrite length_firstn; lia).
    rewrite nth_error_firstn.
    destruct (Nat.ltb_spec i j); [reflexivity | lia].
  - rewrite nth_error_app2 by (rewrite length_firstn; lia).
    rewrite length_firstn.
    replace (i - Nat.min j (length l))%nat with (S (i - S j)) by lia.
    cbn [nth_error]. rewrite nth_error_skipn. f_equal. lia.
Qed.

Section StartUpdates.

Context {K : Kernels}.

Lemma choice_In {A} (a : list A) (g g' : rng) (x : A) :
  choice a g = Ok (x, g') -> In x a.
Proof.
  unfold choice. destruct a as [|y a]; [discriminate|].
  unfold pick. destruct (rand_below _ g) as [i g1]. intros H.
  assert (Hx : nth (Z.to_nat i) (y :: a) y = x) by (now inversion H).
  rewrite <- Hx.
  destruct (nth_in_or_default (Z.to_nat i) (y :: a) y) as [Hin|Hd].
  - exact Hin.
  - rewrite Hd. now left.
Qed.

(** In [int64] arithmetic the number of start positions of a fitting
    window is the exact difference. *)
Lemma d_shape_of_fits (X : tensor3) (l d : Z) :
  Z.of_nat (n_timestamps_of X) < 2 ^ 63 ->
  fits_series (Z.of_nat (n_timestamps_of X)) l d ->
  d_shape_of X false l d = Z.of_nat (n_timestamps_of X) - (l - 1) * d.
Proof.
  intros HT (Hl & Hd & Hfit). unfold d_shape_of.
  assert (0 <= (l - 1) * d) by nia.
  assert (l - 1 <= (l - 1) * d) by nia.
  rewrite (wrap64_small (l - 1)) by (unfold int64_range; lia).
  rewrite (wrap64_small ((l - 1) * d)) by (unfold int64_range; lia).
  apply wrap64_small. unfold int64_range; lia.
Qed.

(** What one shapelet may change of the recorded start positions: its own
    entry, to a position among its candidates. *)
Lemma shapelet_step_start (X : tensor3) (P : shapelets) (a1 a2 : list Z)
      (alpha : Q) (use_phase : bool) (i_d i_shp : Z) (st st' : gen_state) :
  0 <= i_shp ->
  shapelet_step X P a1 a2 alpha use_phase i_d st i_shp = Ok st' ->
  st_start_positions st' = st_start_positions st \/
  exists l d c mask_dil s p,
    nth_error (lengths P) (Z.to_nat i_shp) = Some l /\
    nth_error (dilations P) (Z.to_nat i_shp) = Some d /\
    (let i_mask := admissible mask_dil (n_timestamps_of X)
                     (d_shape_of X use_phase l d) c alpha in
     In (s, p) (combine (fst i_mask) (snd i_mask))) /\
    i_shp < py_len (st_start_positions st) /\
    st_start_positions st'
    = firstn (Z.to_nat i_shp) (st_start_positions st)
      ++ p :: skipn (S (Z.to_nat i_shp)) (st_start_positions st).
Proof.
  intros Hi. unfold shapelet_step. intros H.
  bind_inv H as d Hd. bind_inv H as l Hl. bind_inv H as nrm Hn.
  bind_inv H as c Hc. bind_inv H as mn Hmn. bind_inv H as md Hmd.
  destruct (0 <? py_len _); [|inversion H; auto].
  bind_inv H as [s g] Hs. bind_inv H as ids Hids.
  bind_inv H as [p g1] Hp. bind_inv H as sps Hsps.
  bind_inv H as v0 Hv0. bind_inv H as [chans g2] Hch.
  bind_inv H as vs Hvs. bind_inv H as lo1 Hlo1. bind_inv H as hi1 Hhi1.
  bind_inv H as values' Hvalues. bind_inv H as lo2 Hlo2.
  bind_inv H as hi2 Hhi2. bind_inv H as cids Hcids.
  inversion H; subst. simpl. right.
  apply py_index_nonneg_inv in Hd, Hl; auto.
  apply py_set_index_nonneg in Hsps; auto. destruct Hsps as [Hlt ->].
  exists l, d, c, md, s, p. repeat split; try tauto.
  apply choice_In in Hp.
  apply np_select_eq_In in Hp; [exact Hp|].
  apply np_where2_lengths.
Qed.

End StartUpdates.

Section StartPositions.

Context {K : Kernels}.

Lemma Forall2_nth_error {A B} (R : A -> B -> Prop) (l : list A)
      (l' : list B) (i : nat) (x : A) (y : B) :
  Forall2 R l l' -> nth_error l i = Some x -> nth_error l' i = Some y ->
  R x y.
Proof.
  intros H. revert i. induction H as [|a b l l' Hab H IH]; intros i Hx Hy.
  - destruct i; discriminate.
  - destruct i as [|i]; simpl in *.
    + inversion Hx; inversion Hy; subst; auto.
    + eauto.
Qed.

Lemma shapelet_step_starts_within (X : tensor3) (P : shapelets)
      (a1 a2 : list Z) (alpha : Q) (i_d i_shp : Z) (st st' : gen_state) :
  Z.of_nat (n_timestamps_of X) < 2 ^ 63 ->
  Forall2 (fits_series (Z.of_nat (n_timestamps_of X)))
          (lengths P) (dilations P) ->
  0 <= i_shp ->
  shapelet_step X P a1 a2 alpha false i_d st i_shp = Ok st' ->
  starts_within (Z.of_nat (n_timestamps_of X)) (lengths P) (dilations P)
                (st_start_positions st) ->
  starts_within (Z.of_nat (n_timestamps_of X)) (lengths P) (dilations P)
                (st_start_positions st').
Proof.
  intros HT Hfit Hi Hstep [Hlen Hin].
  apply shapelet_step_start in Hstep; auto.
  destruct Hstep as [->|(l & d & c & md & s & p & Hl & Hd & Hc & Hlt & ->)];
    [split; auto|].
  unfold py_len in Hlt.
  split; [rewrite update_length; [exact Hlen | lia]|].
  intros i l' d' p' Hl' Hd' Hp'.
  destruct (Nat.eq_dec i (Z.to_nat i_shp)) as [->|Hne].
  - rewrite update_nth_same in Hp' by lia. inversion Hp'; subst p'.
    assert (l' = l) by congruence. assert (d' = d) by congruence. subst.
    pose proof (Forall2_nth_error _ _ _ _ _ _ Hfit Hl Hd) as Hf.
    apply admissible_range in Hc. destruct Hc as [_ Hp].
    rewrite (d_shape_of_fits X l d HT Hf) in Hp.
    destruct Hf as (H1 & H2 & H3).
    unfold py_clip in Hp.
    destruct (Z.ltb_spec (Z.of_nat (n_timestamps_of X) - (l - 1) * d) 0);
      nia.
  - rewrite update_nth_other in Hp' by lia. eauto.
Qed.

Lemma generate_starts_within (X : tensor3) (y : list Z) (n_shapelets : Z)
      (shapelet_sizes : list Z) (r_seed : Z) (p_norm p_min p_max alpha : Q)
      (max_channels : Z) (prime_scheme : bool)
      (P : shapelets) (st : gen_state) :
  Z.of_nat (n_timestamps_of X) < 2 ^ 63 ->
  generate_run X y n_shapelets shapelet_sizes r_seed p_norm p_min p_max
    alpha false max_channels prime_scheme = Ok (P, st) ->
  Forall2 (fits_series (Z.of_nat (n_timestamps_of X)))
          (lengths P) (dilations P) ->
  starts_within (Z.of_nat (n_timestamps_of X)) (lengths P) (dilations P)
                (st_start_positions st).
Proof.
  intros HT Hrun Hfit.
  apply generate_run_inv in Hrun.
  destruct Hrun as (g1 & a1 & Hs & Ha1 & Hloop).
  pose proof (sampler_shape _ _ _ _ _ _ _ _ _ Hs) as (Hn & Hl & _).
  revert Hloop.
  apply (foldM_invariant
           (fun s => starts_within (Z.of_nat (n_timestamps_of X))
                       (lengths P) (dilations P) (st_start_positions s))).
  - intros s i_d s' _ Hs0 Hstep. unfold dilation_step in Hstep.
    bind_inv Hstep as u Hu. revert Hstep.
    apply (foldM_invariant
             (fun s => starts_within (Z.of_nat (n_timestamps_of X))
                         (lengths P) (dilations P)
                         (st_start_positions s))); auto.
    intros s0 i_shp s1 Hin Hs1 Hstep.
    apply np_eq_where_In in Hin. destruct Hin as [Hi _].
    eapply shapelet_step_starts_within; eauto.
  - simpl. split; [now rewrite repeat_length|].
    intros i l d p Hli Hdi Hpi.
    apply nth_error_In, repeat_spec in Hpi. subst p.
    destruct (Forall2_nth_error _ _ _ _ _ _ Hfit Hli Hdi) as (H1 & H2 & H3).
    lia.
Qed.

End StartPositions.

Section StartBound.

Context {K : Kernels}.

(** C8.  Without phase invariance, the largest valid start index of a window
    of length [l] and dilation [d] in [T] timestamps is exactly
    [T - (l-1)*d - 1].  For every shapelet of a set that [generate] returns
    with [use_phase] disabled: [d_shape] is [T - (l-1)*d]; whatever the
    occupancy, no candidate start position exceeds [T - (l-1)*d - 1]; on the
    unmarked occupancy that position is a candidate as soon as the
    availability threshold is met; and the recorded start position [p]
    satisfies [p + (l-1)*d < T]. *)
Theorem start_positions_within_series (g0 : rng) (X : tensor3) (y : list Z)
        (n_shapelets : Z) (shapelet_sizes : list Z) (r_seed : Z)
        (p_norm p_min p_max alpha : Q) (max_channels : Z)
        (prime_scheme : bool) (S : shapelets) (ids starts : list Z)
        (g' : rng) :
  Z.of_nat (n_timestamps_of X) < 2 ^ 63 ->
  M_SL_generate_shapelet g0 X y n_shapelets shapelet_sizes r_seed p_norm
    p_min p_max alpha false max_channels prime_scheme
  = Ok (S, ids, starts, g') ->
  Forall2 (fits_series (Z.of_nat (n_timestamps_of X)))
          (lengths S) (dilations S) ->
  forall i l d,
    0 <= i ->
    py_index (lengths S) i = Ok l -> py_index (dilations S) i = Ok d ->
    d_shape_of X false l d = Z.of_nat (n_timestamps_of X) - (l - 1) * d /\
    (forall mask_dil c a s p,
        In (s, p) (candidates mask_dil (n_timestamps_of X)
                     (d_shape_of X false l d) c a) ->
        0 <= p <= Z.of_nat (n_timestamps_of X) - (l - 1) * d - 1) /\
    (forall c,
        (1 <= n_samples_of X)%nat ->
        Qle_bool (inject_Z c * alpha)
                 (inject_Z (Z.of_nat (n_features_of X))) = true ->
        In (0, Z.of_nat (n_timestamps_of X) - (l - 1) * d - 1)
           (candidates (fresh_mask X) (n_timestamps_of X)
              (d_shape_of X false l d) c alpha)) /\
    exists p,
      py_index starts i = Ok p /\
      0 <= p /\ p + (l - 1) * d < Z.of_nat (n_timestamps_of X).
Proof.
  intros HT Hgen Hfit i l d Hi Hl Hd.
  apply generate_inv in Hgen.
  destruct Hgen as (P & st & Hrun & -> & _ & -> & _).
  simpl in *.
  pose proof (generate_starts_within _ _ _ _ _ _ _ _ _ _ _ _ _ HT Hrun Hfit)
    as [Hlen Hstarts].
  apply py_index_nonneg_inv in Hl, Hd; auto.
  destruct Hl as [Hl Hli]. destruct Hd as [Hd _].
  pose proof (Forall2_nth_error _ _ _ _ _ _ Hfit Hl Hd) as Hf.
  pose proof (d_shape_of_fits X l d HT Hf) as Hshape.
  destruct Hf as (H1 & H2 & H3).
  assert (Hclip : py_clip (Z.of_nat (n_timestamps_of X))
                    (Z.of_nat (n_timestamps_of X) - (l - 1) * d)
                  = Z.of_nat (n_timestamps_of X) - (l - 1) * d).
  { unfold py_clip.
    destruct (Z.ltb_spec (Z.of_nat (n_timestamps_of X) - (l - 1) * d) 0);
      nia. }
  split; [exact Hshape|]. unfold d_shape_of in Hshape. rewrite Hshape.
  repeat split.
  - apply admissible_range in H. lia.
  - apply admissible_range in H. rewrite Hclip in H. lia.
  - intros c Hns Hq. unfold candidates, fresh_mask.
    rewrite admissible_ones, Hq, np_where2_pairs, Hclip.
    apply where2_true_In. nia.
  - destruct (py_index_in_range (st_start_positions st) i) as (p & Hp & Hpn).
    { unfold py_len in *. lia. }
    exists p. split; auto. eapply Hstarts; eauto.
Qed.

End StartBound.

Lemma start_positions_within_series_witness :
  d_shape_of (K := demo) demo_X false 3 2 = 7 - (3 - 1) * 2 /\
  (forall mask_dil c a s p,
      In (s, p) (candidates (K := demo) mask_dil 7
                   (d_shape_of (K := demo) demo_X false 3 2) c a) ->
      0 <= p <= 7 - (3 - 1) * 2 - 1) /\
  (forall c,
      (1 <= 2)%nat ->
      Qle_bool (inject_Z c * 1) (inject_Z 2) = true ->
      In (0, 7 - (3 - 1) * 2 - 1)
         (candidates (K := demo) (fresh_mask (K := demo) demo_X) 7
            (d_shape_of (K := demo) demo_X false 3 2) c 1)) /\
  exists p,
    py_index demo_start_positions 1 = Ok p /\
    0 <= p /\ p + (3 - 1) * 2 < 7.
Proof.
  apply (start_positions_within_series (K := demo) [] demo_X [0; 1] 3
           [2; 3; 4] 0 0%Q 0%Q 100%Q 1%Q 2 false demo_S demo_id_samples
           demo_start_positions [] ltac:(reflexivity) ltac:(reflexivity)
           ltac:(repeat constructor; simpl; lia) 1 3 2
           ltac:(lia) ltac:(reflexivity) ltac:(reflexivity)).
Defined.

(** ** The dilation draw over the reals *)

Lemma ln2_pos : (0 < ln 2)%R.
Proof. rewrite <- ln_1. apply ln_increasing; lra. Qed.

Lemma upper_bound_nonneg (q : Z) : 1 <= q -> (0 <= upper_bound q)%R.
Proof.
  intros Hq. unfold upper_bound, log2.
  assert (1 <= IZR q)%R by now apply IZR_le.
  assert (0 <= ln (IZR q))%R.
  { rewrite <- ln_1. destruct (Req_dec 1 (IZR q)) as [<-|Hne]; [lra|].
    left. apply ln_increasing; lra. }
  pose proof ln2_pos.
  apply Rmult_le_pos; [assumption|]. left. now apply Rinv_0_lt_compat.
Qed.

Lemma exp2_upper_bound (q : Z) : 1 <= q -> Rpower 2 (upper_bound q) = IZR q.
Proof.
  intros Hq. unfold Rpower, upper_bound, log2.
  assert (0 < IZR q)%R by (apply IZR_lt; lia).
  pose proof ln2_pos.
  replace (ln (IZR q) / ln 2 * ln 2)%R with (ln (IZR q)) by (field; lra).
  now apply exp_ln.
Qed.

Lemma Rpower2_monotone (x y : R) : (x <= y)%R -> (Rpower 2 x <= Rpower 2 y)%R.
Proof.
  intros H. destruct (Req_dec x y) as [->|Hne]; [lra|].
  left. apply Rpower_lt; lra.
Qed.

Lemma uniform_range (low high u : R) :
  (low <= high)%R -> (0 <= u <= 1)%R ->
  (low <= uniform low high u <= high)%R.
Proof. unfold uniform. intros H Hu. nra. Qed.

(** The floor of [2 ** e], for an exponent between 0 and [log2 q], lies
    between 1 and [q]. *)
Lemma floor_exp2_bounds (q : Z) (e : R) :
  1 <= q -> (0 <= e <= upper_bound q)%R ->
  1 <= Zfloor (Rpower 2 e) <= q.
Proof.
  intros Hq [He0 He1].
  assert (H1 : (1 <= Rpower 2 e)%R).
  { rewrite <- (Rpower_O 2) by lra. now apply Rpower2_monotone. }
  assert (H2 : (Rpower 2 e <= IZR q)%R).
  { rewrite <- (exp2_upper_bound q Hq). now apply Rpower2_monotone. }
  split.
  - now apply Zfloor_lub.
  - apply le_IZR. pose proof (Zfloor_bound (Rpower 2 e)). lra.
Qed.

Lemma Q2R_unit (z : Z) (res : positive) :
  (0 <= Q2R ((z mod Zpos res) # res) <= 1)%R.
Proof.
  pose proof (Z.mod_pos_bound z (Zpos res) ltac:(lia)) as [H0 H1].
  unfold Q2R; simpl.
  assert (0 < IZR (Zpos res))%R by (apply IZR_lt; lia).
  assert (0 <= IZR (z mod Z.pos res))%R by (apply IZR_le; lia).
  assert (IZR (z mod Z.pos res) <= IZR (Zpos res))%R by (apply IZR_le; lia).
  split.
  - apply Rmult_le_pos; [assumption|]. left. now apply Rinv_0_lt_compat.
  - apply (Rmult_le_reg_r (IZR (Z.pos res))); [assumption|].
    rewrite Rmult_assoc, Rinv_l by lra. lra.
Qed.

Lemma real_dilation_bounds (q : Z) (u : Q) :
  1 <= q -> (0 <= Q2R u <= 1)%R ->
  (0 <= uniform 0 (upper_bound q) (Q2R u) <= upper_bound q)%R /\
  1 <= real_dilation q u <= q.
Proof.
  intros Hq Hu.
  pose proof (uniform_range 0 (upper_bound q) (Q2R u)
                (upper_bound_nonneg q Hq) Hu) as He.
  split; [exact He|]. unfold real_dilation. now apply floor_exp2_bounds.
Qed.

Section RealSampler.

Context {K : Kernels}.

(** The unrestricted scheme: one length and one unit draw per shapelet. *)
Lemma sampler_unrestricted_inv (n_shapelets : Z) (shapelet_sizes : list Z)
      (n_timestamps : Z) (p_norm : Q) (max_channels : Z) (g g' : rng)
      (P : shapelets) :
  M_SL_init_random_shapelet_params n_shapelets shapelet_sizes n_timestamps
    p_norm max_channels false g = Ok (P, g') ->
  exists ls g1 us,
    choice_size shapelet_sizes n_shapelets g = Ok (ls, g1) /\
    us = fst (draws (length ls) rand_unit g1) /\
    lengths P = map wrap64 ls /\
    dilations P =
      map (fun qu => float_dilation (fst qu) (snd qu))
          (combine (map (fun l => floor_divide (n_timestamps - 1)
                                    (wrap64 (l - 1)))
                        (map wrap64 ls))
                   us).
Proof.
  unfold M_SL_init_random_shapelet_params. intros H.
  bind_inv H as [ls g1] Hls. bind_inv H as [ds g2] Hd.
  bind_inv H as th Hth. bind_inv H as [cs g3] Hcs.
  bind_inv H as ci Hci. bind_inv H as size Hsize.
  bind_inv H as vs Hvs. bind_inv H as [us g4] Hus.
  inversion H; subst; simpl.
  rewrite !length_map in Hd.
  destruct (draws (length ls) rand_unit g1) as [us' g5] eqn:E.
  inversion Hd; subst.
  exists ls, g1, us'. repeat split; auto. now rewrite E.
Qed.

Lemma rand_unit_unit (g : rng) :
  (0 <= fst (rand_unit g))%Q /\ (fst (rand_unit g) < 1)%Q.
Proof.
  unfold rand_unit. destruct (next_raw g) as [r g1]. cbn [fst].
  pose proof (Z.mod_pos_bound (Z.of_N r) (Zpos resolution) ltac:(lia)) as Hm.
  unfold Qle, Qlt. cbn [Qnum Qden]. lia.
Qed.

Lemma rand_unit_range (g : rng) :
  (0 <= Q2R (fst (rand_unit g)) <= 1)%R.
Proof.
  unfold rand_unit. destruct (next_raw g) as [r g1]. simpl fst.
  apply Q2R_unit.
Qed.

End RealSampler.

Lemma quotient_bounds (T l : Z) :
  2 <= l <= T -> T < 2 ^ 63 ->
  floor_divide (T - 1) (wrap64 (l - 1)) = (T - 1) / (l - 1) /\
  1 <= (T - 1) / (l - 1) /\
  (l - 1) * ((T - 1) / (l - 1)) <= T - 1.
Proof.
  intros Hl HT. unfold floor_divide.
  rewrite (wrap64_small (l - 1)) by (unfold int64_range; lia).
  assert (H1 : 1 <= (T - 1) / (l - 1))
    by (apply Z.div_le_lower_bound; lia).
  assert (H2 : (l - 1) * ((T - 1) / (l - 1)) <= T - 1)
    by (apply Z.mul_div_le; lia).
  rewrite wrap64_small by (unfold int64_range; nia).
  auto.
Qed.

Lemma real_dilations_Forall2 (T : Z) (ls : list Z) (us : list Q) :
  T < 2 ^ 63 ->
  Forall (fun l => 2 <= l <= T) ls ->
  Forall (fun u => (0 <= Q2R u <= 1)%R) us ->
  length us = length ls ->
  Forall2 (fun l d => 1 <= d /\ (l - 1) * d <= T - 1)
          (map wrap64 ls)
          (map (fun qu => real_dilation (fst qu) (snd qu))
               (combine (map (fun l => floor_divide (T - 1) (wrap64 (l - 1)))
                             (map wrap64 ls))
                        us)).
Proof.
  intros HT Hls. revert us.
  induction Hls as [|l ls Hl Hls IH]; intros [|u us] Hus Hlen;
    simpl in *; try discriminate; constructor.
  - inversion Hus; subst.
    rewrite (wrap64_small l) by (unfold int64_range; lia).
    destruct (quotient_bounds T l Hl HT) as (-> & Hq & Hmul).
    destruct (real_dilation_bounds ((T - 1) / (l - 1)) u Hq H1)
      as [He [Hd1 Hd2]].
    split; [exact Hd1 | nia].
  - inversion Hus; subst. apply IH; auto.
Qed.

(** ** The exact draw of the executable instance *)







Lemma over_reals_dilation_draw_exact (K : Kernels) :
  dilation_draw_exact (over_reals K).
Proof. intros q u _ _ _. reflexivity. Qed.


Section Unrestricted.

Context {K : Kernels}.


End Unrestricted.


(** ** Slices *)

Lemma py_clip_id (n i : Z) : 0 <= i <= n -> py_clip n i = i.
Proof. unfold py_clip. intros H. destruct (Z.ltb_spec i 0); lia. Qed.

Lemma py_slice_exact {A} (l : list A) (a b : Z) :
  0 <= a <= b -> b <= py_len l ->
  py_slice l a b = firstn (Z.to_nat (b - a)) (skipn (Z.to_nat a) l).
Proof.
  intros Hab Hb. unfold py_slice. rewrite !py_clip_id by lia. reflexivity.
Qed.

Lemma py_slice_length {A} (l : list A) (a b : Z) :
  0 <= a <= b -> b <= py_len l -> py_len (py_slice l a b) = b - a.
Proof.
  intros Hab Hb. rewrite py_slice_exact by assumption.
  unfold py_len in *. rewrite length_firstn, length_skipn. lia.
Qed.

(** A slice assignment whose source has the size of the slice replaces the
    slice and nothing else. *)
Lemma py_set_slice_exact {A} (l : list A) (a b : Z) (v : list A) :
  0 <= a <= b -> b <= py_len l -> py_len v = b - a ->
  py_set_slice l a b v
  = Ok (firstn (Z.to_nat a) l ++ v ++ skipn (Z.to_nat b) l).
Proof.
  intros Hab Hb Hv. unfold py_set_slice. rewrite !py_clip_id by lia.
  unfold py_len in Hv.
  replace (Nat.eqb (length v) (Z.to_nat (b - a))) with true
    by (symmetry; apply Nat.eqb_eq; lia).
  replace (Z.to_nat a + Z.to_nat (b - a))%nat with (Z.to_nat b) by lia.
  reflexivity.
Qed.

Lemma splice_length {A} (l : list A) (a b : nat) (v : list A) :
  (a <= b)%nat -> (b <= length l)%nat -> length v = (b - a)%nat ->
  length (firstn a l ++ v ++ skipn b l) = length l.
Proof.
  intros. rewrite !length_app, length_firstn, length_skipn. lia.
Qed.

Lemma splice_same {A} (l : list A) (a b : nat) (v : list A) :
  (a <= b)%nat -> (b <= length l)%nat -> length v = (b - a)%nat ->
  firstn (b - a) (skipn a (firstn a l ++ v ++ skipn b l)) = v.
Proof.
  intros Hab Hb Hv.
  rewrite skipn_app, length_firstn.
  replace (a - Nat.min a (length l))%nat with 0%nat by lia.
  rewrite (skipn_all2 (firstn a l)) by (rewrite length_firstn; lia).
  simpl. rewrite firstn_app, <- Hv, firstn_all.
  replace (length v - length v)%nat with 0%nat by lia.
  simpl. apply app_nil_r.
Qed.

Lemma splice_before {A} (l : list A) (a b : nat) (v : list A) (x y : nat) :
  (a <= b)%nat -> (b <= length l)%nat -> length v = (b - a)%nat ->
  (x <= y)%nat -> (y <= a)%nat ->
  firstn (y - x) (skipn x (firstn a l ++ v ++ skipn b l))
  = firstn (y - x) (skipn x l).
Proof.
  intros Hab Hb Hv Hxy Hya.
  rewrite skipn_app, length_firstn.
  replace (x - Nat.min a (length l))%nat with 0%nat by lia.
  simpl. rewrite firstn_app, length_skipn, length_firstn.
  replace (y - x - (Nat.min a (length l) - x))%nat with 0%nat by lia.
  simpl. rewrite app_nil_r.
  rewrite <- (firstn_skipn a l) at 2.
  rewrite skipn_app, length_firstn.
  replace (x - Nat.min a (length l))%nat with 0%nat by lia.
  simpl. rewrite firstn_app, length_skipn, length_firstn.
  replace (y - x - (Nat.min a (length l) - x))%nat with 0%nat by lia.
  simpl. now rewrite app_nil_r.
Qed.

Lemma splice_after {A} (l : list A) (a b : nat) (v : list A) (x y : nat) :
  (a <= b)%nat -> (b <= length l)%nat -> length v = (b - a)%nat ->
  (b <= x)%nat ->
  firstn (y - x) (skipn x (firstn a l ++ v ++ skipn b l))
  = firstn (y - x) (skipn x l).
Proof.
  intros Hab Hb Hv Hbx. f_equal.
  rewrite app_assoc, skipn_app.
  rewrite (skipn_all2 (firstn a l ++ v))
    by (rewrite length_app, length_firstn; lia).
  rewrite length_app, length_firstn, skipn_skipn. simpl.
  f_equal. lia.
Qed.

(** ** Exact offsets *)

Lemma Zsum_nonneg (xs : list Z) : Forall (fun x => 0 <= x) xs -> 0 <= Zsum xs.
Proof. induction 1; simpl; lia. Qed.

Lemma Zsum_firstn_le (xs : list Z) (i : nat) :
  Forall (fun x => 0 <= x) xs -> 0 <= Zsum (firstn i xs) <= Zsum xs.
Proof.
  intros H. revert i. induction H as [|x xs Hx H IH]; intros [|i]; simpl;
    try lia.
  - pose proof (Zsum_nonneg xs H). lia.
  - specialize (IH i). lia.
Qed.

Lemma Zsum_firstn_S (xs : list Z) (i : nat) (x : Z) :
  nth_error xs i = Some x ->
  Zsum (firstn (S i) xs) = Zsum (firstn i xs) + x.
Proof.
  revert i; induction xs as [|y xs IH]; intros [|i] H; simpl in *;
    try discriminate.
  - inversion H; lia.
  - rewrite (IH i H). lia.
Qed.

Lemma np_cumsum_from_exact (xs : list Z) :
  forall acc (i : nat),
    0 <= acc -> Forall (fun x => 0 <= x) xs -> acc + Zsum xs < 2 ^ 63 ->
    (i <= length xs)%nat ->
    nth_error (acc :: np_cumsum_from acc xs) i
    = Some (acc + Zsum (firstn i xs)).
Proof.
  induction xs as [|x xs IH]; intros acc i Hacc Hxs Hsum Hi.
  - destruct i; simpl in *; [f_equal; lia | lia].
  - inversion Hxs; subst. simpl in Hsum.
    pose proof (Zsum_nonneg xs H2).
    destruct i as [|i]; [simpl; f_equal; lia|].
    cbn [np_cumsum_from nth_error firstn Zsum fold_right].
    rewrite wrap64_small by (unfold int64_range; lia).
    rewrite IH; try lia; auto.
    + f_equal. unfold Zsum. lia.
    + simpl in Hi. lia.
Qed.

Lemma np_sum_exact (xs : list Z) :
  Forall (fun x => 0 <= x) xs -> Zsum xs < 2 ^ 63 -> np_sum xs = Zsum xs.
Proof.
  unfold np_sum. intros Hxs Hsum.
  assert (G : forall acc, 0 <= acc -> acc + Zsum xs < 2 ^ 63 ->
                fold_left (fun s x => wrap64 (s + x)) xs acc = acc + Zsum xs).
  { induction Hxs as [|x xs Hx Hxs IH]; intros acc Hacc Hs; simpl in *;
      [lia|].
    pose proof (Zsum_nonneg xs Hxs).
    rewrite wrap64_small by (unfold int64_range; lia).
    rewrite IH; lia. }
  rewrite G; lia.
Qed.

Lemma np_mul_exact (a b : list Z) :
  length a = length b ->
  Forall (fun x => 0 <= x) (slice_sizes a b) ->
  Zsum (slice_sizes a b) < 2 ^ 63 ->
  np_mul a b = Ok (slice_sizes a b).
Proof.
  unfold slice_sizes.
  revert b; induction a as [|x a IH]; intros [|y b] Hlen Hpos Hsum;
    simpl in *; try discriminate; [reflexivity|].
  inversion Hpos; subst. pose proof (Zsum_nonneg _ H2).
  rewrite IH by (auto; unfold Zsum in *; lia). simpl.
  rewrite wrap64_small by (unfold int64_range, Zsum in *; lia).
  reflexivity.
Qed.

Lemma slice_sizes_comm (a b : list Z) :
  slice_sizes a b = slice_sizes b a.
Proof.
  unfold slice_sizes. revert b; induction a as [|x a IH]; intros [|y b];
    simpl; auto. rewrite IH. f_equal. lia.
Qed.

Lemma slice_sizes_length (a b : list Z) :
  length a = length b -> length (slice_sizes a b) = length a.
Proof.
  intros H. unfold slice_sizes. rewrite length_map, length_combine. lia.
Qed.

Lemma slice_sizes_nth (a b : list Z) (i : nat) (x y : Z) :
  nth_error a i = Some x -> nth_error b i = Some y ->
  nth_error (slice_sizes a b) i = Some (x * y).
Proof.
  unfold slice_sizes. revert b i; induction a as [|u a IH]; intros [|v b] i Ha Hb;
    destruct i; simpl in *; try discriminate.
  - inversion Ha; inversion Hb; subst; reflexivity.
  - eauto.
Qed.

Lemma mapM_total {A B} (f : A -> result B) (P : B -> Prop) (xs : list A) :
  (forall x, In x xs -> exists y, f x = Ok y /\ P y) ->
  exists ys, mapM f xs = Ok ys /\ Forall P ys /\ length ys = length xs.
Proof.
  induction xs as [|x xs IH]; intros H; simpl.
  - exists []. auto.
  - destruct (H x (or_introl eq_refl)) as (y & Hy & Py).
    destruct IH as (ys & Hys & Pys & Hlen); [intros; apply H; now right|].
    exists (y :: ys). rewrite Hy, Hys. simpl. auto.
Qed.

Lemma remove_nth_In {A} (l : list A) (j : nat) (x : A) :
  In x (firstn j l ++ skipn (S j) l) -> In x l.
Proof.
  rewrite in_app_iff. intros [H|H].
  - rewrite <- (firstn_skipn j l). apply in_or_app. now left.
  - rewrite <- (firstn_skipn (S j) l). apply in_or_app. now right.
Qed.

Lemma remove_nth_NoDup {A} (l : list A) (j : nat) (d : A) :
  NoDup l -> (j < length l)%nat ->
  NoDup (firstn j l ++ skipn (S j) l) /\
  ~ In (nth j l d) (firstn j l ++ skipn (S j) l).
Proof.
  intros Hnd Hj.
  rewrite <- (firstn_skipn j l) in Hnd.
  assert (E : skipn j l = nth j l d :: skipn (S j) l).
  { clear Hnd. revert j Hj. induction l as [|a l IH]; intros [|j] Hj;
      simpl in *; try lia; auto. apply IH. lia. }
  rewrite E in Hnd. split.
  - eapply NoDup_remove_1; eauto.
  - eapply NoDup_remove_2; eauto.
Qed.

Section Draws.

Context {K : Kernels}.

Lemma rand_below_range (n : Z) (g : rng) :
  0 < n -> 0 <= fst (rand_below n g) < n.
Proof.
  intros H. unfold rand_below. destruct (next_raw g) as [r g1]. simpl.
  apply Z.mod_pos_bound. lia.
Qed.

(** A draw without replacement returns distinct members of the pool. *)
Lemma sample_distinct_spec (k : nat) :
  forall (pool : list Z) (g : rng),
    (k <= length pool)%nat -> NoDup pool ->
    let r := fst (sample_distinct k pool g) in
    length r = k /\ incl r pool /\ NoDup r.
Proof.
  induction k as [|k IH]; intros pool g Hk Hnd; simpl.
  - repeat split; [apply incl_nil_l | constructor].
  - destruct pool as [|x pool]; [simpl in Hk; lia|].
    pose proof (rand_below_range (py_len (x :: pool)) g
                  ltac:(unfold py_len; simpl; lia)) as Hi.
    destruct (rand_below (py_len (x :: pool)) g) as [i g1].
    simpl fst in Hi. unfold py_len in Hi.
    set (j := Z.to_nat i) in *.
    assert (Hj : (j < length (x :: pool))%nat) by lia.
    destruct (remove_nth_NoDup (x :: pool) j x Hnd Hj) as [Hnd' Hnotin].
    specialize (IH (firstn j (x :: pool) ++ skipn (S j) (x :: pool)) g1).
    destruct (sample_distinct k _ g1) as [rest g2]. simpl fst in *.
    destruct IH as (Hlen & Hincl & Hndr); auto.
    { rewrite length_app, length_firstn, length_skipn. lia. }
    repeat split.
    + simpl. now rewrite Hlen.
    + intros c [<-|Hc].
      * exact (nth_In (x :: pool) x Hj).
      * eapply remove_nth_In. apply Hincl. exact Hc.
    + constructor; [|exact Hndr].
      intros Hc. apply Hnotin, Hincl, Hc.
Qed.

Lemma py_range_NoDup (n : Z) : NoDup (py_range n).
Proof.
  unfold py_range. apply NoDup_map_NoDup_ForallPairs.
  - intros a b _ _. apply Nat2Z.inj.
  - apply seq_NoDup.
Qed.

Lemma py_range_length (n : Z) : length (py_range n) = Z.to_nat n.
Proof. unfold py_range. now rewrite length_map, length_seq. Qed.

Lemma choice_no_replace_spec (n k : Z) (g : rng) :
  0 <= k <= n ->
  exists chans g',
    choice_no_replace (py_range n) k g = Ok (chans, g') /\
    py_len chans = k /\ NoDup chans /\
    Forall (fun c => 0 <= c < n) chans.
Proof.
  intros Hk. unfold choice_no_replace.
  destruct (Z.ltb_spec k 0); [lia|].
  unfold py_len at 1. rewrite py_range_length.
  destruct (Z.ltb_spec (Z.of_nat (Z.to_nat n)) k); [lia|]. simpl.
  pose proof (sample_distinct_spec (Z.to_nat k) (py_range n) g
                ltac:(rewrite py_range_length; lia) (py_range_NoDup n))
    as (Hlen & Hincl & Hnd).
  destruct (sample_distinct (Z.to_nat k) (py_range n) g) as [chans g'].
  simpl in *. exists chans, g'. repeat split; auto.
  - unfold py_len. lia.
  - apply Forall_forall. intros c Hc. apply Hincl in Hc.
    unfold py_range in Hc. apply in_map_iff in Hc.
    destruct Hc as (m & <- & Hm). apply in_seq in Hm. lia.
Qed.

Lemma choice_nonempty {A} (a : list A) (g : rng) :
  a <> [] -> exists x g', choice a g = Ok (x, g') /\ In x a.
Proof.
  intros H. destruct a as [|y a]; [congruence|].
  destruct (choice (y :: a) g) as [[x g']|e] eqn:E.
  - exists x, g'. split; auto. eapply choice_In; eauto.
  - discriminate.
Qed.

End Draws.

Section Windows.

Context {K : Kernels}.

Hypothesis Hznorm : znorm_keeps_length K.

(** A window that fits in its series is extracted, with [l] values. *)
Lemma get_subsequence_total (series : list F) (p l d : Z)
      (nrm use_phase : bool) :
  1 <= l -> 0 <= p -> 0 <= d ->
  (if use_phase then 1 <= py_len series
   else p + (l - 1) * d < py_len series) ->
  exists w, get_subsequence series p l d nrm use_phase = Ok w /\
            py_len w = l.
Proof.
  intros Hl Hp Hd Hfit. unfold get_subsequence.
  destruct (mapM_total
              (fun k => if use_phase then
                          if py_len series =? 0 then Raise ZeroDivisionError
                          else py_index series
                                 ((p + k * d) mod py_len series)
                        else py_index series (p + k * d))
              (fun _ => True) (py_range l)) as (v & Hv & _ & Hlen).
  - intros k Hk. apply range_In in Hk.
    destruct use_phase.
    + destruct (Z.eqb_spec (py_len series) 0); [lia|].
      destruct (py_index_in_range series ((p + k * d) mod py_len series))
        as (x & Hx & _); [apply Z.mod_pos_bound; lia|].
      exists x. auto.
    + destruct (py_index_in_range series (p + k * d)) as (x & Hx & _);
        [nia|].
      exists x. auto.
  - rewrite Hv. simpl.
    rewrite py_range_length in Hlen.
    eexists. split; [reflexivity|].
    unfold py_len. destruct nrm; [rewrite Hznorm|]; lia.
Qed.

Lemma rectangular_index (X : tensor3) (s c : Z) :
  rectangular X ->
  0 <= s < Z.of_nat (n_samples_of X) ->
  0 <= c < Z.of_nat (n_features_of X) ->
  exists sample series,
    py_index (samples X) s = Ok sample /\
    py_index sample c = Ok series /\
    py_len series = Z.of_nat (n_timestamps_of X).
Proof.
  intros [Hn Hall] Hs Hc.
  destruct (py_index_in_range (samples X) s) as (sample & Hsample & Hnth);
    [unfold py_len; lia|].
  rewrite Forall_forall in Hall.
  destruct (Hall sample) as [Hf Hrows]; [eapply nth_error_In; eauto|].
  destruct (py_index_in_range sample c) as (series & Hseries & Hnth');
    [unfold py_len; lia|].
  exists sample, series. repeat split; auto.
  rewrite Forall_forall in Hrows. unfold py_len. f_equal.
  apply Hrows. eapply nth_error_In; eauto.
Qed.

Lemma window_of_total (X : tensor3) (use_phase : bool) (s p l d : Z)
      (nrm : bool) (c : Z) :
  rectangular X ->
  0 <= s < Z.of_nat (n_samples_of X) ->
  0 <= c < Z.of_nat (n_features_of X) ->
  1 <= l -> 0 <= p -> 0 <= d ->
  (if use_phase then 1 <= Z.of_nat (n_timestamps_of X)
   else p + (l - 1) * d < Z.of_nat (n_timestamps_of X)) ->
  exists w, window_of X use_phase s p l d nrm c = Ok w /\ py_len w = l.
Proof.
  intros HX Hs Hc Hl Hp Hd Hfit.
  destruct (rectangular_index X s c HX Hs Hc)
    as (sample & series & H1 & H2 & H3).
  unfold window_of. rewrite H1. simpl. rewrite H2. simpl.
  apply get_subsequence_total; auto. now rewrite H3.
Qed.

End Windows.

Lemma bind_assoc {A B C} (m : result A) (f : A -> result B)
      (g : B -> result C) :
  bind (bind m f) g = bind m (fun a => bind (f a) g).
Proof. destruct m; reflexivity. Qed.

Lemma skipn_cons_nth_error {A} (l : list A) (i : nat) (x : A) (t : list A) :
  skipn i l = x :: t -> nth_error l i = Some x /\ skipn (S i) l = t.
Proof.
  revert i; induction l as [|a l IH]; intros [|i] H; simpl in *;
    try discriminate.
  - inversion H; auto.
  - apply IH in H. exact H.
Qed.

Lemma splice_firstn {A} (l : list A) (a b : nat) (v : list A) :
  (a <= length l)%nat -> length v = (b - a)%nat -> (a <= b)%nat ->
  firstn b (firstn a l ++ v ++ skipn b l) = firstn a l ++ v.
Proof.
  intros Ha Hv Hab. rewrite app_assoc, firstn_app.
  rewrite length_app, length_firstn.
  replace (b - (Nat.min a (length l) + length v))%nat with 0%nat by lia.
  simpl. rewrite app_nil_r. apply firstn_all2.
  rewrite length_app, length_firstn. lia.
Qed.

Lemma splice_skipn {A} (l : list A) (a b : nat) (v : list A) (n : nat) :
  (a <= length l)%nat -> length v = (b - a)%nat -> (a <= b)%nat ->
  (b <= n)%nat ->
  skipn n (firstn a l ++ v ++ skipn b l) = skipn n l.
Proof.
  intros Ha Hv Hab Hbn. rewrite app_assoc, skipn_app.
  rewrite (skipn_all2 (firstn a l ++ v))
    by (rewrite length_app, length_firstn; lia).
  rewrite length_app, length_firstn, skipn_skipn. simpl. f_equal. lia.
Qed.

Section Fill.

Context {K : Kernels}.

Variable X : tensor3.
Variable use_phase : bool.
Variables s p l d : Z.
Variable nrm : bool.
Variable chans : list Z.

Local Abbreviation body := (fill_step X use_phase s p l d nrm chans).

Lemma fill_body_window (vals : list F) (a3 k c : Z) (w : list F) :
  py_index chans k = Ok c ->
  window_of X use_phase s p l d nrm c = Ok w ->
  body (vals, a3) k
  = (vals' <- py_set_slice vals a3 (wrap64 (a3 + l)) w ;;
     Ok (vals', wrap64 (a3 + l))).
Proof.
  intros Hc Hw. unfold fill_step, window_of in *. rewrite Hc.
  cbn [bind].
  destruct (py_index (samples X) s) as [sample|]; [|discriminate].
  cbn [bind] in *.
  destruct (py_index sample c) as [series|]; [|discriminate].
  cbn [bind] in *. rewrite Hw. reflexivity.
Qed.

Hypothesis Hl : 0 <= l.

Lemma fill_loop (rest : list Z) :
  forall (start : nat) (vals : list F),
    skipn start chans = rest ->
    Forall (fun c => exists w,
                window_of X use_phase s p l d nrm c = Ok w /\
                py_len w = l) rest ->
    Z.of_nat (start + length rest) * l <= py_len vals ->
    Z.of_nat (start + length rest) * l < 2 ^ 63 ->
    exists ws,
      mapM (window_of X use_phase s p l d nrm) rest = Ok ws /\
      Forall (fun w => py_len w = l) ws /\
      foldM body (map Z.of_nat (seq start (length rest)))
            (vals, Z.of_nat start * l)
      = Ok (firstn (start * Z.to_nat l) vals ++ concat ws
            ++ skipn ((start + length rest) * Z.to_nat l) vals,
            Z.of_nat (start + length rest) * l).
Proof.
  induction rest as [|c rest IH]; intros start vals Hskip Hall Hlen Hmax.
  - exists []. simpl. repeat split; auto.
    rewrite Nat.add_0_r, firstn_skipn. reflexivity.
  - apply Forall_cons_iff in Hall.
    destruct Hall as [(w & Hw & Hwl) Hall'].
    apply skipn_cons_nth_error in Hskip. destruct Hskip as [Hnth Hskip].
    cbn [length seq map foldM mapM].
    rewrite (fill_body_window vals _ _ c w
               (py_index_nat chans start c Hnth) Hw).
    cbn [length] in Hlen, Hmax.
    assert (Hb3 : wrap64 (Z.of_nat start * l + l) = Z.of_nat (S start) * l).
    { rewrite wrap64_small; [lia|]. unfold int64_range. nia. }
    rewrite Hb3.
    rewrite py_set_slice_exact by (unfold py_len in *; nia).
    cbn [bind].
    set (vals1 := firstn (Z.to_nat (Z.of_nat start * l)) vals ++ w
                  ++ skipn (Z.to_nat (Z.of_nat (S start) * l)) vals).
    assert (Hlen1 : length vals1 = length vals).
    { subst vals1. apply splice_length; unfold py_len in *; nia. }
    destruct (IH (S start) vals1 Hskip Hall') as (ws & Hws & Hwsl & Hfold).
    { unfold py_len in *. rewrite Hlen1. lia. }
    { lia. }
    exists (w :: ws). rewrite Hw, Hws. cbn [bind]. repeat split; auto.
    rewrite Hfold. f_equal. f_equal.
    + replace (S start * Z.to_nat l)%nat
        with (Z.to_nat (Z.of_nat (S start) * l)) by nia.
      replace (start * Z.to_nat l)%nat
        with (Z.to_nat (Z.of_nat start * l)) by nia.
      subst vals1. rewrite splice_firstn by (unfold py_len in *; nia).
      cbn [concat]. rewrite <- !app_assoc. do 3 f_equal.
      replace ((S start + length rest) * Z.to_nat l)%nat
        with (Z.to_nat (Z.of_nat (S start + length rest) * l)) by nia.
      replace ((start + S (length rest)) * Z.to_nat l)%nat
        with (Z.to_nat (Z.of_nat (S start + length rest) * l)) by nia.
      apply splice_skipn; unfold py_len in *; nia.
    + lia.
Qed.

End Fill.

Lemma Zsum_firstn_mono (xs : list Z) (i j : nat) :
  Forall (fun x => 0 <= x) xs -> (i <= j)%nat ->
  Zsum (firstn i xs) <= Zsum (firstn j xs).
Proof.
  intros H. revert i j.
  induction H as [|x xs Hx H IH]; intros [|i] [|j] Hij; simpl; try lia.
  - pose proof (Zsum_firstn_le xs j H). unfold Zsum in *. lia.
  - specialize (IH i j ltac:(lia)). unfold Zsum in *. lia.
Qed.

Lemma concat_length_uniform {A} (ws : list (list A)) (l : Z) :
  Forall (fun w => py_len w = l) ws ->
  py_len (concat ws) = py_len ws * l.
Proof.
  unfold py_len. induction 1 as [|w ws Hw H IH]; cbn [concat length];
    [lia|].
  rewrite length_app. nia.
Qed.

Lemma py_slice_splice_same {A} (l : list A) (a b : Z) (v : list A) :
  0 <= a <= b -> b <= py_len l -> py_len v = b - a ->
  py_slice (firstn (Z.to_nat a) l ++ v ++ skipn (Z.to_nat b) l) a b = v.
Proof.
  intros Hab Hb Hv. unfold py_len in *.
  rewrite py_slice_exact; auto.
  - replace (Z.to_nat (b - a)) with (Z.to_nat b - Z.to_nat a)%nat by lia.
    apply splice_same; lia.
  - unfold py_len. rewrite splice_length; lia.
Qed.

Lemma py_slice_splice_other {A} (l : list A) (a b : Z) (v : list A)
      (x y : Z) :
  0 <= a <= b -> b <= py_len l -> py_len v = b - a ->
  0 <= x <= y -> y <= py_len l -> y <= a \/ b <= x ->
  py_slice (firstn (Z.to_nat a) l ++ v ++ skipn (Z.to_nat b) l) x y
  = py_slice l x y.
Proof.
  intros Hab Hb Hv Hxy Hy Hdisj. unfold py_len in *.
  rewrite !py_slice_exact; auto.
  - replace (Z.to_nat (y - x)) with (Z.to_nat y - Z.to_nat x)%nat by lia.
    destruct Hdisj.
    + apply splice_before; lia.
    + apply splice_after; lia.
  - unfold py_len. rewrite splice_length; lia.
Qed.

Section FillValues.

Context {K : Kernels}.

Lemma fill_values_windows (X : tensor3) (use_phase : bool) (s p l d : Z)
      (nrm : bool) (chans : list Z) (c : Z) :
  0 <= l -> py_len chans = c -> c * l < 2 ^ 63 ->
  Forall (fun ch => exists w,
              window_of X use_phase s p l d nrm ch = Ok w /\
              py_len w = l) chans ->
  exists ws,
    mapM (window_of X use_phase s p l d nrm) chans = Ok ws /\
    Forall (fun w => py_len w = l) ws /\
    fill_values X use_phase s p l d nrm chans c
      (repeat fzero (Z.to_nat (c * l))) = Ok (concat ws).
Proof.
  intros Hl Hc Hmax Hall. unfold py_len in Hc.
  destruct (fill_loop X use_phase s p l d nrm chans Hl chans 0%nat
              (repeat fzero (Z.to_nat (c * l))) eq_refl Hall)
    as (ws & Hws & Hwsl & Hfold).
  - unfold py_len. rewrite repeat_length. simpl. nia.
  - simpl. nia.
  - exists ws. repeat split; auto.
    unfold fill_values, py_range. subst c. rewrite Nat2Z.id.
    simpl in Hfold. rewrite Hfold. cbn [bind]. f_equal.
    rewrite skipn_all2, app_nil_r; [reflexivity|].
    rewrite repeat_length. nia.
Qed.

End FillValues.

Lemma combine_nth_In {A B} (a : list A) (b : list B) (k : nat) (x : A)
      (y : B) :
  nth_error a k = Some x -> nth_error b k = Some y -> In (x, y) (combine a b).
Proof.
  revert b k; induction a as [|u a IH]; intros [|v b] [|k] Ha Hb;
    simpl in *; try discriminate.
  - inversion Ha; inversion Hb; subst. now left.
  - right. eauto.
Qed.

Section Drawn.

Context {K : Kernels}.

Hypothesis Hznorm : znorm_keeps_length K.

Variable X : tensor3.
Variable P : shapelets.
Variable alpha : Q.
Variable use_phase : bool.

Hypothesis HX : rectangular X.
Hypothesis HT : Z.of_nat (n_timestamps_of X) < 2 ^ 63.
Hypothesis Hns : (1 <= n_samples_of X)%nat.
Hypothesis HP : sampled_ok X alpha use_phase P.

Local Abbreviation sizes := (slice_sizes (n_channels P) (lengths P)).
Local Abbreviation a1 := (0 :: np_cumsum sizes).
Local Abbreviation a2 := (channel_offsets (n_channels P)).

Lemma sampled_params (i : nat) :
  (i < length (lengths P))%nat ->
  exists l d nrm c,
    nth_error (lengths P) i = Some l /\
    nth_error (dilations P) i = Some d /\
    nth_error (normalize P) i = Some nrm /\
    nth_error (n_channels P) i = Some c /\
    keeps_valid_start X use_phase l d /\
    1 <= c <= Z.of_nat (n_features_of X) /\
    Qle_bool (inject_Z c * alpha)
             (inject_Z (Z.of_nat (n_features_of X))) = true.
Proof.
  intros Hi. destruct HP as (Hd & Hn & Hc & Hfit & Hcs & _).
  destruct (nth_error (lengths P) i) as [l|] eqn:El;
    [|apply nth_error_None in El; lia].
  destruct (nth_error (dilations P) i) as [d|] eqn:Ed;
    [|apply nth_error_None in Ed; lia].
  destruct (nth_error (normalize P) i) as [nrm|] eqn:En;
    [|apply nth_error_None in En; lia].
  destruct (nth_error (n_channels P) i) as [c|] eqn:Ec;
    [|apply nth_error_None in Ec; lia].
  exists l, d, nrm, c. repeat split; auto.
  - exact (proj1 (Forall2_nth_error _ _ _ _ _ _ Hfit El Ed)).
  - exact (proj1 (proj2 (Forall2_nth_error _ _ _ _ _ _ Hfit El Ed))).
  - exact (proj2 (proj2 (Forall2_nth_error _ _ _ _ _ _ Hfit El Ed))).
  - rewrite Forall_forall in Hcs.
    apply (Hcs c (nth_error_In _ _ Ec)).
  - rewrite Forall_forall in Hcs.
    apply (Hcs c (nth_error_In _ _ Ec)).
  - rewrite Forall_forall in Hcs.
    apply (Hcs c (nth_error_In _ _ Ec)).
Qed.

Lemma sizes_nonneg : Forall (fun x => 0 <= x) sizes.
Proof.
  destruct HP as (_ & _ & Hc & Hfit & Hcs & _).
  unfold slice_sizes. apply Forall_forall. intros x Hx.
  apply in_map_iff in Hx. destruct Hx as ([c l] & <- & Hin).
  pose proof (in_combine_l _ _ _ _ Hin) as Hc'.
  pose proof (in_combine_r _ _ _ _ Hin) as Hl'.
  rewrite Forall_forall in Hcs. destruct (Hcs c Hc') as [[? ?] _].
  apply In_nth_error in Hl'. destruct Hl' as [i Hi].
  assert (Hlt : (i < length (dilations P))%nat).
  { destruct HP as (Hd & _). rewrite Hd.
    apply nth_error_Some. congruence. }
  destruct (nth_error (dilations P) i) as [d|] eqn:Ed;
    [|apply nth_error_None in Ed; lia].
  destruct (Forall2_nth_error _ _ _ _ _ _ Hfit Hi Ed) as (? & _).
  simpl. nia.
Qed.

Lemma channels_nonneg : Forall (fun x => 0 <= x) (n_channels P).
Proof.
  destruct HP as (_ & _ & _ & _ & Hcs & _).
  eapply Forall_impl; [|exact Hcs]. simpl. intros c [[? ?] _]. lia.
Qed.

Lemma channels_le_sizes : Zsum (n_channels P) <= Zsum sizes.
Proof.
  destruct HP as (_ & _ & Hc & Hfit & Hcs & _).
  assert (Hl : Forall (fun l => 1 <= l) (lengths P)).
  { clear - Hfit. induction Hfit as [|l d ls ds Hf _ IH];
      constructor; auto. apply Hf. }
  pose proof channels_nonneg as Hnn.
  revert Hc Hl Hnn. generalize (n_channels P) (lengths P).
  intros cs. induction cs as [|c cs IH]; intros [|l ls] Hlen Hl Hnn;
    cbn [length Zsum slice_sizes combine map fold_right fst snd] in *;
    try discriminate; try lia.
  inversion Hl; inversion Hnn; subst.
  specialize (IH ls ltac:(lia) H2 H6). unfold slice_sizes, Zsum in *.
  nia.
Qed.

(** The offsets are the exact partial sums of the slice sizes. *)
Lemma a1_nth (i : nat) :
  (i <= length (lengths P))%nat ->
  nth_error a1 i = Some (Zsum (firstn i sizes)).
Proof.
  intros Hi. destruct HP as (_ & _ & Hc & _ & _ & Htot).
  unfold np_cumsum.
  rewrite np_cumsum_from_exact; auto using sizes_nonneg; try lia.
  rewrite slice_sizes_length; lia.
Qed.

Lemma a2_nth (i : nat) :
  (i <= length (lengths P))%nat ->
  nth_error a2 i = Some (Zsum (firstn i (n_channels P))).
Proof.
  intros Hi. pose proof channels_le_sizes.
  destruct HP as (_ & _ & Hc & _ & _ & Htot).
  unfold channel_offsets, np_cumsum.
  rewrite np_cumsum_from_exact; auto using channels_nonneg; lia.
Qed.

Lemma values_offsets_exact :
  values_offsets (n_channels P) (lengths P) = Ok a1.
Proof.
  destruct HP as (_ & _ & Hc & _ & _ & Htot).
  unfold values_offsets.
  rewrite np_mul_exact; auto using sizes_nonneg.
Qed.

Lemma d_shape_range (l d : Z) :
  keeps_valid_start X use_phase l d ->
  1 <= d_shape_of X use_phase l d <= Z.of_nat (n_timestamps_of X) /\
  (use_phase = false ->
   d_shape_of X use_phase l d
   = Z.of_nat (n_timestamps_of X) - (l - 1) * d).
Proof.
  intros (Hl & Hd & Hfit). destruct use_phase.
  - unfold d_shape_of. split; [lia | discriminate].
  - rewrite (d_shape_of_fits X l d HT) by (repeat split; assumption).
    split; [nia | reflexivity].
Qed.

(** With the occupancy unmarked, a shapelet is drawn: the step returns,
    fills the record of the shapelet and leaves the other records as they
    were. *)
Lemma shapelet_step_drawn (n_dil : nat) (i_d : Z) (i : nat)
      (st : gen_state) :
  gen_inv X P n_dil st ->
  0 <= i_d < Z.of_nat n_dil ->
  (i < length (lengths P))%nat ->
  exists st',
    shapelet_step X P a1 a2 alpha use_phase i_d st (Z.of_nat i) = Ok st' /\
    gen_inv X P n_dil st' /\
    populated X P alpha use_phase st' i /\
    forall j, j <> i -> (j < length (lengths P))%nat ->
              record_of a1 a2 st' j = record_of a1 a2 st j.
Proof.
  intros (Hv & Hc & Hids & Hsps & Hmask) Hid Hi.
  destruct (sampled_params i Hi)
    as (l & d & nrm & c & El & Ed & En & Ec & Hvalid & Hcr & Hq).
  destruct (d_shape_range l d Hvalid) as [HD HDeq].
  destruct Hvalid as (Hl & Hd & Hfit).
  unfold shapelet_step.
  rewrite (py_index_nat _ _ _ Ed), (py_index_nat _ _ _ El),
    (py_index_nat _ _ _ En), (py_index_nat _ _ _ Ec). cbn [bind].
  rewrite Hmask.
  pose proof (mask_ones_index n_dil (n_samples_of X) (n_features_of X)
                (n_timestamps_of X) nrm i_d Hid) as Hm.
  apply bind_Ok in Hm. destruct Hm as (mn & Hmn & Hmd).
  rewrite Hmn. cbn [bind]. rewrite Hmd. cbn [bind].
  assert (Hcand : candidates (fresh_mask X) (n_timestamps_of X)
                    (d_shape_of X use_phase l d) c alpha
                  = where2_from 0
                      (repeat (repeat true
                                 (Z.to_nat (d_shape_of X use_phase l d)))
                              (n_samples_of X))).
  { unfold candidates, fresh_mask.
    rewrite admissible_ones, Hq, np_where2_pairs, py_clip_id by lia.
    reflexivity. }
  unfold candidates, fresh_mask in Hcand.
  set (i_mask := admissible _ _ _ _ _) in *.
  assert (Hpairs : forall s p,
             In (s, p) (combine (fst i_mask) (snd i_mask)) <->
             0 <= s < Z.of_nat (n_samples_of X) /\
             0 <= p < d_shape_of X use_phase l d).
  { intros s p. rewrite Hcand, where2_true_In. lia. }
  assert (Hlens : length (fst i_mask) = length (snd i_mask)).
  { subst i_mask. unfold admissible. apply np_where2_lengths. }
  assert (H00 : In (0, 0) (combine (fst i_mask) (snd i_mask)))
    by (apply Hpairs; lia).
  assert (Hne : fst i_mask <> []).
  { intros E. rewrite E in H00. simpl in H00. exact H00. }
  replace (0 <? py_len (fst i_mask)) with true.
  2:{ symmetry. apply Z.ltb_lt. unfold py_len.
      destruct (fst i_mask); [congruence | simpl; lia]. }
  (* the sample *)
  destruct (choice_nonempty (fst i_mask) (st_rng st) Hne)
    as (s & g1 & Hs & Hsin).
  rewrite Hs. cbn [bind].
  assert (Hs' : exists p0, In (s, p0) (combine (fst i_mask) (snd i_mask))).
  { apply In_nth_error in Hsin. destruct Hsin as [k Hk].
    destruct (nth_error (snd i_mask) k) as [p0|] eqn:Ep.
    - exists p0. eapply combine_nth_In; eauto.
    - apply nth_error_None in Ep.
      assert (k < length (fst i_mask))%nat
        by (apply nth_error_Some; congruence). lia. }
  destruct Hs' as [p0 Hp0].
  assert (Hsr : 0 <= s < Z.of_nat (n_samples_of X))
    by (apply Hpairs in Hp0; lia).
  rewrite py_set_index_in_range by (unfold py_len; lia). cbn [bind].
  (* the start position *)
  assert (Hsel : np_select (snd i_mask) (np_eq (fst i_mask) s) <> []).
  { intros E. apply (np_select_eq_In (fst i_mask) (snd i_mask) s p0 Hlens)
      in Hp0. rewrite E in Hp0. exact Hp0. }
  destruct (choice_nonempty _ g1 Hsel) as (p & g2 & Hp & Hpin).
  rewrite Hp. cbn [bind].
  apply (np_select_eq_In (fst i_mask) (snd i_mask) s p Hlens) in Hpin.
  assert (Hpr : 0 <= p < d_shape_of X use_phase l d)
    by (apply Hpairs in Hpin; lia).
  rewrite py_set_index_in_range by (unfold py_len; lia). cbn [bind].
  (* the buffer of the shapelet and its channels *)
  pose proof sizes_nonneg as Hnn.
  pose proof channels_nonneg as Hcnn.
  pose proof channels_le_sizes as Hcle.
  pose proof (slice_sizes_nth _ _ _ _ _ Ec El) as Esz.
  pose proof (Zsum_firstn_S _ _ _ Esz) as Hstep1.
  pose proof (Zsum_firstn_S _ _ _ Ec) as Hstep2.
  pose proof (Zsum_firstn_le sizes (S i) Hnn) as Hle1.
  pose proof (Zsum_firstn_le sizes i Hnn) as Hle1'.
  pose proof (Zsum_firstn_le (n_channels P) (S i) Hcnn) as Hle2.
  pose proof (Zsum_firstn_le (n_channels P) i Hcnn) as Hle2'.
  assert (Htot : Zsum sizes < 2 ^ 63) by apply HP.
  assert (Hcl : 1 <= c * l < 2 ^ 63) by nia.
  rewrite (wrap64_small (c * l)) by (unfold int64_range; lia).
  rewrite np_full_nonneg by lia. cbn [bind].
  destruct (choice_no_replace_spec (Z.of_nat (n_features_of X)) c g2
              ltac:(lia)) as (chans & g3 & Hch & Hchl & Hchnd & Hchr).
  rewrite Hch. cbn [bind].
  destruct (fill_values_windows X use_phase s p l d nrm chans c
              ltac:(lia) Hchl ltac:(lia)) as (ws & Hws & Hwsl & Hfill).
  { eapply Forall_impl; [|exact Hchr]. intros ch Hchr'.
    apply window_of_total; auto; try lia.
    destruct use_phase; [lia|]. rewrite (HDeq eq_refl) in Hpr. lia. }
  rewrite Hfill. cbn [bind].
  assert (Hwslen : py_len (concat ws) = c * l).
  { rewrite (concat_length_uniform ws l Hwsl). f_equal.
    apply mapM_length in Hws. unfold py_len in *. lia. }
  (* the two slice assignments *)
  rewrite (py_index_nat a1 i _ (a1_nth i ltac:(lia))).
  replace (Z.of_nat i + 1) with (Z.of_nat (S i)) by lia.
  rewrite (py_index_nat a1 (S i) _ (a1_nth (S i) ltac:(lia))).
  cbn [bind].
  rewrite py_set_slice_exact by lia. cbn [bind].
  rewrite (py_index_nat a2 i _ (a2_nth i ltac:(lia))).
  rewrite (py_index_nat a2 (S i) _ (a2_nth (S i) ltac:(lia))).
  cbn [bind].
  rewrite py_set_slice_exact by lia. cbn [bind].
  eexists. split; [reflexivity|].
  split; [|split].
  - (* shape *)
    unfold gen_inv; cbn [st_values st_channel_ids st_id_samples
                           st_start_positions st_mask_sampling].
    unfold py_len in *.
    rewrite !splice_length, !update_length by lia. auto.
  - (* the record of shapelet i *)
    exists l, d, nrm, c, s, p, ws, a1.
    cbn [st_values st_channel_ids st_id_samples st_start_positions].
    unfold py_len in Hids, Hsps.
    rewrite !Nat2Z.id.
    rewrite !update_nth_same by lia.
    unfold slot.
    rewrite (nth_error_nth _ _ 0 (a1_nth i ltac:(lia))).
    rewrite (nth_error_nth _ _ 0 (a1_nth (S i) ltac:(lia))).
    rewrite (nth_error_nth _ _ 0 (a2_nth i ltac:(lia))).
    rewrite (nth_error_nth _ _ 0 (a2_nth (S i) ltac:(lia))).
    rewrite !py_slice_splice_same by lia.
    repeat split; auto using values_offsets_exact.
  - (* the other records *)
    intros j Hj Hjn. unfold record_of.
    cbn [st_values st_channel_ids st_id_samples st_start_positions].
    unfold py_len in Hids, Hsps.
    rewrite !Nat2Z.id.
    rewrite !update_nth_other by lia.
    unfold slot.
    rewrite (nth_error_nth _ _ 0 (a1_nth j ltac:(lia))).
    rewrite (nth_error_nth _ _ 0 (a1_nth (S j) ltac:(lia))).
    rewrite (nth_error_nth _ _ 0 (a2_nth j ltac:(lia))).
    rewrite (nth_error_nth _ _ 0 (a2_nth (S j) ltac:(lia))).
    pose proof (Zsum_firstn_le sizes (S j) Hnn).
    pose proof (Zsum_firstn_le sizes j Hnn).
    pose proof (Zsum_firstn_mono sizes j (S j) Hnn ltac:(lia)).
    pose proof (Zsum_firstn_le (n_channels P) (S j) Hcnn).
    pose proof (Zsum_firstn_le (n_channels P) j Hcnn).
    pose proof (Zsum_firstn_mono (n_channels P) j (S j) Hcnn ltac:(lia)).
    assert (Hdisj1 : Zsum (firstn (S j) sizes) <= Zsum (firstn i sizes) \/
                     Zsum (firstn (S i) sizes) <= Zsum (firstn j sizes)).
    { destruct (Nat.lt_ge_cases j i).
      - left. apply Zsum_firstn_mono; auto. 
      - right. apply Zsum_firstn_mono; auto. lia. }
    assert (Hdisj2 : Zsum (firstn (S j) (n_channels P))
                     <= Zsum (firstn i (n_channels P)) \/
                     Zsum (firstn (S i) (n_channels P))
                     <= Zsum (firstn j (n_channels P))).
    { destruct (Nat.lt_ge_cases j i).
      - left. apply Zsum_firstn_mono; auto. 
      - right. apply Zsum_firstn_mono; auto. lia. }
    rewrite !py_slice_splice_other by lia.
    reflexivity.
Qed.

End Drawn.

(** A loop every step of which returns, keeps the invariant [I],
    establishes [Q] for its own item and keeps what [Q] already holds of. *)
Lemma foldM_steps {S A} (I : S -> Prop) (Q : A -> S -> Prop)
      (body : S -> A -> result S) (xs : list A) :
  (forall s x, In x xs -> I s ->
               exists s', body s x = Ok s' /\ I s' /\ Q x s' /\
                          forall y, Q y s -> Q y s') ->
  forall s, I s ->
            exists s', foldM body xs s = Ok s' /\ I s' /\
                       (forall x, In x xs -> Q x s') /\
                       forall y, Q y s -> Q y s'.
Proof.
  induction xs as [|x xs IH]; intros Hstep s Hs.
  - exists s. simpl. repeat split; auto. intros x [].
  - destruct (Hstep s x (or_introl eq_refl) Hs) as (s1 & H1 & I1 & Q1 & F1).
    destruct (IH (fun s0 x0 Hin => Hstep s0 x0 (or_intror Hin)) s1 I1)
      as (s' & H' & I' & Q' & F').
    exists s'. simpl. rewrite H1. simpl. repeat split; auto.
    intros y [<-|Hy]; auto.
Qed.

Section Populate.

Context {K : Kernels}.

Hypothesis Hznorm : znorm_keeps_length K.

Variable X : tensor3.
Variable P : shapelets.
Variable alpha : Q.
Variable use_phase : bool.

Hypothesis HX : rectangular X.
Hypothesis HT : Z.of_nat (n_timestamps_of X) < 2 ^ 63.
Hypothesis Hns : (1 <= n_samples_of X)%nat.
Hypothesis HP : sampled_ok X alpha use_phase P.

Local Abbreviation sizes := (slice_sizes (n_channels P) (lengths P)).
Local Abbreviation a1 := (0 :: np_cumsum sizes).
Local Abbreviation a2 := (channel_offsets (n_channels P)).

(** Being populated is a property of the record of the shapelet. *)
Lemma populated_record (st st' : gen_state) (j : nat) :
  record_of a1 a2 st' j = record_of a1 a2 st j ->
  populated X P alpha use_phase st j ->
  populated X P alpha use_phase st' j.
Proof.
  unfold record_of. intros E.
  inversion E as [[E1 E2 E3 E4]].
  intros (l & d & nrm & c & s & p & ws & a1' & Hl & Hd & Hn & Hc & Ha1
          & Hs & Hp & Hin & Hch).
  assert (a1' = a1).
  { pose proof (values_offsets_exact X P alpha use_phase Hns HP) as Hex.
    congruence. }
  subst a1'.
  exists l, d, nrm, c, s, p, ws, a1.
  rewrite E1, E2, E3, E4. repeat split; auto; apply Hch.
Qed.

Lemma dilation_step_drawn (unique_dil : list Z) (i_d : Z)
      (st : gen_state) :
  gen_inv X P (length unique_dil) st ->
  0 <= i_d < py_len unique_dil ->
  exists st',
    dilation_step X P a1 a2 alpha use_phase unique_dil st i_d = Ok st' /\
    gen_inv X P (length unique_dil) st' /\
    (forall u i, py_index unique_dil i_d = Ok u ->
                 nth_error (dilations P) i = Some u ->
                 populated X P alpha use_phase st' i) /\
    forall j, populated X P alpha use_phase st j ->
              populated X P alpha use_phase st' j.
Proof.
  intros Hinv Hid. unfold dilation_step.
  destruct (py_index_in_range unique_dil i_d Hid) as (u & Hu & _).
  rewrite Hu. cbn [bind].
  destruct (foldM_steps (gen_inv X P (length unique_dil))
              (fun x s => populated X P alpha use_phase s (Z.to_nat x))
              (shapelet_step X P a1 a2 alpha use_phase i_d)
              (np_where1 (np_eq (dilations P) u)))
    with (s := st) as (st' & Hrun & Hinv' & Hdone & Hkeep);
    [|exact Hinv|].
  - intros s x Hx Hs.
    apply np_eq_where_In in Hx. destruct Hx as [Hx0 Hx].
    assert (Hlt : (Z.to_nat x < length (lengths P))%nat).
    { destruct HP as (Hd & _). rewrite <- Hd.
      apply nth_error_Some. congruence. }
    destruct (shapelet_step_drawn Hznorm X P alpha use_phase HX HT Hns HP
                (length unique_dil) i_d (Z.to_nat x) s Hs
                ltac:(unfold py_len in Hid; lia) Hlt)
      as (s' & Hstep & Hs' & Hpop & Hframe).
    rewrite Z2Nat.id in Hstep by lia.
    exists s'. split; [exact Hstep|]. split; [exact Hs'|].
    split; [exact Hpop|].
    intros y Hy.
    destruct (Nat.eq_dec (Z.to_nat y) (Z.to_nat x)) as [E|Hne].
    + rewrite E. exact Hpop.
    + assert (Hylt : (Z.to_nat y < length (lengths P))%nat).
      { destruct Hy as (l & d & nrm & c & s0 & p & ws & a1' & Hl & _).
        apply nth_error_Some. congruence. }
      eapply populated_record; [|exact Hy]. now apply Hframe.
  - exists st'. split; [exact Hrun|]. split; [exact Hinv'|]. split.
    + intros u' i Hu' Hi. assert (u' = u) by congruence. subst u'.
      rewrite <- (Nat2Z.id i). apply Hdone.
      apply np_eq_where_In. rewrite Nat2Z.id. split; [lia | exact Hi].
    + intros j Hj. specialize (Hkeep (Z.of_nat j)).
      rewrite Nat2Z.id in Hkeep. auto.
Qed.

Lemma generation_loop_drawn (st : gen_state) :
  gen_inv X P (length (np_unique (dilations P))) st ->
  exists st',
    foldM (dilation_step X P a1 a2 alpha use_phase
             (np_unique (dilations P)))
          (py_range (py_len (np_unique (dilations P)))) st = Ok st' /\
    gen_inv X P (length (np_unique (dilations P))) st' /\
    forall i, (i < length (lengths P))%nat ->
              populated X P alpha use_phase st' i.
Proof.
  intros Hinv.
  set (unique_dil := np_unique (dilations P)) in *.
  destruct (foldM_steps (gen_inv X P (length unique_dil))
              (fun i_d s =>
                 forall u i, py_index unique_dil i_d = Ok u ->
                             nth_error (dilations P) i = Some u ->
                             populated X P alpha use_phase s i)
              (dilation_step X P a1 a2 alpha use_phase unique_dil)
              (py_range (py_len unique_dil)))
    with (s := st) as (st' & Hrun & Hinv' & Hdone & _);
    [|exact Hinv|].
  - intros s i_d Hid Hs. apply range_In in Hid.
    destruct (dilation_step_drawn unique_dil i_d s Hs Hid)
      as (s' & Hstep & Hs' & Hpop & Hkeep).
    exists s'. split; [exact Hstep|]. split; [exact Hs'|].
    split; [exact Hpop|].
    intros y Hy u i Hu Hi. apply Hkeep. eapply Hy; eauto.
  - exists st'. split; [exact Hrun|]. split; [exact Hinv'|].
    intros i Hi.
    destruct (nth_error (dilations P) i) as [u|] eqn:Eu.
    2:{ apply nth_error_None in Eu. destruct HP as (Hd & _). lia. }
    assert (Hin : In u unique_dil).
    { apply np_unique_In. eapply nth_error_In; eauto. }
    apply In_nth_error in Hin. destruct Hin as [k Hk].
    apply (Hdone (Z.of_nat k)) with (u := u); auto.
    + apply range_In. unfold py_len.
      assert (k < length unique_dil)%nat
        by (apply nth_error_Some; congruence). lia.
    + now apply py_index_nat.
Qed.

End Populate.

Lemma within_threshold (c : Z) (nf : nat) (alpha : Q) :
  (0 <= alpha <= 1)%Q -> 0 <= c <= Z.of_nat nf ->
  Qle_bool (inject_Z c * alpha) (inject_Z (Z.of_nat nf)) = true.
Proof.
  intros [Ha0 Ha1] Hc. apply Qle_bool_iff.
  assert (0 <= inject_Z c)%Q by (rewrite <- (Zle_Qle 0); lia).
  assert (inject_Z c <= inject_Z (Z.of_nat nf))%Q
    by (rewrite <- Zle_Qle; lia).
  assert (0 <= inject_Z c * (1 - alpha))%Q
    by (apply Qmult_le_0_compat; Lqa.lra).
  Lqa.lra.
Qed.

Section EveryShapelet.

Context {K : Kernels}.

Lemma sampler_buffers (n_shapelets : Z) (shapelet_sizes : list Z)
      (n_timestamps : Z) (p_norm : Q) (max_channels : Z)
      (prime_scheme : bool) (g g' : rng) (P : shapelets) :
  M_SL_init_random_shapelet_params n_shapelets shapelet_sizes n_timestamps
    p_norm max_channels prime_scheme g = Ok (P, g') ->
  Forall (fun x => 0 <= x) (slice_sizes (n_channels P) (lengths P)) ->
  Forall (fun x => 0 <= x) (n_channels P) ->
  Zsum (n_channels P) < 2 ^ 63 ->
  Zsum (slice_sizes (n_channels P) (lengths P)) < 2 ^ 63 ->
  py_len (values P) = Zsum (slice_sizes (n_channels P) (lengths P)) /\
  py_len (channel_ids P) = Zsum (n_channels P).
Proof.
  intros Hs Hnn Hcnn Hctot Htot.
  pose proof (sampler_shape _ _ _ _ _ _ _ _ _ Hs)
    as (Hn & Hl & _ & _ & _ & Hc & Hci & size & Hdot & Hv).
  pose proof (Zsum_nonneg _ Hnn). pose proof (Zsum_nonneg _ Hcnn).
  split.
  - rewrite Hv. unfold py_len. rewrite repeat_length.
    unfold np_dot in Hdot. rewrite slice_sizes_comm in Hnn, Htot.
    rewrite np_mul_exact in Hdot by (auto; congruence).
    cbn [bind] in Hdot. inversion Hdot; subst size.
    rewrite np_sum_exact by auto.
    rewrite (slice_sizes_comm (lengths P) (n_channels P)). lia.
  - rewrite Hci. unfold py_len. rewrite repeat_length.
    rewrite np_sum_exact by auto. lia.
Qed.

(** C10.  Let the inputs of [generate] satisfy
    [1 <= max_channels <= n_features], [0 <= alpha <= 1] and
    [n_samples >= 1], for a rectangular series tensor, and let every
    sampled (length, dilation) pair keep at least one valid start
    position, the buffers having an [int64] size.  Then the branch without
    admissible candidate is never taken: the run returns, the occupancy
    mask is all-true when it ends, the candidate set of every shapelet is
    non-empty, and every requested shapelet is populated, its record
    holding one of its candidates, distinct channels and the windows read
    from them. *)
Theorem every_shapelet_populated (X : tensor3) (y : list Z)
        (n_shapelets : Z) (shapelet_sizes : list Z) (r_seed : Z)
        (p_norm p_min p_max alpha : Q) (use_phase : bool)
        (max_channels : Z) (prime_scheme : bool) (P : shapelets)
        (g1 : rng) :
  znorm_keeps_length K ->
  rectangular X ->
  Z.of_nat (n_timestamps_of X) < 2 ^ 63 ->
  Z.of_nat (n_features_of X) < 2 ^ 63 ->
  1 <= max_channels <= Z.of_nat (n_features_of X) ->
  (0 <= alpha <= 1)%Q ->
  (1 <= n_samples_of X)%nat ->
  M_SL_init_random_shapelet_params n_shapelets shapelet_sizes
    (Z.of_nat (n_timestamps_of X)) p_norm max_channels prime_scheme
    (seed r_seed) = Ok (P, g1) ->
  Forall2 (keeps_valid_start X use_phase) (lengths P) (dilations P) ->
  Zsum (slice_sizes (n_channels P) (lengths P)) < 2 ^ 63 ->
  exists st,
    generate_run X y n_shapelets shapelet_sizes r_seed p_norm p_min p_max
      alpha use_phase max_channels prime_scheme = Ok (P, st) /\
    st_mask_sampling st
    = np_ones5 2 (length (np_unique (dilations P))) (n_samples_of X)
        (n_features_of X) (n_timestamps_of X) /\
    (forall i l d c,
        nth_error (lengths P) i = Some l ->
        nth_error (dilations P) i = Some d ->
        nth_error (n_channels P) i = Some c ->
        candidates (fresh_mask X) (n_timestamps_of X)
          (d_shape_of X use_phase l d) c alpha <> []) /\
    forall i, (i < Z.to_nat n_shapelets)%nat ->
              populated X P alpha use_phase st i.
Proof.
  intros Hznorm HX HT HF Hmax Halpha Hns Hs Hfit Htot.
  pose proof (sampler_shape _ _ _ _ _ _ _ _ _ Hs)
    as (Hn & Hl & Hd & _ & Hnm & Hc & _).
  pose proof (sampler_channel_counts _ _ _ _ _ _ _ _ _ Hs ltac:(lia))
    as Hcs.
  assert (HP : sampled_ok X alpha use_phase P).
  { repeat split; try congruence; auto.
    eapply Forall_impl; [|exact Hcs]. intros c Hcr. simpl in Hcr.
    split; [lia|]. apply within_threshold; auto. lia. }
  pose proof (sizes_nonneg X P alpha use_phase Hns HP) as Hnn.
  pose proof (channels_nonneg X P alpha use_phase Hns HP) as Hcnn.
  pose proof (channels_le_sizes X P alpha use_phase Hns HP) as Hcle.
  destruct (sampler_buffers _ _ _ _ _ _ _ _ _ Hs Hnn Hcnn ltac:(lia) Htot)
    as [Hvl Hcl].
  unfold generate_run. rewrite Hs. cbn [bind].
  rewrite !np_full_nonneg by assumption. cbn [bind].
  rewrite (values_offsets_exact X P alpha use_phase Hns HP). cbn [bind].
  destruct (generation_loop_drawn Hznorm X P alpha use_phase HX HT Hns HP
              (mk_gen_state (values P) (channel_ids P)
                 (repeat 0 (Z.to_nat n_shapelets))
                 (repeat 0 (Z.to_nat n_shapelets))
                 (np_ones5 2 (length (np_unique (dilations P)))
                    (n_samples_of X) (n_features_of X)
                    (n_timestamps_of X))
                 (repeat true (Z.to_nat n_shapelets)) g1))
    as (st & Hrun & Hinv & Hpop).
  { unfold gen_inv. cbn [st_values st_channel_ids st_id_samples
                           st_start_positions st_mask_sampling].
    rewrite !repeat_length. repeat split; auto. }
  rewrite Hrun. cbn [bind].
  exists st. split; [reflexivity|].
  split; [apply Hinv|]. split.
  - intros i l d c El Ed Ec.
    assert (Hi : (i < length (lengths P))%nat)
      by (apply nth_error_Some; congruence).
    destruct (Hpop i Hi)
      as (l' & d' & nrm & c' & s & p & ws & a1 & El' & Ed' & _ & Ec' & _
          & _ & _ & Hin & _).
    assert (l' = l) by congruence. assert (d' = d) by congruence.
    assert (c' = c) by congruence. subst. intros E.
    rewrite E in Hin. exact Hin.
  - intros i Hi. apply Hpop. lia.
Qed.

End EveryShapelet.

Lemma demo_sampler :
  M_SL_init_random_shapelet_params (K := demo) 3 [2; 3; 4] 7 0%Q 2 false
    (demo_script 0)
  = Ok (demo_P, [8; 2; 1; 5; 1; 5; 1; 1; 1; 0; 0]%N).
Proof. reflexivity. Qed.

Lemma demo_znorm_keeps_length : znorm_keeps_length demo.
Proof. intros v. apply length_map. Qed.

Lemma demo_rectangular : rectangular demo_X.
Proof. split; [reflexivity|]. repeat constructor. Qed.

Lemma every_shapelet_populated_witness :
  exists st,
    generate_run (K := demo) demo_X [0; 1] 3 [2; 3; 4] 0 0%Q 0%Q 100%Q 1%Q
      false 2 false = Ok (demo_P, st) /\
    st_mask_sampling st = np_ones5 2 2 2 2 7 /\
    (forall i l d c,
        nth_error (lengths demo_P) i = Some l ->
        nth_error (dilations demo_P) i = Some d ->
        nth_error (n_channels demo_P) i = Some c ->
        candidates (K := demo) (fresh_mask (K := demo) demo_X) 7
          (d_shape_of (K := demo) demo_X false l d) c 1 <> []) /\
    forall i, (i < 3)%nat ->
              populated (K := demo) demo_X demo_P 1 false st i.
Proof.
  apply (every_shapelet_populated (K := demo) demo_X [0; 1] 3 [2; 3; 4] 0
           0%Q 0%Q 100%Q 1%Q false 2 false demo_P
           [8; 2; 1; 5; 1; 5; 1; 1; 1; 0; 0]%N).
  - exact demo_znorm_keeps_length.
  - exact demo_rectangular.
  - reflexivity.
  - reflexivity.
  - simpl; lia.
  - split; discriminate.
  - simpl; lia.
  - reflexivity.
  - repeat constructor; simpl; lia.
  - reflexivity.
Defined.

(** ** The batch applier: store computations that return *)

Section Returns.

Context {K : Kernels}.

Lemma returns_ret {A} (a : A) (h : store) (post : A -> store -> Prop) :
  post a h -> returns (ret a) h post.
Proof. intros H. exists a, h. split; [reflexivity | exact H]. Qed.

Lemma returns_bind {A B} (m : M A) (k : A -> M B) (h : store)
      (mid : A -> store -> Prop) (post : B -> store -> Prop) :
  returns m h mid ->
  (forall a h1, mid a h1 -> returns (k a) h1 post) ->
  returns (mbind m k) h post.
Proof.
  intros (a & h1 & Hm & Hmid) Hk.
  destruct (Hk a h1 Hmid) as (b & h2 & Hb & Hpost).
  exists b, h2. split; [|exact Hpost].
  rewrite (mbind_Ok m k h h1 a Hm). exact Hb.
Qed.

Lemma returns_lift {A} (r : result A) (a : A) (h : store)
      (post : A -> store -> Prop) :
  r = Ok a -> post a h -> returns (lift r) h post.
Proof.
  intros Hr H. exists a, h. split; [now apply lift_Ok | exact H].
Qed.

Lemma returns_weaken {A} (m : M A) (h : store)
      (post post' : A -> store -> Prop) :
  returns m h post -> (forall a h', post a h' -> post' a h') ->
  returns m h post'.
Proof.
  intros (a & h' & Hm & Hp) Hw. exists a, h'. split; auto.
Qed.

(** A loop keeps an invariant that each of its iterations keeps. *)
Lemma returns_forM {A} (inv : store -> Prop) (xs : list A)
      (body : A -> M unit) :
  (forall x h, In x xs -> inv h -> returns (body x) h (fun _ => inv)) ->
  forall h, inv h -> returns (forM xs body) h (fun _ => inv).
Proof.
  induction xs as [|x xs IH]; intros Hbody h Hinv.
  - now apply returns_ret.
  - cbn [forM]. eapply returns_bind.
    + apply Hbody; [now left | exact Hinv].
    + intros u h1 H1. apply IH; [|exact H1].
      intros y h2 Hy. apply Hbody. now right.
Qed.

Lemma returns_load_int (r : ref) (h : store) (v : list Z)
      (post : list Z -> store -> Prop) :
  nth_error h r = Some (Int1 v) -> post v h -> returns (load_int r) h post.
Proof.
  intros Hr H. exists v, h. split; [now apply load_int_Ok | exact H].
Qed.

Lemma returns_load_float (r : ref) (h : store) (v : list F)
      (post : list F -> store -> Prop) :
  nth_error h r = Some (Float1 v) -> post v h ->
  returns (load_float r) h post.
Proof.
  intros Hr H. exists v, h. split; [now apply load_float_Ok | exact H].
Qed.

Lemma returns_load_bool (r : ref) (h : store) (v : list bool)
      (post : list bool -> store -> Prop) :
  nth_error h r = Some (Bool1 v) -> post v h -> returns (load_bool r) h post.
Proof.
  intros Hr H. exists v, h. split; [now apply load_bool_Ok | exact H].
Qed.

Lemma returns_load_series (r : ref) (h : store) (t : tensor3)
      (post : tensor3 -> store -> Prop) :
  nth_error h r = Some (Series t) -> post t h ->
  returns (load_series r) h post.
Proof.
  intros Hr H. exists t, h. split; [now apply load_series_Ok | exact H].
Qed.

Lemma returns_load_strides (r : ref) (h : store) n0 n1 n2 w
      (post : nat * nat * nat * list (list (list F)) -> store -> Prop) :
  nth_error h r = Some (Strides n0 n1 n2 w) -> post (n0, n1, n2, w) h ->
  returns (load_strides r) h post.
Proof.
  intros Hr H. exists (n0, n1, n2, w), h.
  split; [now apply load_strides_Ok | exact H].
Qed.

(** [write] replaces one array and leaves the others. *)
Lemma write_spec (r : ref) (a : array) (h : store) :
  (r < length h)%nat ->
  exists h', write r a h = Ok (tt, h') /\
             length h' = length h /\
             nth_error h' r = Some a /\
             (forall r', r' <> r -> nth_error h' r' = nth_error h r') /\
             (forall k, (k <= r)%nat -> firstn k h' = firstn k h).
Proof.
  intros Hr. exists (firstn r h ++ a :: skipn (S r) h).
  assert (Hlen : length (firstn r h) = r) by (rewrite length_firstn; lia).
  split; [|split; [|split; [|split]]].
  - unfold write. destruct (Nat.ltb_spec r (length h)); [reflexivity | lia].
  - rewrite length_app, Hlen. cbn [length]. rewrite length_skipn. lia.
  - rewrite nth_error_app2 by lia. rewrite Hlen, Nat.sub_diag. reflexivity.
  - intros r' Hne. destruct (Nat.lt_ge_cases r' r) as [Hlt|Hge].
    + rewrite nth_error_app1 by lia. rewrite nth_error_firstn.
      destruct (Nat.ltb_spec r' r); [reflexivity | lia].
    + rewrite nth_error_app2 by lia. rewrite Hlen.
      destruct (r' - r)%nat as [|k] eqn:Hk; [lia|]. cbn [nth_error].
      rewrite nth_error_skipn. f_equal. lia.
  - intros k Hk. rewrite firstn_app, Hlen.
    replace (k - r)%nat with 0%nat by lia. cbn [firstn].
    rewrite app_nil_r, firstn_firstn. f_equal. lia.
Qed.

Lemma alloc_spec (a : array) (h : store) :
  alloc a h = Ok (length h, h ++ [a]).
Proof. reflexivity. Qed.

Lemma nth_error_prefix (h0 h : store) (r : ref) (a : array) :
  firstn (length h0) h = h0 -> nth_error h0 r = Some a ->
  nth_error h r = Some a.
Proof.
  intros Hpre Hr.
  assert (Hlt : (r < length h0)%nat) by (apply nth_error_Some; congruence).
  rewrite <- Hpre in Hr. rewrite nth_error_firstn in Hr.
  destruct (Nat.ltb_spec r (length h0)); [exact Hr | lia].
Qed.

End Returns.

(** ** The batch applier: grouping by (length, dilation) *)

Lemma pair_eqb_eq (p q : Z * Z) : pair_eqb p q = true <-> p = q.
Proof.
  destruct p as [a b], q as [c d]. unfold pair_eqb. cbn [fst snd].
  rewrite andb_true_iff, !Z.eqb_eq. split.
  - intros [-> ->]. reflexivity.
  - intros H. inversion H. auto.
Qed.

Lemma distinct_pairs_In (p : Z * Z) (l : list (Z * Z)) :
  In p (distinct_pairs l) -> In p l.
Proof.
  revert p. induction l as [|q t IH]; intros p; cbn [distinct_pairs].
  - auto.
  - intros [->|H]; [now left|]. right. apply IH.
    apply filter_In in H. tauto.
Qed.

Lemma distinct_pairs_NoDup (l : list (Z * Z)) : NoDup (distinct_pairs l).
Proof.
  induction l as [|q t IH]; cbn [distinct_pairs]; constructor.
  - intros H. apply filter_In in H. destruct H as [_ H].
    assert (Hq : pair_eqb q q = true) by now apply pair_eqb_eq.
    rewrite Hq in H. discriminate.
  - now apply NoDup_filter.
Qed.

(** The mask of a pair, as the loop computes it. *)
Lemma np_and_pair (ls ds : list Z) (l d : Z) :
  length ds = length ls ->
  np_and (np_eq ls l) (np_eq ds d)
  = Ok (map (pair_eqb (l, d)) (combine ls ds)).
Proof.
  revert ds. induction ls as [|x ls IH]; intros [|y ds] Hlen;
    try discriminate; [reflexivity|].
  cbn [np_eq map np_and combine] in *.
  unfold np_eq in IH. rewrite IH by (cbn in Hlen; lia). reflexivity.
Qed.

Lemma where_from_length (i : Z) (mask : list bool) :
  length (where_from i mask) = length (filter (fun b => b) mask).
Proof.
  revert i. induction mask as [|b t IH]; intros i; cbn [where_from filter].
  - reflexivity.
  - rewrite length_app, IH. destruct b; reflexivity.
Qed.

Lemma filter_map_length {A} (f : A -> bool) (l : list A) :
  length (filter (fun b => b) (map f l)) = length (filter f l).
Proof.
  induction l as [|x t IH]; cbn [map filter]; [reflexivity|].
  destruct (f x); cbn [length]; now rewrite IH.
Qed.

Lemma members_length (ls ds : list Z) (p : Z * Z) :
  py_len (members ls ds p)
  = py_len (filter (pair_eqb p) (combine ls ds)).
Proof.
  unfold members, np_where1, py_len.
  now rewrite where_from_length, filter_map_length.
Qed.

Lemma members_In (ls ds : list Z) (p : Z * Z) (k : Z) :
  In k (members ls ds p) ->
  0 <= k < py_len ls /\
  nth_error ls (Z.to_nat k) = Some (fst p) /\
  nth_error ds (Z.to_nat k) = Some (snd p).
Proof.
  unfold members. intros H. apply np_where1_In in H. destruct H as [Hk H].
  rewrite nth_error_map in H.
  destruct (nth_error (combine ls ds) (Z.to_nat k)) as [q|] eqn:Hq;
    [|discriminate].
  cbn in H. assert (Hpq : p = q) by (apply pair_eqb_eq; congruence).
  subst q. destruct p as [l d].
  assert (Hlt : (Z.to_nat k < length (combine ls ds))%nat)
    by (apply nth_error_Some; congruence).
  rewrite length_combine in Hlt.
  pose proof (nth_error_split _ _ Hq) as (l1 & l2 & Hc & Hl1).
  clear Hc Hl1 l1 l2.
  assert (Hboth : nth_error ls (Z.to_nat k) = Some l /\
                  nth_error ds (Z.to_nat k) = Some d).
  { clear Hlt Hk H. revert ds Hq. generalize (Z.to_nat k) as j.
    induction ls as [|x ls IH]; intros j [|y ds] Hq;
      try (destruct j; discriminate).
    destruct j as [|j]; cbn in *.
    - inversion Hq. auto.
    - eauto. }
  split; [unfold py_len; lia | exact Hboth].
Qed.

Lemma Zsum_app (xs ys : list Z) : Zsum (xs ++ ys) = Zsum xs + Zsum ys.
Proof.
  unfold Zsum. induction xs as [|x xs IH]; cbn [app fold_right]; lia.
Qed.

Lemma Zsum_map_add {A} (f g : A -> Z) (l : list A) :
  Zsum (map (fun x => f x + g x) l) = Zsum (map f l) + Zsum (map g l).
Proof.
  unfold Zsum. induction l as [|x l IH]; cbn [map fold_right]; lia.
Qed.

Lemma Zsum_map_ext {A} (f g : A -> Z) (l : list A) :
  (forall x, f x = g x) -> Zsum (map f l) = Zsum (map g l).
Proof.
  intros H. f_equal. apply map_ext. exact H.
Qed.

(** A pair occurs at most once among distinct pairs. *)
Lemma indicator_sum (q : Z * Z) (D : list (Z * Z)) :
  NoDup D ->
  0 <= Zsum (map (fun p => if pair_eqb p q then 1 else 0) D) <= 1.
Proof.
  induction 1 as [|p D Hnin Hnd IH]; cbn [map]; unfold Zsum in *;
    cbn [fold_right]; [lia|].
  destruct (pair_eqb p q) eqn:Hpq; [|lia].
  apply pair_eqb_eq in Hpq. subst q.
  assert (Hz : fold_right Z.add 0
                 (map (fun p0 => if pair_eqb p0 p then 1 else 0) D) = 0).
  { clear IH Hnd. induction D as [|r D IHD]; cbn [map fold_right];
      [reflexivity|].
    destruct (pair_eqb r p) eqn:Hr.
    - apply pair_eqb_eq in Hr. subst r. exfalso. apply Hnin. now left.
    - rewrite IHD; [reflexivity|]. intros Hin. apply Hnin. now right. }
  lia.
Qed.

(** The groups of distinct pairs are disjoint: together they hold no more
    shapelets than there are. *)
Lemma groups_bounded (D ps : list (Z * Z)) :
  NoDup D ->
  0 <= Zsum (map (fun p => py_len (filter (pair_eqb p) ps)) D)
    <= py_len ps.
Proof.
  intros Hnd. induction ps as [|q t IH].
  - cbn [filter]. unfold py_len. cbn [length].
    assert (Hz : Zsum (map (fun _ : Z * Z => Z.of_nat 0) D) = 0).
    { unfold Zsum. induction D as [|p D IHD]; cbn [map fold_right];
        [reflexivity|].
      rewrite IHD; [reflexivity | now inversion Hnd]. }
    rewrite Hz. lia.
  - rewrite (Zsum_map_ext _
               (fun p => (if pair_eqb p q then 1 else 0)
                         + py_len (filter (pair_eqb p) t))).
    + rewrite Zsum_map_add. pose proof (indicator_sum q D Hnd).
      unfold py_len in *. cbn [length]. lia.
    + intros p. cbn [filter]. unfold py_len.
      destruct (pair_eqb p q); cbn [length]; lia.
Qed.

Lemma members_bounded (ls ds : list Z) (D : list (Z * Z)) :
  length ds = length ls -> NoDup D ->
  0 <= Zsum (map (fun p => py_len (members ls ds p)) D) <= py_len ls.
Proof.
  intros Hlen Hnd.
  rewrite (Zsum_map_ext _
             (fun p => py_len (filter (pair_eqb p) (combine ls ds))))
    by (intros p; apply members_length).
  pose proof (groups_bounded D (combine ls ds) Hnd) as H.
  unfold py_len in *. rewrite length_combine in H. lia.
Qed.

Lemma NoDup_firstn {A} (l : list A) (n : nat) : NoDup l -> NoDup (firstn n l).
Proof.
  intros H. rewrite <- (firstn_skipn n l) in H.
  now apply NoDup_app_remove_r in H.
Qed.

Lemma firstn_S_nth {A} (l : list A) (i : nat) (x : A) :
  nth_error l i = Some x -> firstn (S i) l = firstn i l ++ [x].
Proof.
  revert i. induction l as [|y l IH]; intros [|i] H; try discriminate.
  - cbn in H. inversion H. reflexivity.
  - cbn [nth_error] in H. cbn [firstn app]. f_equal. now apply IH.
Qed.

Lemma Zsum_concat_length {A} (ls : list (list A)) :
  py_len (concat ls) = Zsum (map (fun l => py_len l) ls).
Proof.
  unfold py_len, Zsum. induction ls as [|l ls IH]; cbn [concat map fold_right];
    [reflexivity|].
  rewrite length_app. lia.
Qed.

(** A counted loop that may raise: an invariant indexed by the number of
    iterations done. *)
Lemma foldM_counted {S} (I : nat -> S -> Prop) (body : S -> Z -> result S)
      (k : nat) :
  forall (a : nat) (s : S),
    I a s ->
    (forall i s, (a <= i < a + k)%nat -> I i s ->
                 exists s', body s (Z.of_nat i) = Ok s' /\ I (Datatypes.S i) s') ->
    exists s', foldM body (map Z.of_nat (seq a k)) s = Ok s' /\
               I (a + k)%nat s'.
Proof.
  induction k as [|k IH]; intros a s Ha Hstep.
  - exists s. rewrite Nat.add_0_r. split; [reflexivity | exact Ha].
  - cbn [seq map foldM].
    destruct (Hstep a s ltac:(lia) Ha) as (s1 & Hb & H1).
    rewrite Hb. cbn [bind].
    destruct (IH (Datatypes.S a) s1 H1) as (s' & Hf & H').
    { intros i s0 Hi. apply Hstep. lia. }
    exists s'. split; [exact Hf|].
    now replace (a + Datatypes.S k)%nat with (Datatypes.S a + k)%nat by lia.
Qed.

Lemma foldM_range {S} (I : nat -> S -> Prop) (body : S -> Z -> result S)
      (n : nat) (s : S) :
  I 0%nat s ->
  (forall i s, (i < n)%nat -> I i s ->
               exists s', body s (Z.of_nat i) = Ok s' /\ I (Datatypes.S i) s') ->
  exists s', foldM body (py_range (Z.of_nat n)) s = Ok s' /\ I n s'.
Proof.
  intros H0 Hstep. unfold py_range. rewrite Nat2Z.id.
  destruct (foldM_counted I body n 0%nat s H0) as (s' & Hf & H').
  - intros i s0 Hi. apply Hstep. lia.
  - exists s'. split; [exact Hf | exact H'].
Qed.

Section Grouping.

Variables ls ds : list Z.
Hypothesis Hlen : length ds = length ls.

Local Abbreviation D := (distinct_pairs (combine ls ds)).
Local Abbreviation cnt := (fun p => py_len (members ls ds p)).

Lemma group_sizes_bounded (i : nat) :
  0 <= Zsum (map cnt (firstn i D)) <= py_len ls.
Proof.
  apply members_bounded; [exact Hlen|].
  apply NoDup_firstn, distinct_pairs_NoDup.
Qed.

(** The grouping loop returns; it lists the members of the groups one
    after the other and records the sizes of the groups. *)
Lemma group_shapelets_returns :
  exists idx_shp nsp a3,
    group_shapelets ls ds D (repeat 0 (length ls))
      (repeat 0 (length D + 1)) = Ok (idx_shp, nsp, a3) /\
    length idx_shp = length ls /\
    nsp = 0 :: map cnt D /\
    exists rest, idx_shp = concat (map (members ls ds) D) ++ rest.
Proof.
  unfold group_shapelets. unfold py_len at 1.
  destruct (foldM_range
    (fun i '(idx, nsp, a3) =>
       length idx = length ls /\
       length nsp = (length D + 1)%nat /\
       firstn (Datatypes.S i) nsp = 0 :: map cnt (firstn i D) /\
       a3 = Zsum (map cnt (firstn i D)) /\
       firstn (Z.to_nat a3) idx
       = concat (map (members ls ds) (firstn i D)))
    (fun '(idx_shp, n_shp_params, a3) i =>
           '(_length, _dilation) <- py_index D i ;;
           both <- np_and (np_eq ls _length) (np_eq ds _dilation) ;;
           let ix_shapelets := np_where1 both in
           let b := a3 + py_len ix_shapelets in
           idx_shp <- py_set_slice idx_shp a3 b ix_shapelets ;;
           n_shp_params <-
             py_set_index n_shp_params (i + 1) (py_len ix_shapelets) ;;
           Ok (idx_shp, n_shp_params, b))
    (length D) (repeat 0 (length ls), repeat 0 (length D + 1), 0))
    as ([[idx nsp] a3] & Hf & Hi1 & Hi2 & Hi3 & Hi4 & Hi5).
  - rewrite !repeat_length. split; [reflexivity|]. split; [reflexivity|].
    split; [|split; reflexivity].
    rewrite Nat.add_1_r. reflexivity.
  - intros i [[idx nsp] a3] Hi (H1 & H2 & H3 & H4 & H5).
    destruct (nth_error D i) as [[l d]|] eqn:Hp;
      [|apply nth_error_None in Hp; lia].
    rewrite (py_index_nat _ _ _ Hp). cbn [bind].
    rewrite (np_and_pair ls ds l d Hlen). cbn [bind].
    change (np_where1 (map (pair_eqb (l, d)) (combine ls ds)))
      with (members ls ds (l, d)).
    pose proof (firstn_S_nth _ _ _ Hp) as HS.
    pose proof (group_sizes_bounded i) as Hb0.
    pose proof (group_sizes_bounded (Datatypes.S i)) as Hb1.
    assert (Hone : Zsum (map cnt [(l, d)]) = py_len (members ls ds (l, d)))
      by (unfold Zsum; cbn [map fold_right]; lia).
    rewrite HS, map_app, Zsum_app, Hone in Hb1.
    assert (Hc : 0 <= py_len (members ls ds (l, d)))
      by (unfold py_len; lia).
    rewrite py_set_slice_exact;
      [|lia| unfold py_len in *; lia | lia].
    cbn [bind].
    rewrite py_set_index_in_range by (unfold py_len; lia). cbn [bind].
    eexists. split; [reflexivity|]. cbn beta iota.
    split; [|split; [|split; [|split]]].
    + rewrite splice_length; unfold py_len in *; lia.
    + rewrite update_length; lia.
    + replace (Z.to_nat (Z.of_nat i + 1)) with (Datatypes.S i) by lia.
      rewrite firstn_app.
      rewrite firstn_firstn, Nat.min_r by lia.
      rewrite length_firstn, Nat.min_l by lia.
      replace (Datatypes.S (Datatypes.S i) - Datatypes.S i)%nat
        with 1%nat by lia.
      rewrite H3, HS, map_app. reflexivity.
    + rewrite HS, map_app, Zsum_app, Hone. lia.
    + rewrite HS, !map_app, concat_app. cbn [map concat].
      rewrite app_nil_r, <- H5.
      assert (Hl : length (firstn (Z.to_nat a3) idx) = Z.to_nat a3)
        by (rewrite length_firstn; unfold py_len in *; lia).
      rewrite app_assoc, firstn_app.
      rewrite length_app, Hl.
      replace (Z.to_nat (a3 + py_len (members ls ds (l, d)))
               - (Z.to_nat a3 + length (members ls ds (l, d))))%nat
        with 0%nat by (unfold py_len; lia).
      cbn [firstn]. rewrite app_nil_r.
      apply firstn_all2. rewrite length_app, Hl. unfold py_len. lia.
  - exists idx, nsp, a3. split; [exact Hf|]. split; [exact Hi1|].
    rewrite firstn_all in Hi3, Hi5. rewrite firstn_all in Hi4.
    split.
    + rewrite <- Hi3. symmetry. apply firstn_all2. lia.
    + exists (skipn (Z.to_nat a3) idx).
      rewrite <- Hi5. symmetry. apply firstn_skipn.
Qed.

End Grouping.

Lemma concat_slice {A} (L : list (list A)) (rest : list A) (j : nat)
      (v : list A) :
  nth_error L j = Some v ->
  py_slice (concat L ++ rest) (py_len (concat (firstn j L)))
           (py_len (concat (firstn (S j) L))) = v.
Proof.
  intros Hj. pose proof (firstn_S_nth _ _ _ Hj) as HS.
  pose proof (nth_error_split _ _ Hj) as (L1 & L2 & HL & Hl1).
  assert (H1 : firstn j L = L1).
  { rewrite HL, <- Hl1. rewrite firstn_app, Nat.sub_diag, firstn_all.
    cbn [firstn]. now rewrite app_nil_r. }
  rewrite HS, H1, concat_app. cbn [concat]. rewrite app_nil_r.
  rewrite HL at 1. rewrite concat_app. cbn [concat].
  unfold py_len. rewrite length_app.
  rewrite py_slice_exact.
  - replace (Z.to_nat (Z.of_nat (length (concat L1) + length v)
                       - Z.of_nat (length (concat L1))))
      with (length v) by lia.
    rewrite Nat2Z.id. rewrite <- !app_assoc.
    rewrite skipn_app, skipn_all, Nat.sub_diag. cbn [skipn app].
    rewrite firstn_app, firstn_all, Nat.sub_diag. cbn [firstn].
    now rewrite app_nil_r.
  - lia.
  - unfold py_len. rewrite !length_app. lia.
Qed.

Section Offsets.

Variables ls ds : list Z.
Hypothesis Hlen : length ds = length ls.
Hypothesis Hn : py_len ls < 2 ^ 63.

Local Abbreviation D := (distinct_pairs (combine ls ds)).
Local Abbreviation cnt := (fun p => py_len (members ls ds p)).

Lemma group_offsets_nth (j : nat) :
  (j <= length D)%nat ->
  nth_error (np_cumsum (0 :: map cnt D)) j
  = Some (Zsum (map cnt (firstn j D))).
Proof.
  intros Hj. unfold np_cumsum. cbn [np_cumsum_from].
  change (wrap64 (0 + 0)) with 0.
  rewrite np_cumsum_from_exact.
  - rewrite firstn_map. reflexivity.
  - lia.
  - apply Forall_forall. intros x Hx. apply in_map_iff in Hx.
    destruct Hx as (p & <- & _). unfold py_len. lia.
  - pose proof (group_sizes_bounded ls ds Hlen (length D)) as H.
    rewrite firstn_all in H. lia.
  - now rewrite length_map.
Qed.

Lemma group_offsets_length :
  py_len (np_cumsum (0 :: map cnt D)) = py_len D + 1.
Proof.
  unfold np_cumsum, py_len. rewrite np_cumsum_from_length. cbn [length].
  rewrite length_map. lia.
Qed.

Lemma group_slice (rest : list Z) (j : nat) (p : Z * Z) :
  nth_error D j = Some p ->
  py_slice (concat (map (members ls ds) D) ++ rest)
           (Zsum (map cnt (firstn j D)))
           (Zsum (map cnt (firstn (S j) D)))
  = members ls ds p.
Proof.
  intros Hp.
  assert (Hz : forall k, Zsum (map cnt (firstn k D))
                         = py_len (concat (firstn k (map (members ls ds) D)))).
  { intros k. rewrite Zsum_concat_length, firstn_map, map_map. reflexivity. }
  rewrite !Hz. apply concat_slice. rewrite nth_error_map, Hp. reflexivity.
Qed.

End Offsets.

Section Windows2D.

Context {K : Kernels}.
Hypothesis Hz : znorm_keeps_length K.

(** The windows of one series are computed and stored in a new array. *)
Lemma generate_strides_2D_returns (xi : list (list F)) (T : nat) (l d : Z)
      (use_phase : bool) (h : store) :
  Forall (fun series => length series = T) xi ->
  1 <= l -> 1 <= d ->
  (if use_phase then 1 <= Z.of_nat T else (l - 1) * d < Z.of_nat T) ->
  returns (generate_strides_2D xi (length xi) T l d use_phase) h
    (fun s h' =>
       s = length h /\
       exists n1 w,
         h' = h ++ [Strides (length xi) n1 (Z.to_nat l) w] /\
         length w = length xi /\
         Forall (fun row => length row = n1 /\
                            Forall (fun win => length win = Z.to_nat l) row)
                w).
Proof.
  intros Hxi Hl Hd Hfit. unfold generate_strides_2D.
  set (n_windows := if use_phase then Z.of_nat T
                    else Z.of_nat T - (l - 1) * d).
  assert (Hnw : 0 <= n_windows) by (unfold n_windows; destruct use_phase; lia).
  destruct (Z.ltb_spec n_windows 0); [lia|].
  destruct (Z.ltb_spec l 0); [lia|]. cbn [orb].
  destruct (mapM_total
              (fun series =>
                 mapM (fun s => get_subsequence series s l d false use_phase)
                      (py_range n_windows))
              (fun row => length row = Z.to_nat n_windows /\
                          Forall (fun win => length win = Z.to_nat l) row)
              xi) as (w & Hw & Hshape & Hwl).
  - intros series Hs.
    assert (Hser : length series = T)
      by (rewrite Forall_forall in Hxi; now apply Hxi).
    destruct (mapM_total
                (fun s => get_subsequence series s l d false use_phase)
                (fun win => length win = Z.to_nat l)
                (py_range n_windows)) as (row & Hrow & Hwin & Hrl).
    + intros s Hin. apply range_In in Hin.
      destruct (get_subsequence_total Hz series s l d false use_phase)
        as (v & Hv & Hvl); try lia.
      * unfold py_len. rewrite Hser. unfold n_windows in Hin.
        destruct use_phase; lia.
      * exists v. split; [exact Hv|]. unfold py_len in Hvl. lia.
    + exists row. split; [exact Hrow|]. split; [|exact Hwin].
      now rewrite Hrl, py_range_length.
  - eapply returns_bind.
    + apply returns_lift with (a := w); [exact Hw|].
      instantiate (1 := fun a h1 => a = w /\ h1 = h). now split.
    + intros a h1 [-> ->].
      exists (length h),
        (h ++ [Strides (length xi) (Z.to_nat n_windows) (Z.to_nat l) w]).
      split; [reflexivity|]. split; [reflexivity|].
      exists (Z.to_nat n_windows), w. auto.
Qed.

End Windows2D.

Lemma firstn_In {A} (x : A) (n : nat) (l : list A) :
  In x (firstn n l) -> In x l.
Proof.
  intros H. rewrite <- (firstn_skipn n l). apply in_or_app. now left.
Qed.

Lemma skipn_In {A} (x : A) (n : nat) (l : list A) :
  In x (skipn n l) -> In x l.
Proof.
  intros H. rewrite <- (firstn_skipn n l). apply in_or_app. now right.
Qed.

Lemma py_slice_In {A} (x : A) (l : list A) (a b : Z) :
  In x (py_slice l a b) -> In x l.
Proof.
  unfold py_slice. intros H. apply firstn_In in H. now apply skipn_In in H.
Qed.

Lemma Forall_update {A} (Q : A -> Prop) (l : list A) (j : nat) (v : A) :
  Forall Q l -> Q v -> Forall Q (firstn j l ++ v :: skipn (S j) l).
Proof.
  intros Hl Hv. rewrite Forall_forall in Hl. apply Forall_forall.
  intros y Hy. apply in_app_or in Hy. destruct Hy as [Hy|[<-|Hy]].
  - apply Hl. now apply firstn_In in Hy.
  - exact Hv.
  - apply Hl. now apply skipn_In in Hy.
Qed.

Lemma np_reshape_returns {A} (a : list A) (c l : Z) :
  1 <= c -> 1 <= l -> py_len a = c * l ->
  exists m, np_reshape a c l = Ok m.
Proof.
  intros Hc Hl Ha. unfold np_reshape.
  destruct (Z.eqb_spec c (-1)); [lia|]. cbn [andb].
  destruct (Z.eqb_spec l (-1)); [lia|]. cbn [andb].
  destruct (Z.leb_spec 0 c); [|lia].
  destruct (Z.leb_spec 0 l); [|lia].
  destruct (Z.eqb_spec (c * l) (py_len a)); [|lia].
  cbn [andb]. eauto.
Qed.

Section Features.

Context {K : Kernels}.

Variable h0 : store.
Variables rows cols : nat.

Lemma returns_load (r : ref) (h : store) (a : array)
      (post : array -> store -> Prop) :
  nth_error h r = Some a -> post a h -> returns (load r) h post.
Proof.
  intros Hr H. exists a, h. split; [|exact H]. unfold load. now rewrite Hr.
Qed.

Lemma applier_store_lookup (h : store) (r : ref) (a : array) :
  applier_store h0 rows cols h -> nth_error h0 r = Some a ->
  nth_error h r = Some a.
Proof.
  intros [Hpre _]. now apply nth_error_prefix.
Qed.

(** A write above the arrays of the caller and beside the feature matrix
    keeps both. *)
Lemma applier_store_frame (h h' : store) (r : ref) :
  applier_store h0 rows cols h ->
  (length h0 < r)%nat ->
  (forall r', r' <> r -> nth_error h' r' = nth_error h r') ->
  (forall k, (k <= r)%nat -> firstn k h' = firstn k h) ->
  applier_store h0 rows cols h'.
Proof.
  intros [Hpre (a & Ha & Hm)] Hr Hother Hfirst. split.
  - rewrite Hfirst by lia. exact Hpre.
  - exists a. split; [|exact Hm]. rewrite Hother by lia. exact Ha.
Qed.

(** [X_new[i, 3k : 3k+3] = v] keeps the shape of the feature matrix and
    every other array. *)
Lemma write_features_returns (h : store) (i k : Z) (f1 f2 f3 : F) :
  applier_store h0 rows cols h ->
  0 <= i < Z.of_nat rows -> 0 <= k -> 3 * k + 3 <= Z.of_nat cols ->
  returns (write_features (length h0) i (3 * k) (3 * k + 3) [f1; f2; f3]) h
    (fun _ h' =>
       applier_store h0 rows cols h' /\
       forall r, r <> length h0 -> nth_error h' r = nth_error h r).
Proof.
  intros [Hpre (a & Ha & m & -> & Hrows & Hcols)] Hi Hk Hk3.
  unfold write_features. eapply returns_bind.
  - apply returns_load with (a := Float2 rows cols m); [exact Ha|].
    instantiate (1 := fun a h1 => a = Float2 rows cols m /\ h1 = h).
    now split.
  - intros a h1 [-> ->].
    destruct (py_index_in_range m i) as (row & Hrow & Hnth);
      [unfold py_len; lia|].
    assert (Hrl : length row = cols).
    { rewrite Forall_forall in Hcols. apply Hcols.
      eapply nth_error_In; eauto. }
    eapply returns_bind.
    { apply returns_lift with (a := row); [exact Hrow|].
      instantiate (1 := fun a h1 => a = row /\ h1 = h). now split. }
    intros a h1 [-> ->].
    eapply returns_bind.
    { eapply returns_lift.
      - apply py_set_slice_exact with (v := [f1; f2; f3]);
          unfold py_len; cbn [length]; lia.
      - instantiate (1 := fun a h1 =>
          a = firstn (Z.to_nat (3 * k)) row ++ [f1; f2; f3]
              ++ skipn (Z.to_nat (3 * k + 3)) row /\ h1 = h).
        now split. }
    intros a h1 [-> ->].
    set (row' := firstn (Z.to_nat (3 * k)) row ++ [f1; f2; f3]
                 ++ skipn (Z.to_nat (3 * k + 3)) row).
    assert (Hrl' : length row' = cols).
    { unfold row'. rewrite splice_length; cbn [length]; lia. }
    eapply returns_bind.
    { eapply returns_lift.
      - apply py_set_index_in_range with (v := row'). unfold py_len. lia.
      - instantiate (1 := fun a h1 =>
          a = firstn (Z.to_nat i) m ++ row' :: skipn (S (Z.to_nat i)) m
          /\ h1 = h).
        now split. }
    intros a h1 [-> ->].
    assert (Hlt : (length h0 < length h)%nat)
      by (apply nth_error_Some; congruence).
    destruct (write_spec (length h0)
                (Float2 rows cols
                   (firstn (Z.to_nat i) m ++ row' :: skipn (S (Z.to_nat i)) m))
                h Hlt)
      as (h' & Hw & Hlen & Hsame & Hother & Hfirst).
    exists tt, h'. split; [exact Hw|]. split; [|exact Hother].
    split.
    + rewrite Hfirst by lia. exact Hpre.
    + eexists. split; [exact Hsame|]. eexists. split; [reflexivity|].
      split.
      * rewrite update_length; lia.
      * now apply Forall_update.
Qed.

End Features.

Section Sequencing.

Context {K : Kernels}.

Lemma returns_lift_bind {A B} (r : result A) (a : A) (k : A -> M B)
      (h : store) (post : B -> store -> Prop) :
  r = Ok a -> returns (k a) h post -> returns (mbind (lift r) k) h post.
Proof.
  intros Hr (b & h' & Hk & Hp). exists b, h'. split; [|exact Hp].
  rewrite (mbind_Ok _ k h h a (lift_Ok r a h Hr)). exact Hk.
Qed.

Lemma returns_load_int_bind {B} (r : ref) (v : list Z) (k : list Z -> M B)
      (h : store) (post : B -> store -> Prop) :
  nth_error h r = Some (Int1 v) -> returns (k v) h post ->
  returns (mbind (load_int r) k) h post.
Proof.
  intros Hr (b & h' & Hk & Hp). exists b, h'. split; [|exact Hp].
  rewrite (mbind_Ok _ k h h v (load_int_Ok r h v Hr)). exact Hk.
Qed.

Lemma returns_load_float_bind {B} (r : ref) (v : list F)
      (k : list F -> M B) (h : store) (post : B -> store -> Prop) :
  nth_error h r = Some (Float1 v) -> returns (k v) h post ->
  returns (mbind (load_float r) k) h post.
Proof.
  intros Hr (b & h' & Hk & Hp). exists b, h'. split; [|exact Hp].
  rewrite (mbind_Ok _ k h h v (load_float_Ok r h v Hr)). exact Hk.
Qed.

Lemma returns_load_bool_bind {B} (r : ref) (v : list bool)
      (k : list bool -> M B) (h : store) (post : B -> store -> Prop) :
  nth_error h r = Some (Bool1 v) -> returns (k v) h post ->
  returns (mbind (load_bool r) k) h post.
Proof.
  intros Hr (b & h' & Hk & Hp). exists b, h'. split; [|exact Hp].
  rewrite (mbind_Ok _ k h h v (load_bool_Ok r h v Hr)). exact Hk.
Qed.

Lemma returns_load_series_bind {B} (r : ref) (t : tensor3)
      (k : tensor3 -> M B) (h : store) (post : B -> store -> Prop) :
  nth_error h r = Some (Series t) -> returns (k t) h post ->
  returns (mbind (load_series r) k) h post.
Proof.
  intros Hr (b & h' & Hk & Hp). exists b, h'. split; [|exact Hp].
  rewrite (mbind_Ok _ k h h t (load_series_Ok r h t Hr)). exact Hk.
Qed.

Lemma returns_load_strides_bind {B} (r : ref) n0 n1 n2 w
      (k : nat * nat * nat * list (list (list F)) -> M B) (h : store)
      (post : B -> store -> Prop) :
  nth_error h r = Some (Strides n0 n1 n2 w) ->
  returns (k (n0, n1, n2, w)) h post ->
  returns (mbind (load_strides r) k) h post.
Proof.
  intros Hr (b & h' & Hk & Hp). exists b, h'. split; [|exact Hp].
  rewrite (mbind_Ok _ k h h _ (load_strides_Ok r h n0 n1 n2 w Hr)).
  exact Hk.
Qed.

End Sequencing.

Lemma Forall2_Forall_l {A B} (R : A -> B -> Prop) (Q : A -> Prop)
      (l : list A) (l' : list B) :
  Forall2 R l l' -> (forall a b, R a b -> Q a) -> Forall Q l.
Proof.
  intros H HQ. induction H; constructor; eauto.
Qed.

Section FeatureStep.

Context {K : Kernels}.

Variable h0 : store.
Variable X : ref.
Variable R : shapelet_refs.
Variable use_phase : bool.
Variable x : tensor3.
Variable P : shapelets.
Hypothesis Hin : apply_input h0 X R use_phase x P.

Local Abbreviation n := (length (lengths P)).
Local Abbreviation rows := (n_samples_of x).
Local Abbreviation cols := (Z.to_nat (3 * py_len (lengths P))).
Local Abbreviation sizes := (slice_sizes (n_channels P) (lengths P)).
Local Abbreviation a1 := (0 :: np_cumsum sizes).
Local Abbreviation a2 := (channel_offsets (n_channels P)).

Lemma valid_lengths_pos : Forall (fun l => 1 <= l) (lengths P).
Proof.
  destruct Hin as (_ & _ & _ & _ & _ & _ & _ & _ & _ & Hv).
  destruct Hv as (_ & _ & _ & _ & Hfit & _).
  apply (Forall2_Forall_l _ _ _ _ Hfit). intros l d (Hl & _). exact Hl.
Qed.

Lemma valid_sizes_pos : Forall (fun s => 1 <= s) sizes.
Proof.
  pose proof valid_lengths_pos as Hlp.
  destruct Hin as (_ & _ & _ & _ & _ & _ & _ & _ & _ & Hv).
  destruct Hv as (_ & _ & _ & _ & _ & Hpos & _).
  apply Forall_forall. intros s Hs. unfold slice_sizes in Hs.
  apply in_map_iff in Hs. destruct Hs as ([c l] & <- & Hcl).
  cbn [fst snd]. pose proof (in_combine_l _ _ _ _ Hcl) as Hc1.
  pose proof (in_combine_r _ _ _ _ Hcl) as Hl1.
  rewrite Forall_forall in Hpos, Hlp.
  specialize (Hpos c Hc1). specialize (Hlp l Hl1). nia.
Qed.

Lemma valid_sizes_nonneg : Forall (fun s => 0 <= s) sizes.
Proof.
  eapply Forall_impl; [|exact valid_sizes_pos]. cbn. intros; lia.
Qed.

Lemma Zsum_length_le (xs : list Z) :
  Forall (fun s => 1 <= s) xs -> py_len xs <= Zsum xs.
Proof.
  unfold py_len, Zsum. induction 1 as [|y ys Hy Hys IH];
    cbn [length fold_right]; lia.
Qed.

(** There are fewer shapelets than [2^63]. *)
Lemma valid_count : py_len (lengths P) < 2 ^ 63.
Proof.
  pose proof (Zsum_length_le _ valid_sizes_pos) as Hle.
  destruct Hin as (_ & _ & _ & _ & _ & _ & _ & _ & _ & Hv).
  destruct Hv as (_ & _ & _ & Hc & _ & _ & _ & _ & Hlt).
  unfold py_len in *. rewrite slice_sizes_length in Hle; lia.
Qed.

Lemma values_offsets_nth (j : nat) :
  (j <= n)%nat -> nth_error a1 j = Some (Zsum (firstn j sizes)).
Proof.
  intros Hj. pose proof valid_sizes_nonneg as Hnn.
  destruct Hin as (_ & _ & _ & _ & _ & _ & _ & _ & _ & Hv).
  destruct Hv as (_ & _ & _ & Hc & _ & _ & _ & _ & Hlt).
  unfold np_cumsum. rewrite np_cumsum_from_exact; auto; try lia.
  rewrite slice_sizes_length; lia.
Qed.

(** One shapelet on one sample: the three features are written in the
    feature matrix and nothing else changes. *)
Lemma feature_step_returns (h : store) (s : ref) (n1 n2 : nat)
      (i_sample l : Z) (_idx : list Z) (i_idx : Z) :
  applier_store h0 rows cols h ->
  strides_at h s (n_features_of x) n1 n2 ->
  (length h0 < s)%nat ->
  0 <= i_sample < Z.of_nat rows ->
  0 <= i_idx < py_len _idx ->
  Forall (fun k => 0 <= k /\ nth_error (lengths P) (Z.to_nat k) = Some l)
         _idx ->
  returns (feature_step R (length h0) a1 a2 3 s i_sample l _idx i_idx) h
    (fun _ h' => applier_store h0 rows cols h' /\
                 strides_at h' s (n_features_of x) n1 n2).
Proof.
  intros Hst (w & Hw & Hwl & Hwshape) Hs Hi Hidx Hall.
  pose proof valid_sizes_nonneg as Hnn.
  pose proof valid_lengths_pos as Hlp.
  destruct Hin as (HX & Hval & Hlens & Hdil & Hthr & Hnorm & Hnch & Hcid
                   & Hrect & Hv).
  destruct Hv as (V1 & V2 & V3 & V4 & V5 & V6 & V7 & V8 & V9).
  destruct (py_index_in_range _idx i_idx Hidx) as (k & Hk & Hknth).
  assert (Hkin : In k _idx) by (eapply nth_error_In; eauto).
  rewrite Forall_forall in Hall. destruct (Hall k Hkin) as [Hk0 Hkl].
  assert (Hj : (Z.to_nat k < n)%nat) by (apply nth_error_Some; congruence).
  assert (Hl1 : 1 <= l).
  { rewrite Forall_forall in Hlp. apply Hlp. eapply nth_error_In; eauto. }
  destruct (nth_error (n_channels P) (Z.to_nat k)) as [c|] eqn:Hc;
    [|apply nth_error_None in Hc; lia].
  assert (Hc1 : 1 <= c).
  { rewrite Forall_forall in V6. apply V6. eapply nth_error_In; eauto. }
  destruct (nth_error (threshold P) (Z.to_nat k)) as [t|] eqn:Ht;
    [|apply nth_error_None in Ht; lia].
  assert (Hkk : k = Z.of_nat (Z.to_nat k)) by lia.
  assert (Hkk1 : k + 1 = Z.of_nat (S (Z.to_nat k))) by lia.
  assert (Ha2 : py_len a2 = Z.of_nat n + 1).
  { unfold channel_offsets, np_cumsum, py_len. cbn [length].
    rewrite np_cumsum_from_length. lia. }
  destruct (py_index_in_range a2 k) as (lo2 & Hlo2 & _); [lia|].
  destruct (py_index_in_range a2 (k + 1)) as (hi2 & Hhi2 & _); [lia|].
  pose proof (values_offsets_nth (Z.to_nat k) ltac:(lia)) as Hlo1.
  pose proof (values_offsets_nth (S (Z.to_nat k)) ltac:(lia)) as Hhi1.
  pose proof (slice_sizes_nth _ _ _ _ _ Hc Hkl) as Hsz.
  rewrite (Zsum_firstn_S _ _ _ Hsz) in Hhi1.
  pose proof (Zsum_firstn_le sizes (Z.to_nat k) Hnn) as Hb0.
  pose proof (Zsum_firstn_le sizes (S (Z.to_nat k)) Hnn) as Hb1.
  rewrite (Zsum_firstn_S _ _ _ Hsz) in Hb1.
  apply py_index_nat in Hlo1, Hhi1. rewrite <- Hkk in Hlo1.
  rewrite <- Hkk1 in Hhi1.
  destruct (np_reshape_returns
              (py_slice (values P) (Zsum (firstn (Z.to_nat k) sizes))
                 (Zsum (firstn (Z.to_nat k) sizes) + c * l)) c l Hc1 Hl1)
    as (m & Hm).
  { rewrite py_slice_length; nia. }
  destruct (mapM_total (py_index w) (fun _ => True)
              (py_slice (channel_ids P) lo2 hi2)) as (xs & Hxs & _ & _).
  { intros ch Hch. apply py_slice_In in Hch.
    rewrite Forall_forall in V8. specialize (V8 ch Hch).
    destruct (py_index_in_range w ch) as (row & Hrow & _);
      [unfold py_len; lia|].
    exists row. split; [exact Hrow | exact I]. }
  unfold feature_step.
  apply returns_lift_bind with (a := k); [exact Hk|].
  apply returns_load_int_bind with (v := channel_ids P);
    [now apply (applier_store_lookup h0 rows cols)|].
  apply returns_lift_bind with (a := lo2); [exact Hlo2|].
  apply returns_lift_bind with (a := hi2); [exact Hhi2|].
  cbv beta zeta.
  apply returns_load_float_bind with (v := values P);
    [now apply (applier_store_lookup h0 rows cols)|].
  eapply returns_lift_bind; [exact Hlo1|].
  eapply returns_lift_bind; [exact Hhi1|].
  apply returns_load_int_bind with (v := n_channels P);
    [now apply (applier_store_lookup h0 rows cols)|].
  eapply returns_lift_bind; [rewrite Hkk; apply py_index_nat; exact Hc|].
  eapply returns_lift_bind; [exact Hm|].
  eapply returns_load_strides_bind; [exact Hw|]. cbv beta iota.
  eapply returns_lift_bind; [exact Hxs|].
  apply returns_load_float_bind with (v := threshold P);
    [now apply (applier_store_lookup h0 rows cols)|].
  eapply returns_lift_bind; [rewrite Hkk; apply py_index_nat; exact Ht|].
  destruct (apply_one_shapelet_one_sample_multivariate xs m t)
    as [[f1 f2] f3].
  eapply returns_weaken.
  - apply (write_features_returns h0 rows cols h i_sample k f1 f2 f3 Hst Hi
             Hk0).
    unfold py_len. lia.
  - cbv beta. intros _ h' [Hst' Hother]. split; [exact Hst'|].
    exists w. rewrite Hother by lia. auto.
Qed.

End FeatureStep.

Section Normalisation.

Context {K : Kernels}.
Hypothesis Hz : znorm_keeps_length K.

Variable h0 : store.
Variables rows cols : nat.

Lemma read_window_returns (h : store) (s : ref) (n0 n1 n2 : nat) (i j : Z) :
  strides_at h s n0 n1 n2 ->
  0 <= i < Z.of_nat n0 -> 0 <= j < Z.of_nat n1 ->
  returns (read_window s i j) h
    (fun v h' => h' = h /\ length v = n2).
Proof.
  intros (w & Hw & Hwl & Hshape) Hi Hj. unfold read_window.
  destruct (py_index_in_range w i) as (row & Hrow & Hrn);
    [unfold py_len; lia|].
  rewrite Forall_forall in Hshape.
  destruct (Hshape row (nth_error_In _ _ Hrn)) as [Hrl Hwin].
  destruct (py_index_in_range row j) as (win & Hwi & Hwn);
    [unfold py_len; lia|].
  eapply returns_load_strides_bind; [exact Hw|]. cbv beta iota.
  eapply returns_lift_bind; [exact Hrow|].
  eapply returns_lift; [exact Hwi|]. split; [reflexivity|].
  rewrite Forall_forall in Hwin. apply Hwin. eapply nth_error_In; eauto.
Qed.

(** [strides[i, j] = v] changes the windows only. *)
Lemma write_window_returns (h : store) (s : ref) (n0 n1 n2 : nat) (i j : Z)
      (v : list F) :
  applier_store h0 rows cols h ->
  strides_at h s n0 n1 n2 ->
  (length h0 < s)%nat ->
  0 <= i < Z.of_nat n0 -> 0 <= j < Z.of_nat n1 -> length v = n2 ->
  returns (write_window s i j v) h
    (fun _ h' => applier_store h0 rows cols h' /\ strides_at h' s n0 n1 n2).
Proof.
  intros Hst (w & Hw & Hwl & Hshape) Hs Hi Hj Hv. unfold write_window.
  destruct (py_index_in_range w i) as (row & Hrow & Hrn);
    [unfold py_len; lia|].
  pose proof Hshape as Hshape'. rewrite Forall_forall in Hshape'.
  destruct (Hshape' row (nth_error_In _ _ Hrn)) as [Hrl Hwin].
  eapply returns_load_strides_bind; [exact Hw|]. cbv beta iota.
  eapply returns_lift_bind; [exact Hrow|].
  eapply returns_lift_bind.
  { unfold broadcast_to. rewrite Hv, Nat.eqb_refl. reflexivity. }
  eapply returns_lift_bind.
  { apply py_set_index_in_range. unfold py_len. lia. }
  eapply returns_lift_bind.
  { apply py_set_index_in_range. unfold py_len. lia. }
  assert (Hlt : (s < length h)%nat) by (apply nth_error_Some; congruence).
  destruct (write_spec s
              (Strides n0 n1 n2
                 (firstn (Z.to_nat i) w
                  ++ (firstn (Z.to_nat j) row
                      ++ v :: skipn (S (Z.to_nat j)) row)
                  :: skipn (S (Z.to_nat i)) w)) h Hlt)
    as (h' & Hwr & Hlen & Hsame & Hother & Hfirst).
  exists tt, h'. split; [exact Hwr|]. split.
  - now apply (applier_store_frame h0 rows cols h h' s).
  - eexists. split; [exact Hsame|]. split.
    + rewrite update_length; lia.
    + apply Forall_update; [exact Hshape|]. split.
      * rewrite update_length; lia.
      * now apply Forall_update.
Qed.

(** The in-place normalisation changes the windows only. *)
Lemma normalize_strides_returns (h : store) (s : ref) (n0 n1 n2 : nat) :
  applier_store h0 rows cols h ->
  strides_at h s n0 n1 n2 ->
  (length h0 < s)%nat ->
  returns (normalize_strides s) h
    (fun _ h' => applier_store h0 rows cols h' /\ strides_at h' s n0 n1 n2).
Proof.
  intros Hst Hstr Hs. unfold normalize_strides.
  pose proof Hstr as (w & Hw & _).
  eapply returns_load_strides_bind; [exact Hw|]. cbv beta iota.
  apply (returns_forM
           (fun h' => applier_store h0 rows cols h' /\
                      strides_at h' s n0 n1 n2)); [|now split].
  intros i h1 Hi Hinv1. apply range_In in Hi.
  apply (returns_forM
           (fun h' => applier_store h0 rows cols h' /\
                      strides_at h' s n0 n1 n2)); [|exact Hinv1].
  intros j h2 Hj [Hst2 Hstr2]. apply range_In in Hj.
  eapply returns_bind.
  - apply (read_window_returns h2 s n0 n1 n2 i j Hstr2 Hi Hj).
  - cbv beta. intros v h3 [-> Hv].
    apply (write_window_returns h2 s n0 n1 n2 i j (znorm v) Hst2 Hstr2 Hs
             Hi Hj).
    rewrite Hz. exact Hv.
Qed.

End Normalisation.

Lemma Forall2_combine_In {A B} (R : A -> B -> Prop) (l : list A)
      (l' : list B) (a : A) (b : B) :
  Forall2 R l l' -> In (a, b) (combine l l') -> R a b.
Proof.
  induction 1 as [|x y l l' Hxy Hll IH]; cbn [combine]; intros Hin.
  - destruct Hin.
  - destruct Hin as [Heq|Hin]; [inversion Heq; subst; exact Hxy | auto].
Qed.

Section GroupStep.

Context {K : Kernels}.
Hypothesis Hz : znorm_keeps_length K.

Variable h0 : store.
Variable X : ref.
Variable R : shapelet_refs.
Variable use_phase : bool.
Variable x : tensor3.
Variable P : shapelets.
Hypothesis Hin : apply_input h0 X R use_phase x P.

Local Abbreviation n := (length (lengths P)).
Local Abbreviation rows := (n_samples_of x).
Local Abbreviation cols := (Z.to_nat (3 * py_len (lengths P))).
Local Abbreviation sizes := (slice_sizes (n_channels P) (lengths P)).
Local Abbreviation a1 := (0 :: np_cumsum sizes).
Local Abbreviation a2 := (channel_offsets (n_channels P)).
Local Abbreviation D :=
  (distinct_pairs (combine (lengths P) (dilations P))).
Local Abbreviation cnt :=
  (fun p => py_len (members (lengths P) (dilations P) p)).
Local Abbreviation inv :=
  (fun s n1 n2 h => applier_store h0 rows cols h /\
                    strides_at h s (n_features_of x) n1 n2).

(** The features of the shapelets of one subset of a group. *)
Lemma feature_loop_returns (h : store) (s : ref) (n1 n2 : nat)
      (i_sample l : Z) (_idx : list Z) :
  inv s n1 n2 h ->
  (length h0 < s)%nat ->
  0 <= i_sample < Z.of_nat rows ->
  Forall (fun k => 0 <= k /\ nth_error (lengths P) (Z.to_nat k) = Some l)
         _idx ->
  returns (forM (py_range (py_len _idx))
             (feature_step R (length h0) a1 a2 3 s i_sample l _idx)) h
    (fun _ => inv s n1 n2).
Proof.
  intros Hinv Hs Hi Hall.
  apply (returns_forM (inv s n1 n2)); [|exact Hinv].
  intros i h1 Hr [Hst Hstr]. apply range_In in Hr.
  now apply (feature_step_returns h0 X R use_phase x P Hin h1 s n1 n2).
Qed.

(** The shapelets of a group that carry, or do not carry, the
    normalisation flag. *)
Lemma subset_returns (idx : list Z) (flip : bool -> bool) :
  Forall (fun k => 0 <= k < py_len (lengths P)) idx ->
  exists flags sub,
    take_at (normalize P) idx = Ok flags /\
    take_at idx (np_where1 (map flip flags)) = Ok sub /\
    Forall (fun k => In k idx) sub.
Proof.
  intros Hidx.
  destruct Hin as (_ & _ & _ & _ & _ & _ & _ & _ & _ & Hv).
  destruct Hv as (_ & _ & V3 & _).
  destruct (mapM_total (py_index (normalize P)) (fun _ => True) idx)
    as (flags & Hflags & _ & Hfl).
  { intros k Hk. rewrite Forall_forall in Hidx. specialize (Hidx k Hk).
    destruct (py_index_in_range (normalize P) k) as (b & Hb & _);
      [unfold py_len in *; lia|].
    exists b. split; [exact Hb | exact I]. }
  destruct (mapM_total (py_index idx) (fun k => In k idx)
              (np_where1 (map flip flags))) as (sub & Hsub & Hall & _).
  { intros i Hi. apply np_where1_range in Hi.
    unfold py_len in Hi. rewrite length_map, Hfl in Hi.
    destruct (py_index_in_range idx i) as (k & Hk & Hkn);
      [unfold py_len; lia|].
    exists k. split; [exact Hk|]. eapply nth_error_In; eauto. }
  exists flags, sub. auto.
Qed.

Lemma returns_alloc_bind {B} (a : array) (k : ref -> M B) (h : store)
      (post : B -> store -> Prop) :
  returns (k (length h)) (h ++ [a]) post ->
  returns (mbind (alloc a) k) h post.
Proof.
  intros (b & h' & Hk & Hp). exists b, h'. split; [|exact Hp].
  rewrite (mbind_Ok _ k h (h ++ [a]) (length h) (alloc_spec a h)). exact Hk.
Qed.

Lemma applier_store_alloc (h : store) (a : array) :
  applier_store h0 rows cols h -> applier_store h0 rows cols (h ++ [a]).
Proof.
  intros [Hpre (m & Hm & Hshape)].
  assert (Hlt : (length h0 < length h)%nat)
    by (apply nth_error_Some; congruence).
  split.
  - rewrite firstn_app. replace (length h0 - length h)%nat with 0%nat by lia.
    cbn [firstn]. now rewrite app_nil_r.
  - exists m. split; [|exact Hshape]. now rewrite nth_error_app1.
Qed.

(** One group on one sample: the windows are a new array, the features go
    to the feature matrix, and the arrays of the caller are kept. *)
Lemma group_step_returns (h : store) (rest : list Z) (i_sample : Z)
      (j : nat) :
  applier_store h0 rows cols h ->
  0 <= i_sample < Z.of_nat rows ->
  (j < length D)%nat ->
  returns (group_step X R use_phase (length h0) a1 a2 3 D
             (concat (map (members (lengths P) (dilations P)) D) ++ rest)
             (np_cumsum (0 :: map cnt D)) i_sample (Z.of_nat j)) h
    (fun _ => applier_store h0 rows cols).
Proof.
  intros Hst Hi Hj.
  pose proof (valid_count h0 X R use_phase x P Hin) as Hcount.
  pose proof Hin as (HX & Hval & Hlens & Hdil & Hthr & Hnorm & Hnch & Hcid
                     & Hrect & Hv).
  destruct Hv as (V1 & V2 & V3 & V4 & V5 & V6 & V7 & V8 & V9).
  destruct (nth_error D j) as [[l d]|] eqn:Hp;
    [|apply nth_error_None in Hp; lia].
  assert (Hld : keeps_valid_start x use_phase l d).
  { apply (Forall2_combine_In _ _ _ _ _ V5).
    apply distinct_pairs_In. eapply nth_error_In; eauto. }
  destruct Hld as (Hl1 & Hd1 & Hfit).
  destruct Hrect as [Hns Hsamples].
  destruct (py_index_in_range (samples x) i_sample) as (xi & Hxi & Hxn);
    [unfold py_len; lia|].
  rewrite Forall_forall in Hsamples.
  destruct (Hsamples xi (nth_error_In _ _ Hxn)) as [Hxl Hxt].
  pose proof (group_offsets_nth (lengths P) (dilations P) V1 Hcount j
                ltac:(lia)) as Hlo.
  pose proof (group_offsets_nth (lengths P) (dilations P) V1 Hcount (S j)
                ltac:(lia)) as Hhi.
  apply py_index_nat in Hlo, Hhi.
  replace (Z.of_nat (S j)) with (Z.of_nat j + 1) in Hhi by lia.
  pose proof (group_slice (lengths P) (dilations P) rest j (l, d) Hp)
    as Hslice.
  assert (Hmem : Forall (fun k => 0 <= k < py_len (lengths P))
                        (members (lengths P) (dilations P) (l, d))).
  { apply Forall_forall. intros k Hk. apply members_In in Hk. tauto. }
  assert (Hsub : forall sub,
             Forall (fun k => In k (members (lengths P) (dilations P) (l, d)))
                    sub ->
             Forall (fun k => 0 <= k /\
                              nth_error (lengths P) (Z.to_nat k) = Some l)
                    sub).
  { intros sub Hs. eapply Forall_impl; [|exact Hs]. cbv beta.
    intros k Hk. apply members_In in Hk. cbn [fst] in Hk. split; tauto. }
  destruct (subset_returns _ negb Hmem) as (flags & no_norm & Hfl & Hno & Hnoin).
  destruct (subset_returns _ (fun b => b) Hmem)
    as (flags' & norm & Hfl' & Hnorm' & Hnormin).
  rewrite map_id in Hnorm'.
  assert (flags' = flags) by congruence. subst flags'.
  unfold group_step.
  eapply returns_lift_bind; [apply py_index_nat; exact Hp|]. cbv beta iota.
  eapply returns_load_series_bind;
    [apply (applier_store_lookup h0 rows cols); [exact Hst | exact HX]|].
  eapply returns_lift_bind; [exact Hxi|].
  eapply returns_bind.
  { rewrite <- Hxl.
    apply (generate_strides_2D_returns Hz xi (n_timestamps_of x) l d
             use_phase h Hxt Hl1 Hd1). exact Hfit. }
  cbv beta. intros s h1 (-> & n1 & w & -> & Hwl & Hshape).
  assert (Hlt : (length h0 < length h)%nat).
  { destruct Hst as [_ (m & Hm & _)]. apply nth_error_Some. congruence. }
  assert (Hinv : inv (length h) n1 (Z.to_nat l)
                   (h ++ [Strides (length xi) n1 (Z.to_nat l) w])).
  { split; [now apply applier_store_alloc|].
    exists w. rewrite nth_error_app2, Nat.sub_diag by lia.
    rewrite <- Hxl. auto. }
  eapply returns_lift_bind; [exact Hlo|].
  eapply returns_lift_bind; [exact Hhi|].
  cbv beta zeta. rewrite Hslice.
  eapply returns_load_bool_bind.
  { apply (applier_store_lookup h0 rows cols); [apply Hinv | exact Hnorm]. }
  eapply returns_lift_bind; [exact Hfl|].
  eapply returns_lift_bind; [exact Hno|].
  eapply returns_bind.
  { apply (feature_loop_returns _ (length h) n1 (Z.to_nat l) i_sample l
             no_norm Hinv Hlt Hi (Hsub _ Hnoin)). }
  cbv beta. intros u h2 Hinv2.
  eapply returns_load_bool_bind.
  { apply (applier_store_lookup h0 rows cols); [apply Hinv2 | exact Hnorm]. }
  eapply returns_lift_bind; [exact Hfl|].
  eapply returns_lift_bind; [exact Hnorm'|].
  destruct (0 <? py_len norm).
  - eapply returns_bind.
    { destruct Hinv2 as [Hst2 Hstr2].
      apply (normalize_strides_returns Hz h0 rows cols h2 (length h)
               (n_features_of x) n1 (Z.to_nat l) Hst2 Hstr2 Hlt). }
    cbv beta. intros u' h3 Hinv3.
    eapply returns_weaken.
    + apply (feature_loop_returns _ (length h) n1 (Z.to_nat l) i_sample l
               norm Hinv3 Hlt Hi (Hsub _ Hnormin)).
    + cbv beta. intros _ h4 [H4 _]. exact H4.
  - apply returns_ret. apply Hinv2.
Qed.

End GroupStep.

Lemma np_full_nat {A} (x : A) (k : nat) :
  np_full x (Z.of_nat k) = Ok (repeat x k).
Proof.
  unfold np_full. destruct (Z.ltb_spec (Z.of_nat k) 0); [lia|].
  now rewrite Nat2Z.id.
Qed.

Section Applier.

Context {K : Kernels}.
Hypothesis Hz : znorm_keeps_length K.

Variable h0 : store.
Variable X : ref.
Variable R : shapelet_refs.
Variable use_phase : bool.
Variable x : tensor3.
Variable P : shapelets.
Hypothesis Hin : apply_input h0 X R use_phase x P.

Local Abbreviation rows := (n_samples_of x).
Local Abbreviation cols := (Z.to_nat (3 * py_len (lengths P))).
Local Abbreviation sizes := (slice_sizes (n_channels P) (lengths P)).
Local Abbreviation a1 := (0 :: np_cumsum sizes).
Local Abbreviation a2 := (channel_offsets (n_channels P)).
Local Abbreviation D :=
  (distinct_pairs (combine (lengths P) (dilations P))).
Local Abbreviation cnt :=
  (fun p => py_len (members (lengths P) (dilations P) p)).

Lemma apply_offsets_returns (h : store) :
  applier_store h0 rows cols h \/ h = h0 ->
  returns (apply_offsets R) h (fun p h' => p = (a1, a2) /\ h' = h).
Proof.
  intros Hh.
  pose proof (valid_sizes_nonneg h0 X R use_phase x P Hin) as Hnn.
  destruct Hin as (HX & Hval & Hlens & Hdil & Hthr & Hnorm & Hnch & Hcid
                   & Hrect & Hv).
  destruct Hv as (V1 & V2 & V3 & V4 & V5 & V6 & V7 & V8 & V9).
  assert (Hlook : forall r a, nth_error h0 r = Some a ->
                              nth_error h r = Some a).
  { intros r a Hr. destruct Hh as [Hst| ->]; [|exact Hr].
    now apply (applier_store_lookup h0 rows cols). }
  unfold apply_offsets.
  eapply returns_load_int_bind; [apply Hlook; exact Hnch|].
  eapply returns_load_int_bind; [apply Hlook; exact Hlens|].
  eapply returns_lift_bind.
  { unfold values_offsets. rewrite np_mul_exact; auto. reflexivity. }
  apply returns_ret. split; reflexivity.
Qed.

(** The applier returns; it leaves the arrays of the caller as they were
    and returns a new feature matrix of [n_samples] rows and
    [3 * n_shapelets] columns. *)
Lemma apply_returns :
  returns (M_SL_apply_all_shapelets X R use_phase) h0
    (fun r h' => r = length h0 /\ applier_store h0 rows cols h').
Proof.
  pose proof (valid_count h0 X R use_phase x P Hin) as Hcount.
  pose proof Hin as (HX & Hval & Hlens & Hdil & Hthr & Hnorm & Hnch & Hcid
                     & Hrect & Hv).
  destruct Hv as (V1 & V2 & V3 & V4 & V5 & V6 & V7 & V8 & V9).
  destruct (group_shapelets_returns (lengths P) (dilations P) V1)
    as (idx & nsp & a3 & Hgroup & Hidx & -> & rest & ->).
  unfold M_SL_apply_all_shapelets.
  eapply returns_load_int_bind; [exact Hlens|]. cbv beta zeta.
  eapply returns_load_series_bind; [exact HX|].
  eapply returns_load_int_bind; [exact Hdil|].
  eapply returns_lift_bind.
  { unfold _combinations_1d. rewrite V1, Nat.eqb_refl. reflexivity. }
  eapply returns_lift_bind.
  { unfold py_len.
    replace (Z.of_nat (length D) + 1) with (Z.of_nat (length D + 1)) by lia.
    apply np_full_nat. }
  eapply returns_lift_bind; [apply np_full_nat|].
  eapply returns_bind; [apply apply_offsets_returns; now right|].
  cbv beta. intros p h [-> ->].
  eapply returns_lift_bind; [exact Hgroup|]. cbv beta iota.
  apply returns_alloc_bind.
  assert (Hinit : applier_store h0 rows cols
                    (h0 ++ [Float2 rows cols
                              (repeat (repeat fzero cols) rows)])).
  { split.
    - rewrite firstn_app, Nat.sub_diag, firstn_all. cbn [firstn].
      now rewrite app_nil_r.
    - eexists. split.
      + rewrite nth_error_app2, Nat.sub_diag by lia. reflexivity.
      + eexists. split; [reflexivity|]. split.
        * apply repeat_length.
        * apply Forall_forall. intros r Hr. apply repeat_spec in Hr.
          subst r. apply repeat_length. }
  eapply returns_bind.
  - apply (returns_forM (applier_store h0 rows cols)); [|exact Hinit].
    intros i h1 Hi Hst1. apply range_In in Hi.
    apply (returns_forM (applier_store h0 rows cols)); [|exact Hst1].
    intros j h2 Hj Hst2. apply range_In in Hj.
    rewrite (group_offsets_length (lengths P) (dilations P))
      in Hj by exact V1.
    replace j with (Z.of_nat (Z.to_nat j)) by lia.
    apply (group_step_returns Hz h0 X R use_phase x P Hin h2 rest i
             (Z.to_nat j) Hst2 Hi).
    unfold py_len in Hj. lia.
  - cbv beta. intros u h1 Hst1. apply returns_ret. split; [reflexivity|].
    exact Hst1.
Qed.

End Applier.

(** ** The batch applier: frame and shape *)

Section ApplierClaims.

Context {K : Kernels}.

(** C1.  For every valid series tensor and populated shapelet set, [apply]
    returns and leaves both unchanged: every array that exists when the
    call is made holds the same value when it returns, so [X] is still the
    tensor [x] and [S] still the set [P]; the feature matrix is an array
    that did not exist before.  The in-place normalisation of the windows
    writes the array of the windows only, which the strided-view helper
    allocates. *)
Theorem apply_leaves_inputs_unchanged (h : store) (X : ref)
        (R : shapelet_refs) (use_phase : bool) (x : tensor3)
        (P : shapelets) :
  znorm_keeps_length K ->
  apply_input h X R use_phase x P ->
  exists r h',
    M_SL_apply_all_shapelets X R use_phase h = Ok (r, h') /\
    (forall r0 a, nth_error h r0 = Some a -> nth_error h' r0 = Some a) /\
    apply_input h' X R use_phase x P /\
    nth_error h r = None.
Proof.
  intros Hz Hin.
  destruct (apply_returns Hz h X R use_phase x P Hin)
    as (r & h' & Hrun & -> & Hpre & _).
  assert (Hkeep : forall r0 a, nth_error h r0 = Some a ->
                               nth_error h' r0 = Some a).
  { intros r0 a Hr0. now apply (nth_error_prefix h h'). }
  exists (length h), h'. split; [exact Hrun|]. split; [exact Hkeep|].
  split.
  - destruct Hin as (HX & Hval & Hlens & Hdil & Hthr & Hnorm & Hnch & Hcid
                     & Hrest).
    repeat (split; [now apply Hkeep|]). exact Hrest.
  - apply nth_error_None. lia.
Qed.

(** C5.  For every valid input, [apply] returns a feature matrix of shape
    exactly [(n_series, 3 * n_shapelets)]: it has [n_series] rows of
    [3 * n_shapelets] cells each.  With no shapelet every row is empty, and
    with one series there is one row. *)
Theorem apply_feature_matrix_shape (h : store) (X : ref)
        (R : shapelet_refs) (use_phase : bool) (x : tensor3)
        (P : shapelets) :
  znorm_keeps_length K ->
  apply_input h X R use_phase x P ->
  exists r h' m,
    M_SL_apply_all_shapelets X R use_phase h = Ok (r, h') /\
    nth_error h' r
    = Some (Float2 (n_samples_of x) (3 * length (lengths P)) m) /\
    length m = n_samples_of x /\
    Forall (fun row => length row = (3 * length (lengths P))%nat) m /\
    (lengths P = [] -> Forall (fun row => row = []) m) /\
    (n_samples_of x = 1%nat -> exists row, m = [row]).
Proof.
  intros Hz Hin.
  destruct (apply_returns Hz h X R use_phase x P Hin)
    as (r & h' & Hrun & -> & _ & a & Ha & m & -> & Hrows & Hcols).
  assert (Hc : Z.to_nat (3 * py_len (lengths P))
               = (3 * length (lengths P))%nat) by (unfold py_len; lia).
  rewrite Hc in *.
  exists (length h), h', m. split; [exact Hrun|]. split; [exact Ha|].
  split; [exact Hrows|]. split; [exact Hcols|]. split.
  - intros Hnil. rewrite Hnil in Hcols. cbn [length Nat.mul] in Hcols.
    eapply Forall_impl; [|exact Hcols]. cbv beta.
    intros row Hrow. now apply length_zero_iff_nil.
  - intros Hone. rewrite Hone in Hrows.
    destruct m as [|row [|row' m]]; try discriminate. now exists row.
Qed.

End ApplierClaims.

(** The examples are valid inputs of the applier. *)
Lemma demo_valid_shapelets (x : @tensor3 demo) :
  n_features_of x = 2%nat -> n_timestamps_of x = 7%nat ->
  valid_shapelets x false demo_S_norm.
Proof.
  intros Hf Ht. unfold valid_shapelets, keeps_valid_start.
  rewrite Hf, Ht.
  repeat split; try reflexivity; repeat constructor; cbn; lia.
Qed.

Lemma demo_apply_input :
  apply_input (store_of demo_X demo_S_norm) 0%nat demo_refs false demo_X
    demo_S_norm.
Proof.
  repeat (split; [reflexivity|]).
  split; [exact demo_rectangular | now apply demo_valid_shapelets].
Qed.

Lemma single_apply_input :
  apply_input (store_of single_X demo_S_norm) 0%nat demo_refs false single_X
    demo_S_norm.
Proof.
  repeat (split; [reflexivity|]).
  split; [|now apply demo_valid_shapelets].
  split; [reflexivity|]. repeat constructor.
Qed.

Lemma no_shapelet_apply_input :
  apply_input (store_of demo_X no_shapelet) 0%nat demo_refs true demo_X
    no_shapelet.
Proof.
  repeat (split; [reflexivity|]).
  split; [exact demo_rectangular|].
  unfold valid_shapelets. repeat split; try reflexivity; constructor.
Qed.

Lemma apply_leaves_inputs_unchanged_witness :
  exists r h',
    M_SL_apply_all_shapelets (K := demo) 0%nat demo_refs false
      (store_of demo_X demo_S_norm) = Ok (r, h') /\
    (forall r0 a,
        nth_error (store_of demo_X demo_S_norm) r0 = Some a ->
        nth_error h' r0 = Some a) /\
    apply_input h' 0%nat demo_refs false demo_X demo_S_norm /\
    nth_error (store_of demo_X demo_S_norm) r = None.
Proof.
  exact (apply_leaves_inputs_unchanged (K := demo)
           (store_of demo_X demo_S_norm) 0%nat demo_refs false demo_X
           demo_S_norm demo_znorm_keeps_length demo_apply_input).
Defined.

Lemma apply_feature_matrix_shape_witness :
  (exists r h' m,
      M_SL_apply_all_shapelets (K := demo) 0%nat demo_refs false
        (store_of single_X demo_S_norm) = Ok (r, h') /\
      nth_error h' r
      = Some (Float2 (n_samples_of single_X)
                (3 * length (lengths demo_S_norm)) m) /\
      length m = n_samples_of single_X /\
      Forall (fun row => length row
                         = (3 * length (lengths demo_S_norm))%nat) m /\
      (lengths demo_S_norm = [] -> Forall (fun row => row = []) m) /\
      (n_samples_of single_X = 1%nat -> exists row, m = [row])) /\
  (exists r h' m,
      M_SL_apply_all_shapelets (K := demo) 0%nat demo_refs true
        (store_of demo_X no_shapelet) = Ok (r, h') /\
      nth_error h' r
      = Some (Float2 (n_samples_of demo_X)
                (3 * length (lengths no_shapelet)) m) /\
      length m = n_samples_of demo_X /\
      Forall (fun row => length row
                         = (3 * length (lengths no_shapelet))%nat) m /\
      (lengths no_shapelet = [] -> Forall (fun row => row = []) m) /\
      (n_samples_of demo_X = 1%nat -> exists row, m = [row])).
Proof.
  split.
  - exact (apply_feature_matrix_shape (K := demo)
             (store_of single_X demo_S_norm) 0%nat demo_refs false single_X
             demo_S_norm demo_znorm_keeps_length single_apply_input).
  - exact (apply_feature_matrix_shape (K := demo)
             (store_of demo_X no_shapelet) 0%nat demo_refs true demo_X
             no_shapelet demo_znorm_keeps_length no_shapelet_apply_input).
Defined.

(** * Further properties of the parameter sampler *)

Section SamplerParts.

Context {K : Kernels}.

(** The dilations of the sampler, on the lengths [ls] already drawn. *)
Local Abbreviation quotients_of n_timestamps ls :=
  (map (fun l => floor_divide (n_timestamps - 1) (wrap64 (l - 1)))
       (map wrap64 ls)).

Local Abbreviation prime_step primes :=
  (fun '(ds, g) q =>
     let shp_primes :=
       np_select primes (map (fun p => p <=? float_exp2_log2 q) primes) in
     '(ix, g) <- choice_log (py_len shp_primes) 1 g ;;
     i <- py_index ix 0 ;;
     d <- py_index shp_primes i ;;
     Ok (ds ++ [d], g)).

(** What a successful run of the sampler went through. *)
Lemma sampler_parts (n_shapelets : Z) (shapelet_sizes : list Z)
      (n_timestamps : Z) (p_norm : Q) (max_channels : Z)
      (prime_scheme : bool) (g g' : rng) (P : shapelets) :
  M_SL_init_random_shapelet_params n_shapelets shapelet_sizes n_timestamps
    p_norm max_channels prime_scheme g = Ok (P, g') ->
  exists ls g1 g2 cs g3 us,
    choice_size shapelet_sizes n_shapelets g = Ok (ls, g1) /\
    lengths P = map wrap64 ls /\
    (if prime_scheme then
       exists qmax,
         np_max (quotients_of n_timestamps ls) = Ok qmax /\
         foldM (prime_step (prime_up_to (float_exp2_log2 qmax)))
               (quotients_of n_timestamps ls) ([], g1)
         = Ok (dilations P, g2)
     else
       dilations P
       = map (fun qu => float_dilation (fst qu) (snd qu))
             (combine (quotients_of n_timestamps ls)
                      (fst (draws (length (quotients_of n_timestamps ls))
                                  rand_unit g1))) /\
       g2 = snd (draws (length (quotients_of n_timestamps ls)) rand_unit g1))
    /\
    threshold P = repeat fzero (Z.to_nat n_shapelets) /\
    choice_size (py_range max_channels) n_shapelets g2 = Ok (cs, g3) /\
    n_channels P = map (fun c => wrap64 (c + 1)) cs /\
    random_size n_shapelets g3 = Ok (us, g') /\
    normalize P = map (fun u => negb (Qle_bool p_norm u)) us.
Proof.
  unfold M_SL_init_random_shapelet_params. intros H.
  bind_inv H as [ls g1] Hls.
  bind_inv H as [ds g2] Hd.
  bind_inv H as th Hth. apply np_full_Ok in Hth. destruct Hth as [_ ->].
  bind_inv H as [cs g3] Hcs.
  bind_inv H as ci Hci.
  bind_inv H as size Hsize.
  bind_inv H as vs Hvs.
  bind_inv H as [us g4] Hus.
  inversion H; subst; cbn [lengths dilations threshold n_channels normalize].
  exists ls, g1, g2, cs, g3, us.
  split; [exact Hls|]. split; [reflexivity|].
  split; [|repeat split; auto].
  destruct prime_scheme.
  - bind_inv Hd as qmax Hq. exists qmax. split; [exact Hq | exact Hd].
  - destruct (draws _ rand_unit g1) as [us' g5] eqn:E.
    inversion Hd; subst. cbn [fst snd]. split; reflexivity.
Qed.

End SamplerParts.

Section SamplerContract.

Context {K : Kernels}.

(** A unit draw lies in [[0, 1)]. *)
Lemma random_size_unit (size : Z) (g g' : rng) (us : list Q) :
  random_size size g = Ok (us, g') ->
  Forall (fun u => (0 <= u)%Q /\ (u < 1)%Q) us.
Proof.
  unfold random_size. destruct (size <? 0); [discriminate|].
  intros H. inversion H as [H1].
  change us with (fst (us, g')). rewrite <- H1.
  apply draws_Forall. intros g0. apply rand_unit_unit.
Qed.

(** X1.  When the sampler returns, each of [lengths], [dilations],
    [threshold], [normalize] and [n_channels] has one entry per shapelet,
    the thresholds are zeros, [channel_ids] is a buffer of zeros with one
    cell per channel of every shapelet ([n_channels.sum()]) and [values] a
    buffer of zeros of size [dot(lengths, n_channels)]. *)
Theorem sampler_zeroed_buffers (n_shapelets : Z) (shapelet_sizes : list Z)
        (n_timestamps : Z) (p_norm : Q) (max_channels : Z)
        (prime_scheme : bool) (g g' : rng) (P : shapelets) :
  M_SL_init_random_shapelet_params n_shapelets shapelet_sizes n_timestamps
    p_norm max_channels prime_scheme g = Ok (P, g') ->
  py_len (lengths P) = n_shapelets /\
  py_len (dilations P) = n_shapelets /\
  py_len (normalize P) = n_shapelets /\
  py_len (n_channels P) = n_shapelets /\
  threshold P = repeat fzero (Z.to_nat n_shapelets) /\
  channel_ids P = repeat 0 (Z.to_nat (np_sum (n_channels P))) /\
  exists size, np_dot (lengths P) (n_channels P) = Ok size /\
               values P = repeat fzero (Z.to_nat size).
Proof.
  intros H. pose proof (sampler_shape _ _ _ _ _ _ _ _ _ H)
    as (Hn & H1 & H2 & H3 & H4 & H5 & H6 & H7).
  destruct (sampler_parts _ _ _ _ _ _ _ _ _ H)
    as (ls & g1 & g2 & cs & g3 & us & _ & _ & _ & Hth & _).
  unfold py_len. rewrite H1, H2, H4, H5.
  repeat split; try lia; auto.
Qed.

(** X2.  When the sampler returns, every length is one of the admissible
    lengths and every channel count lies between 1 and [max_channels]. *)
Theorem sampler_draws_in_range (n_shapelets : Z) (shapelet_sizes : list Z)
        (n_timestamps : Z) (p_norm : Q) (max_channels : Z)
        (prime_scheme : bool) (g g' : rng) (P : shapelets) :
  Forall int64_range shapelet_sizes ->
  max_channels < 2 ^ 63 ->
  M_SL_init_random_shapelet_params n_shapelets shapelet_sizes n_timestamps
    p_norm max_channels prime_scheme g = Ok (P, g') ->
  Forall (fun l => In l shapelet_sizes) (lengths P) /\
  Forall (fun c => 1 <= c <= max_channels) (n_channels P).
Proof.
  intros Hsz Hmc H. split.
  - destruct (sampler_parts _ _ _ _ _ _ _ _ _ H)
      as (ls & g1 & g2 & cs & g3 & us & Hls & -> & _).
    apply Forall_map.
    apply (choice_size_Forall
             (fun l => In (wrap64 l) shapelet_sizes) _ _ _ _ _) in Hls;
      [exact Hls|].
    apply Forall_forall. intros l Hl. rewrite wrap64_small; [exact Hl|].
    rewrite Forall_forall in Hsz. now apply Hsz.
  - now apply (sampler_channel_counts _ _ _ _ _ _ _ _ _ H).
Qed.

(** X3.  A request for no shapelet: the unrestricted scheme returns the
    empty set and leaves the generator as it was; the prime scheme raises,
    taking the maximum of an empty array. *)
Theorem sampler_empty_request (shapelet_sizes : list Z) (n_timestamps : Z)
        (p_norm : Q) (max_channels : Z) (g : rng) :
  M_SL_init_random_shapelet_params 0 shapelet_sizes n_timestamps p_norm
    max_channels false g
  = Ok (mk_shapelets [] [] [] [] [] [] [], g) /\
  M_SL_init_random_shapelet_params 0 shapelet_sizes n_timestamps p_norm
    max_channels true g
  = Raise ValueError.
Proof. split; reflexivity. Qed.

(** X4.  The sampler raises [ValueError] on a negative number of
    shapelets, on an empty set of admissible lengths, and, in the
    unrestricted scheme, when [max_channels] is not positive (the last two
    when a shapelet is asked for). *)
Theorem sampler_rejects (n_shapelets : Z) (shapelet_sizes : list Z)
        (n_timestamps : Z) (p_norm : Q) (max_channels : Z)
        (prime_scheme : bool) (g : rng) :
  n_shapelets < 0 \/
  (0 < n_shapelets /\ shapelet_sizes = []) \/
  (0 < n_shapelets /\ prime_scheme = false /\ max_channels <= 0) ->
  M_SL_init_random_shapelet_params n_shapelets shapelet_sizes n_timestamps
    p_norm max_channels prime_scheme g = Raise ValueError.
Proof.
  unfold M_SL_init_random_shapelet_params.
  intros [Hn|[[Hn ->]|(Hn & -> & Hmc)]].
  - unfold choice_size at 1.
    destruct (Z.ltb_spec n_shapelets 0); [reflexivity | lia].
  - unfold choice_size at 1.
    destruct (Z.ltb_spec n_shapelets 0); [lia|].
    destruct (Z.eqb_spec n_shapelets 0); [lia | reflexivity].
  - destruct (choice_size shapelet_sizes n_shapelets g) as [[ls g1]|e] eqn:E.
    + cbn [bind].
      destruct (draws _ rand_unit g1) as [us g2]. cbn [bind].
      unfold np_full at 1.
      destruct (Z.ltb_spec n_shapelets 0); [lia|]. cbn [bind].
      unfold choice_size at 1.
      destruct (Z.ltb_spec n_shapelets 0); [lia|].
      destruct (Z.eqb_spec n_shapelets 0); [lia|].
      unfold py_range. replace (Z.to_nat max_channels) with 0%nat by lia.
      reflexivity.
    + unfold choice_size in E.
      destruct (Z.ltb_spec n_shapelets 0); [lia|].
      destruct (Z.eqb_spec n_shapelets 0); [lia|].
      destruct shapelet_sizes; [|discriminate].
      inversion E. reflexivity.
Qed.

(** X5.  The normalisation flags follow [p_norm] at its extremes: no
    shapelet is normalised when [p_norm <= 0], every shapelet is when
    [p_norm >= 1]. *)
Theorem sampler_normalize_extremes (n_shapelets : Z)
        (shapelet_sizes : list Z) (n_timestamps : Z) (p_norm : Q)
        (max_channels : Z) (prime_scheme : bool) (g g' : rng)
        (P : shapelets) :
  M_SL_init_random_shapelet_params n_shapelets shapelet_sizes n_timestamps
    p_norm max_channels prime_scheme g = Ok (P, g') ->
  ((p_norm <= 0)%Q -> normalize P = repeat false (Z.to_nat n_shapelets)) /\
  ((1 <= p_norm)%Q -> normalize P = repeat true (Z.to_nat n_shapelets)).
Proof.
  intros H.
  destruct (sampler_parts _ _ _ _ _ _ _ _ _ H)
    as (ls & g1 & g2 & cs & g3 & us & _ & _ & _ & _ & _ & _ & Hus & ->).
  pose proof (random_size_unit _ _ _ _ Hus) as Hunit.
  apply random_size_length in Hus. destruct Hus as [_ Hlen].
  rewrite <- Hlen. clear Hlen.
  split; intros Hp; induction Hunit as [|u us [Hu0 Hu1] _ IH];
    cbn [map length repeat]; try reflexivity; rewrite IH; f_equal.
  - assert (Hle : Qle_bool p_norm u = true)
      by (apply Qle_bool_iff; Lqa.lra).
    now rewrite Hle.
  - destruct (Qle_bool p_norm u) eqn:Hle; [|reflexivity].
    apply Qle_bool_iff in Hle. Lqa.lra.
Qed.

End SamplerContract.

Lemma py_index_In {A} (l : list A) (i : Z) (x : A) :
  py_index l i = Ok x -> In x l.
Proof.
  unfold py_index. destruct (_ <? 0); [discriminate|].
  destruct (nth_error l _) as [a|] eqn:E; [|discriminate].
  intros H. inversion H; subst. eapply nth_error_In; eauto.
Qed.

Lemma np_select_In {A} (f : A -> bool) (a : list A) (x : A) :
  In x (np_select a (map f a)) -> In x a /\ f x = true.
Proof.
  induction a as [|y a IH]; cbn [map np_select]; [intros []|].
  intros H. apply in_app_or in H. destruct H as [H|H].
  - destruct (f y) eqn:E; [|destruct H].
    destruct H as [->|[]]. split; [now left | exact E].
  - destruct (IH H). split; [now right | assumption].
Qed.

Lemma Zsum_le_bound (xs : list Z) (B : Z) :
  Forall (fun x => 0 <= x <= B) xs -> 0 <= Zsum xs <= py_len xs * B.
Proof.
  unfold py_len, Zsum. induction 1 as [|x xs Hx _ IH];
    cbn [length fold_right]; nia.
Qed.

Section SamplerSchemes.

Context {K : Kernels}.

(** The prime scheme draws each dilation among the primes that do not
    exceed the bound of its shapelet. *)
Lemma prime_loop_dilations (primes : list Z) (qs : list Z) :
  forall (ds ds' : list Z) (g g' : rng),
    foldM (fun '(ds, g) q =>
             let shp_primes :=
               np_select primes
                 (map (fun p => p <=? float_exp2_log2 q) primes) in
             '(ix, g) <- choice_log (py_len shp_primes) 1 g ;;
             i <- py_index ix 0 ;;
             d <- py_index shp_primes i ;;
             Ok (ds ++ [d], g))
          qs (ds, g) = Ok (ds', g') ->
    exists new,
      ds' = ds ++ new /\
      Forall2 (fun q d => In d primes /\ d <= float_exp2_log2 q) qs new.
Proof.
  induction qs as [|q qs IH]; intros ds ds' g g' H; cbn [foldM] in H.
  - inversion H; subst. exists []. rewrite app_nil_r. split; constructor.
  - bind_inv H as [ds1 g1] Hstep.
    bind_inv Hstep as [ix g2] Hix. bind_inv Hstep as i Hi.
    bind_inv Hstep as d Hd. inversion Hstep; subst.
    apply py_index_In in Hd.
    apply (np_select_In (fun p => p <=? float_exp2_log2 q)) in Hd.
    destruct Hd as [Hin Hle]. apply Z.leb_le in Hle.
    destruct (IH _ _ _ _ H) as (new & -> & Hnew).
    exists (d :: new). rewrite <- app_assoc. split; [reflexivity|].
    constructor; auto.
Qed.

Lemma choice_size_returns {A} (a : list A) (size : Z) (g : rng) :
  0 <= size -> (0 < size -> a <> []) ->
  exists l g', choice_size a size g = Ok (l, g').
Proof.
  intros Hs Ha. unfold choice_size.
  destruct (Z.ltb_spec size 0); [lia|].
  destruct (Z.eqb_spec size 0); [eauto|].
  destruct a as [|x a]; [exfalso; apply Ha; [lia | reflexivity]|].
  destruct (draws (Z.to_nat size) (pick (x :: a) x) g) as [l g']. eauto.
Qed.

(** The unrestricted scheme returns on every well-formed request, with
    buffers of the exact sizes. *)
Lemma sampler_unrestricted_total (n_shapelets : Z) (shapelet_sizes : list Z)
      (n_timestamps : Z) (p_norm : Q) (max_channels L : Z) (g : rng) :
  0 <= n_shapelets ->
  shapelet_sizes <> [] ->
  Forall (fun l => 0 <= l <= L) shapelet_sizes ->
  1 <= max_channels ->
  L * max_channels < 2 ^ 63 ->
  n_shapelets * max_channels < 2 ^ 63 ->
  n_shapelets * (L * max_channels) < 2 ^ 63 ->
  exists P g',
    M_SL_init_random_shapelet_params n_shapelets shapelet_sizes n_timestamps
      p_norm max_channels false g = Ok (P, g') /\
    Forall (fun l => In l shapelet_sizes) (lengths P) /\
    Forall (fun c => 1 <= c <= max_channels) (n_channels P) /\
    py_len (channel_ids P) = Zsum (n_channels P) /\
    py_len (values P) = Zsum (slice_sizes (n_channels P) (lengths P)) /\
    Zsum (slice_sizes (n_channels P) (lengths P))
    <= n_shapelets * (L * max_channels).
Proof.
  intros Hn Hne Hsz Hmc HL Hnm Hbound.
  assert (Hmc63 : n_shapelets = 0 \/ max_channels < 2 ^ 63).
  { destruct (Z.eq_dec n_shapelets 0) as [Hz|Hnz]; [now left | right].
    destruct (Z.lt_ge_cases max_channels (2 ^ 63)) as [Hlt|Hge];
      [exact Hlt|]. exfalso.
    assert (1 * max_channels <= n_shapelets * max_channels)
      by (apply Z.mul_le_mono_nonneg_r; lia).
    lia. }
  destruct (choice_size_returns shapelet_sizes n_shapelets g Hn
              ltac:(auto)) as (ls & g1 & Hls).
  pose proof (choice_size_length _ _ _ _ _ Hls) as [_ Hlsn].
  pose proof (choice_size_Forall _ _ _ _ _ _ Hsz Hls) as HlsL.
  assert (HlsIn : Forall (fun l => In l shapelet_sizes) ls).
  { apply (choice_size_Forall _ shapelet_sizes n_shapelets g g1 ls);
      [|exact Hls]. apply Forall_forall. auto. }
  assert (HL63 : Forall int64_range ls).
  { assert (HL' : L < 2 ^ 63).
    { destruct (Z.lt_ge_cases L (2 ^ 63)) as [Hlt|Hge]; [exact Hlt|].
      exfalso.
      assert (L * 1 <= L * max_channels)
        by (apply Z.mul_le_mono_nonneg_l; lia).
      lia. }
    eapply Forall_impl; [|exact HlsL]. cbv beta. unfold int64_range.
    intros l Hl. lia. }
  assert (Hwrap : map wrap64 ls = ls).
  { clear - HL63. induction HL63 as [|l t Hl _ IH]; cbn [map];
      [reflexivity|]. now rewrite IH, wrap64_small. }
  set (qs := map (fun l => floor_divide (n_timestamps - 1) (wrap64 (l - 1)))
                 (map wrap64 ls)).
  destruct (draws (length qs) rand_unit g1) as [us g2] eqn:Eus.
  set (ds := map (fun qu => float_dilation (fst qu) (snd qu))
                 (combine qs us)).
  destruct (choice_size_returns (py_range max_channels) n_shapelets g2 Hn)
    as (cs & g3 & Hcs).
  { intros _ Hnil. apply (f_equal (@length Z)) in Hnil.
    rewrite py_range_length in Hnil. cbn in Hnil. lia. }
  pose proof (choice_size_length _ _ _ _ _ Hcs) as [_ Hcsn].
  assert (Hcsr : Forall (fun c => 0 <= c < max_channels) cs).
  { apply (choice_size_Forall _ (py_range max_channels) n_shapelets g2 g3
             cs); [|exact Hcs].
    apply Forall_forall. intros c Hc. now apply range_In in Hc. }
  set (ncs := map (fun c => wrap64 (c + 1)) cs).
  assert (Hncs : Forall (fun c => 1 <= c <= max_channels) ncs).
  { unfold ncs. apply Forall_map. destruct Hmc63 as [Hz|Hmc63].
    - rewrite Hz in Hcsn. destruct cs; [constructor | discriminate].
    - eapply Forall_impl; [|exact Hcsr].
      cbv beta. intros c Hc. rewrite wrap64_small; [lia|].
      unfold int64_range. lia. }
  assert (Hncn : length ncs = Z.to_nat n_shapelets)
    by (unfold ncs; now rewrite length_map).
  assert (Hsum : 0 <= Zsum ncs <= n_shapelets * max_channels).
  { pose proof (Zsum_le_bound ncs max_channels) as Hb.
    unfold py_len in Hb. rewrite Hncn in Hb.
    rewrite Z2Nat.id in Hb by lia. apply Hb.
    eapply Forall_impl; [|exact Hncs]. cbv beta. intros; lia. }
  assert (Hnpsum : np_sum ncs = Zsum ncs).
  { apply np_sum_exact; [|lia].
    eapply Forall_impl; [|exact Hncs]. cbv beta. intros; lia. }
  assert (Hsizes : Forall (fun x => 0 <= x <= L * max_channels)
                          (slice_sizes ls ncs)).
  { unfold slice_sizes. apply Forall_map. apply Forall_forall.
    intros [l c] Hlc. cbn [fst snd].
    pose proof (in_combine_l _ _ _ _ Hlc) as Hl.
    pose proof (in_combine_r _ _ _ _ Hlc) as Hc.
    rewrite Forall_forall in HlsL, Hncs.
    specialize (HlsL l Hl). specialize (Hncs c Hc). nia. }
  assert (Hssum : 0 <= Zsum (slice_sizes ls ncs)
                  <= n_shapelets * (L * max_channels)).
  { pose proof (Zsum_le_bound _ _ Hsizes) as Hb.
    unfold py_len in Hb. rewrite slice_sizes_length in Hb by lia.
    rewrite Hlsn, Z2Nat.id in Hb by lia. exact Hb. }
  assert (Hnn : Forall (fun x => 0 <= x) (slice_sizes ls ncs)).
  { eapply Forall_impl; [|exact Hsizes]. cbv beta. intros; lia. }
  assert (Hdot : np_dot ls ncs = Ok (Zsum (slice_sizes ls ncs))).
  { unfold np_dot. rewrite np_mul_exact; [|lia|exact Hnn|lia].
    cbn [bind]. rewrite np_sum_exact; [reflexivity|exact Hnn|lia]. }
  destruct (draws (Z.to_nat n_shapelets) rand_unit g3) as [vs g4] eqn:Evs.
  eexists. exists g4. split.
  - unfold M_SL_init_random_shapelet_params.
    rewrite Hls. cbn [bind]. fold qs. rewrite Eus. cbn [bind].
    unfold np_full at 1. destruct (Z.ltb_spec n_shapelets 0); [lia|].
    cbn [bind]. rewrite Hcs. cbn [bind]. fold ncs.
    rewrite Hnpsum. unfold np_full at 1.
    destruct (Z.ltb_spec (Zsum ncs) 0); [lia|]. cbn [bind].
    rewrite Hwrap, Hdot. cbn [bind]. unfold np_full at 1.
    destruct (Z.ltb_spec (Zsum (slice_sizes ls ncs)) 0); [lia|].
    cbn [bind]. unfold random_size.
    destruct (Z.ltb_spec n_shapelets 0); [lia|].
    rewrite Evs. cbn [bind]. reflexivity.
  - cbn [lengths n_channels channel_ids values].
    rewrite (slice_sizes_comm ncs ls).
    unfold py_len. rewrite !repeat_length.
    repeat split; auto; try lia.
Qed.

(** X7.  In the unrestricted scheme the sampler returns on every
    well-formed request: a non-negative number of shapelets, a non-empty
    set of admissible lengths between 0 and [L], a positive [max_channels],
    and buffer sizes that fit [int64]; the buffers then have exactly one
    cell per channel, and per channel and value, of every shapelet. *)
Theorem sampler_unrestricted_returns (n_shapelets : Z)
        (shapelet_sizes : list Z) (n_timestamps : Z) (p_norm : Q)
        (max_channels L : Z) (g : rng) :
  0 <= n_shapelets ->
  shapelet_sizes <> [] ->
  Forall (fun l => 0 <= l <= L) shapelet_sizes ->
  1 <= max_channels ->
  L * max_channels < 2 ^ 63 ->
  n_shapelets * max_channels < 2 ^ 63 ->
  n_shapelets * (L * max_channels) < 2 ^ 63 ->
  exists P g',
    M_SL_init_random_shapelet_params n_shapelets shapelet_sizes n_timestamps
      p_norm max_channels false g = Ok (P, g') /\
    py_len (channel_ids P) = Zsum (n_channels P) /\
    py_len (values P) = Zsum (slice_sizes (n_channels P) (lengths P)).
Proof.
  intros Hn Hne Hsz Hmc HL Hnm Hbound.
  destruct (sampler_unrestricted_total n_shapelets shapelet_sizes
              n_timestamps p_norm max_channels L g Hn Hne Hsz Hmc HL Hnm
              Hbound) as (P & g' & HP & _ & _ & Hc & Hv & _).
  exists P, g'. auto.
Qed.

End SamplerSchemes.

Lemma fold_max_In (t : list Z) (x : Z) :
  In (fold_left Z.max t x) (x :: t).
Proof.
  revert x. induction t as [|y t IH]; intros x; cbn [fold_left].
  - now left.
  - destruct (IH (Z.max x y)) as [H|H].
    + rewrite <- H. destruct (Z.max_spec x y) as [[_ ->]|[_ ->]];
        [right; now left | now left].
    + right. now right.
Qed.

Lemma np_max_In (a : list Z) (m : Z) : np_max a = Ok m -> In m a.
Proof.
  destruct a as [|x t]; [discriminate|]. cbn [np_max].
  intros H. inversion H; subst. apply fold_max_In.
Qed.

Lemma np_max_returns (a : list Z) : a <> [] -> exists m, np_max a = Ok m.
Proof. destruct a as [|x t]; [congruence|]. intros _. cbn. eauto. Qed.

Section PrimeScheme.

Context {K : Kernels}.

Local Abbreviation quotients_of n_timestamps ls :=
  (map (fun l => floor_divide (n_timestamps - 1) (wrap64 (l - 1)))
       (map wrap64 ls)).

Local Abbreviation prime_step primes :=
  (fun '(ds, g) q =>
     let shp_primes :=
       np_select primes (map (fun p => p <=? float_exp2_log2 q) primes) in
     '(ix, g) <- choice_log (py_len shp_primes) 1 g ;;
     i <- py_index ix 0 ;;
     d <- py_index shp_primes i ;;
     Ok (ds ++ [d], g)).

(** The loop of the prime scheme returns when every shapelet has a
    candidate and [choice_log] returns an index of its range. *)
Lemma prime_loop_returns (primes : list Z) (qs : list Z) :
  choice_log_in_range K ->
  (forall q, In q qs ->
             np_select primes (map (fun p => p <=? float_exp2_log2 q) primes)
             <> []) ->
  forall (ds : list Z) (g : rng),
  exists ds' g', foldM (prime_step primes) qs (ds, g) = Ok (ds', g').
Proof.
  intros Hlog. induction qs as [|q qs IH]; intros Hne ds g; cbn [foldM].
  - eauto.
  - set (shp := np_select primes
                  (map (fun p => p <=? float_exp2_log2 q) primes)).
    assert (Hshp : 1 <= py_len shp).
    { specialize (Hne q (or_introl eq_refl)). fold shp in Hne.
      destruct shp; [congruence|]. unfold py_len. cbn [length]. lia. }
    destruct (Hlog (py_len shp) g Hshp) as (i & g1 & Hix & Hi).
    cbv zeta. fold shp. rewrite Hix. cbn [bind].
    change (py_index [i] 0) with (Ok (A := Z) i). cbn [bind].
    destruct (py_index_in_range shp i Hi) as (d & Hd & _).
    rewrite Hd. cbn [bind].
    apply IH. intros q' Hq'. apply Hne. now right.
Qed.

(** The sampler returns once its dilations are drawn. *)
Lemma sampler_after_dilations (n_shapelets : Z) (shapelet_sizes : list Z)
      (n_timestamps : Z) (p_norm : Q) (max_channels L : Z)
      (prime_scheme : bool) (g g1 g2 : rng) (ls ds : list Z) :
  0 <= n_shapelets ->
  Forall (fun l => 0 <= l <= L) shapelet_sizes ->
  1 <= max_channels ->
  L * max_channels < 2 ^ 63 ->
  n_shapelets * max_channels < 2 ^ 63 ->
  n_shapelets * (L * max_channels) < 2 ^ 63 ->
  choice_size shapelet_sizes n_shapelets g = Ok (ls, g1) ->
  (if prime_scheme then
     qmax <- np_max (quotients_of n_timestamps ls) ;;
     foldM (prime_step (prime_up_to (float_exp2_log2 qmax)))
           (quotients_of n_timestamps ls) ([], g1)
   else
     let '(us, g) :=
       draws (length (quotients_of n_timestamps ls)) rand_unit g1 in
     Ok (map (fun qu => float_dilation (fst qu) (snd qu))
             (combine (quotients_of n_timestamps ls) us), g))
  = Ok (ds, g2) ->
  exists P g',
    M_SL_init_random_shapelet_params n_shapelets shapelet_sizes n_timestamps
      p_norm max_channels prime_scheme g = Ok (P, g') /\
    lengths P = ls /\ dilations P = ds.
Proof.
  intros Hn Hsz Hmc HL Hnm Hbound Hls Hdil.
  assert (Hmc63 : n_shapelets = 0 \/ max_channels < 2 ^ 63).
  { destruct (Z.eq_dec n_shapelets 0) as [Hz|Hnz]; [now left | right].
    destruct (Z.lt_ge_cases max_channels (2 ^ 63)) as [Hlt|Hge];
      [exact Hlt|]. exfalso.
    assert (1 * max_channels <= n_shapelets * max_channels)
      by (apply Z.mul_le_mono_nonneg_r; lia).
    lia. }
  pose proof (choice_size_length _ _ _ _ _ Hls) as [_ Hlsn].
  pose proof (choice_size_Forall _ _ _ _ _ _ Hsz Hls) as HlsL.
  assert (HL63 : Forall int64_range ls).
  { assert (HL' : L < 2 ^ 63).
    { destruct (Z.lt_ge_cases L (2 ^ 63)) as [Hlt|Hge]; [exact Hlt|].
      exfalso.
      assert (L * 1 <= L * max_channels)
        by (apply Z.mul_le_mono_nonneg_l; lia).
      lia. }
    eapply Forall_impl; [|exact HlsL]. cbv beta. unfold int64_range.
    intros l Hl. lia. }
  assert (Hwrap : map wrap64 ls = ls).
  { clear - HL63. induction HL63 as [|l t Hl _ IH]; cbn [map];
      [reflexivity|]. now rewrite IH, wrap64_small. }
  destruct (choice_size_returns (py_range max_channels) n_shapelets g2 Hn)
    as (cs & g3 & Hcs).
  { intros _ Hnil. apply (f_equal (@length Z)) in Hnil.
    rewrite py_range_length in Hnil. cbn in Hnil. lia. }
  pose proof (choice_size_length _ _ _ _ _ Hcs) as [_ Hcsn].
  assert (Hcsr : Forall (fun c => 0 <= c < max_channels) cs).
  { apply (choice_size_Forall _ (py_range max_channels) n_shapelets g2 g3
             cs); [|exact Hcs].
    apply Forall_forall. intros c Hc. now apply range_In in Hc. }
  set (ncs := map (fun c => wrap64 (c + 1)) cs).
  assert (Hncs : Forall (fun c => 1 <= c <= max_channels) ncs).
  { unfold ncs. apply Forall_map. destruct Hmc63 as [Hz|Hmc63].
    - rewrite Hz in Hcsn. destruct cs; [constructor | discriminate].
    - eapply Forall_impl; [|exact Hcsr].
      cbv beta. intros c Hc. rewrite wrap64_small; [lia|].
      unfold int64_range. lia. }
  assert (Hncn : length ncs = Z.to_nat n_shapelets)
    by (unfold ncs; now rewrite length_map).
  assert (Hsum : 0 <= Zsum ncs <= n_shapelets * max_channels).
  { pose proof (Zsum_le_bound ncs max_channels) as Hb.
    unfold py_len in Hb. rewrite Hncn in Hb.
    rewrite Z2Nat.id in Hb by lia. apply Hb.
    eapply Forall_impl; [|exact Hncs]. cbv beta. intros; lia. }
  assert (Hnpsum : np_sum ncs = Zsum ncs).
  { apply np_sum_exact; [|lia].
    eapply Forall_impl; [|exact Hncs]. cbv beta. intros; lia. }
  assert (Hsizes : Forall (fun x => 0 <= x <= L * max_channels)
                          (slice_sizes ls ncs)).
  { unfold slice_sizes. apply Forall_map. apply Forall_forall.
    intros [l c] Hlc. cbn [fst snd].
    pose proof (in_combine_l _ _ _ _ Hlc) as Hl.
    pose proof (in_combine_r _ _ _ _ Hlc) as Hc.
    rewrite Forall_forall in HlsL, Hncs.
    specialize (HlsL l Hl). specialize (Hncs c Hc). nia. }
  assert (Hssum : 0 <= Zsum (slice_sizes ls ncs)
                  <= n_shapelets * (L * max_channels)).
  { pose proof (Zsum_le_bound _ _ Hsizes) as Hb.
    unfold py_len in Hb. rewrite slice_sizes_length in Hb by lia.
    rewrite Hlsn, Z2Nat.id in Hb by lia. exact Hb. }
  assert (Hnn : Forall (fun x => 0 <= x) (slice_sizes ls ncs)).
  { eapply Forall_impl; [|exact Hsizes]. cbv beta. intros; lia. }
  assert (Hdot : np_dot ls ncs = Ok (Zsum (slice_sizes ls ncs))).
  { unfold np_dot. rewrite np_mul_exact; [|lia|exact Hnn|lia].
    cbn [bind]. rewrite np_sum_exact; [reflexivity|exact Hnn|lia]. }
  destruct (draws (Z.to_nat n_shapelets) rand_unit g3) as [vs g4] eqn:Evs.
  eexists. exists g4. split.
  - unfold M_SL_init_random_shapelet_params.
    rewrite Hls. cbn [bind]. cbv zeta. cbv zeta in Hdil.
    rewrite Hdil. cbn [bind].
    unfold np_full at 1. destruct (Z.ltb_spec n_shapelets 0); [lia|].
    cbn [bind]. rewrite Hcs. cbn [bind]. fold ncs.
    rewrite Hnpsum. unfold np_full at 1.
    destruct (Z.ltb_spec (Zsum ncs) 0); [lia|]. cbn [bind].
    rewrite Hwrap, Hdot. cbn [bind]. unfold np_full at 1.
    destruct (Z.ltb_spec (Zsum (slice_sizes ls ncs)) 0); [lia|].
    cbn [bind]. unfold random_size.
    destruct (Z.ltb_spec n_shapelets 0); [lia|].
    rewrite Evs. cbn [bind]. reflexivity.
  - cbn [lengths dilations]. split; reflexivity.
Qed.

End PrimeScheme.

Section PrimeSchemeClaim.

Context {K : Kernels}.

(** X6.  The prime scheme on the requests whose reads stay within bounds:
    at least one shapelet, admissible lengths from 2 on, [choice_log]
    returning an index of its range and, whichever admissible length gives
    the largest bound, at least one candidate dilation for every
    admissible length.  The sampler then returns, and every dilation is one
    of the values that [prime_up_to] lists up to the largest bound and
    does not exceed the bound [int64(2 ** upper_bounds[i])] of its own
    shapelet. *)
Theorem sampler_prime_dilations (n_shapelets : Z) (shapelet_sizes : list Z)
        (n_timestamps : Z) (p_norm : Q) (max_channels L : Z) (g : rng) :
  choice_log_in_range K ->
  1 <= n_shapelets ->
  shapelet_sizes <> [] ->
  Forall (fun l => 2 <= l <= L) shapelet_sizes ->
  1 <= n_timestamps < 2 ^ 63 ->
  (forall lmax l,
      In lmax shapelet_sizes -> In l shapelet_sizes ->
      prime_candidates n_timestamps lmax l <> []) ->
  1 <= max_channels ->
  L * max_channels < 2 ^ 63 ->
  n_shapelets * max_channels < 2 ^ 63 ->
  n_shapelets * (L * max_channels) < 2 ^ 63 ->
  exists P g',
    M_SL_init_random_shapelet_params n_shapelets shapelet_sizes n_timestamps
      p_norm max_channels true g = Ok (P, g') /\
    Forall (fun l => In l shapelet_sizes) (lengths P) /\
    exists qmax,
      np_max (map (fun l => floor_divide (n_timestamps - 1) (wrap64 (l - 1)))
                  (lengths P)) = Ok qmax /\
      Forall2 (fun l d =>
                 In d (prime_up_to (float_exp2_log2 qmax)) /\
                 d <= float_exp2_log2
                        (floor_divide (n_timestamps - 1) (wrap64 (l - 1))))
              (lengths P) (dilations P).
Proof.
  intros Hlog Hn Hne Hsz HT Hcand Hmc HL Hnm Hbound.
  destruct (choice_size_returns shapelet_sizes n_shapelets g ltac:(lia)
              ltac:(auto)) as (ls & g1 & Hls).
  pose proof (choice_size_length _ _ _ _ _ Hls) as [_ Hlsn].
  assert (HlsIn : Forall (fun l => In l shapelet_sizes) ls).
  { apply (choice_size_Forall _ shapelet_sizes n_shapelets g g1 ls);
      [|exact Hls]. apply Forall_forall. auto. }
  assert (Hsz0 : Forall (fun l => 0 <= l <= L) shapelet_sizes).
  { eapply Forall_impl; [|exact Hsz]. cbv beta. intros; lia. }
  assert (HL' : L < 2 ^ 63).
  { destruct (Z.lt_ge_cases L (2 ^ 63)) as [Hlt|Hge]; [exact Hlt|].
    exfalso.
    assert (L * 1 <= L * max_channels)
      by (apply Z.mul_le_mono_nonneg_l; lia).
    lia. }
  assert (Hwrap1 : forall l, In l shapelet_sizes -> wrap64 l = l).
  { intros l Hl. rewrite Forall_forall in Hsz. specialize (Hsz l Hl).
    apply wrap64_small. unfold int64_range. lia. }
  assert (Hwrap : map wrap64 ls = ls).
  { clear - HlsIn Hwrap1. induction HlsIn as [|l t Hl _ IH]; cbn [map];
      [reflexivity|]. now rewrite IH, Hwrap1. }
  set (quot := fun l => floor_divide (n_timestamps - 1) (wrap64 (l - 1))).
  set (qs := map quot (map wrap64 ls)).
  assert (Hqs : qs <> []).
  { unfold qs. rewrite Hwrap. destruct ls; [|discriminate].
    cbn in Hlsn. lia. }
  destruct (np_max_returns qs Hqs) as (qmax & Hq).
  pose proof (np_max_In _ _ Hq) as Hqin. unfold qs in Hqin.
  rewrite Hwrap in Hqin. apply in_map_iff in Hqin.
  destruct Hqin as (lmax & Hlmax & Hlmaxin).
  rewrite Forall_forall in HlsIn.
  destruct (prime_loop_returns (prime_up_to (float_exp2_log2 qmax)) qs Hlog)
    with (ds := @nil Z) (g := g1) as (ds & g2 & Hloop).
  { intros q Hqq. unfold qs in Hqq. rewrite Hwrap in Hqq.
    apply in_map_iff in Hqq. destruct Hqq as (l & <- & Hl).
    rewrite <- Hlmax.
    exact (Hcand lmax l (HlsIn _ Hlmaxin) (HlsIn _ Hl)). }
  destruct (sampler_after_dilations n_shapelets shapelet_sizes n_timestamps
              p_norm max_channels L true g g1 g2 ls ds)
    as (P & g' & HP & HPl & HPd); auto; try lia.
  { fold quot. fold qs. rewrite Hq. cbn [bind]. exact Hloop. }
  exists P, g'. split; [exact HP|]. rewrite HPl, HPd. split.
  { apply Forall_forall. exact HlsIn. }
  exists qmax. split.
  { fold quot. unfold qs in Hq. rewrite Hwrap in Hq. exact Hq. }
  destruct (prime_loop_dilations _ _ _ _ _ _ Hloop) as (new & Hd & Hall).
  cbn [app] in Hd. rewrite Hd. unfold qs in Hall. rewrite Hwrap in Hall.
  clear - Hall. revert new Hall.
  induction ls as [|l t IH]; intros new Hall; inversion Hall; subst;
    constructor; auto.
Qed.

End PrimeSchemeClaim.

(** * Further properties of the shapelet generator *)

Lemma py_set_slice_length {A} (l : list A) (a b : Z) (v l' : list A) :
  py_set_slice l a b v = Ok l' -> length l' = length l.
Proof.
  unfold py_set_slice.
  set (a' := py_clip (py_len l) a). set (b' := py_clip (py_len l) b).
  pose proof (py_clip_range (py_len l) a ltac:(unfold py_len; lia)) as Ha.
  pose proof (py_clip_range (py_len l) b ltac:(unfold py_len; lia)) as Hb.
  fold a' in Ha. fold b' in Hb. unfold py_len in Ha, Hb.
  assert (Hlen : forall w, length w = Z.to_nat (b' - a') ->
            length (firstn (Z.to_nat a') l ++ w
                    ++ skipn (Z.to_nat a' + Z.to_nat (b' - a')) l)
            = length l).
  { intros w Hw. rewrite !length_app, length_firstn, length_skipn, Hw. lia. }
  destruct (Nat.eqb_spec (length v) (Z.to_nat (b' - a'))) as [E|E].
  - intros H. inversion H; subst. now apply Hlen.
  - destruct v as [|x [|y v]]; try discriminate.
    intros H. inversion H; subst. apply Hlen. apply repeat_length.
Qed.

Lemma py_set_slice_Forall {A} (Q : A -> Prop) (l : list A) (a b : Z)
      (v l' : list A) :
  Forall Q l -> Forall Q v -> py_set_slice l a b v = Ok l' -> Forall Q l'.
Proof.
  intros Hl Hv. unfold py_set_slice.
  assert (Hput : forall w n m, Forall Q w ->
            Forall Q (firstn n l ++ w ++ skipn m l)).
  { intros w n m Hw. rewrite !Forall_app. repeat split; auto.
    - apply Forall_forall. intros x Hx. rewrite Forall_forall in Hl.
      apply Hl. rewrite <- (firstn_skipn n l). apply in_or_app. now left.
    - apply Forall_forall. intros x Hx. rewrite Forall_forall in Hl.
      apply Hl. rewrite <- (firstn_skipn m l). apply in_or_app. now right. }
  destruct (Nat.eqb _ _).
  - intros H. inversion H; subst. now apply Hput.
  - destruct v as [|x [|y v]]; try discriminate.
    intros H. inversion H; subst. apply Hput.
    apply Forall_forall. intros z Hz. apply repeat_spec in Hz. subst z.
    now inversion Hv.
Qed.

Lemma py_set_index_Forall {A} (Q : A -> Prop) (l : list A) (i : Z) (v : A)
      (l' : list A) :
  Forall Q l -> Q v -> py_set_index l i v = Ok l' ->
  Forall Q l' /\ length l' = length l.
Proof.
  intros Hl Hv. unfold py_set_index.
  set (j := if i <? 0 then py_len l + i else i).
  destruct (Z.ltb_spec j 0); [discriminate|].
  destruct (Z.leb_spec (py_len l) j); [discriminate|]. cbn [orb].
  intros H'. inversion H'; subst. split.
  - rewrite Forall_app. split.
    + apply Forall_forall. intros x Hx. rewrite Forall_forall in Hl.
      apply Hl. rewrite <- (firstn_skipn (Z.to_nat j) l).
      apply in_or_app. now left.
    + constructor; [exact Hv|].
      apply Forall_forall. intros x Hx. rewrite Forall_forall in Hl.
      apply Hl. rewrite <- (firstn_skipn (S (Z.to_nat j)) l).
      apply in_or_app. now right.
  - apply update_length. unfold py_len in *. lia.
Qed.

Section GeneratorSteps.

Context {K : Kernels}.

Variable X : tensor3.
Variable P : shapelets.
Variables a1 a2 : list Z.
Variable alpha : Q.
Variable use_phase : bool.

(** What one shapelet does to the state: nothing, or one draw. *)
Lemma shapelet_step_cases (i_d i_shp : Z) (st st' : gen_state) :
  shapelet_step X P a1 a2 alpha use_phase i_d st i_shp = Ok st' ->
  st' = st \/
  exists d l nrm c mn md s g p g1 chans vs lo1 hi1 lo2 hi2,
    py_index (dilations P) i_shp = Ok d /\
    py_index (lengths P) i_shp = Ok l /\
    py_index (normalize P) i_shp = Ok nrm /\
    py_index (n_channels P) i_shp = Ok c /\
    py_index (st_mask_sampling st) (b2z nrm) = Ok mn /\
    py_index mn i_d = Ok md /\
    (let i_mask := admissible md (n_timestamps_of X)
                     (d_shape_of X use_phase l d) c alpha in
     choice (fst i_mask) (st_rng st) = Ok (s, g) /\
     choice (np_select (snd i_mask) (np_eq (fst i_mask) s)) g
     = Ok (p, g1) /\
     In (s, p) (combine (fst i_mask) (snd i_mask))) /\
    choice_no_replace (py_range (Z.of_nat (n_features_of X))) c g1
    = Ok (chans, st_rng st') /\
    py_set_index (st_id_samples st) i_shp s = Ok (st_id_samples st') /\
    py_set_index (st_start_positions st) i_shp p
    = Ok (st_start_positions st') /\
    py_index a1 i_shp = Ok lo1 /\ py_index a1 (i_shp + 1) = Ok hi1 /\
    py_set_slice (st_values st) lo1 hi1 vs = Ok (st_values st') /\
    py_index a2 i_shp = Ok lo2 /\ py_index a2 (i_shp + 1) = Ok hi2 /\
    py_set_slice (st_channel_ids st) lo2 hi2 chans
    = Ok (st_channel_ids st') /\
    st_mask_sampling st' = st_mask_sampling st /\
    st_mask_return st' = st_mask_return st.
Proof.
  unfold shapelet_step. intros H.
  bind_inv H as d Hd. bind_inv H as l Hl. bind_inv H as nrm Hn.
  bind_inv H as c Hc. bind_inv H as mn Hmn. bind_inv H as md Hmd.
  destruct (0 <? py_len _); [|inversion H; auto].
  bind_inv H as [s g] Hs. bind_inv H as ids Hids.
  bind_inv H as [p g1] Hp. bind_inv H as sps Hsps.
  bind_inv H as v0 Hv0. bind_inv H as [chans g2] Hch.
  bind_inv H as vs Hvs. bind_inv H as lo1 Hlo1. bind_inv H as hi1 Hhi1.
  bind_inv H as values' Hvalues. bind_inv H as lo2 Hlo2.
  bind_inv H as hi2 Hhi2. bind_inv H as cids Hcids.
  inversion H; subst. cbn. right.
  exists d, l, nrm, c, mn, md, s, g, p, g1, chans, vs, lo1, hi1, lo2, hi2.
  repeat split; auto.
  apply choice_In in Hp.
  apply np_select_eq_In in Hp; [exact Hp|].
  apply np_where2_lengths.
Qed.

End GeneratorSteps.

Section GeneratorInvariant.

Context {K : Kernels}.

(** A property of the state that every shapelet keeps holds when the
    generation loop returns. *)
Lemma generate_run_keeps (I : tensor3 -> shapelets -> gen_state -> Prop)
      (X : tensor3) (y : list Z) (n_shapelets : Z)
      (shapelet_sizes : list Z) (r_seed : Z) (p_norm p_min p_max alpha : Q)
      (use_phase : bool) (max_channels : Z) (prime_scheme : bool)
      (P : shapelets) (st : gen_state) :
  (forall g1 a1,
      M_SL_init_random_shapelet_params n_shapelets shapelet_sizes
        (Z.of_nat (n_timestamps_of X)) p_norm max_channels prime_scheme
        (seed r_seed) = Ok (P, g1) ->
      (forall i_d i_shp s s',
          I X P s ->
          shapelet_step X P a1 (channel_offsets (n_channels P)) alpha
            use_phase i_d s i_shp = Ok s' ->
          I X P s') /\
      I X P (mk_gen_state (values P) (channel_ids P)
               (repeat 0 (Z.to_nat n_shapelets))
               (repeat 0 (Z.to_nat n_shapelets))
               (np_ones5 2 (length (np_unique (dilations P)))
                  (n_samples_of X) (n_features_of X) (n_timestamps_of X))
               (repeat true (Z.to_nat n_shapelets)) g1)) ->
  generate_run X y n_shapelets shapelet_sizes r_seed p_norm p_min p_max
    alpha use_phase max_channels prime_scheme = Ok (P, st) ->
  I X P st.
Proof.
  intros HI H.
  destruct (generate_run_inv _ _ _ _ _ _ _ _ _ _ _ _ _ _ H)
    as (g1 & a1 & Hs & Ha1 & Hloop).
  destruct (HI g1 a1 Hs) as [Hstep Hinit].
  revert Hloop. apply (foldM_invariant (I X P)); [|exact Hinit].
  intros s i_d s' _ Hs0 Hd. unfold dilation_step in Hd.
  bind_inv Hd as u Hu. revert Hd.
  apply (foldM_invariant (I X P)); [|exact Hs0].
  intros s1 i_shp s2 _ Hs1 Hstep1. eapply Hstep; eauto.
Qed.

End GeneratorInvariant.

Section GeneratorState.

Context {K : Kernels}.

Lemma choice_no_replace_inv (n : nat) (k : Z) (g g' : rng)
      (chans : list Z) :
  choice_no_replace (py_range (Z.of_nat n)) k g = Ok (chans, g') ->
  py_len chans = k /\ NoDup chans /\
  Forall (fun c => 0 <= c < Z.of_nat n) chans.
Proof.
  intros H. pose proof H as H'. unfold choice_no_replace in H'.
  destruct (Z.ltb_spec k 0) as [Hk|Hk]; [discriminate|].
  destruct (Z.ltb_spec (py_len (py_range (Z.of_nat n))) k) as [Hn|Hn];
    [discriminate|].
  clear H'. unfold py_len in Hn. rewrite py_range_length in Hn.
  destruct (choice_no_replace_spec (Z.of_nat n) k g ltac:(lia))
    as (chans' & g'' & E1 & E2).
  rewrite H in E1. inversion E1; subst. exact E2.
Qed.

Lemma ones_index {A} (x : A) (n : nat) (i : Z) (y : A) :
  py_index (repeat x n) i = Ok y -> y = x.
Proof.
  intros H. apply py_index_In in H. now apply repeat_spec in H.
Qed.

Lemma generate_run_state (X : tensor3) (y : list Z) (n_shapelets : Z)
      (shapelet_sizes : list Z) (r_seed : Z) (p_norm p_min p_max alpha : Q)
      (use_phase : bool) (max_channels : Z) (prime_scheme : bool)
      (P : shapelets) (st : gen_state) :
  generate_run X y n_shapelets shapelet_sizes r_seed p_norm p_min p_max
    alpha use_phase max_channels prime_scheme = Ok (P, st) ->
  gen_state_ok n_shapelets X P st.
Proof.
  apply (generate_run_keeps (gen_state_ok n_shapelets)).
  intros g1 a1 Hs. split.
  - intros i_d i_shp s s' (I1 & I2 & I3 & I4 & I5 & I6 & I7 & I8) Hstep.
    apply shapelet_step_cases in Hstep.
    destruct Hstep as [->|Hstep]; [repeat split; assumption|].
    destruct Hstep as (d & l & nrm & c & mn & md & sm & g & p & g2 & chans
                       & vs & lo1 & hi1 & lo2 & hi2 & Hd & Hl & Hn & Hc
                       & Hmn & Hmd & (Hsm & Hp & Hin) & Hch & Hids & Hsps
                       & Hlo1 & Hhi1 & Hvs & Hlo2 & Hhi2 & Hcids & Hm & _).
    rewrite I5 in Hmn. unfold np_ones5 in Hmn.
    apply ones_index in Hmn. subst mn.
    apply ones_index in Hmd. subst md.
    apply admissible_range in Hin. destruct Hin as [Hsr Hpr].
    unfold py_len in Hsr. rewrite repeat_length in Hsr.
    pose proof (py_clip_range (Z.of_nat (n_timestamps_of X))
                  (d_shape_of X use_phase l d) ltac:(lia)) as Hclip.
    apply choice_no_replace_inv in Hch. destruct Hch as (_ & _ & Hchr).
    assert (Hsm' : 0 <= sm < Z.max 1 (Z.of_nat (n_samples_of X))) by lia.
    assert (Hp' : 0 <= p < Z.max 1 (Z.of_nat (n_timestamps_of X))) by lia.
    destruct (py_set_index_Forall _ _ _ _ _ I6 Hsm' Hids) as [J6 J3].
    destruct (py_set_index_Forall _ _ _ _ _ I7 Hp' Hsps) as [J7 J4].
    pose proof (py_set_slice_length _ _ _ _ _ Hvs) as J1.
    pose proof (py_set_slice_length _ _ _ _ _ Hcids) as J2.
    assert (J8 : Forall (fun c0 => 0 <= c0
                                   < Z.max 1 (Z.of_nat (n_features_of X)))
                        (st_channel_ids s')).
    { apply (py_set_slice_Forall _ _ _ _ _ _ I8) in Hcids; [exact Hcids|].
      eapply Forall_impl; [|exact Hchr]. cbv beta. intros; lia. }
    unfold gen_state_ok. rewrite J1, J2, J3, J4, Hm.
    repeat split; assumption.
  - pose proof (sampler_shape _ _ _ _ _ _ _ _ _ Hs) as (Hn & _ & _ & _ & _
                                                        & _ & Hci & _).
    unfold gen_state_ok. cbn.
    rewrite !repeat_length. repeat split; auto.
    + apply Forall_forall. intros x Hx. apply repeat_spec in Hx. lia.
    + apply Forall_forall. intros x Hx. apply repeat_spec in Hx. lia.
    + rewrite Hci. apply Forall_forall. intros x Hx.
      apply repeat_spec in Hx. lia.
Qed.

End GeneratorState.

Section GeneratorContract.

Context {K : Kernels}.

(** X8.  When [generate] returns, the two provenance arrays have one entry
    per shapelet, every entry of [id_samples] is the index of a sample and
    every entry of [start_positions] the index of a timestamp (0 when the
    tensor has no sample, or no timestamp), with or without phase
    invariance. *)
Theorem generate_provenance_in_range (g0 : rng) (X : tensor3) (y : list Z)
        (n_shapelets : Z) (shapelet_sizes : list Z) (r_seed : Z)
        (p_norm p_min p_max alpha : Q) (use_phase : bool)
        (max_channels : Z) (prime_scheme : bool) (S : shapelets)
        (ids starts : list Z) (g' : rng) :
  M_SL_generate_shapelet g0 X y n_shapelets shapelet_sizes r_seed p_norm
    p_min p_max alpha use_phase max_channels prime_scheme
  = Ok (S, ids, starts, g') ->
  py_len ids = n_shapelets /\ py_len starts = n_shapelets /\
  Forall (fun s => 0 <= s < Z.max 1 (Z.of_nat (n_samples_of X))) ids /\
  Forall (fun p => 0 <= p < Z.max 1 (Z.of_nat (n_timestamps_of X))) starts.
Proof.
  intros H.
  destruct (generate_inv _ _ _ _ _ _ _ _ _ _ _ _ _ _ _ _ _ H)
    as (P & st & Hrun & _ & -> & -> & _).
  destruct (generate_run_inv _ _ _ _ _ _ _ _ _ _ _ _ _ _ Hrun)
    as (g1 & a1 & Hs & _).
  pose proof (sampler_shape _ _ _ _ _ _ _ _ _ Hs) as (Hn & _).
  destruct (generate_run_state _ _ _ _ _ _ _ _ _ _ _ _ _ _ Hrun)
    as (_ & _ & I3 & I4 & _ & I6 & I7 & _).
  unfold py_len. rewrite I3, I4. repeat split; auto; lia.
Qed.

(** X9.  Generation fills the two flattened buffers and nothing else: the
    lengths, dilations, normalisation flags and channel counts that
    [generate] returns are those the sampler drew on the generator seeded
    with [r_seed], the thresholds are still all zeros, and the buffers
    have the sizes the sampler gave them. *)
Theorem generate_keeps_parameters (g0 : rng) (X : tensor3) (y : list Z)
        (n_shapelets : Z) (shapelet_sizes : list Z) (r_seed : Z)
        (p_norm p_min p_max alpha : Q) (use_phase : bool)
        (max_channels : Z) (prime_scheme : bool) (S : shapelets)
        (ids starts : list Z) (g' : rng) :
  M_SL_generate_shapelet g0 X y n_shapelets shapelet_sizes r_seed p_norm
    p_min p_max alpha use_phase max_channels prime_scheme
  = Ok (S, ids, starts, g') ->
  exists P g1,
    M_SL_init_random_shapelet_params n_shapelets shapelet_sizes
      (Z.of_nat (n_timestamps_of X)) p_norm max_channels prime_scheme
      (seed r_seed) = Ok (P, g1) /\
    lengths S = lengths P /\ dilations S = dilations P /\
    normalize S = normalize P /\ n_channels S = n_channels P /\
    threshold S = repeat fzero (Z.to_nat n_shapelets) /\
    py_len (values S) = py_len (values P) /\
    py_len (channel_ids S) = py_len (channel_ids P).
Proof.
  intros H.
  destruct (generate_inv _ _ _ _ _ _ _ _ _ _ _ _ _ _ _ _ _ H)
    as (P & st & Hrun & -> & _).
  destruct (generate_run_inv _ _ _ _ _ _ _ _ _ _ _ _ _ _ Hrun)
    as (g1 & a1 & Hs & _).
  destruct (sampler_parts _ _ _ _ _ _ _ _ _ Hs)
    as (ls & g2 & g3 & cs & g4 & us & _ & _ & _ & Hth & _).
  destruct (generate_run_state _ _ _ _ _ _ _ _ _ _ _ _ _ _ Hrun)
    as (I1 & I2 & _).
  exists P, g1. cbn. unfold py_len. rewrite I1, I2. repeat split; auto.
Qed.

(** X10.  When [generate] returns, every entry of [channel_ids] is the
    index of a channel of the series (0 when the tensor has no
    channel). *)
Theorem generate_channel_ids_in_range (g0 : rng) (X : tensor3)
        (y : list Z) (n_shapelets : Z) (shapelet_sizes : list Z)
        (r_seed : Z) (p_norm p_min p_max alpha : Q) (use_phase : bool)
        (max_channels : Z) (prime_scheme : bool) (S : shapelets)
        (ids starts : list Z) (g' : rng) :
  M_SL_generate_shapelet g0 X y n_shapelets shapelet_sizes r_seed p_norm
    p_min p_max alpha use_phase max_channels prime_scheme
  = Ok (S, ids, starts, g') ->
  Forall (fun c => 0 <= c < Z.max 1 (Z.of_nat (n_features_of X)))
         (channel_ids S).
Proof.
  intros H.
  destruct (generate_inv _ _ _ _ _ _ _ _ _ _ _ _ _ _ _ _ _ H)
    as (P & st & Hrun & -> & _).
  destruct (generate_run_state _ _ _ _ _ _ _ _ _ _ _ _ _ _ Hrun)
    as (_ & _ & _ & _ & _ & _ & _ & I8).
  exact I8.
Qed.

End GeneratorContract.

(** * Generation followed by application *)

Section FitTransform.

Context {K : Kernels}.

(** The generation loop returns when every shapelet can be drawn. *)
Lemma generate_run_total (X : tensor3) (y : list Z) (n_shapelets : Z)
      (shapelet_sizes : list Z) (r_seed : Z) (p_norm p_min p_max alpha : Q)
      (use_phase : bool) (max_channels : Z) (prime_scheme : bool)
      (P : shapelets) (g1 : rng) :
  znorm_keeps_length K ->
  rectangular X ->
  Z.of_nat (n_timestamps_of X) < 2 ^ 63 ->
  Z.of_nat (n_features_of X) < 2 ^ 63 ->
  1 <= max_channels <= Z.of_nat (n_features_of X) ->
  (0 <= alpha <= 1)%Q ->
  (1 <= n_samples_of X)%nat ->
  M_SL_init_random_shapelet_params n_shapelets shapelet_sizes
    (Z.of_nat (n_timestamps_of X)) p_norm max_channels prime_scheme
    (seed r_seed) = Ok (P, g1) ->
  Forall2 (keeps_valid_start X use_phase) (lengths P) (dilations P) ->
  Zsum (slice_sizes (n_channels P) (lengths P)) < 2 ^ 63 ->
  exists st,
    generate_run X y n_shapelets shapelet_sizes r_seed p_norm p_min p_max
      alpha use_phase max_channels prime_scheme = Ok (P, st) /\
    py_len (st_values st) = Zsum (slice_sizes (n_channels P) (lengths P)).
Proof.
  intros Hznorm HX HT HF Hmax Halpha Hns Hs Hfit Htot.
  pose proof (sampler_shape _ _ _ _ _ _ _ _ _ Hs)
    as (Hn & Hl & Hd & _ & Hnm & Hc & _).
  pose proof (sampler_channel_counts _ _ _ _ _ _ _ _ _ Hs ltac:(lia))
    as Hcs.
  assert (HP : sampled_ok X alpha use_phase P).
  { repeat split; try congruence; auto.
    eapply Forall_impl; [|exact Hcs]. intros c Hcr. simpl in Hcr.
    split; [lia|]. apply within_threshold; auto. lia. }
  pose proof (sizes_nonneg X P alpha use_phase Hns HP) as Hnn.
  pose proof (channels_nonneg X P alpha use_phase Hns HP) as Hcnn.
  pose proof (channels_le_sizes X P alpha use_phase Hns HP) as Hcle.
  destruct (sampler_buffers _ _ _ _ _ _ _ _ _ Hs Hnn Hcnn ltac:(lia) Htot)
    as [Hvl Hcl].
  unfold generate_run. rewrite Hs. cbn [bind].
  rewrite !np_full_nonneg by assumption. cbn [bind].
  rewrite (values_offsets_exact X P alpha use_phase Hns HP). cbn [bind].
  destruct (generation_loop_drawn Hznorm X P alpha use_phase HX HT Hns HP
              (mk_gen_state (values P) (channel_ids P)
                 (repeat 0 (Z.to_nat n_shapelets))
                 (repeat 0 (Z.to_nat n_shapelets))
                 (np_ones5 2 (length (np_unique (dilations P)))
                    (n_samples_of X) (n_features_of X)
                    (n_timestamps_of X))
                 (repeat true (Z.to_nat n_shapelets)) g1))
    as (st & Hrun & Hinv & Hpop).
  { unfold gen_inv. cbn [st_values st_channel_ids st_id_samples
                           st_start_positions st_mask_sampling].
    rewrite !repeat_length. repeat split; auto. }
  rewrite Hrun. cbn [bind].
  exists st. split; [reflexivity|]. apply Hinv.
Qed.

(** What [generate] returns is a populated set for every tensor of the
    same channel and timestamp counts. *)
Lemma generated_set_valid (X X' : tensor3) (y : list Z) (n_shapelets : Z)
      (shapelet_sizes : list Z) (r_seed : Z) (p_norm p_min p_max alpha : Q)
      (use_phase : bool) (max_channels : Z) (prime_scheme : bool)
      (P : shapelets) (st : gen_state) :
  generate_run X y n_shapelets shapelet_sizes r_seed p_norm p_min p_max
    alpha use_phase max_channels prime_scheme = Ok (P, st) ->
  1 <= max_channels < 2 ^ 63 ->
  (1 <= n_features_of X)%nat ->
  Forall2 (keeps_valid_start X use_phase) (lengths P) (dilations P) ->
  py_len (st_values st) = Zsum (slice_sizes (n_channels P) (lengths P)) ->
  Zsum (slice_sizes (n_channels P) (lengths P)) < 2 ^ 63 ->
  n_features_of X' = n_features_of X ->
  n_timestamps_of X' = n_timestamps_of X ->
  valid_shapelets X' use_phase
    (mk_shapelets (st_values st) (lengths P) (dilations P) (threshold P)
       (normalize P) (n_channels P) (st_channel_ids st)).
Proof.
  intros Hrun Hmc Hnf Hfit Hvl Htot Ef Et.
  destruct (generate_run_inv _ _ _ _ _ _ _ _ _ _ _ _ _ _ Hrun)
    as (g1 & a1 & Hs & _).
  pose proof (sampler_shape _ _ _ _ _ _ _ _ _ Hs)
    as (Hn & Hl & Hd & Ht & Hnm & Hc & _).
  pose proof (sampler_channel_counts _ _ _ _ _ _ _ _ _ Hs ltac:(lia))
    as Hcs.
  destruct (generate_run_state _ _ _ _ _ _ _ _ _ _ _ _ _ _ Hrun)
    as (_ & _ & _ & _ & _ & _ & _ & I8).
  unfold valid_shapelets. cbn.
  repeat split; try congruence; auto.
  - eapply Forall2_impl; [|exact Hfit]. unfold keeps_valid_start.
    intros l d Hld. now rewrite Et.
  - eapply Forall_impl; [|exact Hcs]. cbv beta. intros; lia.
  - rewrite Ef. eapply Forall_impl; [|exact I8]. cbv beta. intros; lia.
Qed.

End FitTransform.

Section FitTransformClaims.

Context {K : Kernels}.

(** The applier on the set that the generation loop left. *)
Lemma apply_generated (X X' : tensor3) (y : list Z) (n_shapelets : Z)
      (shapelet_sizes : list Z) (r_seed : Z) (p_norm p_min p_max alpha : Q)
      (use_phase : bool) (max_channels : Z) (prime_scheme : bool)
      (P : shapelets) (st : gen_state) :
  znorm_keeps_length K ->
  generate_run X y n_shapelets shapelet_sizes r_seed p_norm p_min p_max
    alpha use_phase max_channels prime_scheme = Ok (P, st) ->
  1 <= max_channels < 2 ^ 63 ->
  (1 <= n_features_of X)%nat ->
  Forall2 (keeps_valid_start X use_phase) (lengths P) (dilations P) ->
  py_len (st_values st) = Zsum (slice_sizes (n_channels P) (lengths P)) ->
  Zsum (slice_sizes (n_channels P) (lengths P)) < 2 ^ 63 ->
  rectangular X' ->
  n_features_of X' = n_features_of X ->
  n_timestamps_of X' = n_timestamps_of X ->
  exists r h' m,
    M_SL_apply_all_shapelets 0%nat demo_refs use_phase
      (store_of X'
         (mk_shapelets (st_values st) (lengths P) (dilations P)
            (threshold P) (normalize P) (n_channels P)
            (st_channel_ids st))) = Ok (r, h') /\
    nth_error h' r
    = Some (Float2 (n_samples_of X') (3 * Z.to_nat n_shapelets) m) /\
    length m = n_samples_of X' /\
    Forall (fun row => length row = (3 * Z.to_nat n_shapelets)%nat) m.
Proof.
  intros Hz Hrun Hmc Hnf Hfit Hvl Htot HX' Ef Et.
  pose proof (generated_set_valid X X' _ _ _ _ _ _ _ _ _ _ _ _ _ Hrun Hmc
                Hnf Hfit Hvl Htot Ef Et) as Hvalid.
  destruct (generate_run_inv _ _ _ _ _ _ _ _ _ _ _ _ _ _ Hrun)
    as (g1 & a1 & Hs & _).
  pose proof (sampler_shape _ _ _ _ _ _ _ _ _ Hs) as (Hn & Hl & _).
  set (S := mk_shapelets (st_values st) (lengths P) (dilations P)
              (threshold P) (normalize P) (n_channels P)
              (st_channel_ids st)) in *.
  assert (Hin : apply_input (store_of X' S) 0%nat demo_refs use_phase X' S).
  { repeat (split; [reflexivity|]). split; assumption. }
  destruct (apply_returns Hz _ _ _ _ _ _ Hin)
    as (r & h' & Happ & -> & _ & a & Ha & m & -> & Hrows & Hcols).
  assert (Hc : Z.to_nat (3 * py_len (lengths S))
               = (3 * Z.to_nat n_shapelets)%nat).
  { unfold S. cbn [lengths]. unfold py_len. rewrite Hl. lia. }
  rewrite Hc in *.
  exists (length (store_of X' S)), h', m. auto.
Qed.

(** X11.  Under the conditions in which every shapelet is drawn,
    [generate] returns a set on which [apply] returns, for the training
    tensor and for every rectangular tensor of the same channel and
    timestamp counts: a feature matrix with one row per series and
    [3 * n_shapelets] columns. *)
Theorem generate_then_apply (g0 : rng) (X : tensor3) (y : list Z)
        (n_shapelets : Z) (shapelet_sizes : list Z) (r_seed : Z)
        (p_norm p_min p_max alpha : Q) (use_phase : bool)
        (max_channels : Z) (prime_scheme : bool) (P : shapelets)
        (g1 : rng) :
  znorm_keeps_length K ->
  rectangular X ->
  Z.of_nat (n_timestamps_of X) < 2 ^ 63 ->
  Z.of_nat (n_features_of X) < 2 ^ 63 ->
  1 <= max_channels <= Z.of_nat (n_features_of X) ->
  (0 <= alpha <= 1)%Q ->
  (1 <= n_samples_of X)%nat ->
  M_SL_init_random_shapelet_params n_shapelets shapelet_sizes
    (Z.of_nat (n_timestamps_of X)) p_norm max_channels prime_scheme
    (seed r_seed) = Ok (P, g1) ->
  Forall2 (keeps_valid_start X use_phase) (lengths P) (dilations P) ->
  Zsum (slice_sizes (n_channels P) (lengths P)) < 2 ^ 63 ->
  exists S ids starts g',
    M_SL_generate_shapelet g0 X y n_shapelets shapelet_sizes r_seed p_norm
      p_min p_max alpha use_phase max_channels prime_scheme
    = Ok (S, ids, starts, g') /\
    forall X' : tensor3,
      rectangular X' ->
      n_features_of X' = n_features_of X ->
      n_timestamps_of X' = n_timestamps_of X ->
      exists r h' m,
        M_SL_apply_all_shapelets 0%nat demo_refs use_phase (store_of X' S)
        = Ok (r, h') /\
        nth_error h' r
        = Some (Float2 (n_samples_of X') (3 * Z.to_nat n_shapelets) m) /\
        length m = n_samples_of X' /\
        Forall (fun row => length row = (3 * Z.to_nat n_shapelets)%nat) m.
Proof.
  intros Hz HX HT HF Hmax Halpha Hns Hs Hfit Htot.
  destruct (generate_run_total X y n_shapelets shapelet_sizes r_seed p_norm
              p_min p_max alpha use_phase max_channels prime_scheme P g1
              Hz HX HT HF Hmax Halpha Hns Hs Hfit Htot)
    as (st & Hrun & Hvl).
  unfold M_SL_generate_shapelet. rewrite Hrun. cbn [bind].
  do 4 eexists. split; [reflexivity|].
  intros X' HX' Ef Et.
  apply (apply_generated X X' y n_shapelets shapelet_sizes r_seed p_norm
           p_min p_max alpha use_phase max_channels prime_scheme P st Hz
           Hrun); auto; lia.
Qed.

End FitTransformClaims.

Section FitTransformReals.

Context {K : Kernels}.

(** X12.  With the dilation draw computed over the reals, the unrestricted
    scheme never fails on a well-formed request: for a rectangular tensor
    with at least one sample, admissible lengths between 2 and the number
    of timestamps, [1 <= max_channels <= n_features], [0 <= alpha <= 1]
    and sizes that fit [int64], [generate] returns, every shapelet has
    [1 <= dilation] and [(length - 1) * dilation < n_timestamps], and
    [apply] returns on the set it built, for every rectangular tensor of
    the same channel and timestamp counts. *)
Theorem fit_transform_unrestricted (g0 : @rng (over_reals K))
        (X : @tensor3 (over_reals K)) (y : list Z) (n_shapelets : Z)
        (shapelet_sizes : list Z) (r_seed : Z)
        (p_norm p_min p_max alpha : Q) (use_phase : bool)
        (max_channels : Z) :
  znorm_keeps_length K ->
  rectangular X ->
  (1 <= n_samples_of X)%nat ->
  shapelet_sizes <> [] ->
  Forall (fun l => 2 <= l <= Z.of_nat (n_timestamps_of X)) shapelet_sizes ->
  1 <= max_channels <= Z.of_nat (n_features_of X) ->
  Z.of_nat (n_features_of X) < 2 ^ 63 ->
  (0 <= alpha <= 1)%Q ->
  0 <= n_shapelets ->
  Z.max 1 n_shapelets * (Z.of_nat (n_timestamps_of X) * max_channels)
  < 2 ^ 63 ->
  exists S ids starts g',
    M_SL_generate_shapelet (K := over_reals K) g0 X y n_shapelets
      shapelet_sizes r_seed p_norm p_min p_max alpha use_phase max_channels
      false
    = Ok (S, ids, starts, g') /\
    Forall2 (fun l d => 1 <= d /\
                        (l - 1) * d < Z.of_nat (n_timestamps_of X))
            (lengths S) (dilations S) /\
    forall X' : @tensor3 (over_reals K),
      rectangular X' ->
      n_features_of X' = n_features_of X ->
      n_timestamps_of X' = n_timestamps_of X ->
      exists r h' m,
        M_SL_apply_all_shapelets (K := over_reals K) 0%nat demo_refs
          use_phase (store_of X' S) = Ok (r, h') /\
        nth_error h' r
        = Some (Float2 (n_samples_of X') (3 * Z.to_nat n_shapelets) m) /\
        length m = n_samples_of X' /\
        Forall (fun row => length row = (3 * Z.to_nat n_shapelets)%nat) m.
Proof.
  intros Hz HX Hns Hne Hsizes Hmax HF Halpha Hn Hbound.
  set (T := Z.of_nat (n_timestamps_of X)) in *.
  assert (HT2 : 2 <= T).
  { destruct shapelet_sizes as [|l t]; [congruence|].
    inversion Hsizes; subst. lia. }
  assert (Hb1 : T * max_channels < 2 ^ 63) by nia.
  assert (Hb2 : n_shapelets * max_channels < 2 ^ 63) by nia.
  assert (Hb3 : n_shapelets * (T * max_channels) < 2 ^ 63) by nia.
  assert (HT : T < 2 ^ 63) by nia.
  destruct (sampler_unrestricted_total (K := over_reals K) n_shapelets
              shapelet_sizes T p_norm max_channels T (seed r_seed) Hn Hne)
    as (P & g1 & Hs & Hlin & Hcs & Hcl & Hvl & Htot); auto; try lia.
  { eapply Forall_impl; [|exact Hsizes]. cbv beta. intros; lia. }
  assert (Hreal : Forall2 (fun l d => 1 <= d /\ (l - 1) * d <= T - 1)
                    (lengths P) (dilations P)).
  { pose proof (sampler_unrestricted_inv (K := over_reals K) _ _ _ _ _ _ _
                  _ Hs) as (ls & g2 & us & Hls & Hus & -> & ->).
    apply real_dilations_Forall2; auto.
    - eapply (choice_size_Forall (K := over_reals K)); eauto.
    - subst us. apply (draws_Forall (K := over_reals K)).
      intros g3. apply (rand_unit_range (K := over_reals K)).
    - subst us. apply (draws_length (K := over_reals K)). }
  assert (Hfit : Forall2 (keeps_valid_start X use_phase)
                         (lengths P) (dilations P)).
  { clear - Hreal Hlin Hsizes HT2. revert Hlin.
    induction Hreal as [|l d ls ds (Hd & Hld) _ IH]; intros Hlin;
      constructor.
    - inversion Hlin as [|? ? Hl _]; subst.
      rewrite Forall_forall in Hsizes. specialize (Hsizes l Hl).
      unfold keeps_valid_start. fold T.
      split; [lia|]. split; [lia|]. destruct use_phase; lia.
    - apply IH. now inversion Hlin. }
  destruct (generate_run_total (K := over_reals K) X y n_shapelets
              shapelet_sizes r_seed p_norm p_min p_max alpha use_phase
              max_channels false P g1 Hz HX HT HF Hmax Halpha Hns Hs Hfit
              ltac:(lia)) as (st & Hrun & Hvl').
  unfold M_SL_generate_shapelet. rewrite Hrun. cbn [bind].
  do 4 eexists. split; [reflexivity|]. split.
  - cbn [lengths dilations]. eapply Forall2_impl; [|exact Hreal].
    cbv beta. intros l d (Hd & Hld). fold T. lia.
  - intros X' HX' Ef Et.
    apply (apply_generated (K := over_reals K) X X' y n_shapelets
             shapelet_sizes r_seed p_norm p_min p_max alpha use_phase
             max_channels false P st Hz Hrun); auto; lia.
Qed.

End FitTransformReals.

(** ** The further properties on the example *)

Lemma sampler_zeroed_buffers_witness :
  py_len (lengths demo_P) = 3 /\
  py_len (dilations demo_P) = 3 /\
  py_len (normalize demo_P) = 3 /\
  py_len (n_channels demo_P) = 3 /\
  threshold demo_P = repeat 0%Q (Z.to_nat 3) /\
  channel_ids demo_P = repeat 0 (Z.to_nat (np_sum (n_channels demo_P))) /\
  exists size, np_dot (lengths demo_P) (n_channels demo_P) = Ok size /\
               values demo_P = repeat 0%Q (Z.to_nat size).
Proof.
  exact (sampler_zeroed_buffers (K := demo) 3 [2; 3; 4] 7 0%Q 2 false
           (demo_script 0) [8; 2; 1; 5; 1; 5; 1; 1; 1; 0; 0]%N demo_P
           demo_sampler).
Defined.

Lemma sampler_draws_in_range_witness :
  Forall (fun l => In l [2; 3; 4]) (lengths demo_P) /\
  Forall (fun c => 1 <= c <= 2) (n_channels demo_P).
Proof.
  apply (sampler_draws_in_range (K := demo) 3 [2; 3; 4] 7 0%Q 2 false
           (demo_script 0) [8; 2; 1; 5; 1; 5; 1; 1; 1; 0; 0]%N demo_P).
  - repeat constructor; unfold int64_range; lia.
  - lia.
  - exact demo_sampler.
Defined.

Lemma sampler_rejects_witness :
  M_SL_init_random_shapelet_params (K := demo) 3 [] 7 0%Q 2 true
    (demo_script 0) = Raise ValueError.
Proof.
  apply (sampler_rejects (K := demo) 3 [] 7 0%Q 2 true (demo_script 0)).
  right. left. split; [lia | reflexivity].
Defined.

Lemma sampler_normalize_extremes_witness :
  ((0 <= 0)%Q -> normalize demo_P = repeat false (Z.to_nat 3)) /\
  ((1 <= 0)%Q -> normalize demo_P = repeat true (Z.to_nat 3)).
Proof.
  exact (sampler_normalize_extremes (K := demo) 3 [2; 3; 4] 7 0%Q 2 false
           (demo_script 0) [8; 2; 1; 5; 1; 5; 1; 1; 1; 0; 0]%N demo_P
           demo_sampler).
Defined.

Lemma demo_choice_log_in_range : choice_log_in_range demo.
Proof. intros n g Hn. exists 0, g. split; [reflexivity | lia]. Qed.

Lemma sampler_prime_dilations_witness :
  exists P g',
    M_SL_init_random_shapelet_params (K := demo) 3 [2; 3; 4] 7 0%Q 2 true
      (demo_script 0) = Ok (P, g') /\
    Forall (fun l => In l [2; 3; 4]) (lengths P) /\
    exists qmax,
      np_max (map (fun l => floor_divide (7 - 1) (wrap64 (l - 1)))
                  (lengths P)) = Ok qmax /\
      Forall2 (fun l d =>
                 In d (prime_up_to (Kernels := demo)
                         (float_exp2_log2 (Kernels := demo) qmax)) /\
                 d <= float_exp2_log2 (Kernels := demo)
                        (floor_divide (7 - 1) (wrap64 (l - 1))))
              (lengths P) (dilations P).
Proof.
  apply (sampler_prime_dilations (K := demo) 3 [2; 3; 4] 7 0%Q 2 4
           (demo_script 0)).
  - exact demo_choice_log_in_range.
  - lia.
  - discriminate.
  - repeat constructor; lia.
  - lia.
  - intros lmax l [<-|[<-|[<-|[]]]] [<-|[<-|[<-|[]]]]; discriminate.
  - lia.
  - lia.
  - lia.
  - lia.
Defined.

Lemma sampler_unrestricted_returns_witness :
  exists P g',
    M_SL_init_random_shapelet_params (K := demo) 3 [2; 3; 4] 7 0%Q 2 false
      (demo_script 0) = Ok (P, g') /\
    py_len (channel_ids P) = Zsum (n_channels P) /\
    py_len (values P) = Zsum (slice_sizes (n_channels P) (lengths P)).
Proof.
  apply (sampler_unrestricted_returns (K := demo) 3 [2; 3; 4] 7 0%Q 2 4
           (demo_script 0)).
  - lia.
  - discriminate.
  - repeat constructor; lia.
  - lia.
  - lia.
  - lia.
  - lia.
Defined.

Lemma generate_provenance_in_range_witness :
  py_len demo_id_samples = 3 /\ py_len demo_start_positions = 3 /\
  Forall (fun s => 0 <= s < Z.max 1 (Z.of_nat (n_samples_of demo_X)))
         demo_id_samples /\
  Forall (fun p => 0 <= p < Z.max 1 (Z.of_nat (n_timestamps_of demo_X)))
         demo_start_positions.
Proof.
  exact (generate_provenance_in_range (K := demo) [] demo_X [0; 1] 3
           [2; 3; 4] 0 0%Q 0%Q 100%Q 1%Q false 2 false demo_S
           demo_id_samples demo_start_positions [] demo_generate_returns).
Defined.

Lemma generate_keeps_parameters_witness :
  exists P g1,
    M_SL_init_random_shapelet_params (K := demo) 3 [2; 3; 4]
      (Z.of_nat (n_timestamps_of demo_X)) 0%Q 2 false
      (seed (Kernels := demo) 0) = Ok (P, g1) /\
    lengths demo_S = lengths P /\ dilations demo_S = dilations P /\
    normalize demo_S = normalize P /\ n_channels demo_S = n_channels P /\
    threshold demo_S = repeat 0%Q (Z.to_nat 3) /\
    py_len (values demo_S) = py_len (values P) /\
    py_len (channel_ids demo_S) = py_len (channel_ids P).
Proof.
  exact (generate_keeps_parameters (K := demo) [] demo_X [0; 1] 3
           [2; 3; 4] 0 0%Q 0%Q 100%Q 1%Q false 2 false demo_S
           demo_id_samples demo_start_positions [] demo_generate_returns).
Defined.

Lemma generate_channel_ids_in_range_witness :
  Forall (fun c => 0 <= c < Z.max 1 (Z.of_nat (n_features_of demo_X)))
         (channel_ids demo_S).
Proof.
  exact (generate_channel_ids_in_range (K := demo) [] demo_X [0; 1] 3
           [2; 3; 4] 0 0%Q 0%Q 100%Q 1%Q false 2 false demo_S
           demo_id_samples demo_start_positions [] demo_generate_returns).
Defined.

Lemma generate_then_apply_witness :
  exists S ids starts g',
    M_SL_generate_shapelet (K := demo) [] demo_X [0; 1] 3 [2; 3; 4] 0 0%Q
      0%Q 100%Q 1%Q false 2 false
    = Ok (S, ids, starts, g') /\
    forall X' : @tensor3 demo,
      rectangular X' ->
      n_features_of X' = n_features_of demo_X ->
      n_timestamps_of X' = n_timestamps_of demo_X ->
      exists r h' m,
        M_SL_apply_all_shapelets (K := demo) 0%nat demo_refs false
          (store_of X' S) = Ok (r, h') /\
        nth_error h' r
        = Some (Float2 (n_samples_of X') (3 * Z.to_nat 3) m) /\
        length m = n_samples_of X' /\
        Forall (fun row => length row = (3 * Z.to_nat 3)%nat) m.
Proof.
  apply (generate_then_apply (K := demo) [] demo_X [0; 1] 3 [2; 3; 4] 0
           0%Q 0%Q 100%Q 1%Q false 2 false demo_P
           [8; 2; 1; 5; 1; 5; 1; 1; 1; 0; 0]%N).
  - exact demo_znorm_keeps_length.
  - exact demo_rectangular.
  - reflexivity.
  - reflexivity.
  - simpl; lia.
  - split; discriminate.
  - simpl; lia.
  - exact demo_sampler.
  - repeat constructor; simpl; lia.
  - reflexivity.
Defined.

Lemma demo_real_rectangular : rectangular demo_real_X.
Proof. split; [reflexivity|]. repeat constructor. Qed.

Lemma fit_transform_unrestricted_witness :
  exists S ids starts g',
    M_SL_generate_shapelet (K := over_reals demo) [] demo_real_X [0; 1] 3
      [2; 3; 4] 0 0%Q 0%Q 100%Q 1%Q false 2 false
    = Ok (S, ids, starts, g') /\
    Forall2 (fun l d => 1 <= d /\
                        (l - 1) * d < Z.of_nat (n_timestamps_of demo_real_X))
            (lengths S) (dilations S) /\
    forall X' : @tensor3 (over_reals demo),
      rectangular X' ->
      n_features_of X' = n_features_of demo_real_X ->
      n_timestamps_of X' = n_timestamps_of demo_real_X ->
      exists r h' m,
        M_SL_apply_all_shapelets (K := over_reals demo) 0%nat demo_refs
          false (store_of X' S) = Ok (r, h') /\
        nth_error h' r
        = Some (Float2 (n_samples_of X') (3 * Z.to_nat 3) m) /\
        length m = n_samples_of X' /\
        Forall (fun row => length row = (3 * Z.to_nat 3)%nat) m.
Proof.
  apply (fit_transform_unrestricted (K := demo) [] demo_real_X [0; 1] 3
           [2; 3; 4] 0 0%Q 0%Q 100%Q 1%Q false 2).
  - exact demo_znorm_keeps_length.
  - exact demo_real_rectangular.
  - simpl; lia.
  - discriminate.
  - repeat constructor; simpl; lia.
  - simpl; lia.
  - reflexivity.
  - split; discriminate.
  - lia.
  - reflexivity.
Defined.

(** * The features that the applier computes *)

Lemma app_mid_nth {A} (l1 : list A) (x : A) (l2 : list A) (n : nat) :
  length l1 = n -> nth_error (l1 ++ x :: l2) n = Some x.
Proof.
  intros <-. rewrite nth_error_app2, Nat.sub_diag by lia. reflexivity.
Qed.

Lemma app_mid_update {A} (l1 : list A) (x y : A) (l2 : list A) (n : nat) :
  length l1 = n ->
  firstn n (l1 ++ x :: l2) ++ y :: skipn (S n) (l1 ++ x :: l2)
  = l1 ++ y :: l2.
Proof.
  intros <-.
  rewrite firstn_app, Nat.sub_diag, firstn_all. cbn [firstn].
  rewrite app_nil_r. f_equal. f_equal.
  rewrite skipn_app. rewrite skipn_all2 by lia.
  replace (S (length l1) - length l1)%nat with 1%nat by lia. reflexivity.
Qed.

Lemma skipn_nth_cons {A} (l : list A) (i : nat) (x : A) :
  nth_error l i = Some x -> skipn i l = x :: skipn (S i) l.
Proof.
  revert i. induction l as [|a l IH]; intros [|i] H; try discriminate.
  - cbn in H. inversion H. reflexivity.
  - cbn [nth_error] in H. cbn [skipn]. now apply IH.
Qed.

Section CountedLoops.

Context {K : Kernels}.

(** A counted loop on the store: an invariant indexed by the number of
    iterations done. *)
Lemma returns_forM_from (I : nat -> store -> Prop) (body : Z -> M unit)
      (k : nat) :
  forall (a : nat) (h : store),
    I a h ->
    (forall i h, (a <= i < a + k)%nat -> I i h ->
                 returns (body (Z.of_nat i)) h (fun _ => I (S i))) ->
    returns (forM (map Z.of_nat (seq a k)) body) h (fun _ => I (a + k)%nat).
Proof.
  induction k as [|k IH]; intros a h Ha Hstep.
  - rewrite Nat.add_0_r. now apply returns_ret.
  - cbn [seq map forM]. eapply returns_bind.
    + apply Hstep; [lia | exact Ha].
    + cbv beta. intros u h1 H1.
      replace (a + S k)%nat with (S a + k)%nat by lia.
      apply IH; [exact H1|]. intros i h2 Hi. apply Hstep. lia.
Qed.

Lemma returns_forM_counted (I : nat -> store -> Prop) (body : Z -> M unit)
      (n : nat) (h : store) :
  I 0%nat h ->
  (forall i h, (i < n)%nat -> I i h ->
               returns (body (Z.of_nat i)) h (fun _ => I (S i))) ->
  returns (forM (py_range (Z.of_nat n)) body) h (fun _ => I n).
Proof.
  intros H0 Hstep. unfold py_range. rewrite Nat2Z.id.
  apply (returns_forM_from I body n 0%nat h H0).
  intros i h1 Hi. apply Hstep. lia.
Qed.

(** A loop whose iterations each establish a fact, facts that later
    iterations keep. *)
Lemma returns_forM_each {A} (inv : store -> Prop)
      (ext : store -> store -> Prop) (Q : A -> store -> Prop)
      (xs : list A) (body : A -> M unit) :
  (forall h, ext h h) ->
  (forall h1 h2 h3, ext h1 h2 -> ext h2 h3 -> ext h1 h3) ->
  (forall x h h', Q x h -> ext h h' -> Q x h') ->
  (forall x h, In x xs -> inv h ->
               returns (body x) h
                 (fun _ h' => inv h' /\ ext h h' /\ Q x h')) ->
  forall h, inv h ->
            returns (forM xs body) h
              (fun _ h' => inv h' /\ ext h h' /\
                           forall x, In x xs -> Q x h').
Proof.
  intros Hrefl Htrans Hstable.
  induction xs as [|x xs IH]; intros Hbody h Hinv.
  - apply returns_ret. split; [exact Hinv|]. split; [apply Hrefl|].
    intros y [].
  - cbn [forM]. eapply returns_bind.
    + apply Hbody; [now left | exact Hinv].
    + cbv beta. intros u h1 (Hinv1 & Hext1 & Hq1).
      eapply returns_weaken.
      * apply IH; [|exact Hinv1].
        intros y h2 Hy. apply Hbody. now right.
      * cbv beta. intros u' h2 (Hinv2 & Hext2 & Hq2).
        split; [exact Hinv2|]. split; [eapply Htrans; eauto|].
        intros y [<-|Hy]; [eapply Hstable; eauto | auto].
Qed.

End CountedLoops.

Section NormalisedWindows.

Context {K : Kernels}.
Hypothesis Hz : znorm_keeps_length K.

Variable s : ref.
Variables n0 n1 n2 : nat.

Lemma read_window_exact (h : store) (C : list (list (list F))) (i j : nat)
      (row : list (list F)) (v : list F) :
  nth_error h s = Some (Strides n0 n1 n2 C) ->
  nth_error C i = Some row -> nth_error row j = Some v ->
  returns (read_window s (Z.of_nat i) (Z.of_nat j)) h
    (fun v' h' => v' = v /\ h' = h).
Proof.
  intros Hs Hi Hj. unfold read_window.
  eapply returns_load_strides_bind; [exact Hs|]. cbv beta iota.
  eapply returns_lift_bind; [apply py_index_nat; exact Hi|].
  eapply returns_lift; [apply py_index_nat; exact Hj|]. now split.
Qed.

Lemma write_window_exact (h : store) (C : list (list (list F))) (i j : nat)
      (row : list (list F)) (v : list F) :
  nth_error h s = Some (Strides n0 n1 n2 C) ->
  nth_error C i = Some row -> (j < length row)%nat -> length v = n2 ->
  returns (write_window s (Z.of_nat i) (Z.of_nat j) v) h
    (fun _ h' =>
       nth_error h' s
       = Some (Strides n0 n1 n2
                 (firstn i C ++ (firstn j row ++ v :: skipn (S j) row)
                              :: skipn (S i) C)) /\
       length h' = length h /\
       (forall r, r <> s -> nth_error h' r = nth_error h r) /\
       (forall k, (k <= s)%nat -> firstn k h' = firstn k h)).
Proof.
  intros Hs Hi Hj Hv. unfold write_window.
  assert (Hil : (i < length C)%nat) by (apply nth_error_Some; congruence).
  eapply returns_load_strides_bind; [exact Hs|]. cbv beta iota.
  eapply returns_lift_bind; [apply py_index_nat; exact Hi|].
  eapply returns_lift_bind.
  { unfold broadcast_to. rewrite Hv, Nat.eqb_refl. reflexivity. }
  eapply returns_lift_bind.
  { apply py_set_index_in_range. unfold py_len. lia. }
  eapply returns_lift_bind.
  { apply py_set_index_in_range. unfold py_len. lia. }
  rewrite !Nat2Z.id.
  assert (Hlt : (s < length h)%nat) by (apply nth_error_Some; congruence).
  destruct (write_spec s
              (Strides n0 n1 n2
                 (firstn i C ++ (firstn j row ++ v :: skipn (S j) row)
                              :: skipn (S i) C)) h Hlt)
    as (h' & Hwr & Hlen & Hsame & Hother & Hfirst).
  exists tt, h'. split; [exact Hwr|]. auto.
Qed.

(** The in-place normalisation replaces every window by its normalised
    value and touches no other array. *)
Lemma normalize_strides_exact (h : store) (w : list (list (list F))) :
  nth_error h s = Some (Strides n0 n1 n2 w) ->
  length w = n0 ->
  Forall (fun row => length row = n1 /\
                     Forall (fun win => length win = n2) row) w ->
  returns (normalize_strides s) h
    (fun _ h' =>
       nth_error h' s = Some (Strides n0 n1 n2 (map (map znorm) w)) /\
       length h' = length h /\
       (forall r, r <> s -> nth_error h' r = nth_error h r) /\
       (forall k, (k <= s)%nat -> firstn k h' = firstn k h)).
Proof.
  intros Hs Hn0 Hshape. unfold normalize_strides.
  eapply returns_load_strides_bind; [exact Hs|]. cbv beta iota.
  set (frame := fun h' : store =>
         length h' = length h /\
         (forall r, r <> s -> nth_error h' r = nth_error h r) /\
         (forall k, (k <= s)%nat -> firstn k h' = firstn k h)).
  eapply returns_weaken.
  - apply (returns_forM_counted
             (fun i h' =>
                nth_error h' s
                = Some (Strides n0 n1 n2
                          (map (map znorm) (firstn i w) ++ skipn i w)) /\
                frame h')).
    + cbn [firstn map app skipn]. split; [exact Hs|].
      unfold frame. auto.
    + intros i h1 Hi [Hc1 Hf1].
      destruct (nth_error w i) as [row|] eqn:Hrow;
        [|apply nth_error_None in Hrow; lia].
      rewrite Forall_forall in Hshape.
      destruct (Hshape row (nth_error_In _ _ Hrow)) as [Hrl Hwin].
      assert (Hli : length (map (map znorm) (firstn i w)) = i)
        by (rewrite length_map, length_firstn; lia).
      eapply returns_weaken.
      * apply (returns_forM_counted
                 (fun j h' =>
                    nth_error h' s
                    = Some (Strides n0 n1 n2
                              (map (map znorm) (firstn i w)
                               ++ (map znorm (firstn j row) ++ skipn j row)
                                  :: skipn (S i) w)) /\
                    frame h')).
        -- cbn [firstn map app skipn]. split; [|exact Hf1].
           rewrite Hc1. now rewrite (skipn_nth_cons _ _ _ Hrow).
        -- intros j h2 Hj [Hc2 Hf2].
           destruct (nth_error row j) as [v|] eqn:Hv;
             [|apply nth_error_None in Hv; lia].
           assert (Hlj : length (map znorm (firstn j row)) = j)
             by (rewrite length_map, length_firstn; lia).
           assert (Hvl : length v = n2).
           { rewrite Forall_forall in Hwin. apply Hwin.
             eapply nth_error_In; eauto. }
           set (cur := map znorm (firstn j row) ++ skipn j row) in *.
           set (pre := map (map znorm) (firstn i w)) in *.
           assert (Hcur : nth_error (pre ++ cur :: skipn (S i) w) i
                          = Some cur).
           { now apply app_mid_nth. }
           assert (Hcv : nth_error cur j = Some v).
           { unfold cur. rewrite (skipn_nth_cons _ _ _ Hv).
             now apply app_mid_nth. }
           eapply returns_bind.
           ++ apply (read_window_exact h2 _ i j cur v Hc2 Hcur Hcv).
           ++ cbv beta. intros v' h3 [-> ->].
              eapply returns_weaken.
              ** apply (write_window_exact h2 _ i j cur (znorm v) Hc2 Hcur).
                 { unfold cur. rewrite length_app, Hlj, length_skipn. lia. }
                 { rewrite Hz. exact Hvl. }
              ** cbv beta. intros u h4 (Hc4 & Hl4 & Ho4 & Hf4).
                 split.
                 { rewrite Hc4. f_equal. f_equal.
                   rewrite (app_mid_update _ _ _ _ _ Hli).
                   f_equal. f_equal.
                   unfold cur. rewrite (skipn_nth_cons _ _ _ Hv).
                   rewrite (app_mid_update _ _ _ _ _ Hlj).
                   rewrite (firstn_S_nth _ _ _ Hv), map_app.
                   rewrite <- app_assoc. reflexivity. }
                 { destruct Hf2 as (F1 & F2 & F3). unfold frame.
                   split; [lia|]. split.
                   - intros r Hr. rewrite Ho4 by exact Hr. now apply F2.
                   - intros k Hk. rewrite Hf4 by exact Hk. now apply F3. }
      * cbv beta. intros u h2 [Hc2 Hf2]. split; [|exact Hf2].
        rewrite Hc2. f_equal. f_equal.
        rewrite <- Hrl, firstn_all, skipn_all, app_nil_r.
        rewrite (firstn_S_nth _ _ _ Hrow), map_app.
        rewrite <- app_assoc. reflexivity.
  - cbv beta. intros u h1 [Hc1 Hf1]. split; [|exact Hf1].
    rewrite Hc1. rewrite <- Hn0, firstn_all, skipn_all, app_nil_r.
    reflexivity.
Qed.

End NormalisedWindows.

Section ExactWindows.

Context {K : Kernels}.
Hypothesis Hz : znorm_keeps_length K.

(** The array that [generate_strides_2D] allocates holds the windows of
    the sample. *)
Lemma generate_strides_2D_exact (xi : list (list F)) (T : nat) (l d : Z)
      (use_phase : bool) (h : store) :
  Forall (fun series => length series = T) xi ->
  1 <= l -> 1 <= d ->
  (if use_phase then 1 <= Z.of_nat T else (l - 1) * d < Z.of_nat T) ->
  returns (generate_strides_2D xi (length xi) T l d use_phase) h
    (fun s h' =>
       s = length h /\
       exists n1 w,
         series_windows xi T l d use_phase = Ok w /\
         h' = h ++ [Strides (length xi) n1 (Z.to_nat l) w] /\
         length w = length xi /\
         Forall (fun row => length row = n1 /\
                            Forall (fun win => length win = Z.to_nat l) row)
                w).
Proof.
  intros Hxi Hl Hd Hfit. unfold generate_strides_2D, series_windows.
  set (n_windows := if use_phase then Z.of_nat T
                    else Z.of_nat T - (l - 1) * d).
  assert (Hnw : 0 <= n_windows) by (unfold n_windows; destruct use_phase; lia).
  destruct (Z.ltb_spec n_windows 0); [lia|].
  destruct (Z.ltb_spec l 0); [lia|]. cbn [orb].
  destruct (mapM_total
              (fun series =>
                 mapM (fun s => get_subsequence series s l d false use_phase)
                      (py_range n_windows))
              (fun row => length row = Z.to_nat n_windows /\
                          Forall (fun win => length win = Z.to_nat l) row)
              xi) as (w & Hw & Hshape & Hwl).
  - intros series Hs.
    assert (Hser : length series = T)
      by (rewrite Forall_forall in Hxi; now apply Hxi).
    destruct (mapM_total
                (fun s => get_subsequence series s l d false use_phase)
                (fun win => length win = Z.to_nat l)
                (py_range n_windows)) as (row & Hrow & Hwin & Hrl).
    + intros s Hin. apply range_In in Hin.
      destruct (get_subsequence_total Hz series s l d false use_phase)
        as (v & Hv & Hvl); try lia.
      * unfold py_len. rewrite Hser. unfold n_windows in Hin.
        destruct use_phase; lia.
      * exists v. split; [exact Hv|]. unfold py_len in Hvl. lia.
    + exists row. split; [exact Hrow|]. split; [|exact Hwin].
      now rewrite Hrl, py_range_length.
  - eapply returns_lift_bind; [exact Hw|].
    exists (length h),
      (h ++ [Strides (length xi) (Z.to_nat n_windows) (Z.to_nat l) w]).
    split; [reflexivity|]. split; [reflexivity|].
    exists (Z.to_nat n_windows), w. auto.
Qed.

End ExactWindows.

Section ExactFeatures.

Context {K : Kernels}.

Variable h0 : store.
Variables rows cols : nat.

(** [X_new[i, 3k : 3k+3] = [f1, f2, f3]], with the matrix that results. *)
Lemma write_features_exact (h : store) (m : list (list F)) (i k : nat)
      (f1 f2 f3 : F) :
  firstn (length h0) h = h0 ->
  nth_error h (length h0) = Some (Float2 rows cols m) ->
  length m = rows -> Forall (fun r => length r = cols) m ->
  (i < rows)%nat -> (3 * k + 3 <= cols)%nat ->
  returns (write_features (length h0) (Z.of_nat i) (3 * Z.of_nat k)
             (3 * Z.of_nat k + 3) [f1; f2; f3]) h
    (fun _ h' =>
       exists row,
         nth_error m i = Some row /\
         nth_error h' (length h0)
         = Some (Float2 rows cols
                   (firstn i m
                    ++ (firstn (Z.to_nat (3 * Z.of_nat k)) row
                        ++ [f1; f2; f3]
                        ++ skipn (Z.to_nat (3 * Z.of_nat k + 3)) row)
                       :: skipn (S i) m)) /\
         (forall r, r <> length h0 -> nth_error h' r = nth_error h r) /\
         firstn (length h0) h' = h0).
Proof.
  intros Hpre Hm Hrows Hcols Hi Hk. unfold write_features.
  destruct (nth_error m i) as [row|] eqn:Hrow;
    [|apply nth_error_None in Hrow; lia].
  assert (Hrl : length row = cols).
  { rewrite Forall_forall in Hcols. apply Hcols. eapply nth_error_In; eauto. }
  eapply returns_bind.
  - apply returns_load with (a := Float2 rows cols m); [exact Hm|].
    instantiate (1 := fun a h1 => a = Float2 rows cols m /\ h1 = h).
    now split.
  - cbv beta. intros a h1 [-> ->].
    eapply returns_lift_bind; [apply py_index_nat; exact Hrow|].
    eapply returns_lift_bind.
    { apply py_set_slice_exact with (v := [f1; f2; f3]);
        unfold py_len; cbn [length]; lia. }
    eapply returns_lift_bind.
    { apply py_set_index_in_range. unfold py_len. lia. }
    rewrite Nat2Z.id.
    assert (Hlt : (length h0 < length h)%nat)
      by (apply nth_error_Some; congruence).
    destruct (write_spec (length h0)
                (Float2 rows cols
                   (firstn i m
                    ++ (firstn (Z.to_nat (3 * Z.of_nat k)) row
                        ++ [f1; f2; f3]
                        ++ skipn (Z.to_nat (3 * Z.of_nat k + 3)) row)
                       :: skipn (S i) m)) h Hlt)
      as (h' & Hw & Hlen & Hsame & Hother & Hfirst).
    exists tt, h'. split; [exact Hw|]. exists row.
    split; [reflexivity|]. split; [exact Hsame|]. split; [exact Hother|].
    rewrite Hfirst by lia. exact Hpre.
Qed.

End ExactFeatures.

Section Blocks.

Context {K : Kernels}.

Variable x : tensor3.
Variable P : shapelets.
Variable use_phase : bool.
Variable X_new : ref.

(** Features are defined for the shapelets of the set only. *)
Lemma shapelet_features_index (i : Z) (k : nat) (f : F * F * F) :
  shapelet_features x P use_phase i (Z.of_nat k) = Ok f ->
  (k < length (lengths P))%nat.
Proof.
  unfold shapelet_features. intros H.
  bind_inv H as xi Hxi. bind_inv H as l Hl.
  apply py_index_nonneg_inv in Hl; [|lia].
  unfold py_len in Hl. lia.
Qed.

Lemma blocks_kept_refl (h : store) : blocks_kept x P use_phase X_new h h.
Proof. intros i k H. exact H. Qed.

Lemma blocks_kept_trans (h1 h2 h3 : store) :
  blocks_kept x P use_phase X_new h1 h2 ->
  blocks_kept x P use_phase X_new h2 h3 ->
  blocks_kept x P use_phase X_new h1 h3.
Proof. intros H12 H23 i k H. apply H23, H12, H. Qed.

(** The blocks depend on the feature matrix only. *)
Lemma blocks_kept_frame (h h' : store) :
  nth_error h' X_new = nth_error h X_new ->
  blocks_kept x P use_phase X_new h h'.
Proof.
  intros E i k (rows & cols & m & row & f1 & f2 & f3 & Hm & Hrest).
  exists rows, cols, m, row, f1, f2, f3. rewrite E. auto.
Qed.

(** Writing the features of shapelet [k] in row [i] establishes this block
    and keeps every other one: the blocks of a row are disjoint. *)
Lemma blocks_after_write (h h' : store) (rows cols : nat)
      (m : list (list F)) (row : list F) (i k : nat) (f1 f2 f3 : F) :
  nth_error h X_new = Some (Float2 rows cols m) ->
  Forall (fun r => length r = cols) m ->
  cols = (3 * length (lengths P))%nat ->
  nth_error m i = Some row ->
  nth_error h' X_new
  = Some (Float2 rows cols
            (firstn i m
             ++ (firstn (Z.to_nat (3 * Z.of_nat k)) row
                 ++ [f1; f2; f3]
                 ++ skipn (Z.to_nat (3 * Z.of_nat k + 3)) row)
                :: skipn (S i) m)) ->
  shapelet_features x P use_phase (Z.of_nat i) (Z.of_nat k)
  = Ok (f1, f2, f3) ->
  blocks_kept x P use_phase X_new h h' /\
  block_done x P use_phase X_new h' i k.
Proof.
  intros Hm Hcols Hc Hrow Hm' Hf.
  pose proof (shapelet_features_index _ _ _ Hf) as Hk.
  assert (Hil : (i < length m)%nat) by (apply nth_error_Some; congruence).
  assert (Hrl : length row = cols).
  { rewrite Forall_forall in Hcols. apply Hcols. eapply nth_error_In; eauto. }
  set (row' := firstn (Z.to_nat (3 * Z.of_nat k)) row ++ [f1; f2; f3]
               ++ skipn (Z.to_nat (3 * Z.of_nat k + 3)) row) in *.
  assert (Hsame : py_slice row' (3 * Z.of_nat k) (3 * Z.of_nat k + 3)
                  = [f1; f2; f3]).
  { apply py_slice_splice_same; unfold py_len; cbn [length]; lia. }
  assert (Hdone : block_done x P use_phase X_new h' i k).
  { exists rows, cols, (firstn i m ++ row' :: skipn (S i) m), row',
      f1, f2, f3.
    split; [exact Hm'|]. split; [now apply update_nth_same|]. auto. }
  split; [|exact Hdone].
  intros i' k' (rows0 & cols0 & m0 & row0 & g1 & g2 & g3 & Hm0 & Hrow0
                & Hf0 & Hs0).
  rewrite Hm in Hm0. inversion Hm0; subst rows0 cols0 m0. clear Hm0.
  pose proof (shapelet_features_index _ _ _ Hf0) as Hk'.
  destruct (Nat.eq_dec i' i) as [->|Hi].
  - assert (row0 = row) by congruence. subst row0.
    destruct (Nat.eq_dec k' k) as [->|Hkk].
    + exact Hdone.
    + exists rows, cols, (firstn i m ++ row' :: skipn (S i) m), row',
        g1, g2, g3.
      split; [exact Hm'|]. split; [now apply update_nth_same|].
      split; [exact Hf0|]. rewrite <- Hs0. unfold row'.
      apply py_slice_splice_other; unfold py_len; cbn [length]; lia.
  - exists rows, cols, (firstn i m ++ row' :: skipn (S i) m), row0,
      g1, g2, g3.
    split; [exact Hm'|].
    split; [rewrite update_nth_other by lia; exact Hrow0|]. auto.
Qed.

End Blocks.

Section FeatureStepExact.

Context {K : Kernels}.

Variable h0 : store.
Variable X : ref.
Variable R : shapelet_refs.
Variable use_phase : bool.
Variable x : tensor3.
Variable P : shapelets.
Hypothesis Hin : apply_input h0 X R use_phase x P.

Local Abbreviation n := (length (lengths P)).
Local Abbreviation rows := (n_samples_of x).
Local Abbreviation cols := (Z.to_nat (3 * py_len (lengths P))).
Local Abbreviation sizes := (slice_sizes (n_channels P) (lengths P)).
Local Abbreviation a1 := (0 :: np_cumsum sizes).
Local Abbreviation a2 := (channel_offsets (n_channels P)).
Local Abbreviation kept := (blocks_kept x P use_phase (length h0)).
Local Abbreviation done := (block_done x P use_phase (length h0)).

Lemma valid_offsets : values_offsets (n_channels P) (lengths P) = Ok a1.
Proof.
  pose proof (valid_sizes_nonneg h0 X R use_phase x P Hin) as Hnn.
  destruct Hin as (_ & _ & _ & _ & _ & _ & _ & _ & _ & Hv).
  destruct Hv as (_ & _ & _ & V4 & _ & _ & _ & _ & V9).
  unfold values_offsets. rewrite np_mul_exact; auto.
Qed.

(** One shapelet on one sample: the block of the shapelet receives its
    features, computed on the windows in the store. *)
Lemma feature_step_features (h : store) (s : ref) (n1 n2 : nat)
      (i : nat) (l d : Z) (nrm : bool) (xi : list (list F))
      (w0 : list (list (list F))) (_idx : list Z) (j k : nat) :
  applier_store h0 rows cols h ->
  nth_error h s
  = Some (Strides (n_features_of x) n1 n2
            (if nrm then map (map znorm) w0 else w0)) ->
  length w0 = n_features_of x ->
  (length h0 < s)%nat ->
  (i < rows)%nat ->
  nth_error (samples x) i = Some xi ->
  series_windows xi (n_timestamps_of x) l d use_phase = Ok w0 ->
  nth_error _idx j = Some (Z.of_nat k) ->
  nth_error (lengths P) k = Some l ->
  nth_error (dilations P) k = Some d ->
  nth_error (normalize P) k = Some nrm ->
  returns (feature_step R (length h0) a1 a2 3 s (Z.of_nat i) l _idx
             (Z.of_nat j)) h
    (fun _ h' => applier_store h0 rows cols h' /\
                 nth_error h' s = nth_error h s /\
                 kept h h' /\ done h' i k).
Proof.
  intros Hst Hw Hwl Hs Hi Hxi Hw0 Hj Hkl Hkd Hkn.
  pose proof (valid_sizes_nonneg h0 X R use_phase x P Hin) as Hnn.
  pose proof (valid_lengths_pos h0 X R use_phase x P Hin) as Hlp.
  pose proof valid_offsets as Hoff.
  pose proof Hin as (HX & Hval & Hlens & Hdil & Hthr & Hnorm & Hnch & Hcid
                     & Hrect & Hv).
  destruct Hv as (V1 & V2 & V3 & V4 & V5 & V6 & V7 & V8 & V9).
  assert (Hkn' : (k < n)%nat) by (apply nth_error_Some; congruence).
  assert (Hl1 : 1 <= l).
  { rewrite Forall_forall in Hlp. apply Hlp. eapply nth_error_In; eauto. }
  destruct (nth_error (n_channels P) k) as [c|] eqn:Hc;
    [|apply nth_error_None in Hc; lia].
  assert (Hc1 : 1 <= c).
  { rewrite Forall_forall in V6. apply V6. eapply nth_error_In; eauto. }
  destruct (nth_error (threshold P) k) as [t|] eqn:Ht;
    [|apply nth_error_None in Ht; lia].
  assert (Hkk1 : Z.of_nat k + 1 = Z.of_nat (S k)) by lia.
  assert (Ha2 : py_len a2 = Z.of_nat n + 1).
  { unfold channel_offsets, np_cumsum, py_len. cbn [length].
    rewrite np_cumsum_from_length. lia. }
  destruct (py_index_in_range a2 (Z.of_nat k)) as (lo2 & Hlo2 & _); [lia|].
  destruct (py_index_in_range a2 (Z.of_nat k + 1)) as (hi2 & Hhi2 & _);
    [lia|].
  pose proof (values_offsets_nth h0 X R use_phase x P Hin k ltac:(lia))
    as Hlo1.
  pose proof (values_offsets_nth h0 X R use_phase x P Hin (S k) ltac:(lia))
    as Hhi1.
  pose proof (slice_sizes_nth _ _ _ _ _ Hc Hkl) as Hsz.
  rewrite (Zsum_firstn_S _ _ _ Hsz) in Hhi1.
  pose proof (Zsum_firstn_le sizes k Hnn) as Hb0.
  pose proof (Zsum_firstn_le sizes (S k) Hnn) as Hb1.
  rewrite (Zsum_firstn_S _ _ _ Hsz) in Hb1.
  apply py_index_nat in Hlo1, Hhi1. rewrite <- Hkk1 in Hhi1.
  destruct (np_reshape_returns
              (py_slice (values P) (Zsum (firstn k sizes))
                 (Zsum (firstn k sizes) + c * l)) c l Hc1 Hl1)
    as (m & Hm).
  { rewrite py_slice_length; nia. }
  set (content := if nrm then map (map znorm) w0 else w0) in *.
  assert (Hcl : length content = n_features_of x).
  { unfold content. destruct nrm; [rewrite length_map|]; exact Hwl. }
  destruct (mapM_total (py_index content) (fun _ => True)
              (py_slice (channel_ids P) lo2 hi2)) as (xs & Hxs & _ & _).
  { intros ch Hch. apply py_slice_In in Hch.
    rewrite Forall_forall in V8. specialize (V8 ch Hch).
    destruct (py_index_in_range content ch) as (row & Hrow & _);
      [unfold py_len; lia|].
    exists row. split; [exact Hrow | exact I]. }
  destruct (apply_one_shapelet_one_sample_multivariate xs m t)
    as [[f1 f2] f3] eqn:Hker.
  assert (Hfeat : shapelet_features x P use_phase (Z.of_nat i) (Z.of_nat k)
                  = Ok (f1, f2, f3)).
  { unfold shapelet_features.
    rewrite (py_index_nat _ _ _ Hxi). cbn [bind].
    rewrite (py_index_nat _ _ _ Hkl). cbn [bind].
    rewrite (py_index_nat _ _ _ Hkd). cbn [bind].
    rewrite (py_index_nat _ _ _ Hkn). cbn [bind].
    rewrite (py_index_nat _ _ _ Hc). cbn [bind].
    rewrite (py_index_nat _ _ _ Ht). cbn [bind].
    rewrite Hoff. cbn [bind].
    rewrite Hlo1. cbn [bind]. rewrite Hhi1. cbn [bind].
    rewrite Hlo2. cbn [bind]. rewrite Hhi2. cbn [bind].
    rewrite Hw0. cbn [bind]. fold content. unfold take_at.
    rewrite Hxs. cbn [bind]. rewrite Hm. cbn [bind].
    now rewrite Hker. }
  pose proof Hst as [Hpre (a & Ha & mat & -> & Hrows & Hcols)].
  unfold feature_step.
  eapply returns_lift_bind; [apply py_index_nat; exact Hj|].
  apply returns_load_int_bind with (v := channel_ids P);
    [now apply (applier_store_lookup h0 rows cols)|].
  apply returns_lift_bind with (a := lo2); [exact Hlo2|].
  apply returns_lift_bind with (a := hi2); [exact Hhi2|].
  cbv beta zeta.
  apply returns_load_float_bind with (v := values P);
    [now apply (applier_store_lookup h0 rows cols)|].
  eapply returns_lift_bind; [exact Hlo1|].
  eapply returns_lift_bind; [exact Hhi1|].
  apply returns_load_int_bind with (v := n_channels P);
    [now apply (applier_store_lookup h0 rows cols)|].
  eapply returns_lift_bind; [apply py_index_nat; exact Hc|].
  eapply returns_lift_bind; [exact Hm|].
  eapply returns_load_strides_bind; [exact Hw|]. cbv beta iota.
  eapply returns_lift_bind; [exact Hxs|].
  apply returns_load_float_bind with (v := threshold P);
    [now apply (applier_store_lookup h0 rows cols)|].
  eapply returns_lift_bind; [apply py_index_nat; exact Ht|].
  rewrite Hker.
  eapply returns_weaken.
  - apply (write_features_exact h0 rows cols h mat i k f1 f2 f3 Hpre Ha
             Hrows Hcols Hi).
    unfold py_len. lia.
  - cbv beta. intros _ h' (row & Hrow & Hm' & Hother & Hpre').
    assert (Hc3 : cols = (3 * n)%nat) by (unfold py_len; lia).
    destruct (blocks_after_write x P use_phase (length h0) h h' rows cols
                mat row i k f1 f2 f3 Ha Hcols Hc3 Hrow Hm' Hfeat)
      as [Hkept Hdone].
    split; [|split; [apply Hother; lia | split; assumption]].
    split; [exact Hpre'|]. eexists. split; [exact Hm'|].
    eexists. split; [reflexivity|]. split.
    + rewrite update_length; lia.
    + apply Forall_update; [exact Hcols|].
      assert (Hrl : length row = cols).
      { rewrite Forall_forall in Hcols. apply Hcols.
        eapply nth_error_In; eauto. }
      rewrite splice_length; cbn [length]; lia.
Qed.

End FeatureStepExact.

Lemma mapM_Forall2 {A B} (f : A -> result B) (xs : list A) (ys : list B) :
  mapM f xs = Ok ys -> Forall2 (fun x y => f x = Ok y) xs ys.
Proof.
  revert ys. induction xs as [|x xs IH]; intros ys H; cbn [mapM] in H.
  - inversion H. constructor.
  - bind_inv H as y Hy. bind_inv H as ys' Hys. inversion H; subst.
    constructor; auto.
Qed.

Lemma Forall2_In_r {A B} (R : A -> B -> Prop) (l : list A) (l' : list B)
      (y : B) :
  Forall2 R l l' -> In y l' -> exists x, In x l /\ R x y.
Proof.
  induction 1 as [|a b l l' Hab _ IH]; intros Hin; [destruct Hin|].
  destruct Hin as [<-|Hin].
  - exists a. split; [now left | exact Hab].
  - destruct (IH Hin) as (x & Hx & Hr). exists x. split; [now right|auto].
Qed.

Lemma Forall2_In_l {A B} (R : A -> B -> Prop) (l : list A) (l' : list B)
      (x : A) :
  Forall2 R l l' -> In x l -> exists y, In y l' /\ R x y.
Proof.
  induction 1 as [|a b l l' Hab _ IH]; intros Hin; [destruct Hin|].
  destruct Hin as [<-|Hin].
  - exists b. split; [now left | exact Hab].
  - destruct (IH Hin) as (y & Hy & Hr). exists y. split; [now right|auto].
Qed.

Lemma Forall2_nth_l {A B} (R : A -> B -> Prop) (l : list A) (l' : list B)
      (i : nat) (x : A) :
  Forall2 R l l' -> nth_error l i = Some x ->
  exists y, nth_error l' i = Some y /\ R x y.
Proof.
  intros H. revert i. induction H as [|a b l l' Hab _ IH]; intros i Hx.
  - destruct i; discriminate.
  - destruct i as [|i]; cbn in *.
    + inversion Hx; subst. eauto.
    + eauto.
Qed.

Lemma nth_error_combine_both {A B} (a : list A) (b : list B) (k : nat)
      (u : A) (v : B) :
  nth_error a k = Some u -> nth_error b k = Some v ->
  nth_error (combine a b) k = Some (u, v).
Proof.
  revert b k. induction a as [|p a IH]; intros [|q b] [|k] Ha Hb;
    cbn in *; try discriminate.
  - inversion Ha; inversion Hb; subst. reflexivity.
  - now apply IH.
Qed.

(** Every shapelet is a member of the group of its own pair. *)
Lemma members_complete (ls ds : list Z) (k : nat) (l d : Z) :
  nth_error ls k = Some l -> nth_error ds k = Some d ->
  In (Z.of_nat k) (members ls ds (l, d)).
Proof.
  intros Hl Hd. unfold members. apply np_where1_In. split; [lia|].
  rewrite Nat2Z.id, nth_error_map.
  rewrite (nth_error_combine_both _ _ _ _ _ Hl Hd). cbn.
  f_equal. now apply pair_eqb_eq.
Qed.

Lemma distinct_pairs_complete (p : Z * Z) (l : list (Z * Z)) :
  In p l -> In p (distinct_pairs l).
Proof.
  induction l as [|q t IH]; intros Hin; [destruct Hin|].
  cbn [distinct_pairs].
  destruct (pair_eqb q p) eqn:E.
  - apply pair_eqb_eq in E. subst. now left.
  - right. apply filter_In. split.
    + destruct Hin as [->|Hin]; [|auto].
      assert (pair_eqb p p = true) by now apply pair_eqb_eq. congruence.
    + now rewrite E.
Qed.

(** The shapelets of a group that carry a given value of the
    normalisation flag: exactly the members of the group with it. *)
Lemma subset_exact (normalize : list bool) (idx : list Z)
      (flip : bool -> bool) :
  Forall (fun k => 0 <= k < py_len normalize) idx ->
  exists flags sub,
    take_at normalize idx = Ok flags /\
    take_at idx (np_where1 (map flip flags)) = Ok sub /\
    (forall k, In k sub ->
               In k idx /\
               exists b, nth_error normalize (Z.to_nat k) = Some b /\
                         flip b = true) /\
    (forall k b, In k idx ->
                 nth_error normalize (Z.to_nat k) = Some b ->
                 flip b = true -> In k sub).
Proof.
  intros Hidx.
  destruct (mapM_total (py_index normalize) (fun _ => True) idx)
    as (flags & Hflags & _ & Hfl).
  { intros k Hk. rewrite Forall_forall in Hidx. specialize (Hidx k Hk).
    destruct (py_index_in_range normalize k) as (b & Hb & _); [lia|].
    exists b. split; [exact Hb | exact I]. }
  destruct (mapM_total (py_index idx) (fun _ => True)
              (np_where1 (map flip flags))) as (sub & Hsub & _ & _).
  { intros i Hi. apply np_where1_range in Hi.
    unfold py_len in Hi. rewrite length_map, Hfl in Hi.
    destruct (py_index_in_range idx i) as (k & Hk & Hkn);
      [unfold py_len; lia|].
    exists k. split; [exact Hk | exact I]. }
  exists flags, sub. split; [exact Hflags|]. split; [exact Hsub|].
  pose proof (mapM_Forall2 _ _ _ Hflags) as F1.
  pose proof (mapM_Forall2 _ _ _ Hsub) as F2.
  rewrite Forall_forall in Hidx.
  split.
  - intros k Hk.
    destruct (Forall2_In_r _ _ _ _ F2 Hk) as (j & Hj & Hjk).
    apply np_where1_In in Hj. destruct Hj as [Hj0 Hjt].
    apply py_index_nonneg_inv in Hjk; [|exact Hj0].
    destruct Hjk as [Hjk _].
    rewrite nth_error_map in Hjt.
    destruct (nth_error flags (Z.to_nat j)) as [b|] eqn:Hb; [|discriminate].
    cbn in Hjt. inversion Hjt as [Hflip].
    pose proof (Forall2_nth_error _ _ _ _ _ _ F1 Hjk Hb) as Hkb.
    assert (Hin : In k idx) by (eapply nth_error_In; eauto).
    apply py_index_nonneg_inv in Hkb; [|apply Hidx; exact Hin].
    split; [exact Hin|]. exists b. tauto.
  - intros k b Hin Hkb Hflip.
    apply In_nth_error in Hin. destruct Hin as [j Hj].
    destruct (Forall2_nth_l _ _ _ _ _ F1 Hj) as (b' & Hb' & Hkb').
    assert (Hk0 : 0 <= k) by (apply Hidx; eapply nth_error_In; eauto).
    apply py_index_nonneg_inv in Hkb'; [|exact Hk0].
    assert (b' = b) by (destruct Hkb'; congruence). subst b'.
    assert (Hpos : In (Z.of_nat j) (np_where1 (map flip flags))).
    { apply np_where1_In. split; [lia|].
      rewrite Nat2Z.id, nth_error_map, Hb'. cbn. now rewrite Hflip. }
    destruct (Forall2_In_l _ _ _ _ F2 Hpos) as (k' & Hk' & Hjk').
    rewrite (py_index_nat _ _ _ Hj) in Hjk'. inversion Hjk'; subst. exact Hk'.
Qed.

Section GroupFeatures.

Context {K : Kernels}.
Hypothesis Hz : znorm_keeps_length K.

Variable h0 : store.
Variable X : ref.
Variable R : shapelet_refs.
Variable use_phase : bool.
Variable x : tensor3.
Variable P : shapelets.
Hypothesis Hin : apply_input h0 X R use_phase x P.

Local Abbreviation n := (length (lengths P)).
Local Abbreviation rows := (n_samples_of x).
Local Abbreviation cols := (Z.to_nat (3 * py_len (lengths P))).
Local Abbreviation sizes := (slice_sizes (n_channels P) (lengths P)).
Local Abbreviation a1 := (0 :: np_cumsum sizes).
Local Abbreviation a2 := (channel_offsets (n_channels P)).
Local Abbreviation D :=
  (distinct_pairs (combine (lengths P) (dilations P))).
Local Abbreviation cnt :=
  (fun p => py_len (members (lengths P) (dilations P) p)).
Local Abbreviation kept := (blocks_kept x P use_phase (length h0)).
Local Abbreviation done := (block_done x P use_phase (length h0)).

(** The features of the shapelets of one subset of a group, on windows
    that carry the normalisation of the subset. *)
Lemma feature_loop_features (h : store) (s : ref) (n1 n2 : nat) (i : nat)
      (l d : Z) (nrm : bool) (xi : list (list F))
      (w0 : list (list (list F))) (sub : list Z) :
  applier_store h0 rows cols h ->
  nth_error h s
  = Some (Strides (n_features_of x) n1 n2
            (if nrm then map (map znorm) w0 else w0)) ->
  length w0 = n_features_of x ->
  (length h0 < s)%nat ->
  (i < rows)%nat ->
  nth_error (samples x) i = Some xi ->
  series_windows xi (n_timestamps_of x) l d use_phase = Ok w0 ->
  (forall k, In k sub ->
             0 <= k /\
             nth_error (lengths P) (Z.to_nat k) = Some l /\
             nth_error (dilations P) (Z.to_nat k) = Some d /\
             nth_error (normalize P) (Z.to_nat k) = Some nrm) ->
  returns (forM (py_range (py_len sub))
             (feature_step R (length h0) a1 a2 3 s (Z.of_nat i) l sub)) h
    (fun _ h' => applier_store h0 rows cols h' /\
                 nth_error h' s = nth_error h s /\
                 kept h h' /\
                 forall k, In k sub -> done h' i (Z.to_nat k)).
Proof.
  intros Hst Hw Hwl Hs Hi Hxi Hw0 Hsub.
  eapply returns_weaken.
  - apply (returns_forM_each
             (fun h' => applier_store h0 rows cols h' /\
                        nth_error h' s = nth_error h s)
             kept
             (fun j h' => forall k, py_index sub j = Ok k ->
                                    done h' i (Z.to_nat k))).
    + apply blocks_kept_refl.
    + apply blocks_kept_trans.
    + intros j h1 h2 Hq Hext k Hk. apply Hext. now apply Hq.
    + intros j h1 Hj [Hst1 Hw1]. apply range_In in Hj.
      destruct (py_index_in_range sub j Hj) as (k & Hk & Hkn).
      destruct (Hsub k (nth_error_In _ _ Hkn)) as (Hk0 & Hkl & Hkd & Hkf).
      rewrite <- (Z2Nat.id k Hk0) in Hkn.
      eapply returns_weaken.
      * rewrite <- (Z2Nat.id j) by lia.
        apply (feature_step_features h0 X R use_phase x P Hin h1 s n1 n2 i
                 l d nrm xi w0 sub (Z.to_nat j) (Z.to_nat k) Hst1);
          auto. rewrite Hw1. exact Hw.
      * cbv beta. intros u h2 (Hst2 & Hw2 & Hk2 & Hd2).
        split; [split; [exact Hst2 | congruence]|].
        split; [exact Hk2|].
        intros k' Hk'. rewrite Hk in Hk'. inversion Hk'; subst. exact Hd2.
    + split; [exact Hst | reflexivity].
  - cbv beta. intros u h' ((Hst' & Hw') & Hk' & Hq).
    split; [exact Hst'|]. split; [exact Hw'|]. split; [exact Hk'|].
    intros k Hk. apply In_nth_error in Hk. destruct Hk as [j Hj].
    apply (Hq (Z.of_nat j)).
    + apply range_In. unfold py_len.
      assert (j < length sub)%nat by (apply nth_error_Some; congruence).
      lia.
    + now apply py_index_nat.
Qed.

(** One group on one sample: every member of the group receives its
    features, the non-normalised ones on the windows as computed, the
    normalised ones on the windows normalised in place. *)
Lemma group_step_features (h : store) (rest : list Z) (i j : nat) :
  applier_store h0 rows cols h ->
  (i < rows)%nat ->
  (j < length D)%nat ->
  returns (group_step X R use_phase (length h0) a1 a2 3 D
             (concat (map (members (lengths P) (dilations P)) D) ++ rest)
             (np_cumsum (0 :: map cnt D)) (Z.of_nat i) (Z.of_nat j)) h
    (fun _ h' =>
       applier_store h0 rows cols h' /\ kept h h' /\
       forall p k, nth_error D j = Some p ->
                   In k (members (lengths P) (dilations P) p) ->
                   done h' i (Z.to_nat k)).
Proof.
  intros Hst Hi Hj.
  pose proof (valid_count h0 X R use_phase x P Hin) as Hcount.
  pose proof Hin as (HX & Hval & Hlens & Hdil & Hthr & Hnorm & Hnch & Hcid
                     & Hrect & Hv).
  destruct Hv as (V1 & V2 & V3 & V4 & V5 & V6 & V7 & V8 & V9).
  destruct (nth_error D j) as [[l d]|] eqn:Hp;
    [|apply nth_error_None in Hp; lia].
  assert (Hld : keeps_valid_start x use_phase l d).
  { apply (Forall2_combine_In _ _ _ _ _ V5).
    apply distinct_pairs_In. eapply nth_error_In; eauto. }
  destruct Hld as (Hl1 & Hd1 & Hfit).
  destruct Hrect as [Hns Hsamples].
  destruct (nth_error (samples x) i) as [xi|] eqn:Hxn;
    [|apply nth_error_None in Hxn; lia].
  rewrite Forall_forall in Hsamples.
  destruct (Hsamples xi (nth_error_In _ _ Hxn)) as [Hxl Hxt].
  pose proof (group_offsets_nth (lengths P) (dilations P) V1 Hcount j
                ltac:(lia)) as Hlo.
  pose proof (group_offsets_nth (lengths P) (dilations P) V1 Hcount (S j)
                ltac:(lia)) as Hhi.
  apply py_index_nat in Hlo, Hhi.
  replace (Z.of_nat (S j)) with (Z.of_nat j + 1) in Hhi by lia.
  pose proof (group_slice (lengths P) (dilations P) rest j (l, d) Hp)
    as Hslice.
  set (mem := members (lengths P) (dilations P) (l, d)) in *.
  assert (Hmem : forall k, In k mem ->
             0 <= k < py_len (lengths P) /\
             nth_error (lengths P) (Z.to_nat k) = Some l /\
             nth_error (dilations P) (Z.to_nat k) = Some d).
  { intros k Hk. apply members_In in Hk. exact Hk. }
  assert (Hmemr : Forall (fun k => 0 <= k < py_len (normalize P)) mem).
  { apply Forall_forall. intros k Hk. apply Hmem in Hk.
    unfold py_len in *. lia. }
  destruct (subset_exact (normalize P) mem negb Hmemr)
    as (flags & no_norm & Hfl & Hno & Hno1 & Hno2).
  destruct (subset_exact (normalize P) mem (fun b => b) Hmemr)
    as (flags' & norm & Hfl' & Hnorm' & Hnm1 & Hnm2).
  rewrite map_id in Hnorm'.
  assert (flags' = flags) by congruence. subst flags'.
  assert (Hsub_no : forall k, In k no_norm ->
            0 <= k /\
            nth_error (lengths P) (Z.to_nat k) = Some l /\
            nth_error (dilations P) (Z.to_nat k) = Some d /\
            nth_error (normalize P) (Z.to_nat k) = Some false).
  { intros k Hk. destruct (Hno1 k Hk) as (Hkm & b & Hb & Hflip).
    destruct (Hmem k Hkm) as (Hk0 & Hkl & Hkd).
    destruct b; [discriminate|]. repeat split; auto; lia. }
  assert (Hsub_nm : forall k, In k norm ->
            0 <= k /\
            nth_error (lengths P) (Z.to_nat k) = Some l /\
            nth_error (dilations P) (Z.to_nat k) = Some d /\
            nth_error (normalize P) (Z.to_nat k) = Some true).
  { intros k Hk. destruct (Hnm1 k Hk) as (Hkm & b & Hb & Hflip).
    destruct (Hmem k Hkm) as (Hk0 & Hkl & Hkd).
    subst b. repeat split; auto; lia. }
  unfold group_step.
  eapply returns_lift_bind; [apply py_index_nat; exact Hp|]. cbv beta iota.
  eapply returns_load_series_bind;
    [apply (applier_store_lookup h0 rows cols); [exact Hst | exact HX]|].
  eapply returns_lift_bind; [apply py_index_nat; exact Hxn|].
  eapply returns_bind.
  { rewrite <- Hxl.
    apply (generate_strides_2D_exact Hz xi (n_timestamps_of x) l d
             use_phase h Hxt Hl1 Hd1). exact Hfit. }
  cbv beta. intros s h1 (-> & n1 & w & Hw0 & -> & Hwl & Hshape).
  assert (Hlt : (length h0 < length h)%nat).
  { destruct Hst as [_ (m & Hm & _)]. apply nth_error_Some. congruence. }
  set (h1 := h ++ [Strides (length xi) n1 (Z.to_nat l) w]).
  assert (Hst1 : applier_store h0 rows cols h1)
    by now apply applier_store_alloc.
  assert (Hs1 : nth_error h1 (length h)
                = Some (Strides (n_features_of x) n1 (Z.to_nat l) w)).
  { unfold h1. rewrite nth_error_app2, Nat.sub_diag by lia.
    rewrite <- Hxl. reflexivity. }
  assert (Hk01 : kept h h1).
  { apply blocks_kept_frame. unfold h1. now rewrite nth_error_app1. }
  eapply returns_lift_bind; [exact Hlo|].
  eapply returns_lift_bind; [exact Hhi|].
  cbv beta zeta. rewrite Hslice.
  eapply returns_load_bool_bind.
  { apply (applier_store_lookup h0 rows cols); [exact Hst1 | exact Hnorm]. }
  eapply returns_lift_bind; [exact Hfl|].
  eapply returns_lift_bind; [exact Hno|].
  eapply returns_bind.
  { apply (feature_loop_features h1 (length h) n1 (Z.to_nat l) i l d false
             xi w no_norm Hst1 Hs1); auto; lia. }
  cbv beta. intros u h2 (Hst2 & Hs2 & Hk12 & Hd2).
  rewrite Hs1 in Hs2.
  eapply returns_load_bool_bind.
  { apply (applier_store_lookup h0 rows cols); [exact Hst2 | exact Hnorm]. }
  eapply returns_lift_bind; [exact Hfl|].
  eapply returns_lift_bind; [exact Hnorm'|].
  assert (Hfinal : forall h3,
            kept h2 h3 ->
            (forall k, In k norm -> done h3 i (Z.to_nat k)) ->
            kept h h3 /\
            forall p k, Some (l, d) = Some p ->
                        In k (members (lengths P) (dilations P) p) ->
                        done h3 i (Z.to_nat k)).
  { intros h3 Hk23 Hd3. split.
    - eapply blocks_kept_trans; [exact Hk01|].
      eapply blocks_kept_trans; [exact Hk12 | exact Hk23].
    - intros p k Ep Hk. inversion Ep; subst p. fold mem in Hk.
      destruct (Hmem k Hk) as (Hkr & _).
      destruct (nth_error (normalize P) (Z.to_nat k)) as [b|] eqn:Hb.
      2:{ apply nth_error_None in Hb. unfold py_len in Hkr. lia. }
      destruct b.
      + apply Hd3. apply (Hnm2 k true Hk Hb). reflexivity.
      + apply Hk23. apply Hd2. apply (Hno2 k false Hk Hb). reflexivity. }
  destruct (Z.ltb_spec 0 (py_len norm)) as [Hnz|Hnz].
  - eapply returns_bind.
    { apply (normalize_strides_exact Hz (length h) (n_features_of x) n1
               (Z.to_nat l) h2 w Hs2); [lia|exact Hshape]. }
    cbv beta. intros u' h3 (Hs3 & Hl3 & Ho3 & Hf3).
    assert (Hst3 : applier_store h0 rows cols h3)
      by (apply (applier_store_frame h0 rows cols h2 h3 (length h)); auto).
    assert (Hk23 : kept h2 h3).
    { apply blocks_kept_frame. apply Ho3. lia. }
    eapply returns_weaken.
    + apply (feature_loop_features h3 (length h) n1 (Z.to_nat l) i l d true
               xi w norm Hst3 Hs3); auto; lia.
    + cbv beta. intros u3 h4 (Hst4 & _ & Hk34 & Hd4).
      split; [exact Hst4|].
      apply Hfinal; [eapply blocks_kept_trans; eauto | exact Hd4].
  - apply returns_ret. split; [exact Hst2|].
    apply Hfinal; [apply blocks_kept_refl|].
    intros k Hk. destruct norm; [destruct Hk|].
    unfold py_len in Hnz. cbn [length] in Hnz. lia.
Qed.

End GroupFeatures.

Section ApplierFeatures.

Context {K : Kernels}.
Hypothesis Hz : znorm_keeps_length K.

Variable h0 : store.
Variable X : ref.
Variable R : shapelet_refs.
Variable use_phase : bool.
Variable x : tensor3.
Variable P : shapelets.
Hypothesis Hin : apply_input h0 X R use_phase x P.

Local Abbreviation n := (length (lengths P)).
Local Abbreviation rows := (n_samples_of x).
Local Abbreviation cols := (Z.to_nat (3 * py_len (lengths P))).
Local Abbreviation sizes := (slice_sizes (n_channels P) (lengths P)).
Local Abbreviation a1 := (0 :: np_cumsum sizes).
Local Abbreviation a2 := (channel_offsets (n_channels P)).
Local Abbreviation D :=
  (distinct_pairs (combine (lengths P) (dilations P))).
Local Abbreviation cnt :=
  (fun p => py_len (members (lengths P) (dilations P) p)).
Local Abbreviation kept := (blocks_kept x P use_phase (length h0)).
Local Abbreviation done := (block_done x P use_phase (length h0)).

(** Every shapelet belongs to one of the groups. *)
Lemma shapelet_group (k : nat) :
  (k < n)%nat ->
  exists j p, nth_error D j = Some p /\
              In (Z.of_nat k) (members (lengths P) (dilations P) p).
Proof.
  intros Hk.
  destruct Hin as (_ & _ & _ & _ & _ & _ & _ & _ & _ & Hv).
  destruct Hv as (V1 & _).
  destruct (nth_error (lengths P) k) as [l|] eqn:Hl;
    [|apply nth_error_None in Hl; lia].
  destruct (nth_error (dilations P) k) as [d|] eqn:Hd;
    [|apply nth_error_None in Hd; lia].
  pose proof (combine_nth_In _ _ _ _ _ Hl Hd) as Hc.
  apply distinct_pairs_complete in Hc. apply In_nth_error in Hc.
  destruct Hc as [j Hj]. exists j, (l, d). split; [exact Hj|].
  now apply members_complete.
Qed.

(** The applier returns a feature matrix in which the block of every
    shapelet, in the row of every sample, holds the features of the
    shapelet on the sample. *)
Lemma apply_features :
  returns (M_SL_apply_all_shapelets X R use_phase) h0
    (fun r h' => r = length h0 /\ applier_store h0 rows cols h' /\
                 forall i k, (i < rows)%nat -> (k < n)%nat -> done h' i k).
Proof.
  pose proof (valid_count h0 X R use_phase x P Hin) as Hcount.
  pose proof Hin as (HX & Hval & Hlens & Hdil & Hthr & Hnorm & Hnch & Hcid
                     & Hrect & Hv).
  destruct Hv as (V1 & V2 & V3 & V4 & V5 & V6 & V7 & V8 & V9).
  destruct (group_shapelets_returns (lengths P) (dilations P) V1)
    as (idx & nsp & a3 & Hgroup & Hidx & -> & rest & ->).
  unfold M_SL_apply_all_shapelets.
  eapply returns_load_int_bind; [exact Hlens|]. cbv beta zeta.
  eapply returns_load_series_bind; [exact HX|].
  eapply returns_load_int_bind; [exact Hdil|].
  eapply returns_lift_bind.
  { unfold _combinations_1d. rewrite V1, Nat.eqb_refl. reflexivity. }
  eapply returns_lift_bind.
  { unfold py_len.
    replace (Z.of_nat (length D) + 1) with (Z.of_nat (length D + 1)) by lia.
    apply np_full_nat. }
  eapply returns_lift_bind; [apply np_full_nat|].
  eapply returns_bind;
    [apply (apply_offsets_returns h0 X R use_phase x P Hin); now right|].
  cbv beta. intros p h [-> ->].
  eapply returns_lift_bind; [exact Hgroup|]. cbv beta iota.
  apply returns_alloc_bind.
  assert (Hinit : applier_store h0 rows cols
                    (h0 ++ [Float2 rows cols
                              (repeat (repeat fzero cols) rows)])).
  { split.
    - rewrite firstn_app, Nat.sub_diag, firstn_all. cbn [firstn].
      now rewrite app_nil_r.
    - eexists. split.
      + rewrite nth_error_app2, Nat.sub_diag by lia. reflexivity.
      + eexists. split; [reflexivity|]. split.
        * apply repeat_length.
        * apply Forall_forall. intros r Hr. apply repeat_spec in Hr.
          subst r. apply repeat_length. }
  eapply returns_bind.
  - apply (returns_forM_each (applier_store h0 rows cols) kept
             (fun i_s h' => forall k, (k < n)%nat ->
                                      done h' (Z.to_nat i_s) k));
      [apply blocks_kept_refl | apply blocks_kept_trans | | | exact Hinit].
    + intros i h1 h2 Hq Hext k Hk. apply Hext. now apply Hq.
    + intros i h1 Hi Hst1. apply range_In in Hi.
      eapply returns_weaken.
      * apply (returns_forM_each (applier_store h0 rows cols) kept
                 (fun j h' =>
                    forall p k,
                      nth_error D (Z.to_nat j) = Some p ->
                      In k (members (lengths P) (dilations P) p) ->
                      done h' (Z.to_nat i) (Z.to_nat k)));
          [apply blocks_kept_refl | apply blocks_kept_trans | | |
           exact Hst1].
        -- intros j h2 h3 Hq Hext p0 k Hp Hk. apply Hext.
           exact (Hq p0 k Hp Hk).
        -- intros j h2 Hj Hst2. apply range_In in Hj.
           rewrite (group_offsets_length (lengths P) (dilations P))
             in Hj by exact V1.
           rewrite <- (Z2Nat.id j) at 1 by lia.
           rewrite <- (Z2Nat.id i) at 1 by lia.
           apply (group_step_features Hz h0 X R use_phase x P Hin h2 rest
                    (Z.to_nat i) (Z.to_nat j) Hst2); unfold py_len in Hj;
             lia.
      * cbv beta. intros u h2 (Hst2 & Hk2 & Hq).
        split; [exact Hst2|]. split; [exact Hk2|].
        intros k Hk. destruct (shapelet_group k Hk) as (j & p0 & Hj & Hm).
        rewrite <- (Nat2Z.id k).
        apply (Hq (Z.of_nat j)) with (p := p0).
        -- apply range_In.
           rewrite (group_offsets_length (lengths P) (dilations P))
             by exact V1.
           assert (j < length D)%nat by (apply nth_error_Some; congruence).
           unfold py_len. lia.
        -- now rewrite Nat2Z.id.
        -- exact Hm.
  - cbv beta. intros u h1 (Hst1 & _ & Hq). apply returns_ret.
    split; [reflexivity|]. split; [exact Hst1|].
    intros i k Hi Hk. rewrite <- (Nat2Z.id i).
    apply (Hq (Z.of_nat i)); [|exact Hk].
    apply range_In. lia.
Qed.

End ApplierFeatures.

Section ApplierFeatureClaims.

Context {K : Kernels}.

(** X13.  For every valid input, the feature matrix that [apply] returns
    holds, for every series [i] and every shapelet [k], in the cells
    [3k .. 3k+2] of row [i], the three features of shapelet [k] on series
    [i] computed on their own: grouping the shapelets by (length,
    dilation), sharing the windows of a group and normalising them in
    place after the non-normalised shapelets have been served changes no
    feature. *)
Theorem apply_computes_features (h : store) (X : ref) (R : shapelet_refs)
        (use_phase : bool) (x : tensor3) (P : shapelets) :
  znorm_keeps_length K ->
  apply_input h X R use_phase x P ->
  exists r h' m,
    M_SL_apply_all_shapelets X R use_phase h = Ok (r, h') /\
    nth_error h' r
    = Some (Float2 (n_samples_of x) (3 * length (lengths P)) m) /\
    forall i k,
      (i < n_samples_of x)%nat -> (k < length (lengths P))%nat ->
      exists row f1 f2 f3,
        nth_error m i = Some row /\
        shapelet_features x P use_phase (Z.of_nat i) (Z.of_nat k)
        = Ok (f1, f2, f3) /\
        py_slice row (3 * Z.of_nat k) (3 * Z.of_nat k + 3) = [f1; f2; f3].
Proof.
  intros Hz Hin.
  destruct (apply_features Hz h X R use_phase x P Hin)
    as (r & h' & Hrun & -> & (_ & a & Ha & m & -> & Hrows & Hcols) & Hdone).
  assert (Hc : Z.to_nat (3 * py_len (lengths P))
               = (3 * length (lengths P))%nat) by (unfold py_len; lia).
  rewrite Hc in *.
  exists (length h), h', m. split; [exact Hrun|]. split; [exact Ha|].
  intros i k Hi Hk.
  destruct (Hdone i k Hi Hk)
    as (rows0 & cols0 & m0 & row & f1 & f2 & f3 & Hm0 & Hrow & Hf & Hs).
  rewrite Ha in Hm0. inversion Hm0; subst.
  exists row, f1, f2, f3. auto.
Qed.

End ApplierFeatureClaims.

(** Two rows of [3 * n] cells with the same blocks are equal. *)
Lemma rows_equal_by_blocks {A} (r1 r2 : list A) (n : nat) :
  length r1 = (3 * n)%nat -> length r2 = (3 * n)%nat ->
  (forall k, (k < n)%nat ->
             py_slice r1 (3 * Z.of_nat k) (3 * Z.of_nat k + 3)
             = py_slice r2 (3 * Z.of_nat k) (3 * Z.of_nat k + 3)) ->
  r1 = r2.
Proof.
  intros H1 H2 Hb. apply nth_error_ext. intros q.
  destruct (Nat.lt_ge_cases q (3 * n)) as [Hq|Hq].
  - assert (Hk : (q / 3 < n)%nat) by (apply Nat.Div0.div_lt_upper_bound; lia).
    specialize (Hb (q / 3)%nat Hk).
    rewrite !py_slice_exact in Hb by (unfold py_len; lia).
    apply (f_equal (fun l => nth_error l (q mod 3))) in Hb.
    pose proof (Nat.mod_upper_bound q 3 ltac:(lia)) as Hr.
    pose proof (Nat.div_mod_eq q 3) as Hdm.
    replace (Z.to_nat (3 * Z.of_nat (q / 3) + 3 - 3 * Z.of_nat (q / 3)))
      with 3%nat in Hb by lia.
    rewrite !nth_error_firstn in Hb.
    destruct (Nat.ltb_spec (q mod 3) 3); [|lia].
    rewrite !nth_error_skipn in Hb.
    replace (Z.to_nat (3 * Z.of_nat (q / 3)) + q mod 3)%nat with q in Hb
      by lia.
    exact Hb.
  - assert (E1 : nth_error r1 q = None) by (apply nth_error_None; lia).
    assert (E2 : nth_error r2 q = None) by (apply nth_error_None; lia).
    congruence.
Qed.

Section RowsAlone.

Context {K : Kernels}.

(** The features of a sample do not depend on the other samples of the
    tensor. *)
Lemma shapelet_features_alone (x : tensor3) (P : shapelets)
      (use_phase : bool) (i : nat) (xi : list (list F)) (k : Z) :
  nth_error (samples x) i = Some xi ->
  shapelet_features
    (mk_tensor3 1 (n_features_of x) (n_timestamps_of x) [xi]) P use_phase
    0 k
  = shapelet_features x P use_phase (Z.of_nat i) k.
Proof.
  intros Hxi. unfold shapelet_features.
  rewrite (py_index_nat _ _ _ Hxi). reflexivity.
Qed.

(** X14.  Each row of the feature matrix depends on its own series only:
    applying the shapelets to a batch, or to one of its series taken
    alone, gives this series the same row of features. *)
Theorem apply_row_alone (x : tensor3) (P : shapelets) (use_phase : bool)
        (i : nat) (xi : list (list F)) :
  znorm_keeps_length K ->
  rectangular x -> valid_shapelets x use_phase P ->
  nth_error (samples x) i = Some xi ->
  exists r h' m r1 h1' row,
    M_SL_apply_all_shapelets 0%nat demo_refs use_phase (store_of x P)
    = Ok (r, h') /\
    nth_error h' r
    = Some (Float2 (n_samples_of x) (3 * length (lengths P)) m) /\
    M_SL_apply_all_shapelets 0%nat demo_refs use_phase
      (store_of (mk_tensor3 1 (n_features_of x) (n_timestamps_of x) [xi]) P)
    = Ok (r1, h1') /\
    nth_error h1' r1 = Some (Float2 1 (3 * length (lengths P)) [row]) /\
    nth_error m i = Some row.
Proof.
  intros Hz Hrect Hvalid Hxi.
  set (x1 := mk_tensor3 1 (n_features_of x) (n_timestamps_of x) [xi]).
  assert (Hi : (i < n_samples_of x)%nat).
  { destruct Hrect as [Hns _]. rewrite <- Hns.
    apply nth_error_Some. congruence. }
  assert (Hrect1 : rectangular x1).
  { split; [reflexivity|]. constructor; [|constructor].
    destruct Hrect as [_ Hall]. rewrite Forall_forall in Hall.
    apply Hall. eapply nth_error_In; eauto. }
  assert (Hin : apply_input (store_of x P) 0%nat demo_refs use_phase x P).
  { repeat (split; [reflexivity|]). split; assumption. }
  assert (Hin1 : apply_input (store_of x1 P) 0%nat demo_refs use_phase x1 P).
  { repeat (split; [reflexivity|]). split; [exact Hrect1 | exact Hvalid]. }
  destruct (apply_features Hz _ _ _ _ _ _ Hin)
    as (r & h' & Hrun & -> & (_ & a & Ha & m & -> & Hrows & Hcols) & Hdone).
  destruct (apply_features Hz _ _ _ _ _ _ Hin1)
    as (r1 & h1' & Hrun1 & -> & (_ & b & Hb & m1 & -> & Hrows1 & Hcols1)
        & Hdone1).
  assert (Hc : Z.to_nat (3 * py_len (lengths P))
               = (3 * length (lengths P))%nat) by (unfold py_len; lia).
  rewrite Hc in *.
  destruct (nth_error m i) as [row|] eqn:Hrow;
    [|apply nth_error_None in Hrow; lia].
  destruct m1 as [|row1 [|row2 m1]]; try discriminate.
  assert (Hrl : length row = (3 * length (lengths P))%nat).
  { rewrite Forall_forall in Hcols. apply Hcols. eapply nth_error_In; eauto. }
  assert (Hrl1 : length row1 = (3 * length (lengths P))%nat)
    by now inversion Hcols1.
  assert (Heq : row1 = row).
  { apply (rows_equal_by_blocks _ _ _ Hrl1 Hrl). intros k Hk.
    destruct (Hdone i k Hi Hk)
      as (? & ? & m0 & row0 & f1 & f2 & f3 & Hm0 & Hrow0 & Hf & Hs).
    rewrite Ha in Hm0. inversion Hm0; subst.
    assert (row0 = row) by congruence. subst row0.
    destruct (Hdone1 0%nat k ltac:(cbn; lia) Hk)
      as (? & ? & m0' & row0' & g1 & g2 & g3 & Hm0' & Hrow0' & Hf' & Hs').
    rewrite Hb in Hm0'. inversion Hm0'; subst. cbn in Hrow0'.
    inversion Hrow0'; subst row0'.
    change (Z.of_nat 0) with 0 in Hf'.
    unfold x1 in Hf'. rewrite (shapelet_features_alone x P use_phase i xi)
      in Hf' by exact Hxi.
    rewrite Hf in Hf'. inversion Hf'; subst. congruence. }
  subst row1.
  exists (length (store_of x P)), h', m, (length (store_of x1 P)), h1', row.
  auto.
Qed.

End RowsAlone.

(** [where] lists every index once. *)
Lemma where_from_NoDup (i : Z) (mask : list bool) : NoDup (where_from i mask).
Proof.
  revert i. induction mask as [|b t IH]; intros i; cbn [where_from].
  - constructor.
  - destruct b; cbn [app]; [|apply IH].
    constructor; [|apply IH].
    intros H. apply where_from_In in H. lia.
Qed.

Lemma members_NoDup (ls ds : list Z) (p : Z * Z) : NoDup (members ls ds p).
Proof. apply where_from_NoDup. Qed.

(** The members of two different pairs are different shapelets. *)
Lemma members_disjoint (ls ds : list Z) (p q : Z * Z) (k : Z) :
  In k (members ls ds p) -> In k (members ls ds q) -> p = q.
Proof.
  intros Hp Hq. apply members_In in Hp, Hq.
  destruct Hp as (_ & Hp1 & Hp2), Hq as (_ & Hq1 & Hq2).
  destruct p, q. cbn [fst snd] in *. congruence.
Qed.

Lemma concat_members_NoDup (ls ds : list Z) (D : list (Z * Z)) :
  NoDup D -> NoDup (concat (map (members ls ds) D)).
Proof.
  induction 1 as [|p D Hp HD IH]; cbn [map concat]; [constructor|].
  apply NoDup_app; [apply members_NoDup | exact IH |].
  intros k Hk Hc. apply in_concat in Hc. destruct Hc as (v & Hv & Hkv).
  apply in_map_iff in Hv. destruct Hv as (q & <- & Hq).
  rewrite (members_disjoint ls ds p q k Hk Hkv) in Hp. contradiction.
Qed.

Lemma concat_length_Zsum {A} (L : list (list A)) :
  py_len (concat L) = Zsum (map (fun v => py_len v) L).
Proof.
  unfold Zsum, py_len. induction L as [|v L IH]; cbn [concat map fold_right].
  - reflexivity.
  - rewrite length_app. lia.
Qed.

Section GroupingAny.

Variables ls ds : list Z.
Variable D : list (Z * Z).
Hypothesis Hlen : length ds = length ls.
Hypothesis HD : NoDup D.

Local Abbreviation cnt := (fun p => py_len (members ls ds p)).

Lemma group_sizes_bounded_any (i : nat) :
  0 <= Zsum (map cnt (firstn i D)) <= py_len ls.
Proof.
  apply members_bounded; [exact Hlen|]. apply NoDup_firstn, HD.
Qed.

(** The grouping loop on any list of distinct pairs: it returns, lists the
    members of the pairs one after the other from the start of [idx_shp]
    and records their numbers. *)
Lemma group_shapelets_any :
  exists idx_shp nsp a3,
    group_shapelets ls ds D (repeat 0 (length ls))
      (repeat 0 (length D + 1)) = Ok (idx_shp, nsp, a3) /\
    length idx_shp = length ls /\
    nsp = 0 :: map cnt D /\
    a3 = Zsum (map cnt D) /\
    firstn (Z.to_nat a3) idx_shp = concat (map (members ls ds) D).
Proof.
  unfold group_shapelets. unfold py_len at 1.
  destruct (foldM_range
    (fun i '(idx, nsp, a3) =>
       length idx = length ls /\
       length nsp = (length D + 1)%nat /\
       firstn (Datatypes.S i) nsp = 0 :: map cnt (firstn i D) /\
       a3 = Zsum (map cnt (firstn i D)) /\
       firstn (Z.to_nat a3) idx
       = concat (map (members ls ds) (firstn i D)))
    (fun '(idx_shp, n_shp_params, a3) i =>
           '(_length, _dilation) <- py_index D i ;;
           both <- np_and (np_eq ls _length) (np_eq ds _dilation) ;;
           let ix_shapelets := np_where1 both in
           let b := a3 + py_len ix_shapelets in
           idx_shp <- py_set_slice idx_shp a3 b ix_shapelets ;;
           n_shp_params <-
             py_set_index n_shp_params (i + 1) (py_len ix_shapelets) ;;
           Ok (idx_shp, n_shp_params, b))
    (length D) (repeat 0 (length ls), repeat 0 (length D + 1), 0))
    as ([[idx nsp] a3] & Hf & Hi1 & Hi2 & Hi3 & Hi4 & Hi5).
  - rewrite !repeat_length. split; [reflexivity|]. split; [reflexivity|].
    split; [|split; reflexivity].
    rewrite Nat.add_1_r. reflexivity.
  - intros i [[idx nsp] a3] Hi (H1 & H2 & H3 & H4 & H5).
    destruct (nth_error D i) as [[l d]|] eqn:Hp;
      [|apply nth_error_None in Hp; lia].
    rewrite (py_index_nat _ _ _ Hp). cbn [bind].
    rewrite (np_and_pair ls ds l d Hlen). cbn [bind].
    change (np_where1 (map (pair_eqb (l, d)) (combine ls ds)))
      with (members ls ds (l, d)).
    pose proof (firstn_S_nth _ _ _ Hp) as HS.
    pose proof (group_sizes_bounded_any i) as Hb0.
    pose proof (group_sizes_bounded_any (Datatypes.S i)) as Hb1.
    assert (Hone : Zsum (map cnt [(l, d)]) = py_len (members ls ds (l, d)))
      by (unfold Zsum; cbn [map fold_right]; lia).
    rewrite HS, map_app, Zsum_app, Hone in Hb1.
    assert (Hc : 0 <= py_len (members ls ds (l, d)))
      by (unfold py_len; lia).
    rewrite py_set_slice_exact;
      [|lia| unfold py_len in *; lia | lia].
    cbn [bind].
    rewrite py_set_index_in_range by (unfold py_len; lia). cbn [bind].
    eexists. split; [reflexivity|]. cbn beta iota.
    split; [|split; [|split; [|split]]].
    + rewrite splice_length; unfold py_len in *; lia.
    + rewrite update_length; lia.
    + replace (Z.to_nat (Z.of_nat i + 1)) with (Datatypes.S i) by lia.
      rewrite firstn_app.
      rewrite firstn_firstn, Nat.min_r by lia.
      rewrite length_firstn, Nat.min_l by lia.
      replace (Datatypes.S (Datatypes.S i) - Datatypes.S i)%nat
        with 1%nat by lia.
      rewrite H3, HS, map_app. reflexivity.
    + rewrite HS, map_app, Zsum_app, Hone. lia.
    + rewrite HS, !map_app, concat_app. cbn [map concat].
      rewrite app_nil_r, <- H5.
      assert (Hl : length (firstn (Z.to_nat a3) idx) = Z.to_nat a3)
        by (rewrite length_firstn; unfold py_len in *; lia).
      rewrite app_assoc, firstn_app.
      rewrite length_app, Hl.
      replace (Z.to_nat (a3 + py_len (members ls ds (l, d)))
               - (Z.to_nat a3 + length (members ls ds (l, d))))%nat
        with 0%nat by (unfold py_len; lia).
      cbn [firstn]. rewrite app_nil_r.
      apply firstn_all2. rewrite length_app, Hl. unfold py_len. lia.
  - exists idx, nsp, a3. split; [exact Hf|]. split; [exact Hi1|].
    rewrite firstn_all in Hi3, Hi5. rewrite firstn_all in Hi4.
    split; [|split; [exact Hi4 | exact Hi5]].
    rewrite <- Hi3. symmetry. apply firstn_all2. lia.
Qed.

End GroupingAny.

(** X15.  The grouping loop of [apply] is a partition of the shapelets: for
    any list of distinct (length, dilation) pairs that holds the pair of
    every shapelet, the loop returns with [idx_shp] the members of the
    pairs one group after the other, a permutation of
    [0 .. n_shapelets - 1] (no shapelet is left out or served twice), the
    counter at [n_shapelets] and the group sizes in [n_shp_params]. *)
Theorem grouping_is_partition (ls ds : list Z) (D : list (Z * Z)) :
  length ds = length ls ->
  NoDup D ->
  (forall p, In p (combine ls ds) -> In p D) ->
  exists idx_shp n_shp_params a3,
    group_shapelets ls ds D (repeat 0 (length ls))
      (repeat 0 (length D + 1)) = Ok (idx_shp, n_shp_params, a3) /\
    idx_shp = concat (map (members ls ds) D) /\
    Permutation idx_shp (py_range (py_len ls)) /\
    a3 = py_len ls /\
    n_shp_params = 0 :: map (fun p => py_len (members ls ds p)) D.
Proof.
  intros Hlen HD Hcov.
  destruct (group_shapelets_any ls ds D Hlen HD)
    as (idx & nsp & a3 & Hrun & Hidx & Hnsp & Ha3 & Hfirst).
  assert (Hperm : Permutation (concat (map (members ls ds) D))
                              (py_range (py_len ls))).
  { apply NoDup_Permutation;
      [now apply concat_members_NoDup | apply py_range_NoDup |].
    intros k. rewrite range_In. split.
    - intros Hk. apply in_concat in Hk. destruct Hk as (v & Hv & Hkv).
      apply in_map_iff in Hv. destruct Hv as (q & <- & _).
      now apply members_In in Hkv.
    - intros Hk.
      destruct (nth_error ls (Z.to_nat k)) as [l|] eqn:Hl;
        [|apply nth_error_None in Hl; unfold py_len in Hk; lia].
      destruct (nth_error ds (Z.to_nat k)) as [d|] eqn:Hd;
        [|apply nth_error_None in Hd; unfold py_len in Hk; lia].
      apply in_concat. exists (members ls ds (l, d)). split.
      + apply in_map, Hcov.
        apply nth_error_In with (n := Z.to_nat k).
        apply (nth_error_combine_both _ _ _ _ _ Hl Hd).
      + rewrite <- (Z2Nat.id k) by lia. now apply members_complete. }
  assert (Hn : length (concat (map (members ls ds) D)) = length ls).
  { rewrite (Permutation_length Hperm), py_range_length.
    unfold py_len. lia. }
  assert (Hall : idx = concat (map (members ls ds) D)).
  { rewrite <- Hfirst. symmetry. apply firstn_all2.
    rewrite Hidx, <- Hn, Ha3.
    pose proof (concat_length_Zsum (map (members ls ds) D)) as Hs.
    rewrite map_map in Hs. rewrite <- Hs. unfold py_len. lia. }
  exists idx, nsp, a3. split; [exact Hrun|]. split; [exact Hall|].
  split; [now rewrite Hall|]. split; [|exact Hnsp].
  rewrite Ha3.
  pose proof (concat_length_Zsum (map (members ls ds) D)) as Hs.
  rewrite map_map in Hs. rewrite <- Hs. unfold py_len. lia.
Qed.

(** A loop that returns has run its body, without raising, on every
    element of its list, from a state that satisfies the invariant. *)
Lemma foldM_visit {S A} (I : S -> Prop) (body : S -> A -> result S)
      (xs : list A) (x : A) :
  (forall s a s', I s -> body s a = Ok s' -> I s') ->
  forall s s', foldM body xs s = Ok s' -> I s -> In x xs ->
               exists s1 s2, I s1 /\ body s1 x = Ok s2.
Proof.
  intros Hstep. induction xs as [|a xs IH]; intros s s' H Hs Hin.
  - destruct Hin.
  - cbn [foldM] in H. bind_inv H as s0 H0.
    destruct Hin as [->|Hin]; [now exists s, s0|].
    apply (IH s0 s'); eauto.
Qed.

(** An all-true mask with a row and a column has a candidate. *)
Lemma where2_ones_nonempty (w n : nat) :
  (1 <= w)%nat -> (1 <= n)%nat ->
  0 < py_len (fst (np_where2 (repeat (repeat true w) n))).
Proof.
  intros Hw Hn. destruct n as [|n]; [lia|]. destruct w as [|w]; [lia|].
  rewrite np_where2_fst. cbn [repeat where2_from].
  unfold np_where1 at 1. cbn [where_from app map].
  unfold py_len. cbn [length]. lia.
Qed.

Section WideShapelet.

Context {K : Kernels}.

Variable X : tensor3.
Variable P : shapelets.
Variables a1 a2 : list Z.
Variable alpha : Q.
Variable use_phase : bool.
Variable n_dil : nat.

Local Abbreviation fresh :=
  (np_ones5 2 n_dil (n_samples_of X) (n_features_of X) (n_timestamps_of X)).

Lemma shapelet_step_keeps_mask (i_d i_shp : Z) (st st' : gen_state) :
  st_mask_sampling st = fresh ->
  shapelet_step X P a1 a2 alpha use_phase i_d st i_shp = Ok st' ->
  st_mask_sampling st' = fresh.
Proof.
  intros Hm H. apply shapelet_step_cases in H.
  destruct H as [->|H]; [exact Hm|].
  destruct H as (d & l & nrm & c & mn & md & s & g & p & g1 & chans & vs
                 & lo1 & hi1 & lo2 & hi2 & H).
  decompose [and] H. congruence.
Qed.

Lemma dilation_step_keeps_mask (unique_dil : list Z) (i_d : Z)
      (st st' : gen_state) :
  st_mask_sampling st = fresh ->
  dilation_step X P a1 a2 alpha use_phase unique_dil st i_d = Ok st' ->
  st_mask_sampling st' = fresh.
Proof.
  intros Hm H. unfold dilation_step in H. bind_inv H as u Hu.
  revert H. apply (foldM_invariant (fun s => st_mask_sampling s = fresh));
    [|exact Hm].
  intros s x s' _. apply shapelet_step_keeps_mask.
Qed.

(** A shapelet with a candidate and with more channels than the series
    has: its step raises. *)
Lemma wide_step_raises (i_d : Z) (i : nat) (l d c : Z) (nrm : bool)
      (st st' : gen_state) :
  st_mask_sampling st = fresh ->
  nth_error (lengths P) i = Some l ->
  nth_error (dilations P) i = Some d ->
  nth_error (normalize P) i = Some nrm ->
  nth_error (n_channels P) i = Some c ->
  (1 <= n_samples_of X)%nat ->
  (1 <= n_timestamps_of X)%nat ->
  1 <= d_shape_of X use_phase l d ->
  Z.of_nat (n_features_of X) < c ->
  Qle_bool (inject_Z c * alpha) (inject_Z (Z.of_nat (n_features_of X)))
  = true ->
  shapelet_step X P a1 a2 alpha use_phase i_d st (Z.of_nat i) = Ok st' ->
  False.
Proof.
  intros Hm Hl Hd Hn Hc Hns HT Hshape Hwide Hthr H.
  unfold shapelet_step in H.
  rewrite (py_index_nat _ _ _ Hd), (py_index_nat _ _ _ Hl),
    (py_index_nat _ _ _ Hn), (py_index_nat _ _ _ Hc) in H.
  cbn [bind] in H. rewrite Hm in H.
  bind_inv H as mn Hmn. unfold np_ones5 in Hmn.
  apply ones_index in Hmn. subst mn.
  bind_inv H as md Hmd. apply ones_index in Hmd. subst md.
  rewrite admissible_ones, Hthr in H.
  assert (Hw : (1 <= Z.to_nat (py_clip (Z.of_nat (n_timestamps_of X))
                                 (d_shape_of X use_phase l d)))%nat).
  { unfold py_clip. destruct (Z.ltb_spec (d_shape_of X use_phase l d) 0); lia. }
  pose proof (where2_ones_nonempty _ _ Hw Hns) as Hne.
  apply Z.ltb_lt in Hne. rewrite Hne in H.
  bind_inv H as [id_sample g] Hs.
  bind_inv H as ids Hids.
  bind_inv H as [start_position g1] Hp.
  bind_inv H as sps Hsps.
  bind_inv H as vs Hvs.
  unfold choice_no_replace in H.
  unfold py_len at 1 in H. rewrite py_range_length, Nat2Z.id in H.
  destruct (Z.ltb_spec (Z.of_nat (n_features_of X)) c) as [_|]; [|lia].
  rewrite orb_true_r in H. discriminate.
Qed.

End WideShapelet.

Section WideShapeletClaim.

Context {K : Kernels}.

(** X16.  [generate] raises, instead of returning, whenever the sampler
    gives some shapelet more channels than the series has while the
    shapelet has a candidate position (a sample, a start position, and
    [n_channels * alpha <= n_features]): the channels cannot be drawn
    without replacement. *)
Theorem generate_raises_on_wide_shapelet (g0 : rng) (X : tensor3)
        (y : list Z) (n_shapelets : Z) (shapelet_sizes : list Z)
        (r_seed : Z) (p_norm p_min p_max alpha : Q) (use_phase : bool)
        (max_channels : Z) (prime_scheme : bool)
        (P : shapelets) (g1 : rng) (i : nat) (l d c : Z) :
  M_SL_init_random_shapelet_params n_shapelets shapelet_sizes
    (Z.of_nat (n_timestamps_of X)) p_norm max_channels prime_scheme
    (seed r_seed) = Ok (P, g1) ->
  nth_error (lengths P) i = Some l ->
  nth_error (dilations P) i = Some d ->
  nth_error (n_channels P) i = Some c ->
  (1 <= n_samples_of X)%nat ->
  (1 <= n_timestamps_of X)%nat ->
  1 <= d_shape_of X use_phase l d ->
  Z.of_nat (n_features_of X) < c ->
  Qle_bool (inject_Z c * alpha) (inject_Z (Z.of_nat (n_features_of X)))
  = true ->
  exists e,
    M_SL_generate_shapelet g0 X y n_shapelets shapelet_sizes r_seed p_norm
      p_min p_max alpha use_phase max_channels prime_scheme = Raise e.
Proof.
  intros Hs Hl Hd Hc Hns HT Hshape Hwide Hthr.
  destruct (M_SL_generate_shapelet g0 X y n_shapelets shapelet_sizes r_seed
              p_norm p_min p_max alpha use_phase max_channels prime_scheme)
    as [[[[S ids] starts] g']|e] eqn:E; [exfalso | now exists e].
  unfold M_SL_generate_shapelet in E. bind_inv E as [P' st] Hrun.
  destruct (generate_run_inv _ _ _ _ _ _ _ _ _ _ _ _ _ _ Hrun)
    as (g1' & a1 & Hs' & Ha1 & Hloop).
  rewrite Hs in Hs'. inversion Hs'; subst P' g1'. clear Hs'.
  pose proof (sampler_shape _ _ _ _ _ _ _ _ _ Hs)
    as (_ & Hll & _ & _ & Hln & _).
  destruct (nth_error (normalize P) i) as [nrm|] eqn:Hn.
  2:{ apply nth_error_None in Hn.
      assert (i < length (lengths P))%nat
        by (apply nth_error_Some; congruence).
      lia. }
  assert (Hin : In d (np_unique (dilations P))).
  { apply np_unique_In. eapply nth_error_In; eauto. }
  apply In_nth_error in Hin. destruct Hin as [i_d Hid].
  assert (Hlt : (i_d < length (np_unique (dilations P)))%nat)
    by (apply nth_error_Some; congruence).
  set (fresh := np_ones5 2 (length (np_unique (dilations P)))
                  (n_samples_of X) (n_features_of X) (n_timestamps_of X)).
  destruct (foldM_visit (fun s => st_mask_sampling s = fresh) _ _
              (Z.of_nat i_d)
              (fun s a s' => dilation_step_keeps_mask X P a1
                               (channel_offsets (n_channels P)) alpha
                               use_phase _ (np_unique (dilations P)) a s s')
              _ _ Hloop eq_refl)
    as (s1 & s2 & Hm1 & Hstep).
  { apply range_In. unfold py_len. lia. }
  unfold dilation_step in Hstep.
  rewrite (py_index_nat _ _ _ Hid) in Hstep. cbn [bind] in Hstep.
  destruct (foldM_visit (fun s => st_mask_sampling s = fresh) _ _
              (Z.of_nat i)
              (fun s a s' => shapelet_step_keeps_mask X P a1
                               (channel_offsets (n_channels P)) alpha
                               use_phase _ (Z.of_nat i_d) a s s')
              _ _ Hstep Hm1)
    as (s3 & s4 & Hm3 & Hshp).
  { apply np_eq_where_In. split; [lia|]. now rewrite Nat2Z.id. }
  exact (wide_step_raises X P a1 (channel_offsets (n_channels P)) alpha
           use_phase _ (Z.of_nat i_d) i l d c nrm s3 s4 Hm3 Hl Hd Hn Hc Hns
           HT Hshape Hwide Hthr Hshp).
Qed.

End WideShapeletClaim.

Lemma apply_computes_features_witness :
  exists r h' m,
    M_SL_apply_all_shapelets (K := demo) 0%nat demo_refs false
      (store_of demo_X demo_S_norm) = Ok (r, h') /\
    nth_error h' r
    = Some (Float2 (n_samples_of demo_X)
              (3 * length (lengths demo_S_norm)) m) /\
    forall i k,
      (i < n_samples_of demo_X)%nat ->
      (k < length (lengths demo_S_norm))%nat ->
      exists row f1 f2 f3,
        nth_error m i = Some row /\
        shapelet_features demo_X demo_S_norm false (Z.of_nat i) (Z.of_nat k)
        = Ok (f1, f2, f3) /\
        py_slice row (3 * Z.of_nat k) (3 * Z.of_nat k + 3) = [f1; f2; f3].
Proof.
  exact (apply_computes_features (K := demo)
           (store_of demo_X demo_S_norm) 0%nat demo_refs false demo_X
           demo_S_norm demo_znorm_keeps_length demo_apply_input).
Defined.

Lemma apply_row_alone_witness :
  exists r h' m r1 h1' row,
    M_SL_apply_all_shapelets (K := demo) 0%nat demo_refs false
      (store_of demo_X demo_S_norm) = Ok (r, h') /\
    nth_error h' r
    = Some (Float2 (n_samples_of demo_X)
              (3 * length (lengths demo_S_norm)) m) /\
    M_SL_apply_all_shapelets (K := demo) 0%nat demo_refs false
      (store_of
         (mk_tensor3 (K := demo) 1 (n_features_of demo_X)
            (n_timestamps_of demo_X)
            [[[11; 12; 13; 14; 15; 16; 17];
              [16; 17; 18; 19; 20; 21; 22]]%Q])
         demo_S_norm)
    = Ok (r1, h1') /\
    nth_error h1' r1
    = Some (Float2 1 (3 * length (lengths demo_S_norm)) [row]) /\
    nth_error m 1 = Some row.
Proof.
  apply (apply_row_alone (K := demo) demo_X demo_S_norm false 1%nat
           [[11; 12; 13; 14; 15; 16; 17]; [16; 17; 18; 19; 20; 21; 22]]%Q).
  - exact demo_znorm_keeps_length.
  - exact demo_rectangular.
  - apply demo_valid_shapelets; reflexivity.
  - reflexivity.
Defined.

Lemma grouping_is_partition_witness :
  exists idx_shp n_shp_params a3,
    group_shapelets [2; 3; 2; 3] [1; 2; 1; 1] [(3, 1); (2, 1); (3, 2)]
      (repeat 0 4) (repeat 0 (3 + 1)) = Ok (idx_shp, n_shp_params, a3) /\
    idx_shp
    = concat (map (members [2; 3; 2; 3] [1; 2; 1; 1])
                [(3, 1); (2, 1); (3, 2)]) /\
    Permutation idx_shp (py_range (py_len [2; 3; 2; 3])) /\
    a3 = py_len [2; 3; 2; 3] /\
    n_shp_params
    = 0 :: map (fun p => py_len (members [2; 3; 2; 3] [1; 2; 1; 1] p))
             [(3, 1); (2, 1); (3, 2)].
Proof.
  apply (grouping_is_partition [2; 3; 2; 3] [1; 2; 1; 1]
           [(3, 1); (2, 1); (3, 2)]).
  - reflexivity.
  - repeat constructor; cbn; intuition discriminate.
  - cbn. intros p H. intuition.
Defined.

Lemma generate_raises_on_wide_shapelet_witness :
  exists e,
    M_SL_generate_shapelet (K := demo) [] demo_X [0; 1] 3 [2; 3; 4] 1 0%Q
      0%Q 100%Q (1 # 2)%Q false 3 false = Raise e.
Proof.
  apply (generate_raises_on_wide_shapelet (K := demo) [] demo_X [0; 1] 3
           [2; 3; 4] 1 0%Q 0%Q 100%Q (1 # 2)%Q false 3 false
           (mk_shapelets (K := demo) (repeat 0%Q 20) [2; 3; 4] [1; 2; 1]
              [0; 0; 0]%Q [false; false; false] [3; 2; 2] (repeat 0 7))
           [8; 2; 1; 5; 1; 5; 1; 1; 1; 0; 0]%N 0%nat 2 1 3).
  - reflexivity.
  - reflexivity.
  - reflexivity.
  - reflexivity.
  - cbn; lia.
  - cbn; lia.
  - vm_compute; discriminate.
  - cbn; lia.
  - reflexivity.
Defined.
